(* ===== verification/_CoqProject ===== *)
-Q . S2P
Prelude.v
GoStrings.v
GoValue.v
Libs.v
Utf8.v
Decimal.v
JsonText.v
JsonCodec.v
Clock.v
Regex.v
NetURL.v
Config.v
Topic.v
Validate.v
Broker.v
Rabbit.v
Consumers.v
Ring.v
SpyServer.v
SpyHttp.v
Matcher.v
Rewrite.v
Template.v
Render.v
GoTemplate.v
Friendly.v
MapOrder.v
Engine.v
EngineSystem.v
Progress.v
EngineSpy.v
Logger.v
Main.v
CommandLine.v
Reloading.v
Process.v
Served.v
Shutdown.v
Waiting.v
