(* ===== verification/Prelude.v ===== *)
(** * chitchat: a verification development

    chitchat is a declarative mock and spy for RabbitMQ.  It reads a YAML file of
    rules, declares the topology the file asks for, consumes the queues the rules
    name, answers a message that matches a rule with a templated response, records
    all traffic in a bounded buffer, and serves that buffer over HTTP.  This
    library models the program and proves what makes each part correct.

    ** The parts and how they interact

    - [Config] (pkg/config/config.go): the configuration records, the defaults,
      ParseConfig, LoadConfig and ApplyOverrides.
    - [Topic] and [Validate] (pkg/config/validate.go): AMQP topic matching, the
      prediction of feedback routes, Validate and Warnings.
    - [Broker] (pkg/broker/driver.go, mock_driver.go): messages; the class [Driver]
      of the five driver operations on a driver state; the class [DriverSpec] of
      what clients rely on (a log of published messages that only a successful
      Publish extends, and a Close that can be repeated); the mock driver as an
      instance of both.
    - [Rabbit] (pkg/broker/rabbitmq.go): the RabbitMQ driver over the client
      library, an instance of the same two classes when the library keeps its own
      promise [AmqpSpec]; SanitizeURL; the consumer goroutine as a step relation.
    - [Consumers] (the same file): the driver with all its consumers and a Close in
      progress, as one step relation.
    - [Ring] (pkg/spy/server.go, up to Count): filters and the ring buffer with its
      sequence numbers and its change channel.
    - [SpyServer] (pkg/spy/server.go, from parseFilter on): query parameters, the
      waiting request as a step relation against a changing buffer, and the
      handlers, whose answers are values.
    - [SpyHttp] (pkg/spy/server.go, the Server): the JSON of the answers, the
      server with its hooks, Start and Stop, and the dispatch of requests.  What
      the server shares with the rest of the process is a world with a buffer in
      it, the class [SharedBuffer].
    - [Matcher] (pkg/engine/matcher.go): comparing JSON and YAML values, MatchesRule.
    - [Rewrite] (pkg/engine/template.go, up to rewriteCode): the rewriting of the
      friendly template syntax.
    - [Template] (pkg/engine/template.go): the leaves that are one json call, the
      traversal of payloads, RenderPayload, ValidateTemplates.
    - [Render] (pkg/engine/template.go): the helper functions, and what rendering
      means to the reader of a response, with the concrete JSON codec.
    - [GoTemplate]: text/template on templates without control structures, an
      instance of the class [Template] is written against; [Friendly]: the reference
      syntax of the README, from the text in the file to what is printed; [MapOrder]:
      the order in which Go visits a map does not show in the response.
    - [Engine] (pkg/engine/engine.go): the Engine struct as a record and its methods
      as functions, against [Driver] and the class [SpyRecorder], whose instances
      are the ring buffer and a recorder that keeps everything.
    - [EngineSystem] (pkg/engine/engine.go): the same engine as a small-step system:
      processLoop, the dispatch goroutines, the callers of Start, Reload and Stop,
      the driver's deliveries and the clock.
    - [Progress]: every schedule of the engine's goroutines ends, and where.
    - [EngineSpy]: the engine only writes to its recorder, so that its runs over one
      recorder embed into its runs over another.
    - [Logger] (pkg/logger/logger.go): the logger that InitLogger makes and installs.
    - [Main] (cmd/chitchat/main.go): the build information and the commands,
      loadConfig, checkConfig, validate, hot reload and the startup sequence, with
      what they log.
    - [CommandLine] (cmd/chitchat/main.go, func main): the declared commands and
      flags, and main from the arguments to the exit status.
    - [Reloading] (cmd/chitchat/main.go, the hooks of runChitchat): what the hooks
      share, and a reload as it runs, one step per reading of the file and per call
      of the driver.
    - [Process] (cmd/chitchat/main.go, runChitchat from the hooks on): the whole
      running process as a step relation over [EngineSystem], [Reloading] and the
      server of [SpyHttp]: the engine's goroutines, requests, reloads of a changing
      file, signals, the shutdown and the forced exit.
    - [Served]: what the process answers on the messages endpoint; [Shutdown]: how it
      comes to its exit when nothing happens outside any more.
    - [Waiting] (pkg/spy/server.go, handleMessages): a client that waits for
      messages, beside the running process.

    [Prelude], [GoStrings], [GoValue], [Libs], [Regex] and [NetURL] hold what the
    parts share: results and state, 64-bit integers, the functions of Go's strings
    and strconv that the program calls, dynamic values with their printing and deep
    equality, JSON and JSON paths, regular expressions, URLs.  [Utf8], [Decimal],
    [JsonText], [JsonCodec] and [Clock] are the parts of Go's standard library
    whose behaviour reaches the users: UTF-8, the reading and the shortest writing
    of doubles, encoding/json on dynamic values, durations and RFC 3339 times.

    ** How code becomes definitions

    A function with results (T, error) returns [result string T]; an error alone is
    an [option string] whose [None] is nil; error texts are the ones the code
    builds.  Methods that change a struct take its record and return the new one.
    Rule states are shared by pointer between the engine and the snapshots taken by
    handleMessage: they are cells of an append-only store, and a pointer is an
    index.  Go channels that carry only a close are numbers in the order they are
    made.  int and int64 arithmetic that can wrap is written with [i64], the
    sequence counter with [u64]; other integers are Z with the bounds the code
    checks.  A Go map that is only looked up is a [gmap]; one that is iterated with
    visible effect is a list of entries in the order of the iteration, about which
    nothing is assumed.

    Concurrency is made of step relations whose steps are the code's critical
    sections, channel operations and library calls: [wait_step] (waitForMessages),
    [consumer_step] (a RabbitMQ consumer), [rabbit_step] (the driver with its
    consumers) and [worker_step] (the processing loop and the dispatches) and
    [env_step] (everything else) of [EngineSystem].  A select is a choice between
    the cases that are ready.  Start and Reload hold the engine's mutex throughout,
    which keeps Stop and each other out; they take a step for each call of the driver
    and one for what they change at the end, and everything else may happen in
    between.  Stop is three steps (marking and cancelling, the end of its wait,
    closing).  [Start_runs], [Reload_runs] and [loop_runs_handleMessage] show that the
    steps compute the methods of [Engine] when nothing interferes, and [Close_runs]
    that those of [Consumers] compute the driver's Close, which the engine's Stop
    calls.  [action] of [Process] puts all together, labelled with who acts: the
    process, a client with its request, or the world outside.  There a request that
    is answered at once is one step.  A reload is many: it waits for its turn, reads
    the file twice, which may have changed in between, and goes through the engine's
    Reload, while messages, other requests, the receipt of a signal and the shutdown
    come in between.  A request that waits only reads;
    [waiting_step] of [Waiting] puts it beside the process.

    Loops over lists are structural.  Fuel is used in rewriteAction and in
    preprocessTemplate, where a round consumes at least one byte and the fuel is
    one more than the length; C31 and C32 show that it never runs out, by giving
    the results without fuel.  ParseDuration has the same kind of fuel
    ([duration_parts_fuel]), and the JSON parser the decoder's own limit of 10000
    levels, within which it is complete ([parse_json_print]).  The lexer and the
    parser of [GoTemplate] take one more than the length as well ([lexes_action],
    [parse_parts]).

    ** Parameters

    Code that is not in the repository is a class: the YAML decoder ([Yaml]), the
    file system ([Files]), the grammar of URLs ([NetURL]), JSON paths ([Gjson]), the
    template engine ([TextTemplate]), the AMQP library ([Amqp]), how values of
    other Go types encode themselves ([JsonTypes]), case folding outside ASCII
    ([Unicode]), listening ([Net]), the splitting of the command line ([Cobra]).
    JSON ([Json]), durations ([GoTime]) and the printing of floats ([GoFmt]) are
    classes as well, so that what does not depend on them is proved for every
    behaviour, and have the concrete instances
    [go_json], [go_time] and [go_fmt].  The template engine has the instance
    [go_template], which leaves what it does not know to another engine, and the
    members of values of other types and the places in error texts to
    [TemplateTypes].  Where a theorem needs a law it is a
    hypothesis or a class of its own, such as [DriverSpec].

    ** What the theorems show

    - The running engine: chitchat never feeds on its own messages (C1), what
      handling a message does (C2), accounting and shutdown (C3, C4), agreement of
      the spy's records with what was published (C5), no response before its delay
      and none that gets stuck (C40).  Not numbered: the steps of the loop compute
      handleMessage ([loop_runs_handleMessage]).
    - The process: it refines the running engine, with the ring buffer that records
      and clears made (C7), so that a client of the messages endpoint reads what
      was published and handled since the last request that cleared it (C8); how it
      exits (C9), and that it does after a signal (C10); a hot reload as a
      client sees it, whatever happens while it runs (C11); what a waiting client is
      answered (C12); startup (C36).
    - The spy: the buffer refines an unbounded log (C6), cursors and queries are
      exact (C13, C14), waiting requests miss no wake-up (C15), what requests can do
      (C22), what a client decodes (C21) and when it gets nothing (C38).
    - Templates: rendering on every branch (C17), for the reader of the response
      (C18) and by the types of payloads (C19); templates of the friendly syntax mean
      what they say (C16), the json helper hands on what it is given (C33), and the
      order of map iteration does not show (C20); what validation checks (C23), the
      rewriting (C31, C32).
    - Configuration: Validate (C24), topics and feedback (C25, C26, C27).  What a
      headers exchange makes of a message is an argument of the last two.
    - Engine methods: matching (C28, C39), Reload (C29), dispatch (C30), and the
      window of a reload in which messages are lost (C37); not numbered: Start
      ([Start_correct]).
    - The RabbitMQ driver: the driver with its consumers and its Close (C34), the
      topology (C35).
    - The command, not numbered: what the validate command promises about startup
      ([validate_predicts_startup]), the exit status ([main_correct]), flags over
      files ([flags_override]), what the logger lets through ([level_writes]).

    ** Not modelled

    The text of log records (which are given to the logger is modelled for the
    command, and which it lets through), serving HTTP connections, splitting the
    command line, and templates with control structures, variables or builtin
    functions, which stay behind the two operations of the engine.  The friendly
    syntax has no string literals: no helper function has a use for one.  A signal
    that arrives before the two channels are registered, which ends the process at
    once, and the requests that are still running while the server shuts down are
    left out.  That Go's runtime runs a ready goroutine eventually is not assumed:
    liveness is stated as termination of all schedules (C4, C10, C34, C40) or as the
    existence of a way to go on (C12).

    Of the repository's Go code nothing else is left but declarations without
    behaviour (imports, package clauses, type names).  The web site, the examples
    and the scripts hold no program logic. *)
From stdpp Require Export base tactics option list list_numbers numbers gmap strings pretty sorting.
From Stdlib Require Export Ascii.
From Stdlib Require Import Lia.

#[export] Set Warnings "-clear-no-such-hyp,-register-all".

(** ** Fallible computations

    A Go function with results [(T, error)] is translated to a function into
    [result string T]; an [error] alone is an [option string] whose [None] is
    Go's [nil].  Error texts are the texts the code builds. *)

Inductive result (E A : Type) : Type :=
| Ok (a : A)
| Err (e : E).
Arguments Ok {E A} a.
Arguments Err {E A} e.

#[export] Instance result_ret E : MRet (result E) := λ A a, Ok a.
#[export] Instance result_bind E : MBind (result E) := λ A B f m,
  match m with Ok a => f a | Err e => Err e end.
#[export] Instance result_fmap E : FMap (result E) := λ A B f m,
  match m with Ok a => Ok (f a) | Err e => Err e end.

(** Wrapping an error, as [fmt.Errorf("...: %w", err)] does. *)
Definition wrap_err {A} (prefix : string) (m : result string A) : result string A :=
  match m with Ok a => Ok a | Err e => Err (prefix +:+ e) end.

(** ** State and error together

    Code that threads a state and may stop with an error. *)

Definition stateR (S E A : Type) : Type := S → result E A * S.

#[export] Instance stateR_ret S E : MRet (stateR S E) := λ A a s, (Ok a, s).
#[export] Instance stateR_bind S E : MBind (stateR S E) := λ A B f m s,
  match m s with
  | (Ok a, s') => f a s'
  | (Err e, s') => (Err e, s')
  end.

Definition liftR {S E A} (r : result E A) : stateR S E A := λ s, (r, s).
Definition failR {S E A} (e : E) : stateR S E A := λ s, (Err e, s).

(** ** Machine integers *)

Definition u64 (z : Z) : Z := (z `mod` 2 ^ 64)%Z.
Definition int64_ok (z : Z) : bool := bool_decide (- 2 ^ 63 ≤ z ∧ z ≤ 2 ^ 63 - 1)%Z.
(** Two's complement wrap-around of a signed 64-bit operation. *)
Definition i64 (z : Z) : Z := ((z + 2 ^ 63) `mod` 2 ^ 64 - 2 ^ 63)%Z.

Lemma u64_small z : (0 ≤ z < 2 ^ 64)%Z → u64 z = z.
Proof. apply Z.mod_small. Qed.

Lemma i64_small z : (- 2 ^ 63 ≤ z < 2 ^ 63)%Z → i64 z = z.
Proof. intros. unfold i64. rewrite Z.mod_small; lia. Qed.

(** ** Slices

    [slice_from i l] is Go's [l[i:]] for an index in range. *)

Definition slice_from {A} (i : Z) (l : list A) : list A := drop (Z.to_nat i) l.
Definition len {A} (l : list A) : Z := Z.of_nat (length l).

(** The last [n] elements. *)
Definition last_n {A} (n : nat) (l : list A) : list A := drop (length l - n) l.

Section last_n.
Context {A : Type}.
Implicit Types (l : list A) (n : nat).

Lemma last_n_all n l : length l ≤ n → last_n n l = l.
Proof. intros. unfold last_n. by replace (length l - n) with 0 by lia. Qed.

Lemma length_last_n n l : length (last_n n l) = n `min` length l.
Proof. unfold last_n. rewrite length_drop. lia. Qed.

Lemma last_n_suffix n l : last_n n l `suffix_of` l.
Proof. exists (take (length l - n) l). unfold last_n. by rewrite take_drop. Qed.

Lemma last_n_app n l k :
  last_n n (l ++ k) = last_n (n - length k) l ++ last_n n k.
Proof.
  unfold last_n. rewrite length_app, drop_app. f_equal; [|f_equal; lia].
  destruct (decide (n < length k)).
  - rewrite !drop_ge by lia. done.
  - f_equal. lia.
Qed.

(** Trimming to a window, then appending and trimming again, is trimming
    once: what makes a sliding window a function of the whole history. *)
Lemma last_n_absorb n l k : last_n n (last_n n l ++ k) = last_n n (l ++ k).
Proof.
  destruct (decide (length l ≤ n)) as [Hle|Hgt].
  - by rewrite (last_n_all n l).
  - rewrite !last_n_app. f_equal. unfold last_n.
    rewrite drop_drop, length_drop. f_equal. lia.
Qed.

Lemma slice_from_last_n n l :
  n ≤ length l → slice_from (len l - Z.of_nat n) l = last_n n l.
Proof. intros. unfold slice_from, last_n, len. f_equal. lia. Qed.

Lemma elem_of_last_n x n l : x ∈ last_n n l → x ∈ l.
Proof. destruct (last_n_suffix n l) as [k Hk]. rewrite Hk at 2. set_solver. Qed.
End last_n.

(** ** Filtered lists *)

Section filter_facts.
Context {A : Type} (P Q : A → Prop) `{∀ x, Decision (P x), ∀ x, Decision (Q x)}.
Implicit Types l : list A.

Lemma filter_agree l : (∀ x, x ∈ l → P x ↔ Q x) → filter P l = filter Q l.
Proof.
  induction l as [|x l IH]; intros Hpq; [done|].
  assert (P x ↔ Q x) by (apply Hpq; by left).
  assert (filter P l = filter Q l) as IH' by (apply IH; intros; apply Hpq; by right).
  destruct (decide (P x)).
  - rewrite !filter_cons_True by tauto. by rewrite IH'.
  - rewrite !filter_cons_False by tauto. done.
Qed.

Lemma filter_none l : (∀ x, x ∈ l → ¬ P x) → filter P l = [].
Proof.
  induction l as [|x l IH]; intros Hp; [done|].
  rewrite filter_cons_False by (apply Hp; by left). apply IH. intros. apply Hp. by right.
Qed.
End filter_facts.

(** ** Indexed traversal

    [imap]-style loops [for i, x := range l] that append to a list. *)

Definition concat_imap {A B} (f : nat → A → list B) (l : list A) : list B :=
  mjoin (imap f l).

Lemma elem_of_concat_imap {A B} (f : nat → A → list B) l (y : B) :
  y ∈ concat_imap f l ↔ ∃ i x, l !! i = Some x ∧ y ∈ f i x.
Proof.
  unfold concat_imap. rewrite list_elem_of_join. split.
  - intros (ys & Hy & Hys). apply elem_of_lookup_imap in Hys as (i & x & -> & Hl). eauto.
  - intros (i & x & Hl & Hy). exists (f i x). split; [done|].
    apply elem_of_lookup_imap. eauto.
Qed.

Lemma concat_imap_nil {A B} (f : nat → A → list B) l :
  concat_imap f l = [] ↔ ∀ i x, l !! i = Some x → f i x = [].
Proof.
  split.
  - intros H i x Hl. apply elem_of_nil_inv. intros y Hy.
    assert (y ∈ concat_imap f l) as Hin by (apply elem_of_concat_imap; eauto).
    rewrite H in Hin. set_solver.
  - intros H. apply elem_of_nil_inv. intros y (i & x & Hl & Hy)%elem_of_concat_imap.
    rewrite (H i x Hl) in Hy. set_solver.
Qed.

(** ** Duplicate detection

    A loop that keeps the set of the names seen so far accepts a list exactly
    when its names are distinct and none was seen before. *)

Definition fresh_names {A} (f : A → string) (seen : gset string) (l : list A) : Prop :=
  NoDup (f <$> l) ∧ ∀ x, x ∈ l → f x ∉ seen.

Lemma fresh_names_nil {A} (f : A → string) seen : fresh_names f seen [] ↔ True.
Proof. split; [done|]. split; [constructor|set_solver]. Qed.

Lemma fresh_names_cons {A} (f : A → string) seen x l :
  fresh_names f seen (x :: l) ↔ (f x ∉ seen) ∧ fresh_names f ({[f x]} ∪ seen) l.
Proof.
  unfold fresh_names. rewrite fmap_cons, NoDup_cons. split.
  - intros [[Hx Hnd] Hs]. split; [apply Hs; by left|]. split; [done|].
    intros y Hy. rewrite elem_of_union, elem_of_singleton. intros [Heq|Hsn].
    + destruct Hx. rewrite <- Heq. by apply list_elem_of_fmap_2.
    + by destruct (Hs y); [right|].
  - intros (Hx & Hnd & Hs). split; [split; [|done]|].
    + intros (y & Heq & Hy)%list_elem_of_fmap. destruct (Hs y Hy). set_solver.
    + intros y [->|Hy]%elem_of_cons; [done|]. specialize (Hs y Hy). set_solver.
Qed.

Lemma fresh_names_empty {A} (f : A → string) l : fresh_names f ∅ l ↔ NoDup (f <$> l).
Proof. unfold fresh_names. set_solver. Qed.

(** ** Termination

    A step that makes a measure smaller, or keeps it and is one of another relation. *)
Lemma sn_measured {A} (R R' : relation A) (m : A → nat) :
  (∀ x y, R x y → m y < m x ∨ m y = m x ∧ R' x y) → (∀ x, sn R' x) → ∀ x, sn R x.
Proof.
  intros Hdec Hsn x. remember (m x) as n eqn:Hn. revert x Hn.
  induction (lt_wf n) as [n _ IHn]. intros x. induction (Hsn x) as [x _ IHx]. intros ->.
  constructor. intros y Hy. destruct (Hdec x y Hy) as [Hlt|[Heq HR]]; [by eapply IHn|].
  by apply IHx.
Qed.

Lemma sn_decreasing {A} (R : relation A) (m : A → nat) :
  (∀ x y, R x y → m y < m x) → ∀ x, sn R x.
Proof.
  intros Hdec. apply (sn_measured R (λ _ _, False) m); [auto|]. by constructor.
Qed.

(** ** Early returns

    A guard [if P { return false }]. *)
Lemma guard_true (P : Prop) `{Decision P} (b : bool) :
  (if bool_decide P then false else b) = true ↔ ¬ P ∧ b = true.
Proof. case_bool_decide; naive_solver. Qed.

(** ** Tactics *)

(** Division and remainder by constants, for [lia]. *)
Ltac nlia := zify; Z.to_euclidean_division_equations; lia.

(** Case analysis on every [bool_decide], [decide] and [if] in sight. *)
Ltac case_bools :=
  repeat (case_bool_decide || case_decide || case_match); simplify_eq.
