(* ===== verification/GoStrings.v ===== *)
(** * Go strings

    The string functions of Go's standard library that chitchat uses, on byte
    strings ([string], a list of bytes).  Go strings are byte sequences that
    usually hold UTF-8, so the functions that look at runes ([ToLower],
    [EqualFold], [Quote]) are given exactly on ASCII strings; their behaviour on
    strings with other bytes is the class [Unicode], which no definition of the
    development fixes. *)
From S2P Require Import Prelude.

(** ** Bytes *)

Definition byte_val (c : ascii) : N := N_of_ascii c.

Definition is_ascii_byte (c : ascii) : bool := (byte_val c <? 128)%N.

Fixpoint all_bytes (p : ascii → bool) (s : string) : bool :=
  match s with
  | "" => true
  | String c s' => p c && all_bytes p s'
  end.

Definition is_ascii (s : string) : bool := all_bytes is_ascii_byte s.

Fixpoint map_bytes (f : ascii → ascii) (s : string) : string :=
  match s with
  | "" => ""
  | String c s' => String (f c) (map_bytes f s')
  end.

Definition is_digit (c : ascii) : bool := (48 <=? byte_val c)%N && (byte_val c <=? 57)%N.

(** ** The rune-level functions of the standard library on non-ASCII input *)

Class Unicode := {
  unicode_lower : string → string;
  unicode_equal_fold : string → string → bool;
  unicode_quote : string → string;
}.

(** ** strings.ToLower and strings.EqualFold *)

Definition lower_byte (c : ascii) : ascii :=
  if (65 <=? byte_val c)%N && (byte_val c <=? 90)%N
  then ascii_of_N (byte_val c + 32) else c.

Definition to_lower `{Unicode} (s : string) : string :=
  if is_ascii s then map_bytes lower_byte s else unicode_lower s.

Definition equal_fold `{Unicode} (s t : string) : bool :=
  if is_ascii s && is_ascii t
  then bool_decide (map_bytes lower_byte s = map_bytes lower_byte t)
  else unicode_equal_fold s t.

(** ** strings.TrimSpace

    White space is [unicode.IsSpace]: six ASCII bytes, U+0085 and U+00A0 (two
    bytes in UTF-8) and the space separators of three bytes. *)

Definition bytes := list ascii.

Definition bytes_of (s : string) : bytes := String.list_ascii_of_string s.
Definition string_of (l : bytes) : string := String.string_of_list_ascii l.

Definition space1 (c : ascii) : bool :=
  let n := byte_val c in ((9 <=? n) && (n <=? 13) || (n =? 32))%N.
Definition space2 (a b : ascii) : bool :=
  ((byte_val a =? 0xC2) && ((byte_val b =? 0x85) || (byte_val b =? 0xA0)))%N.
Definition space3 (a b c : ascii) : bool :=
  let '(x, y, z) := (byte_val a, byte_val b, byte_val c) in
  ((x =? 0xE1) && (y =? 0x9A) && (z =? 0x80)
   || (x =? 0xE2) && (y =? 0x80) &&
        ((0x80 <=? z) && (z <=? 0x8A) || (z =? 0xA8) || (z =? 0xA9) || (z =? 0xAF))
   || (x =? 0xE2) && (y =? 0x81) && (z =? 0x9F)
   || (x =? 0xE3) && (y =? 0x80) && (z =? 0x80))%N.

(** Drop leading white space; [sp2] and [sp3] recognise the multi-byte spaces
    in the direction the bytes are read. *)
Fixpoint trim_front (sp2 : ascii → ascii → bool) (sp3 : ascii → ascii → ascii → bool)
    (l : bytes) : bytes :=
  match l with
  | [] => []
  | a :: t1 =>
    if space1 a then trim_front sp2 sp3 t1 else
    match t1 with
    | [] => l
    | b :: t2 =>
      if sp2 a b then trim_front sp2 sp3 t2 else
      match t2 with
      | [] => l
      | c :: t3 => if sp3 a b c then trim_front sp2 sp3 t3 else l
      end
    end
  end.

Definition trim_space (s : string) : string :=
  let l := trim_front space2 space3 (bytes_of s) in
  string_of (reverse (trim_front (λ b a, space2 a b) (λ c b a, space3 a b c) (reverse l))).

(** [strings.TrimSpace(s) == ""], the blank test of the validator. *)
Definition is_blank (s : string) : bool := bool_decide (trim_space s = "").

(** ** strings.HasPrefix, Contains, Index, Count, Split *)

Fixpoint has_prefix (s pre : string) : bool :=
  match pre, s with
  | "", _ => true
  | String a pre', String b s' => bool_decide (a = b) && has_prefix s' pre'
  | String _ _, "" => false
  end.

Fixpoint contains (s sub : string) : bool :=
  has_prefix s sub ||
  match s with "" => false | String _ s' => contains s' sub end.

(** Non-overlapping occurrences of the two-byte substring [ab]. *)
Fixpoint count2 (a b : ascii) (s : string) : nat :=
  match s with
  | String x (String y s'' as s') =>
    if bool_decide (x = a ∧ y = b) then S (count2 a b s'') else count2 a b s'
  | _ => 0
  end.

(** Split at the first occurrence of byte [c]: [Some (s[:i], s[i+1:])]. *)
Fixpoint cut_byte (c : ascii) (s : string) : option (string * string) :=
  match s with
  | "" => None
  | String a s' =>
    if bool_decide (a = c) then Some ("", s')
    else prod_map (String a) id <$> cut_byte c s'
  end.

(** [strings.Split(s, sep)] for a one-byte separator: never empty. *)
Fixpoint split_byte (c : ascii) (s : string) : list string :=
  match s with
  | "" => [""]
  | String a s' =>
    if bool_decide (a = c) then "" :: split_byte c s'
    else match split_byte c s' with
         | w :: ws => String a w :: ws
         | [] => [String a ""]
         end
  end.

Fixpoint join (sep : string) (l : list string) : string :=
  match l with
  | [] => ""
  | [s] => s
  | s :: l' => s +:+ sep +:+ join sep l'
  end.

(** ** strconv: Itoa, ParseUint(s, 10, 64), Atoi *)

Definition itoa (z : Z) : string := pretty z.

Definition digit_val (c : ascii) : Z := Z.of_N (byte_val c) - 48.

(** The value of a string of digits, most significant first, after [acc]. *)
Fixpoint parse_digits (acc : Z) (s : string) : option Z :=
  match s with
  | "" => Some acc
  | String c s' => if is_digit c then parse_digits (10 * acc + digit_val c) s' else None
  end.

Definition parse_uint (s : string) : option Z :=
  match s with
  | "" => None
  | _ => z ← parse_digits 0 s; if bool_decide (z < 2 ^ 64)%Z then Some z else None
  end.

(** A sign, then at least one digit; out of the int64 range is an error. *)
Definition atoi (s : string) : option Z :=
  let '(neg, body) :=
    match s with
    | String "-" s' => (true, s')
    | String "+" s' => (false, s')
    | _ => (false, s)
    end%char in
  match body with
  | "" => None
  | _ => z ← parse_digits 0 body;
         let v := if neg : bool then (- z)%Z else z in
         if int64_ok v then Some v else None
  end.

(** ** strconv.Quote, the %q verb *)

Definition hex_digit (n : N) : ascii :=
  if (n <? 10)%N then ascii_of_N (48 + n) else ascii_of_N (87 + n).

Definition quote_byte (c : ascii) : string :=
  match byte_val c with
  | 7 => "\a" | 8 => "\b" | 12 => "\f" | 10 => "\n" | 13 => "\r" | 9 => "\t" | 11 => "\v"
  | 92 => "\\"
  | n => if (n =? 34)%N then String "\" (String c "")
         else if ((n <? 32) || (n =? 127))%N
         then "\x" +:+ String (hex_digit (n / 16)) (String (hex_digit (n mod 16)) "")
         else String c ""
  end%N.

Fixpoint quote_bytes (s : string) : string :=
  match s with "" => "" | String c s' => quote_byte c +:+ quote_bytes s' end.

Definition dquote : string := String (ascii_of_N 34) "".

Definition quote `{Unicode} (s : string) : string :=
  if is_ascii s then dquote +:+ quote_bytes s +:+ dquote else unicode_quote s.

Fixpoint has_byte (c : ascii) (s : string) : bool :=
  match s with "" => false | String a s' => bool_decide (a = c) || has_byte c s' end.

(** An instance for evaluating examples, which are all ASCII. *)
Definition example_unicode : Unicode :=
  {| unicode_lower s := s; unicode_equal_fold s t := bool_decide (s = t);
     unicode_quote s := dquote +:+ s +:+ dquote |}.

(** ** Facts about the conversions *)

Lemma is_digit_char (x : N) : (x < 10)%N → is_digit (pretty_N_char x) = true.
Proof.
  intros. assert (x ∈ [0;1;2;3;4;5;6;7;8;9])%N as Hx by (set_unfold; lia).
  repeat (apply elem_of_cons in Hx as [->|Hx]; [done|]). set_solver.
Qed.

Lemma digit_val_char (x : N) : (x < 10)%N → digit_val (pretty_N_char x) = Z.of_N x.
Proof.
  intros. assert (x ∈ [0;1;2;3;4;5;6;7;8;9])%N as Hx by (set_unfold; lia).
  repeat (apply elem_of_cons in Hx as [->|Hx]; [done|]). set_solver.
Qed.

(** The printer works from the least significant digit, the parser from the
    most significant one: they meet in the middle. *)
Lemma parse_digits_pretty_go (x : N) s :
  parse_digits 0 (pretty_N_go x s) = parse_digits (Z.of_N x) s.
Proof.
  revert s. induction (N.lt_wf_0 x) as [x _ IH]; intros s.
  destruct (decide (x = 0)%N) as [->|Hx]; [done|].
  rewrite pretty_N_go_step by lia. rewrite IH by (apply N.div_lt; lia). simpl.
  assert (x `mod` 10 < 10)%N by (by apply N.mod_lt).
  rewrite is_digit_char, digit_val_char by done. f_equal.
  rewrite (N.div_mod x 10) at 3 by done. lia.
Qed.

Lemma pretty_N_go_digits (x : N) s :
  all_bytes is_digit (pretty_N_go x s) = all_bytes is_digit s.
Proof.
  revert s. induction (N.lt_wf_0 x) as [x _ IH]; intros s.
  destruct (decide (x = 0)%N) as [->|Hx]; [done|].
  rewrite pretty_N_go_step by lia. rewrite IH by (apply N.div_lt; lia). simpl.
  by rewrite is_digit_char by (by apply N.mod_lt).
Qed.

Lemma pretty_N_digits (x : N) : all_bytes is_digit (pretty x) = true.
Proof.
  unfold pretty, pretty_N. case_decide; [done|]. by rewrite pretty_N_go_digits.
Qed.

Lemma parse_digits_pretty (x : N) : parse_digits 0 (pretty x) = Some (Z.of_N x).
Proof.
  unfold pretty, pretty_N. case_decide; [by subst|]. by rewrite parse_digits_pretty_go.
Qed.

Lemma parse_digits_empty_ne (x : N) : pretty x ≠ "".
Proof.
  intros Hx. pose proof (parse_digits_pretty x) as Hp. rewrite Hx in Hp.
  simplify_eq/=. destruct x; [|lia]. done.
Qed.

Lemma itoa_nonneg z : (0 ≤ z)%Z → itoa z = pretty (Z.to_N z).
Proof. destruct z; done || lia. Qed.

Lemma itoa_neg z : (z < 0)%Z → itoa z = String "-" (pretty (Z.to_N (- z))).
Proof. destruct z; done || lia. Qed.

Lemma parse_uint_itoa z : (0 ≤ z < 2 ^ 64)%Z → parse_uint (itoa z) = Some z.
Proof.
  intros Hz. rewrite itoa_nonneg by lia. unfold parse_uint.
  pose proof (parse_digits_empty_ne (Z.to_N z)).
  rewrite parse_digits_pretty. case_match; [done|]. simpl.
  rewrite Z2N.id by lia. rewrite bool_decide_true by lia. done.
Qed.

(** A digit string starts with neither sign. *)
Lemma digits_no_sign s : all_bytes is_digit s = true → s ≠ "" →
  ∃ c s', s = String c s' ∧ c ≠ "-"%char ∧ c ≠ "+"%char.
Proof.
  destruct s as [|c s']; [done|]. simpl. intros [Hc _]%andb_prop _.
  exists c, s'. repeat split; intros ->; done.
Qed.

Lemma atoi_unsigned s :
  all_bytes is_digit s = true → s ≠ "" →
  atoi s = z ← parse_digits 0 s; if int64_ok z then Some z else None.
Proof.
  intros Hd Hne. destruct (digits_no_sign s Hd Hne) as (c & s' & -> & H1 & H2).
  unfold atoi. destruct c as [[] [] [] [] [] [] [] []]; done.
Qed.

Lemma atoi_itoa z : int64_ok z = true → atoi (itoa z) = Some z.
Proof.
  intros Hz. destruct (decide (0 ≤ z)%Z).
  - rewrite itoa_nonneg by lia.
    rewrite atoi_unsigned by eauto using pretty_N_digits, parse_digits_empty_ne.
    rewrite parse_digits_pretty. simpl. rewrite Z2N.id by lia. by rewrite Hz.
  - rewrite itoa_neg by lia. unfold atoi.
    pose proof (parse_digits_empty_ne (Z.to_N (- z))).
    rewrite parse_digits_pretty. case_match; [done|]. simpl.
    rewrite Z2N.id by lia. rewrite Z.opp_involutive. by rewrite Hz.
Qed.

(** ** Concatenation *)

Lemma str_app_cons c s t : String c s +:+ t = String c (s +:+ t).
Proof. done. Qed.
Lemma str_app_nil s : s +:+ "" = s.
Proof. induction s as [|c s IH]; [done|]. by rewrite str_app_cons, IH. Qed.
Lemma str_app_assoc s t u : (s +:+ t) +:+ u = s +:+ (t +:+ u).
Proof. induction s as [|c s IH]; [done|]. by rewrite !str_app_cons, IH. Qed.

Lemma length_str_app s t : String.length (s +:+ t) = String.length s + String.length t.
Proof. induction s as [|c s IH]; [done|]. rewrite str_app_cons. simpl. by rewrite IH. Qed.

Lemma all_bytes_app p s t : all_bytes p (s +:+ t) = all_bytes p s && all_bytes p t.
Proof.
  induction s as [|c s IH]; [done|]. rewrite str_app_cons. cbn [all_bytes].
  by rewrite IH, andb_assoc.
Qed.

(** Splitting at a byte: the pieces joined again give the string back. *)
Lemma split_byte_ne c s : split_byte c s ≠ [].
Proof. destruct s; simpl; [done|]. case_bool_decide; [done|]. by case_match. Qed.

Lemma join_cons sep w ws : ws ≠ [] → join sep (w :: ws) = w +:+ sep +:+ join sep ws.
Proof. by destruct ws. Qed.

Lemma join_split c s : join (String c "") (split_byte c s) = s.
Proof.
  induction s as [|a s IH]; [done|]. simpl. case_bool_decide as Hac.
  - subst a. rewrite join_cons by apply split_byte_ne. simpl. by rewrite IH.
  - pose proof (split_byte_ne c s). destruct (split_byte c s) as [|w [|w' ws]]; [done| |].
    + simpl in *. by subst.
    + rewrite join_cons in IH by done. rewrite join_cons by done.
      rewrite <- IH. done.
Qed.

(** No piece holds the separator. *)
Lemma split_byte_no_sep c s w :
  w ∈ split_byte c s → all_bytes (λ a, bool_decide (a ≠ c)) w = true.
Proof.
  revert w. induction s as [|a s IH]; intros w; simpl.
  - by intros ->%list_elem_of_singleton.
  - case_bool_decide as Hac.
    + intros [->|Hw]%elem_of_cons; [done|auto].
    + destruct (split_byte c s) as [|w' ws].
      * intros ->%list_elem_of_singleton. simpl. by rewrite bool_decide_true.
      * intros [->|Hw]%elem_of_cons; [|apply IH; set_solver].
        simpl. rewrite bool_decide_true by done. apply IH. set_solver.
Qed.

Lemma has_prefix_spec s pre : has_prefix s pre = true ↔ ∃ t, s = pre +:+ t.
Proof.
  revert s. induction pre as [|a pre IH]; intros s; simpl.
  - split; [|by destruct s]. eexists. done.
  - destruct s as [|b s]; [by split; [|intros (t & ?)]|]. simpl.
    rewrite andb_true_iff, bool_decide_eq_true, IH. split.
    + intros (-> & t & ->). by exists t.
    + intros (t & Ht). injection Ht as -> ->. eauto.
Qed.

Lemma cut_byte_some c s a b : cut_byte c s = Some (a, b) → s = a +:+ String c b.
Proof.
  revert a b. induction s as [|x s IH]; intros a b; simpl; [done|].
  case_bool_decide; [by intros [= <- <-]; subst|].
  destruct (cut_byte c s) as [[a' b']|]; [|done]. intros [= <- <-]. simpl.
  by rewrite (IH a' b').
Qed.

Lemma cut_byte_none c s : has_byte c s = false → cut_byte c s = None.
Proof.
  induction s as [|a s IH]; simpl; [done|].
  intros [Ha Hs]%orb_false_iff. rewrite Ha. by rewrite IH.
Qed.

Lemma cut_byte_app c s t : has_byte c s = false → cut_byte c (s +:+ String c t) = Some (s, t).
Proof.
  induction s as [|a s IH].
  - intros _. simpl. by rewrite bool_decide_true.
  - intros [Ha Hs]%orb_false_iff.
    change (String a s +:+ String c t) with (String a (s +:+ String c t)). simpl.
    rewrite Ha. by rewrite IH.
Qed.

(** ** The ranges of the parsed numbers *)

Lemma digit_val_range c : is_digit c = true → (0 ≤ digit_val c ≤ 9)%Z.
Proof.
  unfold is_digit, digit_val. intros [H1%N.leb_le H2%N.leb_le]%andb_prop. lia.
Qed.

Lemma parse_digits_nonneg acc s z :
  (0 ≤ acc)%Z → parse_digits acc s = Some z → (acc ≤ z)%Z.
Proof.
  revert acc. induction s as [|c s IH]; intros acc Hacc; simpl; [by intros [= ->]|].
  destruct (is_digit c) eqn:Hc; [|done]. apply digit_val_range in Hc.
  intros Hz. apply IH in Hz; lia.
Qed.

Lemma parse_uint_range s z : parse_uint s = Some z → (0 ≤ z < 2 ^ 64)%Z.
Proof.
  unfold parse_uint. destruct s as [|c s]; [done|].
  intros (x & Hx & Hz)%bind_Some. case_bool_decide; simplify_eq.
  apply parse_digits_nonneg in Hx; lia.
Qed.

Lemma atoi_range s z : atoi s = Some z → int64_ok z = true.
Proof.
  unfold atoi. intros Hz. destruct s as [|c s]; [done|].
  repeat (case_match; simplify_eq; try done);
    by (apply bind_Some in Hz as (x & _ & Hx); case_match; simplify_eq).
Qed.
