(* ===== verification/GoValue.v ===== *)
(** * Go's dynamic values

    [interface{}] values as chitchat meets them: decoded YAML and JSON, AMQP
    headers and template results.  [fmt.Sprint] ([%v]) and [reflect.DeepEqual]
    are given on them. *)
From S2P Require Import Prelude GoStrings.
From Stdlib Require Import SpecFloat.

(** ** Values

    A map is the list of its entries in the order the runtime iterates over it
    (Go leaves that order unspecified, so a claim about all lists is a claim
    about all orders). [VMap true] is a named string-keyed map type such as
    [amqp.Table]; [VIMap] is [map[interface{}]interface{}].  [VOther] stands for
    a value of any other type, given by its type and its [%v] rendering. *)

Inductive int_kind := KInt | KInt8 | KInt16 | KInt32 | KInt64 | KUint | KUint8 | KUint16
                    | KUint32 | KUint64.

Inductive value : Type :=
| VNil
| VBool (b : bool)
| VInt (k : int_kind) (z : Z)
| VFloat64 (f : spec_float)
| VString (s : string)
| VBytes (s : string)
| VSlice (l : list value)
| VMap (named : bool) (m : list (string * value))
| VIMap (m : list (value * value))
| VRaw (s : string)
| VOther (ty repr : string).

#[export] Instance int_kind_eq_dec : EqDecision int_kind.
Proof. solve_decision. Defined.

#[export] Instance value_inhabited : Inhabited value := populate VNil.

(** Induction through the nested lists. *)
Section value_ind.
Variable P : value → Prop.
Hypothesis Hnil : P VNil.
Hypothesis Hbool : ∀ b, P (VBool b).
Hypothesis Hint : ∀ k z, P (VInt k z).
Hypothesis Hfloat : ∀ f, P (VFloat64 f).
Hypothesis Hstring : ∀ s, P (VString s).
Hypothesis Hbytes : ∀ s, P (VBytes s).
Hypothesis Hslice : ∀ l, Forall P l → P (VSlice l).
Hypothesis Hmap : ∀ n m, Forall (λ kv, P kv.2) m → P (VMap n m).
Hypothesis Himap : ∀ m, Forall (λ kv, P kv.1 ∧ P kv.2) m → P (VIMap m).
Hypothesis Hraw : ∀ s, P (VRaw s).
Hypothesis Hother : ∀ t r, P (VOther t r).

Fixpoint value_ind_nested (v : value) : P v :=
  match v with
  | VNil => Hnil
  | VBool b => Hbool b
  | VInt k z => Hint k z
  | VFloat64 f => Hfloat f
  | VString s => Hstring s
  | VBytes s => Hbytes s
  | VSlice l => Hslice l
      ((fix go l : Forall P l := match l with
        | [] => Forall_nil_2 _
        | x :: l' => Forall_cons_2 _ _ _ (value_ind_nested x) (go l') end) l)
  | VMap n m => Hmap n m
      ((fix go m : Forall (λ kv : string * value, P kv.2) m := match m with
        | [] => Forall_nil_2 _
        | kv :: m' => Forall_cons_2 _ _ _ (value_ind_nested kv.2) (go m') end) m)
  | VIMap m => Himap m
      ((fix go m : Forall (λ kv : value * value, P kv.1 ∧ P kv.2) m := match m with
        | [] => Forall_nil_2 _
        | kv :: m' => Forall_cons_2 _ _ _
            (conj (value_ind_nested kv.1) (value_ind_nested kv.2)) (go m') end) m)
  | VRaw s => Hraw s
  | VOther t r => Hother t r
  end.
End value_ind.

(** The first entry of an association list with the given key. *)
Fixpoint assoc {A} (k : string) (m : list (string * A)) : option A :=
  match m with
  | [] => None
  | (k', x) :: m' => if bool_decide (k = k') then Some x else assoc k m'
  end.

(** [m[k] = v]. *)
Fixpoint assoc_set {A} (k : string) (v : A) (m : list (string * A)) : list (string * A) :=
  match m with
  | [] => [(k, v)]
  | (k', x) :: m' => if bool_decide (k = k') then (k, v) :: m' else (k', x) :: assoc_set k v m'
  end.

(** ** Printing floats

    [%v] of a float64 is [%g] with the fewest digits that identify it, and the
    exponent form from 10^6 on (and below 10^-4).  An integral float below 2^53
    is identified by its own digits without the trailing zeros, which gives the
    text; all other floats are left to the class [GoFmt]. *)

Definition float_int (f : spec_float) : option Z :=
  match f with
  | S754_zero false => Some 0%Z
  | S754_finite s m e =>
    let sgn (z : Z) := if s then (- z)%Z else z in
    if (0 <=? e)%Z then Some (sgn (Zpos m * 2 ^ e)%Z)
    else if (Zpos m mod 2 ^ (- e) =? 0)%Z then Some (sgn (Zpos m / 2 ^ (- e))%Z)
    else None
  | _ => None
  end.

Fixpoint strip_zeros (s : string) : string :=
  match s with
  | "" => ""
  | String c s' =>
    match strip_zeros s' with
    | "" => if bool_decide (c = "0"%char) then "" else String c ""
    | t => String c t
    end
  end.

Definition exp_form (d : string) : string :=
  let e := (Z.of_nat (String.length d) - 1)%Z in
  let mant := match strip_zeros d with
              | String c "" => String c ""
              | String c t => String c ("." +:+ t)
              | "" => ""
              end in
  mant +:+ "e+" +:+ (if (e <? 10)%Z then "0" +:+ itoa e else itoa e).

Definition format_g_int (z : Z) : string :=
  let d := itoa (Z.abs z) in
  let body := if (Z.of_nat (String.length d) - 1 <? 6)%Z then d else exp_form d in
  if (z <? 0)%Z then "-" +:+ body else body.

(** What is left of the [fmt] package: the text of the remaining floats, and of
    maps with keys of mixed types (printed in an order the runtime chooses). *)
Class GoFmt := {
  format_float_other : spec_float → string;
  sprint_imap : list (value * value) → string;
}.

Definition sprint_float `{GoFmt} (f : spec_float) : string :=
  match float_int f with
  | Some z => if (Z.abs z <? 2 ^ 53)%Z then format_g_int z else format_float_other f
  | None => match f with S754_zero true => "-0" | _ => format_float_other f end
  end.

Definition sprint_bytes (s : string) : string :=
  "[" +:+ join " " (map (λ c, itoa (Z.of_N (byte_val c))) (bytes_of s)) +:+ "]".

(** String-keyed maps print sorted by key. *)
Definition sort_entries (l : list (string * string)) : list (string * string) :=
  merge_sort (λ a b, String.le a.1 b.1) l.

(** [fmt.Sprint(v)]. *)
Fixpoint sprint `{GoFmt} (v : value) : string :=
  match v with
  | VNil => "<nil>"
  | VBool b => if b then "true" else "false"
  | VInt _ z => itoa z
  | VFloat64 f => sprint_float f
  | VString s => s
  | VBytes s => sprint_bytes s
  | VSlice l => "[" +:+ join " " (map sprint l) +:+ "]"
  | VMap _ m =>
    "map[" +:+ join " " (map (λ kv, kv.1 +:+ ":" +:+ kv.2)
                  (sort_entries (map (λ kv, (kv.1, sprint kv.2)) m))) +:+ "]"
  | VIMap m => sprint_imap m
  | VRaw s => sprint_bytes s
  | VOther _ r => r
  end.

(** ** reflect.DeepEqual

    Types must agree, floats compare as floats (so a NaN differs from itself),
    maps compare as sets of entries. *)
Fixpoint deep_equal (v w : value) {struct v} : bool :=
  match v, w with
  | VNil, VNil => true
  | VBool a, VBool b => bool_decide (a = b)
  | VInt k x, VInt k' y => bool_decide (k = k' ∧ x = y)
  | VFloat64 f, VFloat64 g => SFeqb f g
  | VString s, VString t => bool_decide (s = t)
  | VBytes s, VBytes t => bool_decide (s = t)
  | VSlice l, VSlice l' =>
    (fix go l l' := match l, l' with
      | [], [] => true
      | x :: l1, y :: l2 => deep_equal x y && go l1 l2
      | _, _ => false
      end) l l'
  | VMap n m, VMap n' m' =>
    bool_decide (n = n' ∧ length m = length m') &&
    forallb (λ kv, match assoc kv.1 m' with
                   | Some y => deep_equal kv.2 y
                   | None => false
                   end) m
  | VIMap m, VIMap m' =>
    bool_decide (length m = length m') &&
    forallb (λ kv, existsb (λ kv', deep_equal kv.1 kv'.1 && deep_equal kv.2 kv'.2) m') m
  | VRaw s, VRaw t => bool_decide (s = t)
  | VOther t r, VOther t' r' => bool_decide (t = t' ∧ r = r')
  | _, _ => false
  end.

(** The same value, up to the order in which maps, which hold a key once, list their
    entries. *)
Inductive reordered : value → value → Prop :=
| ro_refl v : reordered v v
| ro_slice l l' : Forall2 reordered l l' → reordered (VSlice l) (VSlice l')
| ro_map n m k m' :
    NoDup m.*1 → m ≡ₚ k → Forall2 (λ x y, x.1 = y.1 ∧ reordered x.2 y.2) k m' →
    reordered (VMap n m) (VMap n m')
| ro_imap m k m' :
    NoDup m.*1 → m ≡ₚ k → Forall2 (λ x y, x.1 = y.1 ∧ reordered x.2 y.2) k m' →
    reordered (VIMap m) (VIMap m').

Definition is_nil (v : value) : bool := match v with VNil => true | _ => false end.

(** A concrete [GoFmt], for evaluating examples. *)
Definition plain_fmt : GoFmt :=
  {| format_float_other _ := "?"; sprint_imap _ := "map[]" |}.

(** ** Facts *)

Lemma assoc_elem {A} k (m : list (string * A)) x : assoc k m = Some x → (k, x) ∈ m.
Proof.
  induction m as [|[k' y] m IH]; simpl; [done|]. case_bool_decide; set_solver.
Qed.

Lemma assoc_app {A} k (m m' : list (string * A)) :
  assoc k (m ++ m') = match assoc k m with Some x => Some x | None => assoc k m' end.
Proof. induction m as [|[k' y] m IH]; simpl; [done|]. by case_bool_decide. Qed.

Lemma assoc_set_keys {A} k (v : A) m x : x ∈ (assoc_set k v m).*1 ↔ x = k ∨ x ∈ m.*1.
Proof.
  induction m as [|[k' v'] m IH]; simpl; [set_solver|].
  case_bool_decide; simpl; rewrite !elem_of_cons, ?IH; naive_solver.
Qed.

Lemma assoc_set_elem {A} k (v : A) m k' v' :
  (k', v') ∈ assoc_set k v m → (k' = k ∧ v' = v) ∨ (k', v') ∈ m.
Proof.
  induction m as [|[k'' v''] m IH]; simpl; [set_solver|].
  case_bool_decide; rewrite !elem_of_cons; naive_solver.
Qed.

Lemma assoc_set_NoDup {A} k (v : A) m : NoDup m.*1 → NoDup (assoc_set k v m).*1.
Proof.
  induction m as [|[k' v'] m IH]; simpl; intros Hnd; [apply NoDup_singleton|].
  apply NoDup_cons in Hnd as [Hk Hnd]. case_bool_decide as Heq; simpl.
  - subst. by constructor.
  - constructor; [|by apply IH]. rewrite assoc_set_keys. naive_solver.
Qed.

(** Distinct entries are kept in their order. *)
Lemma assoc_set_distinct {A B} (f : A → B) (l : list (string * A)) acc :
  NoDup (acc.*1 ++ l.*1) →
  foldl (λ acc kr, assoc_set kr.1 (f kr.2) acc) acc l = acc ++ map (λ kr, (kr.1, f kr.2)) l.
Proof.
  assert (∀ k (v : B) m, k ∉ m.*1 → assoc_set k v m = m ++ [(k, v)]) as Hset.
  { intros k v m. induction m as [|[k' v'] m IHm]; [done|]. cbn [fmap list_fmap assoc_set].
    intros [Hne Hm]%not_elem_of_cons. simpl in Hne. rewrite bool_decide_false by done.
    by rewrite IHm. }
  revert acc. induction l as [|[k r] l IH]; intros acc Hnd; cbn [foldl map fst snd].
  - by rewrite app_nil_r.
  - rewrite Hset, IH.
    + by rewrite <- app_assoc.
    + rewrite fmap_app, <- app_assoc. exact Hnd.
    + rewrite NoDup_app in Hnd. destruct Hnd as (_ & Hnd & _). intros Hin.
      by apply (Hnd k Hin); left.
Qed.

Lemma has_byte_app c s t : has_byte c (s +:+ t) = has_byte c s || has_byte c t.
Proof.
  induction s as [|a s IH]; [done|].
  change (String a s +:+ t) with (String a (s +:+ t)). simpl. by rewrite IH, orb_assoc.
Qed.

Lemma has_byte_digits c s :
  is_digit c = false → all_bytes is_digit s = true → has_byte c s = false.
Proof.
  intros Hc. induction s as [|a s IH]; [done|]. simpl. intros [Ha Hs]%andb_prop.
  rewrite IH, bool_decide_false by congruence. done.
Qed.

Lemma itoa_no_letter c z :
  is_digit c = false → c ≠ "-"%char → has_byte c (itoa z) = false.
Proof.
  intros Hc Hm. destruct (decide (0 ≤ z)%Z).
  - rewrite itoa_nonneg by lia. eauto using has_byte_digits, pretty_N_digits.
  - rewrite itoa_neg by lia. simpl. rewrite bool_decide_false by done. simpl.
    eauto using has_byte_digits, pretty_N_digits.
Qed.

Lemma pretty_go_length (x : N) s k :
  (10 ^ k ≤ x)%N → (N.to_nat k + 1 + String.length s ≤ String.length (pretty_N_go x s))%nat.
Proof.
  revert k s. induction (N.lt_wf_0 x) as [x _ IH]; intros k s Hk.
  assert (0 < x)%N by (pose proof (N.pow_nonzero 10 k); lia).
  rewrite pretty_N_go_step by done.
  destruct (decide (k = 0)%N) as [->|Hk0].
  - destruct (decide (x `div` 10 = 0)%N) as [->|Hd]; [done|].
    etrans; [|apply (IH (x `div` 10)%N (N.div_lt x 10 ltac:(lia) ltac:(lia)) 0%N)].
    + simpl. lia.
    + change (10 ^ 0)%N with 1%N. destruct (x `div` 10)%N; [done|lia].
  - etrans; [|apply (IH (x `div` 10)%N (N.div_lt x 10 ltac:(lia) ltac:(lia)) (k - 1)%N)].
    + simpl. lia.
    + apply N.div_le_lower_bound; [done|].
      replace (10 * 10 ^ (k - 1))%N with (10 ^ k)%N; [done|].
      rewrite <- N.pow_succ_r by lia. f_equal. lia.
Qed.

Lemma pretty_go_length_upper (x : N) s k :
  (x < 10 ^ k)%N → (String.length (pretty_N_go x s) ≤ N.to_nat k + String.length s)%nat.
Proof.
  revert k s. induction (N.lt_wf_0 x) as [x _ IH]; intros k s Hk.
  destruct (decide (x = 0)%N) as [->|]; [rewrite pretty_N_go_0; lia|].
  rewrite pretty_N_go_step by lia.
  destruct (decide (k = 0)%N) as [->|Hk0]; [simpl in Hk; lia|].
  etrans; [apply (IH (x `div` 10)%N (N.div_lt x 10 ltac:(lia) ltac:(lia)) (k - 1)%N)|].
  - apply N.Div0.div_lt_upper_bound. rewrite <- N.pow_succ_r by lia.
    by replace (N.succ (k - 1)) with k by lia.
  - simpl. lia.
Qed.

Lemma length_pretty_ge (x : N) : (1000000 ≤ x)%N → (7 ≤ String.length (pretty x))%nat.
Proof.
  intros. unfold pretty, pretty_N. rewrite decide_False by lia.
  pose proof (pretty_go_length x "" 6 ltac:(simpl; lia)). simpl in *. lia.
Qed.

Lemma length_pretty_lt (x : N) : (x < 1000000)%N → (String.length (pretty x) ≤ 6)%nat.
Proof.
  intros. unfold pretty, pretty_N. case_decide; [simpl; lia|].
  pose proof (pretty_go_length_upper x "" 6 ltac:(simpl; lia)). simpl in *. lia.
Qed.

Lemma itoa_abs z : itoa (Z.abs z) = pretty (Z.to_N (Z.abs z)).
Proof. apply itoa_nonneg. lia. Qed.

(** Below 10^6 in absolute value a float prints as the integer does. *)
Lemma format_g_int_small z : (Z.abs z < 10 ^ 6)%Z → format_g_int z = itoa z.
Proof.
  intros Hz. unfold format_g_int. rewrite itoa_abs.
  pose proof (length_pretty_lt (Z.to_N (Z.abs z)) ltac:(lia)).
  rewrite (proj2 (Z.ltb_lt (Z.of_nat _ - 1) 6)) by lia.
  destruct (Z.ltb_spec z 0).
  - rewrite itoa_neg by lia. by replace (Z.abs z) with (- z)%Z by lia.
  - rewrite itoa_nonneg by lia. by replace (Z.abs z) with z by lia.
Qed.

(** From 10^6 on it prints in the exponent form. *)
Lemma format_g_int_large z :
  (10 ^ 6 ≤ Z.abs z)%Z → has_byte "e" (format_g_int z) = true.
Proof.
  intros Hz. unfold format_g_int. rewrite itoa_abs.
  pose proof (length_pretty_ge (Z.to_N (Z.abs z)) ltac:(lia)).
  rewrite (proj2 (Z.ltb_ge (Z.of_nat _ - 1) 6)) by lia.
  assert (has_byte "e" (exp_form (pretty (Z.to_N (Z.abs z)))) = true) as He.
  { unfold exp_form. rewrite !has_byte_app. simpl. by rewrite !orb_true_r. }
  case_match; [|done]. rewrite has_byte_app, He. done.
Qed.
