(* ===== verification/Libs.v ===== *)
(** * JSON and JSON paths

    The two libraries through which chitchat looks at message bodies:
    [encoding/json] on dynamic values and gjson lookups.  Both are classes, so that
    what does not depend on them is proved for every behaviour of theirs; the
    codec of [encoding/json] itself is [JsonCodec.go_json]. *)
From S2P Require Import Prelude GoValue.

(** [json_Unmarshal] into an [interface{}] that holds nil: what the variable holds
    afterwards, and whether there was no error (a number out of range is an error,
    yet the rest of the document is stored); [json_Valid] and [json_Marshal]. *)
Class Json := {
  json_Unmarshal : string → value * bool;
  json_Valid : string → bool;
  json_Marshal : value → result string string;
}.

(** A gjson result: whether the path exists, its decoded value, its text. *)
Record gjson_Result := { res_Exists : bool; res_Value : value; res_String : string }.

Class Gjson := { gjson_GetBytes : string → string → gjson_Result }.

(** Instances for evaluation: bodies are kept as strings, no path exists. *)
Definition example_json : Json :=
  {| json_Unmarshal s := (VNil, false); json_Valid s := false; json_Marshal v := Err "unsupported" |}.
Definition example_gjson : Gjson :=
  {| gjson_GetBytes s path := {| res_Exists := false; res_Value := VNil; res_String := "" |} |}.
