(* ===== verification/Utf8.v ===== *)
(** * UTF-8 and base64

    The parts of Go's [unicode/utf8] and [encoding/base64] that the JSON encoder
    and decoder rely on.  A string is split into chunks: an ASCII byte, the bytes
    of one longer rune, or a byte that starts no valid sequence. *)
From S2P Require Import Prelude GoStrings GoValue.

(** ** Runes *)

Definition RuneError : N := 0xFFFD.

Definition in_range (lo hi x : N) : bool := (lo <=? x)%N && (x <=? hi)%N.
Definition cont_byte (c : ascii) : bool := in_range 0x80 0xBF (byte_val c).

(** What the first two bytes of a sequence of three or four must be: no overlong
    form, no surrogate, nothing above U+10FFFF. *)
Definition lead3 (x y : N) : bool :=
  ((x =? 0xE0) && in_range 0xA0 0xBF y || in_range 0xE1 0xEC x && in_range 0x80 0xBF y
   || (x =? 0xED) && in_range 0x80 0x9F y || in_range 0xEE 0xEF x && in_range 0x80 0xBF y)%N.
Definition lead4 (x y : N) : bool :=
  ((x =? 0xF0) && in_range 0x90 0xBF y || in_range 0xF1 0xF3 x && in_range 0x80 0xBF y
   || (x =? 0xF4) && in_range 0x80 0x8F y)%N.

Definition low6 (c : ascii) : N := N.land (byte_val c) 0x3F.

Definition rune2 (a b : ascii) : N := (N.land (byte_val a) 0x1F * 64 + low6 b)%N.
Definition rune3 (a b c : ascii) : N :=
  (N.land (byte_val a) 0x0F * 4096 + low6 b * 64 + low6 c)%N.
Definition rune4 (a b c d : ascii) : N :=
  (N.land (byte_val a) 0x07 * 262144 + low6 b * 4096 + low6 c * 64 + low6 d)%N.

Definition ok2 (a b : ascii) : bool := in_range 0xC2 0xDF (byte_val a) && cont_byte b.
Definition ok3 (a b c : ascii) : bool := lead3 (byte_val a) (byte_val b) && cont_byte c.
Definition ok4 (a b c d : ascii) : bool :=
  lead4 (byte_val a) (byte_val b) && cont_byte c && cont_byte d.

(** [utf8.EncodeRune]: a surrogate or a number out of range is encoded as U+FFFD. *)
Definition byte (n : N) : ascii := ascii_of_N n.
Definition encode_rune (r : N) : string :=
  let r := if in_range 0xD800 0xDFFF r || (0x10FFFF <? r)%N then RuneError else r in
  if (r <? 0x80)%N then String (byte r) ""
  else if (r <? 0x800)%N then
    String (byte (0xC0 + r / 64)) (String (byte (0x80 + r mod 64)) "")
  else if (r <? 0x10000)%N then
    String (byte (0xE0 + r / 4096)) (String (byte (0x80 + (r / 64) mod 64))
      (String (byte (0x80 + r mod 64)) ""))
  else
    String (byte (0xF0 + r / 262144)) (String (byte (0x80 + (r / 4096) mod 64))
      (String (byte (0x80 + (r / 64) mod 64)) (String (byte (0x80 + r mod 64)) ""))).

Definition replacement : string := encode_rune RuneError.

(** ** Chunks *)

Inductive chunk :=
| CAscii (c : ascii)
| CRune (r : N) (s : string)
| CBad (c : ascii).

Fixpoint chunks (s : string) : list chunk :=
  match s with
  | "" => []
  | String a s1 =>
    if is_ascii_byte a then CAscii a :: chunks s1 else
    match s1 with
    | String b s2 =>
      if ok2 a b then CRune (rune2 a b) (String a (String b "")) :: chunks s2 else
      match s2 with
      | String c s3 =>
        if ok3 a b c then CRune (rune3 a b c) (String a (String b (String c ""))) :: chunks s3
        else
        match s3 with
        | String d s4 =>
          if ok4 a b c d
          then CRune (rune4 a b c d) (String a (String b (String c (String d "")))) :: chunks s4
          else CBad a :: chunks s1
        | "" => CBad a :: chunks s1
        end
      | "" => CBad a :: chunks s1
      end
    | "" => CBad a :: chunks s1
    end
  end.

Definition flat_chunks (f : chunk → string) (l : list chunk) : string :=
  foldr (λ c acc, f c +:+ acc) "" l.

(** Each invalid byte becomes U+FFFD, as a JSON string cannot hold it. *)
Definition valid_chunk (c : chunk) : string :=
  match c with CAscii a => String a "" | CRune _ s => s | CBad _ => replacement end.
Definition to_valid (s : string) : string := flat_chunks valid_chunk (chunks s).

Definition is_valid_utf8 (s : string) : bool :=
  forallb (λ c, match c with CBad _ => false | _ => true end) (chunks s).

(** ** Facts *)

(** The induction that goes with [chunks]. *)
Lemma chunks_ind (P : string → Prop) :
  P "" →
  (∀ a s, is_ascii_byte a = true → P s → P (String a s)) →
  (∀ a b s, is_ascii_byte a = false → ok2 a b = true → P s → P (String a (String b s))) →
  (∀ a b c s, is_ascii_byte a = false → ok2 a b = false → ok3 a b c = true → P s →
     P (String a (String b (String c s)))) →
  (∀ a b c d s, is_ascii_byte a = false → ok2 a b = false → ok3 a b c = false →
     ok4 a b c d = true → P s → P (String a (String b (String c (String d s))))) →
  (∀ a s, is_ascii_byte a = false → chunks (String a s) = CBad a :: chunks s → P s →
     P (String a s)) →
  ∀ s, P s.
Proof.
  intros H0 H1 H2 H3 H4 Hbad s. remember (String.length s) as n eqn:Hn.
  revert s Hn. induction (lt_wf n) as [n _ IH]. intros s ->.
  assert (∀ t, String.length t < String.length s → P t) as IH' by (intros t Ht; by eapply IH).
  clear IH. destruct s as [|a s1]; [done|].
  destruct (is_ascii_byte a) eqn:Ha; [apply H1, IH'; [done|simpl; lia]|].
  assert (chunks (String a s1) = CBad a :: chunks s1 → P (String a s1)) as Hb.
  { intros. apply Hbad; [done..|]. apply IH'. simpl. lia. }
  destruct s1 as [|b s2]; [apply Hb; simpl; by rewrite Ha|].
  destruct (ok2 a b) eqn:Hab; [apply H2, IH'; [done..|simpl; lia]|].
  destruct s2 as [|c s3]; [apply Hb; simpl; by rewrite Ha, Hab|].
  destruct (ok3 a b c) eqn:Habc; [apply H3, IH'; [done..|simpl; lia]|].
  destruct s3 as [|d s4]; [apply Hb; simpl; by rewrite Ha, Hab, Habc|].
  destruct (ok4 a b c d) eqn:Habcd; [apply H4, IH'; [done..|simpl; lia]|].
  apply Hb. simpl. by rewrite Ha, Hab, Habc, Habcd.
Qed.

Lemma chunks_ascii a s : is_ascii_byte a = true → chunks (String a s) = CAscii a :: chunks s.
Proof. intros Ha. simpl. by rewrite Ha. Qed.
Lemma chunks_2 a b s : is_ascii_byte a = false → ok2 a b = true →
  chunks (String a (String b s)) = CRune (rune2 a b) (String a (String b "")) :: chunks s.
Proof. intros Ha Hb. simpl. by rewrite Ha, Hb. Qed.
Lemma chunks_3 a b c s :
  is_ascii_byte a = false → ok2 a b = false → ok3 a b c = true →
  chunks (String a (String b (String c s))) =
    CRune (rune3 a b c) (String a (String b (String c ""))) :: chunks s.
Proof. intros Ha Hb Hc. simpl. by rewrite Ha, Hb, Hc. Qed.
Lemma chunks_4 a b c d s :
  is_ascii_byte a = false → ok2 a b = false → ok3 a b c = false → ok4 a b c d = true →
  chunks (String a (String b (String c (String d s)))) =
    CRune (rune4 a b c d) (String a (String b (String c (String d "")))) :: chunks s.
Proof. intros Ha Hb Hc Hd. simpl. by rewrite Ha, Hb, Hc, Hd. Qed.

(** A valid text is left as it is. *)
Lemma to_valid_id s : is_valid_utf8 s = true → to_valid s = s.
Proof.
  unfold to_valid, is_valid_utf8, flat_chunks.
  induction s as [|a s Ha IH|a b s Ha Hb IH|a b c s Ha Hb Hc IH|a b c d s Ha Hb Hc Hd IH
                 |a s Ha Hbad IH] using chunks_ind; [done|..|by rewrite Hbad];
    [rewrite chunks_ascii by done|rewrite chunks_2 by done|rewrite chunks_3 by done
    |rewrite chunks_4 by done]; intros Hv; specialize (IH Hv); cbn; by rewrite IH.
Qed.

Lemma is_ascii_valid s : is_ascii s = true → is_valid_utf8 s = true.
Proof.
  unfold is_valid_utf8, is_ascii. induction s as [|a s IH]; [done|].
  cbn [all_bytes]. intros [Ha Hs]%andb_prop. rewrite chunks_ascii by done. apply IH, Hs.
Qed.

(** ** What is valid *)

Lemma valid_app s t :
  is_valid_utf8 s = true → is_valid_utf8 t = true → is_valid_utf8 (s +:+ t) = true.
Proof.
  unfold is_valid_utf8. intros Hs Ht. revert Hs.
  induction s as [|a s Ha IH|a b s Ha Hb IH|a b c s Ha Hb Hc IH|a b c d s Ha Hb Hc Hd IH
                 |a s Ha Hbad IH] using chunks_ind; [done|..|by rewrite Hbad];
    rewrite !str_app_cons;
    [rewrite !chunks_ascii by done|rewrite !chunks_2 by done|rewrite !chunks_3 by done
    |rewrite !chunks_4 by done]; cbn [forallb]; exact IH.
Qed.

Lemma byte_val_byte n : (n < 256)%N → byte_val (byte n) = n.
Proof. apply N_ascii_embedding. Qed.

Lemma in_range_spec lo hi x : in_range lo hi x = true ↔ (lo ≤ x ≤ hi)%N.
Proof. unfold in_range. rewrite andb_true_iff, !N.leb_le. done. Qed.

Lemma cont_byte_mod n : cont_byte (byte (0x80 + n mod 64)) = true.
Proof.
  unfold cont_byte. assert (n mod 64 < 64)%N by (apply N.mod_lt; done).
  rewrite byte_val_byte by lia. apply in_range_spec. nlia.
Qed.

Lemma high_byte n : (128 ≤ n < 256)%N → is_ascii_byte (byte n) = false.
Proof. intros Hn. unfold is_ascii_byte. rewrite byte_val_byte by lia. apply N.ltb_ge. lia. Qed.

Lemma lead3_rune r :
  (0x800 ≤ r < 0xD800 ∨ 0xE000 ≤ r < 0x10000)%N →
  lead3 (0xE0 + r / 4096) (0x80 + (r / 64) mod 64) = true.
Proof.
  intros Hr. unfold lead3, in_range.
  set (q := (r / 4096)%N). set (p := ((r / 64) mod 64)%N).
  assert (q < 16 ∧ p < 64 ∧ (q = 0 → 32 ≤ p) ∧ (q = 13 → p < 32))%N as (?&?&?&?) by (subst q p; nlia).
  clearbody q p. clear Hr. repeat rewrite ?orb_true_iff, ?andb_true_iff, ?N.eqb_eq, ?N.leb_le. lia.
Qed.

Lemma lead4_rune r :
  (0x10000 ≤ r ≤ 0x10FFFF)%N → lead4 (0xF0 + r / 262144) (0x80 + (r / 4096) mod 64) = true.
Proof.
  intros Hr. unfold lead4, in_range.
  set (q := (r / 262144)%N). set (p := ((r / 4096) mod 64)%N).
  assert (q < 5 ∧ p < 64 ∧ (q = 0 → 16 ≤ p) ∧ (q = 4 → p < 16))%N as (?&?&?&?) by (subst q p; nlia).
  clearbody q p. clear Hr. repeat rewrite ?orb_true_iff, ?andb_true_iff, ?N.eqb_eq, ?N.leb_le. lia.
Qed.

(** Three bytes that start with E0 to EF, or four, are not a shorter sequence. *)
Lemma not_ok2 n b : (0xE0 ≤ n < 256)%N → ok2 (byte n) b = false.
Proof.
  intros Hn. unfold ok2, in_range. rewrite byte_val_byte by lia.
  rewrite (proj2 (N.leb_gt n 0xDF)) by lia. by rewrite andb_false_r.
Qed.

Lemma not_ok3 n b c : (0xF0 ≤ n < 256)%N → ok3 (byte n) b c = false.
Proof.
  intros Hn. unfold ok3, lead3, in_range. rewrite byte_val_byte by lia.
  rewrite !(proj2 (N.eqb_neq n _)), !(proj2 (N.leb_gt n _)) by lia. by rewrite !andb_false_r.
Qed.

(** What EncodeRune writes is valid. *)
Lemma encode_rune_valid r : is_valid_utf8 (encode_rune r) = true.
Proof.
  unfold encode_rune. set (x := if _ || _ then _ else r).
  assert (x < 0xD800 ∨ 0xE000 ≤ x ≤ 0x10FFFF)%N as Hx.
  { subst x. unfold in_range.
    destruct (N.leb_spec 0xD800 r), (N.leb_spec r 0xDFFF), (N.ltb_spec 0x10FFFF r);
      cbn [andb orb]; unfold RuneError; lia. }
  clearbody x. unfold is_valid_utf8.
  destruct (N.ltb_spec x 0x80); [|destruct (N.ltb_spec x 0x800); [|destruct (N.ltb_spec x 0x10000)]].
  - rewrite chunks_ascii; [done|]. unfold is_ascii_byte. rewrite byte_val_byte by lia.
    by apply N.ltb_lt.
  - rewrite chunks_2; [done|apply high_byte; nlia|]. unfold ok2.
    rewrite cont_byte_mod, andb_true_r, byte_val_byte by nlia. apply in_range_spec. nlia.
  - rewrite chunks_3; [done|apply high_byte; nlia|apply not_ok2; nlia|]. unfold ok3.
    rewrite cont_byte_mod, andb_true_r, !byte_val_byte by nlia. apply lead3_rune. lia.
  - rewrite chunks_4; [done|apply high_byte; nlia|apply not_ok2; nlia|apply not_ok3; nlia|].
    unfold ok4. rewrite !cont_byte_mod, !andb_true_r, !byte_val_byte by nlia. apply lead4_rune. lia.
Qed.

(** What the chunks of a text are made of is valid. *)
Definition chunk_ok (c : chunk) : Prop :=
  is_valid_utf8 (valid_chunk c) = true ∧ match c with CAscii a => is_ascii_byte a = true | _ => True end.

Lemma chunks_ok s : Forall chunk_ok (chunks s).
Proof.
  induction s as [|a s Ha IH|a b s Ha Hb IH|a b c s Ha Hb Hc IH|a b c d s Ha Hb Hc Hd IH
                 |a s Ha Hbad IH] using chunks_ind; [constructor|..];
    [rewrite chunks_ascii by done|rewrite chunks_2 by done|rewrite chunks_3 by done
    |rewrite chunks_4 by done|rewrite Hbad]; (constructor; [|done]); split; try done;
    unfold is_valid_utf8; cbn [valid_chunk];
    [by rewrite chunks_ascii|by rewrite chunks_2|by rewrite chunks_3|by rewrite chunks_4].
Qed.

Lemma to_valid_valid s : is_valid_utf8 (to_valid s) = true.
Proof.
  unfold to_valid, flat_chunks. pose proof (chunks_ok s) as Hs.
  induction Hs as [|c l [Hc _] _ IH]; [done|]. simpl. by apply valid_app.
Qed.

(** ** Base64, standard encoding with padding *)

Definition b64_char (n : N) : ascii :=
  (if n <? 26 then byte (65 + n) else if n <? 52 then byte (71 + n)
   else if n <? 62 then byte (n - 4) else if n =? 62 then "+"%char else "/"%char)%N.

Fixpoint base64 (s : string) : string :=
  match s with
  | "" => ""
  | String a "" =>
    let x := byte_val a in
    String (b64_char (x / 4)) (String (b64_char (x mod 4 * 16)) "==")
  | String a (String b "") =>
    let '(x, y) := (byte_val a, byte_val b) in
    String (b64_char (x / 4)) (String (b64_char (x mod 4 * 16 + y / 16))
      (String (b64_char (y mod 16 * 4)) "="))
  | String a (String b (String c s')) =>
    let '(x, y, z) := (byte_val a, byte_val b, byte_val c) in
    String (b64_char (x / 4)) (String (b64_char (x mod 4 * 16 + y / 16))
      (String (b64_char (y mod 16 * 4 + z / 64)) (String (b64_char (z mod 64)) (base64 s'))))
  end%N.

Example base64_examples :
  base64 "" = "" ∧ base64 "f" = "Zg==" ∧ base64 "fo" = "Zm8=" ∧ base64 "foo" = "Zm9v" ∧
  base64 "foobar" = "Zm9vYmFy" ∧ base64 (String (byte 255) (String (byte 254) "")) = "//4=".
Proof. vm_compute. done. Qed.

Example utf8_examples :
  encode_rune 0x20AC = String (byte 0xE2) (String (byte 0x82) (String (byte 0xAC) "")) ∧
  to_valid (String (byte 0xE2) (String (byte 0x82) "x")) = replacement +:+ replacement +:+ "x" ∧
  is_valid_utf8 (encode_rune 0x1F600) = true.
Proof. vm_compute. done. Qed.
