(* ===== verification/Decimal.v ===== *)
(** * Decimal numbers and doubles

    JSON numbers as text, their value as a float64, and the shortest decimal that
    identifies a float64: what Go's [strconv.ParseFloat] and [FormatFloat] do for
    the encoder and the decoder of [encoding/json].  A double is a [spec_float]
    of 53 bits with exponents up to 1024; [valid64] says that it is canonical. *)
From S2P Require Import Prelude GoStrings GoValue.
From Stdlib Require Import SpecFloat.

Abbreviation prec64 := 53%Z.
Abbreviation emax64 := 1024%Z.

Definition valid64 (f : spec_float) : bool := valid_binary prec64 emax64 f.

Definition is_finite (f : spec_float) : bool :=
  match f with S754_zero _ | S754_finite _ _ _ => true | _ => false end.

(** ** Reading: the double nearest to [M * 10^E], ties to even

    Beyond 10^400 and below 10^-400 the answer is known without the power. *)
Definition read_pos (neg : bool) (M : positive) (E : Z) : spec_float :=
  if (400 <? E)%Z then S754_infinity neg
  else if (Zpos (digits2_pos M) + E <? -400)%Z then S754_zero neg
  else match E with
       | Zneg k =>
         let '(mz, ez, lz) :=
           SFdiv_core_binary prec64 emax64 (Zpos M) 0 (Zpos (Pos.pow 10 k)) 0 in
         binary_round_aux prec64 emax64 neg mz ez lz
       | _ => binary_round prec64 emax64 neg (Pos.mul M (Z.to_pos (10 ^ E))) 0
       end.

Definition read_decimal (neg : bool) (M E : Z) : spec_float :=
  match M with Zpos p => read_pos neg p E | _ => S754_zero neg end.

(** ** Writing: the shortest decimal that reads back

    For each number of digits the decimals just below and just above are tried,
    the nearer one first.  Seventeen digits always suffice for a double; the exact
    expansion is there to make the function total. *)

(** The positive double [m * 2^e] as a fraction. *)
Definition fraction (m : positive) (e : Z) : Z * Z :=
  (Zpos m * 2 ^ Z.max e 0, 2 ^ Z.max (- e) 0)%Z.

(** The place of the decimal point: the least [k] with [num / den < 10^k], from
    an estimate by the binary logarithms. *)
Fixpoint point_from (fuel : nat) (num den k : Z) : Z :=
  match fuel with
  | O => k
  | S fuel' =>
    if (num * 10 ^ Z.max (- k) 0 <? den * 10 ^ Z.max k 0)%Z then k
    else point_from fuel' num den (k + 1)
  end.
Definition decimal_point (num den : Z) : Z :=
  point_from 5 num den ((Z.log2 num - Z.log2 den) * 30103 / 100000 - 1).

(** Trailing zeros of [M] moved to the exponent. *)
Fixpoint drop_zeros (fuel : nat) (M E : Z) : Z * Z :=
  match fuel with
  | O => (M, E)
  | S fuel' => if (M mod 10 =? 0)%Z then drop_zeros fuel' (M / 10) (E + 1) else (M, E)
  end.

Definition candidates (num den dp : Z) (n : nat) : list (Z * Z) :=
  let E := (dp - Z.of_nat n)%Z in
  let a := (num * 10 ^ Z.max (- E) 0)%Z in
  let b := (den * 10 ^ Z.max E 0)%Z in
  let '(c, r) := (a / b, a mod b)%Z in
  let lo := drop_zeros 20 c E in
  let hi := drop_zeros 20 (c + 1) E in
  if (2 * r <? b)%Z || ((2 * r =? b)%Z && Z.even c) then [lo; hi] else [hi; lo].

Definition exact_decimal (m : positive) (e : Z) : Z * Z :=
  match e with
  | Zneg k => (Zpos (Pos.mul m (Pos.pow 5 k)), e)
  | _ => (Zpos m * 2 ^ e, 0)%Z
  end.

Definition sf_eqb (f g : spec_float) : bool :=
  match f, g with
  | S754_zero s, S754_zero t => Bool.eqb s t
  | S754_infinity s, S754_infinity t => Bool.eqb s t
  | S754_nan, S754_nan => true
  | S754_finite s m e, S754_finite t n d => Bool.eqb s t && Pos.eqb m n && Z.eqb e d
  | _, _ => false
  end.

Definition reads_back (m : positive) (e : Z) (c : Z * Z) : bool :=
  sf_eqb (read_decimal false c.1 c.2) (S754_finite false m e).

Definition shortest (m : positive) (e : Z) : Z * Z :=
  let '(num, den) := fraction m e in
  let dp := decimal_point num den in
  default (exact_decimal m e)
    (List.find (reads_back m e) (mjoin (map (candidates num den dp) (seq 1 17)))).

(** ** The text of a JSON number *)

Record number := {
  n_neg : bool;
  n_int : string;
  n_frac : option string;
  n_exp : option (ascii * string * string);
}.

Definition print_number (n : number) : string :=
  (if n_neg n then "-" else "") +:+ n_int n +:+
  match n_frac n with Some f => "." +:+ f | None => "" end +:+
  match n_exp n with Some (c, sign, ds) => String c (sign +:+ ds) | None => "" end.

Fixpoint span_digits (s : string) : string * string :=
  match s with
  | String c s' =>
    if is_digit c then let '(a, b) := span_digits s' in (String c a, b) else ("", s)
  | "" => ("", "")
  end.

Definition digits (s : string) : bool := negb (bool_decide (s = "")) && all_bytes is_digit s.

Definition is_exp_letter (c : ascii) : bool := bool_decide (c = "e"%char ∨ c = "E"%char).
Definition is_sign (s : string) : bool := bool_decide (s = "" ∨ s = "+" ∨ s = "-").

(** No leading zero, at least one digit everywhere. *)
Definition int_ok (s : string) : bool :=
  match s with
  | String c s' => if bool_decide (c = "0"%char) then bool_decide (s' = "") else digits s
  | "" => false
  end.
Definition number_ok (n : number) : bool :=
  int_ok (n_int n) &&
  match n_frac n with Some f => digits f | None => true end &&
  match n_exp n with
  | Some (c, sign, ds) => is_exp_letter c && is_sign sign && digits ds
  | None => true
  end.

Definition scan_int (s : string) : option (string * string) :=
  match s with
  | String c s' =>
    if bool_decide (c = "0"%char) then Some ("0", s')
    else match span_digits s with ("", _) => None | r => Some r end
  | "" => None
  end.
Definition scan_frac (s : string) : option (option string * string) :=
  match s with
  | String c s' =>
    if bool_decide (c = "."%char)
    then match span_digits s' with ("", _) => None | (f, r) => Some (Some f, r) end
    else Some (None, s)
  | "" => Some (None, "")
  end.
Definition scan_sign (s : string) : string * string :=
  match s with
  | String c s' =>
    if bool_decide (c = "+"%char) then ("+", s') else
    if bool_decide (c = "-"%char) then ("-", s') else ("", s)
  | "" => ("", "")
  end.
Definition scan_exp (s : string) : option (option (ascii * string * string) * string) :=
  match s with
  | String c s' =>
    if is_exp_letter c then
      let '(sign, r) := scan_sign s' in
      match span_digits r with ("", _) => None | (ds, r') => Some (Some (c, sign, ds), r') end
    else Some (None, s)
  | "" => Some (None, "")
  end.
Definition scan_neg (s : string) : bool * string :=
  match s with
  | String c s' => if bool_decide (c = "-"%char) then (true, s') else (false, s)
  | "" => (false, "")
  end.
Definition scan_number (s : string) : option (number * string) :=
  let '(neg, s1) := scan_neg s in
  '(i, s2) ← scan_int s1;
  '(f, s3) ← scan_frac s2;
  '(e, s4) ← scan_exp s3;
  Some ({| n_neg := neg; n_int := i; n_frac := f; n_exp := e |}, s4).

(** ** The value of a number *)

Definition digits_value (s : string) : Z := default 0%Z (parse_digits 0 s).
Definition exp_value (n : number) : Z :=
  match n_exp n with
  | Some (_, sign, ds) =>
    let x := digits_value ds in if bool_decide (sign = "-") then (- x)%Z else x
  | None => 0%Z
  end.
Definition read_number (n : number) : spec_float :=
  let f := default "" (n_frac n) in
  read_decimal (n_neg n) (digits_value (n_int n +:+ f))
    (exp_value n - Z.of_nat (String.length f)).

(** ** The number the encoder writes for an integer and for a finite double

    Fixed-point notation unless the exponent is below -6 or at least 21. *)
Definition number_of_Z (z : Z) : number :=
  {| n_neg := (z <? 0)%Z; n_int := itoa (Z.abs z); n_frac := None; n_exp := None |}.

Fixpoint zeros (n : nat) : string := match n with O => "" | S n' => String "0" (zeros n') end.

Fixpoint str_take (n : nat) (s : string) : string :=
  match n, s with S n', String c s' => String c (str_take n' s') | _, _ => "" end.
Fixpoint str_drop (n : nat) (s : string) : string :=
  match n, s with S n', String _ s' => str_drop n' s' | _, _ => s end.

Arguments str_take !n !s / : simpl nomatch.
Arguments str_drop !n !s / : simpl nomatch.

Definition exp_part (x : Z) : option (ascii * string * string) :=
  Some ("e"%char, if (x <? 0)%Z then "-" else "+", itoa (Z.abs x)).

Definition number_of_decimal (neg : bool) (M E : Z) : number :=
  let ds := itoa M in
  let dp := (Z.of_nat (String.length ds) + E)%Z in
  if (dp - 1 <? -6)%Z || (21 <=? dp - 1)%Z then
    let rest := str_drop 1 ds in
    {| n_neg := neg; n_int := str_take 1 ds;
       n_frac := if bool_decide (rest = "") then None else Some rest;
       n_exp := exp_part (dp - 1) |}
  else if (0 <=? E)%Z then
    {| n_neg := neg; n_int := ds +:+ zeros (Z.to_nat E); n_frac := None; n_exp := None |}
  else if (0 <? dp)%Z then
    {| n_neg := neg; n_int := str_take (Z.to_nat dp) ds;
       n_frac := Some (str_drop (Z.to_nat dp) ds); n_exp := None |}
  else
    {| n_neg := neg; n_int := "0"; n_frac := Some (zeros (Z.to_nat (- dp)) +:+ ds);
       n_exp := None |}.

Definition number_of_float (f : spec_float) : number :=
  match f with
  | S754_finite s m e => let '(M, E) := shortest m e in number_of_decimal s M E
  | S754_zero s => {| n_neg := s; n_int := "0"; n_frac := None; n_exp := None |}
  | _ => {| n_neg := false; n_int := "0"; n_frac := None; n_exp := None |}
  end.

(** ** [%v] of a double: the exponent has at least two digits *)
Definition format_g (f : spec_float) : string :=
  match f with
  | S754_nan => "NaN"
  | S754_infinity s => if s then "-Inf" else "+Inf"
  | S754_zero s => if s then "-0" else "0"
  | S754_finite s m e =>
    let '(M, E) := shortest m e in
    let ds := itoa M in
    let x := (Z.of_nat (String.length ds) + E - 1)%Z in
    (if s then "-" else "") +:+
    if (x <? -4)%Z || (6 <=? x)%Z then
      let rest := str_drop 1 ds in
      str_take 1 ds +:+ (if bool_decide (rest = "") then "" else "." +:+ rest) +:+
      (if (x <? 0)%Z then "e-" else "e+") +:+
      (if (Z.abs x <? 10)%Z then "0" else "") +:+ itoa (Z.abs x)
    else
      let n := number_of_decimal false M E in
      n_int n +:+ match n_frac n with Some f => "." +:+ f | None => "" end
  end.

(** [fmt]'s floats, given in full; only the order of maps with keys of mixed
    types is left open. *)
Definition go_fmt (imap : list (value * value) → string) : GoFmt :=
  {| format_float_other := format_g; sprint_imap := imap |}.

(** ** Examples *)

Definition dbl (M E : Z) : spec_float := read_decimal false M E.
Definition json_float (f : spec_float) : string := print_number (number_of_float f).

Example float_examples :
  json_float (dbl 1 (-1)) = "0.1" ∧ json_float (dbl 25 (-1)) = "2.5" ∧
  json_float (dbl 1 20) = "100000000000000000000" ∧ json_float (dbl 1 21) = "1e+21" ∧
  json_float (dbl 1 (-6)) = "0.000001" ∧ json_float (dbl 1 (-7)) = "1e-7" ∧
  json_float (dbl 5 (-324)) = "5e-324" ∧
  json_float (dbl 17976931348623157 292) = "1.7976931348623157e+308" ∧
  is_finite (dbl 17 307) = true ∧ is_finite (dbl 18 307) = false ∧
  json_float (SFdiv prec64 emax64 (dbl 1 0) (dbl 3 0)) = "0.3333333333333333" ∧
  format_g (dbl 123456789 0) = "1.23456789e+08" ∧ format_g (dbl 15 (-6)) = "1.5e-05" ∧
  format_g (dbl 3141 (-3)) = "3.141" ∧ format_g (dbl 1 (-4)) = "0.0001".
Proof. vm_compute. repeat split. Qed.

(** ** Reading back

    An exact value is not changed by rounding: shifting a canonical mantissa to
    the left and rounding gives it back. *)

Lemma iter_pos_nat {A} (f : A → A) p x : iter_pos f p x = Nat.iter (Pos.to_nat p) f x.
Proof.
  revert x. induction p as [p IH|p IH|]; intros x; cbn [iter_pos]; [| |done].
  - rewrite !IH, Pos2Nat.inj_xI, Nat.iter_succ_r, <- Nat.iter_add. f_equal. lia.
  - rewrite !IH, Pos2Nat.inj_xO, <- Nat.iter_add. f_equal. lia.
Qed.

(** [m] with [n] zero bits after it. *)
Fixpoint shl (m : positive) (n : nat) : positive :=
  match n with O => m | S n' => xO (shl m n') end.

Lemma shl_Z m n : Zpos (shl m n) = (Zpos m * 2 ^ Z.of_nat n)%Z.
Proof.
  induction n as [|n IH]; [simpl; lia|]. cbn [shl].
  rewrite Pos2Z.inj_xO, IH, Nat2Z.inj_succ, Z.pow_succ_r by lia. lia.
Qed.

Lemma digits2_shl m n : Zpos (digits2_pos (shl m n)) = (Zpos (digits2_pos m) + Z.of_nat n)%Z.
Proof.
  induction n as [|n IH]; [simpl; lia|]. cbn [shl digits2_pos].
  rewrite Pos2Z.inj_succ, IH. lia.
Qed.

Lemma shr_shl m n :
  Nat.iter n shr_1 {| shr_m := Zpos (shl m n); shr_r := false; shr_s := false |}
  = {| shr_m := Zpos m; shr_r := false; shr_s := false |}.
Proof. induction n as [|n IH]; [done|]. rewrite Nat.iter_succ_r. exact IH. Qed.

Lemma shr_fexp_exact m e n :
  canonical_mantissa prec64 emax64 m e = true →
  shr_fexp prec64 emax64 (Zpos (shl m n)) (e - Z.of_nat n) loc_Exact =
    ({| shr_m := Zpos m; shr_r := false; shr_s := false |}, e).
Proof.
  unfold canonical_mantissa, shr_fexp. intros Hc%Z.eqb_eq. cbn [Zdigits2 shr_record_of_loc].
  rewrite digits2_shl.
  replace (Zpos (digits2_pos m) + Z.of_nat n + (e - Z.of_nat n))%Z
    with (Zpos (digits2_pos m) + e)%Z by lia.
  rewrite Hc. replace (e - (e - Z.of_nat n))%Z with (Z.of_nat n) by lia.
  unfold shr. destruct n as [|n]; [simpl; by rewrite Z.sub_0_r|].
  change (Z.of_nat (S n)) with (Zpos (Pos.of_succ_nat n)). cbv iota beta.
  rewrite iter_pos_nat, SuccNat2Pos.id_succ, shr_shl.
  f_equal. lia.
Qed.

Lemma round_exact neg m e n :
  bounded prec64 emax64 m e = true →
  binary_round_aux prec64 emax64 neg (Zpos (shl m n)) (e - Z.of_nat n) loc_Exact =
    S754_finite neg m e.
Proof.
  unfold bounded. intros [Hc He]%andb_prop. unfold binary_round_aux.
  rewrite shr_fexp_exact by done. cbn [shr_m loc_of_shr_record round_nearest_even].
  pose proof (shr_fexp_exact m e 0 Hc) as H0. rewrite Z.sub_0_r in H0.
  change (shl m 0) with m in H0. rewrite H0. cbn [shr_m]. by rewrite He.
Qed.

Lemma canonical_fexp m e :
  bounded prec64 emax64 m e = true → fexp prec64 emax64 (Zpos (digits2_pos m) + e) = e.
Proof. unfold bounded, canonical_mantissa. by intros [Hc%Z.eqb_eq _]%andb_prop. Qed.

Lemma binary_round_exact neg m n :
  bounded prec64 emax64 m (Z.of_nat n) = true →
  binary_round prec64 emax64 neg (shl m n) 0 = S754_finite neg m (Z.of_nat n).
Proof.
  intros Hb. pose proof (canonical_fexp _ _ Hb) as Hf. unfold binary_round.
  rewrite digits2_shl, Z.add_0_r, Hf. unfold shl_align. rewrite Z.sub_0_r.
  pose proof (round_exact neg m _ n Hb) as Hr. rewrite Z.sub_diag in Hr.
  by destruct n.
Qed.

Lemma digits2_bounds p :
  (2 ^ (Zpos (digits2_pos p) - 1) ≤ Zpos p < 2 ^ Zpos (digits2_pos p))%Z.
Proof.
  induction p as [p IH|p IH|]; cbn [digits2_pos]; [| |done];
    rewrite Pos2Z.inj_succ; replace (Z.succ (Zpos (digits2_pos p)) - 1)%Z
      with (Z.succ (Zpos (digits2_pos p) - 1)) by lia;
    rewrite !Z.pow_succ_r by lia; lia.
Qed.

(** A bound on the number of bits from a bound on the value. *)
Lemma digits2_le p q (x : Z) :
  (0 ≤ x)%Z → (Zpos p < Zpos q * 2 ^ x)%Z →
  (Zpos (digits2_pos p) ≤ Zpos (digits2_pos q) + x)%Z.
Proof.
  intros Hx Hlt. destruct (digits2_bounds p) as [Hp _], (digits2_bounds q) as [_ Hq].
  assert (2 ^ (Zpos (digits2_pos p) - 1) < 2 ^ (Zpos (digits2_pos q) + x))%Z as Hl.
  { rewrite Z.pow_add_r by lia. etrans; [|apply Z.mul_lt_mono_pos_r, Hq; lia]. lia. }
  apply Z.pow_lt_mono_r_iff in Hl; lia.
Qed.

Lemma pow10_split k : (10 ^ Zpos k = 5 ^ Zpos k * 2 ^ Zpos k)%Z.
Proof. by rewrite <- Z.pow_mul_l. Qed.

(** Dividing an exact multiple leaves no remainder. *)
Lemma div_core_exact m k :
  bounded prec64 emax64 m (Zneg k) = true →
  ∃ n, SFdiv_core_binary prec64 emax64 (Zpos (m * 5 ^ k)) 0 (Zpos (10 ^ k)) 0 =
    (Zpos (shl m n), Zneg k - Z.of_nat n, loc_Exact)%Z.
Proof.
  intros Hb. pose proof (canonical_fexp _ _ Hb) as Hf. unfold SFdiv_core_binary.
  cbn [Zdigits2]. rewrite !Z.add_0_r, Z.sub_0_r.
  set (d1 := Zpos (digits2_pos (m * 5 ^ k))). set (d2 := Zpos (digits2_pos (10 ^ k))).
  assert (d1 - d2 ≤ Zpos (digits2_pos m) + Zneg k)%Z as Hd.
  { assert (Zpos (digits2_pos (m * 5 ^ k)) + Zpos k ≤
            Zpos (digits2_pos m) + Zpos (digits2_pos (10 ^ k)))%Z; [|lia].
    destruct (digits2_bounds (m * 5 ^ k)) as [Hp _].
    destruct (digits2_bounds m) as [_ Hq], (digits2_bounds (10 ^ k)) as [_ Hr].
    rewrite Pos2Z.inj_mul, Pos2Z.inj_pow in Hp. rewrite Pos2Z.inj_pow, pow10_split in Hr.
    assert (2 ^ (Zpos (digits2_pos (m * 5 ^ k)) - 1 + Zpos k) <
            2 ^ (Zpos (digits2_pos m) + Zpos (digits2_pos (10 ^ k))))%Z as Hl.
    { rewrite !Z.pow_add_r by lia.
      set (P := (2 ^ (Zpos (digits2_pos (m * 5 ^ k)) - 1))%Z) in *.
      set (T := (2 ^ Zpos k)%Z) in *. assert (0 < T)%Z by (apply Z.pow_pos_nonneg; lia).
      set (F := (5 ^ Zpos k)%Z) in *. assert (0 < F)%Z by (apply Z.pow_pos_nonneg; lia).
      nia. }
    apply Z.pow_lt_mono_r_iff in Hl; lia. }
  assert (fexp prec64 emax64 (d1 - d2) ≤ Zneg k)%Z as He.
  { rewrite <- Hf. unfold fexp. lia. }
  set (e' := Z.min (fexp prec64 emax64 (d1 - d2)) 0).
  assert (e' ≤ Zneg k)%Z as He' by lia.
  exists (Z.to_nat (Zneg k - e')). rewrite Z2Nat.id by lia.
  rewrite Z.sub_0_l.
  destruct (- e')%Z as [|p|p] eqn:Hp; [lia| |lia].
  rewrite Z.shiftl_mul_pow2 by lia.
  assert (Zpos (m * 5 ^ k) * 2 ^ Zpos p =
          Zpos (shl m (Z.to_nat (Zneg k - e'))) * Zpos (10 ^ k))%Z as ->.
  { rewrite shl_Z, Z2Nat.id by lia. rewrite Pos2Z.inj_mul, !Pos2Z.inj_pow, pow10_split.
    replace (Zpos p) with (Zneg k - e' + Zpos k)%Z by lia.
    rewrite Z.pow_add_r by lia. lia. }
  pose proof (Z_div_mod (Zpos (shl m (Z.to_nat (Zneg k - e'))) * Zpos (10 ^ k))
                (Zpos (10 ^ k)) ltac:(lia)) as Hdm.
  destruct (Z.div_eucl _ _) as [q r]. destruct Hdm as [Heq Hr].
  destruct (Z.div_mod_unique (Zpos (10 ^ k)) q (Zpos (shl m (Z.to_nat (Zneg k - e')))) r 0)
    as [-> ->]; [lia..|].
  f_equal; [f_equal; lia|]. unfold new_location. by destruct (Z.even _).
Qed.

Lemma digits2_exact_neg m k : (Zpos k ≤ Zpos (digits2_pos (m * 5 ^ k)))%Z.
Proof.
  destruct (digits2_bounds (m * 5 ^ k)) as [_ Hp]. rewrite Pos2Z.inj_mul, Pos2Z.inj_pow in Hp.
  assert (2 ^ Zpos k ≤ 5 ^ Zpos k)%Z by (apply Z.pow_le_mono_l; lia).
  assert (2 ^ Zpos k < 2 ^ Zpos (digits2_pos (m * 5 ^ k)))%Z as Hl.
  { assert (1 ≤ Zpos m)%Z by lia. nia. }
  apply Z.pow_lt_mono_r_iff in Hl; lia.
Qed.

(** The exact expansion of a double reads back as that double. *)
Lemma read_exact neg m e :
  bounded prec64 emax64 m e = true →
  read_decimal neg (exact_decimal m e).1 (exact_decimal m e).2 = S754_finite neg m e.
Proof.
  intros Hb.
  assert (∀ n, e = Z.of_nat n →
    read_decimal neg (Zpos m * 2 ^ e) 0 = S754_finite neg m e) as Hpos.
  { intros n ->. rewrite <- shl_Z. unfold read_decimal, read_pos.
    rewrite (proj2 (Z.ltb_ge 400 0)) by lia. rewrite (proj2 (Z.ltb_ge _ (-400))) by lia.
    change (Z.to_pos (10 ^ 0)) with 1%positive. rewrite Pos.mul_1_r.
    by apply binary_round_exact. }
  destruct e as [|p|k]; unfold exact_decimal; cbn [fst snd].
  - by apply (Hpos 0).
  - apply (Hpos (Pos.to_nat p)). lia.
  - unfold read_decimal, read_pos. rewrite (proj2 (Z.ltb_ge 400 _)) by lia.
    pose proof (digits2_exact_neg m k).
    rewrite (proj2 (Z.ltb_ge _ (-400))) by lia.
    destruct (div_core_exact m k Hb) as [n ->]. by apply round_exact.
Qed.

Lemma sf_eqb_eq f g : sf_eqb f g = true ↔ f = g.
Proof.
  split; [|intros ->; destruct g as [[]|[]| |[] m e]; simpl; try done;
           by rewrite Pos.eqb_refl, Z.eqb_refl].
  destruct f as [[]|[]| |[] m e], g as [[]|[]| |[] n d]; simpl; try done;
    intros [->%Pos.eqb_eq ->%Z.eqb_eq]%andb_prop; done.
Qed.

Lemma sign_round neg mz ez lz :
  binary_round_aux prec64 emax64 neg mz ez lz =
  (if neg then SFopp else id) (binary_round_aux prec64 emax64 false mz ez lz).
Proof.
  unfold binary_round_aux. destruct (shr_fexp _ _ _ _ _) as [mrs e'].
  destruct (shr_fexp _ _ _ _ _) as [mrs' e'']. destruct neg; [|done].
  destruct (shr_m mrs') as [|p|p]; try done. by destruct (e'' <=? _)%Z.
Qed.

Lemma sign_read neg M E :
  read_decimal neg M E = (if neg then SFopp else id) (read_decimal false M E).
Proof.
  unfold read_decimal, read_pos, binary_round. destruct neg; [|done].
  destruct M as [|p|p]; [done| |done].
  destruct (400 <? E)%Z; [done|]. destruct (_ <? -400)%Z; [done|].
  destruct E as [|q|q]; [destruct (shl_align _ _ _); by rewrite sign_round..|].
  destruct (SFdiv_core_binary _ _ _ _ _ _) as [[mz ez] lz]. by rewrite sign_round.
Qed.

(** The shortest decimal reads back, with either sign. *)
Lemma read_shortest neg m e :
  bounded prec64 emax64 m e = true →
  read_decimal neg (shortest m e).1 (shortest m e).2 = S754_finite neg m e.
Proof.
  intros Hb. unfold shortest. destruct (fraction m e) as [num den].
  destruct (List.find _ _) as [[M E]|] eqn:Hf; simpl; [|by apply read_exact].
  apply List.find_some in Hf as [_ Hr%sf_eqb_eq]. simpl in Hr.
  rewrite sign_read, Hr. by destruct neg.
Qed.

(** ** Digit strings *)

Lemma str_take_drop n s : str_take n s +:+ str_drop n s = s.
Proof.
  revert s. induction n as [|n IH]; intros [|c s]; try done.
  cbn [str_take str_drop]. change (String c (str_take n s) +:+ str_drop n s)
    with (String c (str_take n s +:+ str_drop n s)). by rewrite IH.
Qed.

Lemma length_str_drop n s : String.length (str_drop n s) = String.length s - n.
Proof. revert s. induction n as [|n IH]; intros [|c s]; simpl; auto. Qed.

Lemma all_bytes_take_drop p n s :
  all_bytes p s = true → all_bytes p (str_take n s) = true ∧ all_bytes p (str_drop n s) = true.
Proof.
  intros Hs. rewrite <- (str_take_drop n s), all_bytes_app in Hs. by apply andb_prop.
Qed.

Lemma zeros_digits n : all_bytes is_digit (zeros n) = true.
Proof. by induction n. Qed.

Lemma length_zeros n : String.length (zeros n) = n.
Proof. induction n as [|n IH]; simpl; [done|]. by rewrite IH. Qed.

Lemma parse_digits_app acc s t :
  parse_digits acc (s +:+ t) = x ← parse_digits acc s; parse_digits x t.
Proof.
  revert acc. induction s as [|c s IH]; intros acc; [done|].
  change (String c s +:+ t) with (String c (s +:+ t)). cbn [parse_digits].
  destruct (is_digit c); [apply IH|done].
Qed.

Lemma parse_digits_zeros_l n s : parse_digits 0 (zeros n +:+ s) = parse_digits 0 s.
Proof. by induction n. Qed.

Lemma parse_digits_zeros_r acc n : parse_digits acc (zeros n) = Some (acc * 10 ^ Z.of_nat n)%Z.
Proof.
  revert acc. induction n as [|n IH]; intros acc; [simpl; f_equal; lia|].
  cbn [zeros parse_digits]. change (is_digit "0") with true. cbv iota.
  rewrite IH, Nat2Z.inj_succ, Z.pow_succ_r by lia. f_equal.
  change (digit_val "0") with 0%Z. lia.
Qed.

Lemma pretty_go_lead (x : N) s :
  (0 < x)%N → ∃ c t, pretty_N_go x s = String c t ∧ c ≠ "0"%char.
Proof.
  revert s. induction (N.lt_wf_0 x) as [x _ IH]; intros s Hx.
  rewrite pretty_N_go_step by done. destruct (decide (x `div` 10 = 0)%N) as [Hd|Hd].
  - rewrite Hd, pretty_N_go_0. eexists _, _. split; [done|].
    apply N.div_small_iff in Hd; [|done]. rewrite N.mod_small by done.
    assert (x ∈ [1;2;3;4;5;6;7;8;9])%N as Hin by (set_unfold; lia).
    repeat (apply elem_of_cons in Hin as [->|Hin]; [done|]). set_solver.
  - apply IH; [by apply N.div_lt|by apply N.neq_0_lt_0].
Qed.

Lemma itoa_pos z :
  (0 < z)%Z →
  ∃ c t, itoa z = String c t ∧ c ≠ "0"%char ∧ digits (itoa z) = true ∧ digits_value (itoa z) = z.
Proof.
  intros Hz. rewrite itoa_nonneg by lia.
  destruct (pretty_go_lead (Z.to_N z) "" ltac:(lia)) as (c & t & Hp & Hc).
  pose proof (pretty_N_digits (Z.to_N z)) as Hd.
  pose proof (parse_digits_pretty (Z.to_N z)) as Hv.
  assert (pretty (Z.to_N z) = String c t) as Heq.
  { unfold pretty, pretty_N. by rewrite decide_False by lia. }
  rewrite Heq in *. exists c, t. split_and!; [done|done| |].
  - unfold digits. by rewrite Hd.
  - unfold digits_value. rewrite Hv. simpl. by rewrite Z2N.id by lia.
Qed.

Lemma digits_value_itoa z : (0 ≤ z)%Z → digits (itoa z) = true ∧ digits_value (itoa z) = z.
Proof.
  intros Hz. destruct (decide (z = 0)%Z) as [->|]; [done|].
  assert (0 < z)%Z as Hz' by lia. destruct (itoa_pos z Hz') as (c & t & _ & _ & ? & ?). done.
Qed.

Lemma digits_all s : digits s = true → all_bytes is_digit s = true.
Proof. unfold digits. by intros [_ ?]%andb_prop. Qed.

Lemma digits_intro s : s ≠ "" → all_bytes is_digit s = true → digits s = true.
Proof. unfold digits. intros Hs Ha. by rewrite Ha, bool_decide_false. Qed.

Lemma int_ok_lead c s : c ≠ "0"%char → digits (String c s) = true → int_ok (String c s) = true.
Proof. intros Hc Hd. unfold int_ok. by rewrite bool_decide_false. Qed.

(** ** The numbers the encoder writes *)

Lemma number_of_Z_ok z : number_ok (number_of_Z z) = true.
Proof.
  unfold number_of_Z, number_ok; simpl. rewrite !andb_true_r.
  destruct (decide (z = 0)%Z) as [->|]; [done|].
  destruct (itoa_pos (Z.abs z) ltac:(lia)) as (c & t & Heq & Hc & Hd & _).
  rewrite Heq in *. by apply int_ok_lead.
Qed.

Lemma print_number_of_Z z : print_number (number_of_Z z) = itoa z.
Proof.
  unfold print_number, number_of_Z; cbn [n_neg n_int n_frac n_exp]. rewrite str_app_nil.
  destruct (Z.ltb_spec z 0).
  - rewrite (itoa_neg z), (itoa_nonneg (Z.abs z)) by lia. by replace (Z.abs z) with (- z)%Z by lia.
  - by replace (Z.abs z) with z by lia.
Qed.

(** Powers of ten in the mantissa or in the exponent. *)
Lemma read_decimal_scale neg M n :
  (n ≤ 400) →
  read_decimal neg (M * 10 ^ Z.of_nat n) 0 = read_decimal neg M (Z.of_nat n).
Proof.
  intros Hn. destruct M as [|p|p]; [done| |]; unfold read_decimal.
  - assert (∃ q, 10 ^ Z.of_nat n = Zpos q)%Z as [q Hq].
    { pose proof (Z.pow_pos_nonneg 10 (Z.of_nat n)).
      destruct (10 ^ Z.of_nat n)%Z as [|q|q]; [lia|by exists q|lia]. }
    rewrite Hq. unfold read_pos.
    assert (∀ x y, (0 ≤ y)%Z → (Zpos (digits2_pos x) + y <? -400)%Z = false)
      as Hlow by (intros; apply Z.ltb_ge; lia).
    rewrite !Hlow by lia.
    rewrite (proj2 (Z.ltb_ge 400 (Z.of_nat n))) by lia. change (400 <? 0)%Z with false. cbv iota.
    change (Zpos p * Zpos q)%Z with (Zpos (p * q)). cbv beta iota.
    rewrite (Hlow (p * q)%positive) by done.
    change (Z.to_pos (10 ^ 0)) with 1%positive. rewrite Pos.mul_1_r, Hq.
    by destruct (Z.of_nat n) eqn:Hz; [| |lia].
  - pose proof (Z.pow_pos_nonneg 10 (Z.of_nat n)).
    by destruct (10 ^ Z.of_nat n)%Z as [|q|q]; [lia| |lia].
Qed.

Lemma exp_value_part n x : n_exp n = exp_part x → exp_value n = x.
Proof.
  intros Hn. unfold exp_value. rewrite Hn. unfold exp_part.
  rewrite (proj2 (digits_value_itoa (Z.abs x) ltac:(lia))).
  destruct (Z.ltb_spec x 0); [rewrite bool_decide_true by done; lia|].
  rewrite bool_decide_false by done. lia.
Qed.

Lemma exp_part_ok x :
  match exp_part x with
  | Some (c, sign, ds) => is_exp_letter c && is_sign sign && digits ds
  | None => true
  end = true.
Proof.
  unfold exp_part. rewrite (proj1 (digits_value_itoa (Z.abs x) ltac:(lia))).
  by destruct (x <? 0)%Z.
Qed.

(** The digits of a positive integer: a prefix is an integer, and so are they with
    zeros after them. *)
Lemma itoa_take M k : (0 < M)%Z → 0 < k → int_ok (str_take k (itoa M)) = true.
Proof.
  intros HM Hk. destruct (itoa_pos M HM) as (c & t & -> & Hc & Hd & _).
  apply digits_all in Hd. destruct k as [|k]; [lia|]. cbn [str_take].
  apply int_ok_lead; [done|]. apply digits_intro; [done|].
  cbn in Hd. apply andb_prop in Hd as [Hc' Ht]. cbn. rewrite Hc'. by apply all_bytes_take_drop.
Qed.

Lemma itoa_zeros_ok M n : (0 < M)%Z → int_ok (itoa M +:+ zeros n) = true.
Proof.
  intros HM. destruct (itoa_pos M HM) as (c & t & -> & Hc & Hd & _). apply digits_all in Hd.
  rewrite str_app_cons. apply int_ok_lead; [done|]. apply digits_intro; [done|].
  by rewrite <- str_app_cons, all_bytes_app, Hd, zeros_digits.
Qed.

Lemma digits_value_zeros M n :
  (0 < M)%Z → digits_value (itoa M +:+ zeros n) = (M * 10 ^ Z.of_nat n)%Z.
Proof.
  intros HM. destruct (digits_value_itoa M ltac:(lia)) as [_ Hv].
  unfold digits_value in *. rewrite parse_digits_app.
  destruct (parse_digits 0 (itoa M)) as [x|]; simpl in Hv; [|lia]. subst x. simpl mbind.
  by rewrite parse_digits_zeros_r.
Qed.

Lemma number_of_decimal_spec neg M E :
  (0 < M)%Z →
  number_ok (number_of_decimal neg M E) = true ∧
  read_number (number_of_decimal neg M E) = read_decimal neg M E.
Proof.
  intros HM. destruct (itoa_pos M HM) as (c & t & Heq & Hc & Hd & Hv).
  unfold number_of_decimal. set (ds := itoa M) in *.
  assert (all_bytes is_digit ds = true) as Ha by by apply digits_all.
  assert (String.length ds = S (String.length t)) as Hlen by by rewrite Heq.
  set (dp := (Z.of_nat (String.length ds) + E)%Z).
  assert (∀ k, 0 < k → int_ok (str_take k ds) = true) as Hlead by (intros k; by apply itoa_take).
  destruct ((dp - 1 <? -6)%Z || (21 <=? dp - 1)%Z) eqn:Hexp; [|destruct (Z.leb_spec 0 E);
    [|destruct (Z.ltb_spec 0 dp)]].
  - assert (digits_value (str_take 1 ds +:+ str_drop 1 ds) = M) as Hval by by rewrite str_take_drop.
    split.
    + unfold number_ok; cbn [n_int n_frac n_exp]. rewrite Hlead, exp_part_ok by lia.
      case_bool_decide; simpl; [done|]. rewrite andb_true_r. apply digits_intro; [done|].
      by apply all_bytes_take_drop.
    + unfold read_number. rewrite (exp_value_part _ (dp - 1)) by done.
      cbn [n_neg n_int n_frac].
      assert (default "" (if bool_decide (str_drop 1 ds = "") then None else Some (str_drop 1 ds))
              = str_drop 1 ds) as -> by by case_bool_decide.
      rewrite Hval, length_str_drop. f_equal. lia.
  - apply orb_false_iff in Hexp as [_ Hhi%Z.leb_gt]. split.
    + unfold number_ok; cbn [n_int n_frac n_exp]. rewrite !andb_true_r. by apply itoa_zeros_ok.
    + unfold read_number, exp_value; cbn [n_neg n_int n_frac n_exp]. simpl default.
      rewrite str_app_nil. simpl String.length. subst ds. rewrite digits_value_zeros, Z.sub_0_r by done.
      rewrite read_decimal_scale by lia. by rewrite Z2Nat.id by lia.
  - assert (digits_value (str_take (Z.to_nat dp) ds +:+ str_drop (Z.to_nat dp) ds) = M) as Hval
      by by rewrite str_take_drop.
    split.
    + unfold number_ok; cbn [n_int n_frac n_exp]. rewrite Hlead by lia. simpl.
      rewrite andb_true_r. apply digits_intro; [|by apply all_bytes_take_drop].
      intros He. apply (f_equal String.length) in He. rewrite length_str_drop in He.
      simpl in He. lia.
    + unfold read_number, exp_value; cbn [n_neg n_int n_frac n_exp]. simpl default.
      rewrite Hval, length_str_drop. f_equal. lia.
  - split.
    + unfold number_ok; cbn [n_int n_frac n_exp]. simpl.
      rewrite andb_true_r. apply digits_intro.
      * intros He. apply (f_equal String.length) in He. rewrite length_str_app in He.
        simpl in He. lia.
      * by rewrite all_bytes_app, zeros_digits, Ha.
    + unfold read_number, exp_value; cbn [n_neg n_int n_frac n_exp]. simpl default.
      rewrite length_str_app, length_zeros. f_equal; [|lia].
      unfold digits_value in *. change ("0" +:+ (zeros (Z.to_nat (- dp)) +:+ ds)) with
        (zeros (S (Z.to_nat (- dp))) +:+ ds). by rewrite parse_digits_zeros_l.
Qed.

(** A finite double is written as a number that reads back as itself. *)
Lemma number_of_float_spec f :
  valid64 f = true → is_finite f = true →
  number_ok (number_of_float f) = true ∧ read_number (number_of_float f) = f.
Proof.
  destruct f as [s|s| |s m e]; try done; intros Hv _.
  unfold number_of_float. pose proof (read_shortest s m e Hv) as Hr.
  destruct (shortest m e) as [M E]. cbn [fst snd] in Hr. rewrite <- Hr.
  apply number_of_decimal_spec. destruct M; [done|lia|done].
Qed.

(** An integer below 2^53 is a double, and reads back as itself. *)
Definition int_shift (p : positive) : nat := Z.to_nat (53 - Zpos (digits2_pos p)).

Lemma int_digits p : (Zpos p < 2 ^ 53)%Z → (Zpos (digits2_pos p) ≤ 53)%Z.
Proof.
  intros Hp. destruct (digits2_bounds p) as [Hlo _].
  assert (2 ^ (Zpos (digits2_pos p) - 1) < 2 ^ 53)%Z as Hl by lia.
  apply Z.pow_lt_mono_r_iff in Hl; lia.
Qed.

Lemma int_bounded p :
  (Zpos p < 2 ^ 53)%Z →
  bounded prec64 emax64 (shl p (int_shift p)) (- Z.of_nat (int_shift p)) = true.
Proof.
  intros Hp%int_digits. unfold bounded, canonical_mantissa, fexp, emin. rewrite digits2_shl.
  unfold int_shift. apply andb_true_intro. split; [apply Z.eqb_eq|apply Z.leb_le]; lia.
Qed.

Lemma iter_xO p n : Pos.iter xO p (Pos.of_succ_nat n) = shl p (S n).
Proof.
  rewrite Pos2Nat.inj_iter, SuccNat2Pos.id_succ.
  induction n as [|n IH]; [done|]. cbn. by f_equal.
Qed.

Lemma round_int neg p :
  (Zpos p < 2 ^ 53)%Z →
  binary_round prec64 emax64 neg p 0 =
    S754_finite neg (shl p (int_shift p)) (- Z.of_nat (int_shift p)).
Proof.
  intros Hp. pose proof (int_digits p Hp) as Hd. pose proof (int_bounded p Hp) as Hb.
  assert (fexp prec64 emax64 (Zpos (digits2_pos p) + 0) = - Z.of_nat (int_shift p))%Z as Hf.
  { unfold fexp, emin, int_shift. lia. }
  unfold binary_round. rewrite Hf. unfold shl_align. rewrite Z.sub_0_r.
  pose proof (round_exact neg _ _ 0 Hb) as Hr. rewrite Z.sub_0_r in Hr.
  change (shl (shl p (int_shift p)) 0) with (shl p (int_shift p)) in Hr.
  generalize dependent (int_shift p). intros [|n] _ _ Hr; [done|].
  change (- Z.of_nat (S n))%Z with (Zneg (Pos.of_succ_nat n)) in *. cbv iota beta.
  by rewrite iter_xO.
Qed.

Lemma float_int_shl neg p n :
  float_int (S754_finite neg (shl p n) (- Z.of_nat n)) = Some (if neg then Zneg p else Zpos p).
Proof.
  unfold float_int. rewrite shl_Z. destruct (Z.leb_spec 0 (- Z.of_nat n)).
  - assert (n = 0)%nat as -> by lia. simpl. destruct neg; f_equal; lia.
  - rewrite Z.opp_involutive, Z_mod_mult, Z.eqb_refl.
    rewrite Z.div_mul by (apply Z.pow_nonzero; lia). by destruct neg.
Qed.

Lemma read_decimal_int neg p :
  read_decimal neg (Zpos p) 0 = binary_round prec64 emax64 neg p 0.
Proof.
  unfold read_decimal, read_pos. rewrite (proj2 (Z.ltb_ge 400 0)) by lia.
  rewrite (proj2 (Z.ltb_ge _ (-400))) by lia.
  change (Z.to_pos (10 ^ 0)) with 1%positive. by rewrite Pos.mul_1_r.
Qed.

Lemma read_number_of_Z z :
  (Z.abs z < 2 ^ 53)%Z →
  float_int (read_number (number_of_Z z)) = Some z ∧
  valid64 (read_number (number_of_Z z)) = true.
Proof.
  intros Hz. unfold read_number, number_of_Z, exp_value; cbn [n_neg n_int n_frac n_exp].
  simpl default. rewrite str_app_nil. simpl String.length.
  rewrite (proj2 (digits_value_itoa (Z.abs z) ltac:(lia))).
  change (0 - Z.of_nat 0)%Z with 0%Z.
  destruct z as [|p|p]; [done| |];
    [change (read_decimal _ _ _) with (read_decimal false (Zpos p) 0)
    |change (read_decimal _ _ _) with (read_decimal true (Zpos p) 0)];
    rewrite read_decimal_int, round_int by done; (split; [apply float_int_shl|by apply int_bounded]).
Qed.

(** ** Every reading is a double

    Rounding a mantissa whose exponent is not above the one its digits ask for
    gives a canonical double, zero or an infinity. *)

Abbreviation fexp64 := (fexp prec64 emax64).

Lemma digits2_log2 p : Zpos (digits2_pos p) = (Z.log2 (Zpos p) + 1)%Z.
Proof.
  destruct (digits2_bounds p) as [Hl Hu].
  rewrite (Z.log2_unique (Zpos p) (Zpos (digits2_pos p) - 1)); [lia|lia|].
  split; [done|]. by replace (Z.succ (Zpos (digits2_pos p) - 1)) with (Zpos (digits2_pos p)) by lia.
Qed.

Lemma Zdigits2_div m n :
  (0 ≤ m)%Z → (0 ≤ n)%Z → Zdigits2 (m / 2 ^ n) = Z.max 0 (Zdigits2 m - n).
Proof.
  intros Hm Hn. rewrite <- Z.shiftr_div_pow2 by done.
  destruct m as [|p|p]; [rewrite Z.shiftr_0_l; simpl; lia| |lia].
  pose proof (Z.log2_shiftr (Zpos p) n ltac:(lia)) as Hl.
  assert (0 ≤ Z.shiftr (Zpos p) n)%Z as Hs by by apply Z.shiftr_nonneg.
  cbn [Zdigits2]. rewrite digits2_log2. pose proof (Z.log2_nonneg (Zpos p)).
  destruct (Z.shiftr (Zpos p) n) as [|q|q] eqn:Hq; [| |lia].
  - cbn [Zdigits2]. apply Z.shiftr_eq_0_iff in Hq as [?|[_ ?]]; lia.
  - cbn [Zdigits2]. rewrite digits2_log2, Hl.
    destruct (Z.max_spec 0 (Z.log2 (Zpos p) - n)) as [[? ->]|[? ->]]; [lia|].
    destruct (decide (Z.log2 (Zpos p) < n)%Z); [|lia].
    assert (Z.shiftr (Zpos p) n = 0)%Z; [|lia]. apply Z.shiftr_eq_0_iff. right. lia.
Qed.

Lemma shr_iter n mrs :
  (0 ≤ shr_m mrs)%Z → shr_m (Nat.iter n shr_1 mrs) = (shr_m mrs / 2 ^ Z.of_nat n)%Z.
Proof.
  intros Hm. revert mrs Hm. induction n as [|n IH]; intros mrs Hm; [by rewrite Z.div_1_r|].
  assert (shr_m (shr_1 mrs) = (shr_m mrs / 2)%Z) as H1.
  { destruct mrs as [[|p|p] r s]; [done| |simpl in Hm; lia]. destruct p as [p|p|]; simpl shr_m.
    - change (Zpos p = Zpos p~1 / 2)%Z. rewrite (Pos2Z.inj_xI p). symmetry.
      rewrite Z.mul_comm. apply Z.div_add_l. lia.
    - change (Zpos p = Zpos p~0 / 2)%Z. rewrite (Pos2Z.inj_xO p). symmetry.
      rewrite Z.mul_comm. apply Z.div_mul. lia.
    - done. }
  rewrite Nat.iter_succ_r, IH, H1.
  - rewrite Nat2Z.inj_succ, Z.pow_succ_r by lia. by rewrite Z.div_div by lia.
  - rewrite H1. by apply Z.div_pos.
Qed.

Lemma shr_fexp_spec m e l :
  (0 ≤ m)%Z → (e ≤ fexp64 (Zdigits2 m + e))%Z →
  let '(mrs, e') := shr_fexp prec64 emax64 m e l in
  e' = fexp64 (Zdigits2 m + e) ∧ shr_m mrs = (m / 2 ^ (e' - e))%Z.
Proof.
  intros Hm He. unfold shr_fexp. set (n := (fexp64 (Zdigits2 m + e) - e)%Z).
  assert (shr_m (shr_record_of_loc m l) = m) as Hl by by destruct l as [|[]].
  unfold shr. destruct n as [|p|p] eqn:Hn; subst n.
  - split; [lia|]. by rewrite Z.sub_diag, Z.div_1_r.
  - split; [lia|]. rewrite iter_pos_nat, shr_iter by by rewrite Hl.
    rewrite Hl, positive_nat_Z. f_equal. f_equal. lia.
  - lia.
Qed.

Lemma fexp64_mono x y : (x ≤ y)%Z → (fexp64 x ≤ fexp64 y)%Z.
Proof. unfold fexp. lia. Qed.

Lemma Zdigits2_mono x y : (0 ≤ x ≤ y)%Z → (Zdigits2 x ≤ Zdigits2 y)%Z.
Proof.
  intros [Hx Hy]. destruct x as [|p|p]; [by destruct y|destruct y as [|q|q]; try lia|lia].
  cbn [Zdigits2]. rewrite !digits2_log2. pose proof (Z.log2_le_mono _ _ Hy). lia.
Qed.

Lemma round_valid neg m e l :
  (0 ≤ m)%Z → (e ≤ fexp64 (Zdigits2 m + e))%Z →
  valid64 (binary_round_aux prec64 emax64 neg m e l) = true.
Proof.
  intros Hm He. unfold binary_round_aux. pose proof (shr_fexp_spec m e l Hm He) as H1.
  destruct (shr_fexp prec64 emax64 m e l) as [mrs e1]. destruct H1 as [He1 Hm1].
  assert (0 ≤ shr_m mrs)%Z as Hpos.
  { rewrite Hm1. apply Z.div_pos; [done|]. apply Z.pow_pos_nonneg; lia. }
  set (m1 := round_nearest_even _ _).
  assert (shr_m mrs ≤ m1)%Z as Hge.
  { subst m1. destruct (loc_of_shr_record mrs) as [|[]]; simpl; try case_match; lia. }
  assert (e1 ≤ fexp64 (Zdigits2 m1 + e1))%Z as He2.
  { pose proof (Zdigits2_div m (e1 - e) Hm ltac:(lia)) as Hd. rewrite <- Hm1 in Hd.
    pose proof (Zdigits2_mono (shr_m mrs) m1 ltac:(lia)). revert He1. unfold fexp, emin. lia. }
  pose proof (shr_fexp_spec m1 e1 loc_Exact ltac:(lia) He2) as H2.
  destruct (shr_fexp prec64 emax64 m1 e1 loc_Exact) as [mrs2 e2]. destruct H2 as [He2' Hm2].
  destruct (shr_m mrs2) as [|p|p] eqn:Hp; [done| |done].
  destruct (e2 <=? emax64 - prec64)%Z eqn:Hb; [|done]. cbn [valid64 valid_binary].
  unfold valid64, valid_binary, bounded. rewrite Hb, andb_true_r. apply Z.eqb_eq.
  pose proof (Zdigits2_div m1 (e2 - e1) ltac:(lia) ltac:(lia)) as Hd. rewrite <- Hm2 in Hd.
  cbn [Zdigits2] in Hd. rewrite He2' at 2. f_equal. lia.
Qed.

Lemma round_pos_valid neg p : valid64 (binary_round prec64 emax64 neg p 0) = true.
Proof.
  unfold binary_round. unfold shl_align.
  destruct (fexp64 (Zpos (digits2_pos p) + 0) - 0)%Z as [|d|d] eqn:Hd.
  - apply round_valid; [lia|]. cbn [Zdigits2]. lia.
  - apply round_valid; [lia|]. cbn [Zdigits2]. lia.
  - apply round_valid; [lia|]. cbn [Zdigits2].
    destruct (Pos.to_nat d) as [|n] eqn:Hn; [lia|].
    replace d with (Pos.of_succ_nat n) in * by lia. rewrite iter_xO, digits2_shl.
    rewrite Z.sub_0_r, Z.add_0_r in *. rewrite Hd.
    replace (Zpos (digits2_pos p) + Z.of_nat (S n) + Zneg (Pos.of_succ_nat n))%Z
      with (Zpos (digits2_pos p)) by lia. lia.
Qed.

Lemma divide_valid neg p q :
  let '(m, e, l) := SFdiv_core_binary prec64 emax64 (Zpos p) 0 (Zpos q) 0 in
  valid64 (binary_round_aux prec64 emax64 neg m e l) = true.
Proof.
  unfold SFdiv_core_binary. cbn [Zdigits2]. rewrite !Z.add_0_r, Z.sub_0_r.
  set (e := Z.min (fexp64 (Zpos (digits2_pos p) - Zpos (digits2_pos q))) 0).
  assert (∃ s, (0 - e = s ∧ 0 ≤ s)%Z) as (s & Hs & Hs0) by (exists (0 - e)%Z; lia).
  rewrite Hs. assert (match s with Z0 => Zpos p | Zpos _ => Z.shiftl (Zpos p) s | Zneg _ => 0 end
    = Zpos p * 2 ^ s)%Z as ->.
  { destruct s; [lia|by rewrite Z.shiftl_mul_pow2 by lia|lia]. }
  pose proof (Z_div_mod (Zpos p * 2 ^ s) (Zpos q) ltac:(lia)) as Hdiv.
  destruct (Z.div_eucl (Zpos p * 2 ^ s) (Zpos q)) as [m r]. destruct Hdiv as [Heq Hr].
  assert (0 < 2 ^ s)%Z by (apply Z.pow_pos_nonneg; lia).
  assert (0 ≤ m)%Z as Hm by nia.
  apply round_valid; [done|].
  destruct (digits2_bounds p) as [Hp _], (digits2_bounds q) as [_ Hq].
  set (dp := Zpos (digits2_pos p)) in *. set (dq := Zpos (digits2_pos q)) in *.
  assert (dp + s - dq ≤ Zdigits2 m)%Z as Hd.
  { destruct (decide (dp + s - dq ≤ 0)%Z); [destruct m; simpl; lia|].
    assert (2 ^ (dp + s - dq - 1) ≤ m)%Z as Hl.
    { apply Z.lt_succ_r, (Z.mul_lt_mono_pos_r (Zpos q)); [lia|].
      apply Z.le_lt_trans with (Zpos p * 2 ^ s)%Z; [|nia].
      apply Z.le_trans with (2 ^ (dp + s - dq - 1) * 2 ^ dq)%Z.
      { apply Z.mul_le_mono_nonneg_l; [apply Z.pow_nonneg; lia|lia]. }
      rewrite <- Z.pow_add_r by lia. replace (dp + s - dq - 1 + dq)%Z with (dp - 1 + s)%Z by lia.
      rewrite Z.pow_add_r by lia. nia. }
    destruct m as [|m|m]; [|cbn [Zdigits2]; rewrite digits2_log2|lia].
    - assert (0 < 2 ^ (dp + s - dq - 1))%Z by (apply Z.pow_pos_nonneg; lia). lia.
    - apply Z.log2_le_mono in Hl. rewrite Z.log2_pow2 in Hl by lia. lia. }
  pose proof (fexp64_mono (dp - dq) (Zdigits2 m + e) ltac:(lia)). lia.
Qed.

Lemma read_decimal_valid neg M E : valid64 (read_decimal neg M E) = true.
Proof.
  destruct M as [|p|p]; [done| |done]. cbn [read_decimal]. unfold read_pos.
  destruct (400 <? E)%Z; [done|]. destruct (_ <? -400)%Z; [done|].
  destruct E as [|k|k]; [apply round_pos_valid..|].
  pose proof (divide_valid neg p (10 ^ k)) as Hd.
  by destruct (SFdiv_core_binary _ _ _ _ _ _) as [[m e] l].
Qed.

Lemma read_number_valid n : valid64 (read_number n) = true.
Proof. apply read_decimal_valid. Qed.

(** ** Scanning *)

(** The text after a number cannot be taken for more of it. *)
Definition num_stop (s : string) : bool :=
  match s with
  | String c _ => negb (is_digit c || bool_decide (c = "."%char) || is_exp_letter c)
  | "" => true
  end.
Definition no_digit_head (s : string) : bool :=
  match s with String c _ => negb (is_digit c) | "" => true end.

Lemma num_stop_no_digit s : num_stop s = true → no_digit_head s = true.
Proof. destruct s as [|c s]; [done|]. simpl. by destruct (is_digit c). Qed.

Lemma span_digits_app ds r :
  all_bytes is_digit ds = true → no_digit_head r = true → span_digits (ds +:+ r) = (ds, r).
Proof.
  induction ds as [|c ds IH]; intros Hd Hr.
  - destruct r as [|c r]; [done|]. simpl in *. by destruct (is_digit c).
  - rewrite str_app_cons. cbn [span_digits]. cbn in Hd. apply andb_prop in Hd as [-> Hd].
    by rewrite IH.
Qed.

Lemma digits_span s r :
  digits s = true → no_digit_head r = true →
  ∃ c t, span_digits (s +:+ r) = (String c t, r) ∧ s = String c t ∧ is_digit c = true.
Proof.
  intros Hd Hr. rewrite span_digits_app by (by try apply digits_all).
  destruct s as [|c t]; [done|]. exists c, t. apply digits_all in Hd. cbn in Hd.
  by apply andb_prop in Hd as [-> _].
Qed.

Lemma scan_int_app i r :
  int_ok i = true → no_digit_head r = true → scan_int (i +:+ r) = Some (i, r).
Proof.
  unfold int_ok. destruct i as [|c i]; [done|]. case_bool_decide as Hc.
  - intros ->%bool_decide_eq_true _. subst c. done.
  - intros Hd Hr. destruct (digits_span _ r Hd Hr) as (c' & t & Hs & _ & _).
    rewrite str_app_cons in *. unfold scan_int. rewrite bool_decide_false, Hs by done.
    apply digits_all in Hd. pose proof (span_digits_app (String c i) r Hd Hr) as Hs'.
    rewrite str_app_cons, Hs in Hs'. by rewrite <- Hs'.
Qed.

Lemma span_digits_spec s a b :
  span_digits s = (a, b) → s = a +:+ b ∧ all_bytes is_digit a = true.
Proof.
  revert a b. induction s as [|c s IH]; intros a b; simpl; [by intros [= <- <-]|].
  destruct (is_digit c) eqn:Hc; [|by intros [= <- <-]].
  destruct (span_digits s) as [a' b'] eqn:Hs. intros [= <- <-].
  destruct (IH a' b' eq_refl) as [-> Ha]. rewrite str_app_cons. cbn. by rewrite Hc.
Qed.

Lemma digits_of_span s c t r : span_digits s = (String c t, r) → digits (String c t) = true.
Proof. intros [_ Ha]%span_digits_spec. by apply digits_intro. Qed.

Lemma scan_exp_app e r :
  match e with
  | Some (c, sign, ds) => is_exp_letter c && is_sign sign && digits ds
  | None => true
  end = true → num_stop r = true →
  scan_exp (match e with Some (c, sign, ds) => String c (sign +:+ ds) | None => "" end +:+ r)
    = Some (e, r).
Proof.
  destruct e as [[[c sign] ds]|].
  - intros [[Hc Hs]%andb_prop Hd]%andb_prop Hr%num_stop_no_digit.
    rewrite str_app_cons. cbn [scan_exp]. rewrite Hc, str_app_assoc.
    destruct (digits_span ds r Hd Hr) as (d & t & Hsp & -> & Hdd).
    assert (scan_sign (sign +:+ (String d t +:+ r)) = (sign, String d t +:+ r)) as ->.
    { apply bool_decide_eq_true in Hs. destruct Hs as [->|[-> | ->]]; [|done..].
      cbn [scan_sign]. change ("" +:+ (String d t +:+ r)) with (String d (t +:+ r)).
      cbn [scan_sign]. by rewrite !bool_decide_false by (intros ->; done). }
    by rewrite Hsp.
  - intros _ Hr. change ("" +:+ r) with r. destruct r as [|c r]; [done|]. cbn [scan_exp].
    simpl in Hr. destruct (is_exp_letter c); [|done]. by rewrite orb_true_r in Hr.
Qed.

Lemma exp_stop e r :
  match e with
  | Some (c, sign, ds) => is_exp_letter c && is_sign sign && digits ds
  | None => true
  end = true → num_stop r = true →
  let t := match e with Some (c, sign, ds) => String c (sign +:+ ds) | None => "" end +:+ r in
  no_digit_head t = true ∧ ∀ c u, t = String c u → c ≠ "."%char.
Proof.
  destruct e as [[[c sign] ds]|]; cbv zeta.
  - intros [[Hc _]%andb_prop _]%andb_prop _. rewrite str_app_cons. cbn [no_digit_head].
    unfold is_exp_letter in Hc. apply bool_decide_eq_true in Hc.
    split; [by destruct Hc as [->| ->]|]. intros c' u [= <- _] ->. by destruct Hc.
  - change ("" +:+ r) with r. intros _ Hr. split; [by apply num_stop_no_digit|]. intros c u -> ->. done.
Qed.

Lemma scan_frac_app f r :
  match f with Some ds => digits ds | None => true end = true →
  no_digit_head r = true → (∀ c u, r = String c u → c ≠ "."%char) →
  scan_frac (match f with Some ds => "." +:+ ds | None => "" end +:+ r) = Some (f, r) ∧
  no_digit_head (match f with Some ds => "." +:+ ds | None => "" end +:+ r) = true.
Proof.
  intros Hf Hr Hdot. destruct f as [ds|].
  - split; [|done]. rewrite str_app_assoc. change ("." +:+ (ds +:+ r)) with (String "." (ds +:+ r)).
    cbn [scan_frac]. rewrite bool_decide_true by done.
    by destruct (digits_span ds r Hf Hr) as (d & t & -> & -> & _).
  - change ("" +:+ r) with r. split; [|done]. destruct r as [|c r]; [done|].
    cbn [scan_frac]. by rewrite bool_decide_false by by eapply Hdot.
Qed.

(** A number followed by something else is scanned exactly. *)
Lemma scan_number_app n r :
  number_ok n = true → num_stop r = true → scan_number (print_number n +:+ r) = Some (n, r).
Proof.
  destruct n as [neg i f e]. unfold number_ok, print_number; cbn [n_neg n_int n_frac n_exp].
  intros [[Hi Hf]%andb_prop He]%andb_prop Hr.
  destruct (exp_stop e r He Hr) as [Hnd Hdot]. pose proof (scan_exp_app e r He Hr) as Hse.
  rewrite !str_app_assoc.
  destruct (scan_frac_app f _ Hf Hnd Hdot) as [Hsf Hnd'].
  pose proof (scan_int_app i _ Hi Hnd') as Hsi.
  set (tail := i +:+ _) in *. unfold scan_number.
  assert (scan_neg ((if neg then "-" else "") +:+ tail) = (neg, tail)) as ->.
  { destruct neg; [done|]. change ("" +:+ tail) with tail. subst tail.
    destruct i as [|c i]; [done|]. rewrite str_app_cons. cbn [scan_neg].
    rewrite bool_decide_false; [done|]. intros ->. done. }
  rewrite Hsi. simpl. rewrite Hsf. simpl. by rewrite Hse.
Qed.

(** What is scanned is a number, followed by the rest. *)
Lemma scan_number_sound s n r :
  scan_number s = Some (n, r) → number_ok n = true ∧ s = print_number n +:+ r.
Proof.
  unfold scan_number. destruct (scan_neg s) as [neg s1] eqn:Hneg.
  intros ([i s2] & Hi & ([f s3] & Hf & ([e s4] & He & [= <- <-])%bind_Some)%bind_Some)%bind_Some.
  assert (s = (if neg then "-" else "") +:+ s1) as ->.
  { destruct s as [|c s]; simpl in Hneg; [by injection Hneg as <- <-|].
    case_bool_decide; injection Hneg as <- <-; by subst. }
  assert (int_ok i = true ∧ s1 = i +:+ s2) as [Hi' ->].
  { destruct s1 as [|c s1]; [done|]. unfold scan_int in Hi. case_bool_decide as Hc.
    - injection Hi as <- <-. by subst.
    - destruct (span_digits (String c s1)) as [[|d t] q] eqn:Hsp; [done|].
      injection Hi as <- <-. pose proof (digits_of_span _ _ _ _ Hsp) as Hd.
      apply span_digits_spec in Hsp as [Heq _]. split; [|done].
      rewrite str_app_cons in Heq. injection Heq as -> _. by apply int_ok_lead. }
  assert (match f with Some ds => digits ds | None => true end = true ∧
          s2 = match f with Some ds => "." +:+ ds | None => "" end +:+ s3) as [Hf' ->].
  { destruct s2 as [|c s2]; unfold scan_frac in Hf; [by injection Hf as <- <-|].
    case_bool_decide as Hc; [|by injection Hf as <- <-].
    destruct (span_digits s2) as [[|d t] q] eqn:Hsp; [done|]. injection Hf as <- <-.
    split; [by eapply digits_of_span|]. apply span_digits_spec in Hsp as [-> _]. by subst c. }
  assert (match e with
          | Some (c, sign, ds) => is_exp_letter c && is_sign sign && digits ds
          | None => true
          end = true ∧
          s3 = match e with Some (c, sign, ds) => String c (sign +:+ ds) | None => "" end +:+ s4)
    as [He' ->].
  { destruct s3 as [|c s3]; unfold scan_exp in He; [by injection He as <- <-|].
    destruct (is_exp_letter c) eqn:Hc; [|by injection He as <- <-].
    destruct (scan_sign s3) as [sign q] eqn:Hs.
    assert (is_sign sign = true ∧ s3 = sign +:+ q) as [Hsg ->].
    { destruct s3 as [|c' s3]; simpl in Hs; [by injection Hs as <- <-|].
      repeat case_bool_decide; injection Hs as <- <-; by subst. }
    destruct (span_digits q) as [[|d t] q'] eqn:Hsp; [done|]. injection He as <- <-.
    rewrite Hc, Hsg. split; [by eapply digits_of_span|].
    apply span_digits_spec in Hsp as [-> _]. by rewrite <- str_app_assoc. }
  unfold number_ok, print_number; cbn [n_neg n_int n_frac n_exp].
  rewrite Hi', Hf', He'. split; [done|]. by rewrite !str_app_assoc.
Qed.
