(* ===== verification/JsonText.v ===== *)
(** * JSON text

    The syntax of JSON as [encoding/json] reads and writes it: values whose
    strings are kept as the bytes between the quotes, a printer, a parser with
    the decoder's limit on nesting, quoting and unquoting of strings, and the
    escaping that makes a text safe inside HTML. *)
From S2P Require Import Prelude GoStrings GoValue Utf8 Decimal.

(** ** Values *)

Inductive json :=
| JNull
| JBool (b : bool)
| JNum (n : number)
| JStr (raw : string)
| JArr (l : list json)
| JObj (m : list (string * json)).

(** Induction through the nested lists. *)
Section json_ind.
Variable P : json → Prop.
Hypothesis Hnull : P JNull.
Hypothesis Hbool : ∀ b, P (JBool b).
Hypothesis Hnum : ∀ n, P (JNum n).
Hypothesis Hstr : ∀ s, P (JStr s).
Hypothesis Harr : ∀ l, Forall P l → P (JArr l).
Hypothesis Hobj : ∀ m, Forall (λ kv, P kv.2) m → P (JObj m).

Fixpoint json_ind_nested (j : json) : P j :=
  match j with
  | JNull => Hnull
  | JBool b => Hbool b
  | JNum n => Hnum n
  | JStr s => Hstr s
  | JArr l => Harr l
      ((fix go l : Forall P l := match l with
        | [] => Forall_nil_2 _
        | x :: l' => Forall_cons_2 _ _ _ (json_ind_nested x) (go l') end) l)
  | JObj m => Hobj m
      ((fix go m : Forall (λ kv : string * json, P kv.2) m := match m with
        | [] => Forall_nil_2 _
        | kv :: m' => Forall_cons_2 _ _ _ (json_ind_nested kv.2) (go m') end) m)
  end.
End json_ind.

(** ** Printing, without white space *)

Definition dq : ascii := ascii_of_N 34.
Definition bslash : ascii := "\"%char.
Definition quoted (raw : string) : string := String dq (raw +:+ String dq "").

Fixpoint print_json (j : json) : string :=
  match j with
  | JNull => "null"
  | JBool b => if b then "true" else "false"
  | JNum n => print_number n
  | JStr raw => quoted raw
  | JArr l => "[" +:+ join "," (map print_json l) +:+ "]"
  | JObj m =>
    "{" +:+ join "," (map (λ kv, quoted kv.1 +:+ ":" +:+ print_json kv.2) m) +:+ "}"
  end.

Definition print_member (kv : string * json) : string :=
  quoted kv.1 +:+ ":" +:+ print_json kv.2.

(** ** Scanning *)

Definition is_ws (c : ascii) : bool :=
  let n := byte_val c in ((n =? 32) || (n =? 9) || (n =? 10) || (n =? 13))%N.
Fixpoint skip_ws (s : string) : string :=
  match s with
  | String c s' => if is_ws c then skip_ws s' else s
  | "" => ""
  end.

Definition is_hex (c : ascii) : bool :=
  let n := byte_val c in is_digit c || in_range 97 102 n || in_range 65 70 n.
Definition hex_val (c : ascii) : N :=
  let n := byte_val c in
  (if is_digit c then n - 48 else if in_range 97 102 n then n - 87 else n - 55)%N.

(** The letters after a backslash, other than [u]. *)
Definition simple_escape (c : ascii) : bool :=
  bool_decide (c = "b"%char ∨ c = "f"%char ∨ c = "n"%char ∨ c = "r"%char ∨ c = "t"%char ∨
               c = bslash ∨ c = "/"%char ∨ c = dq).
(** A byte that stands for itself in a string. *)
Definition plain_byte (c : ascii) : bool :=
  (32 <=? byte_val c)%N && negb (bool_decide (c = dq ∨ c = bslash)).

(** After the opening quote: the bytes up to the closing one, and the rest. *)
Fixpoint scan_str (s : string) : option (string * string) :=
  match s with
  | "" => None
  | String c s1 =>
    if bool_decide (c = dq) then Some ("", s1)
    else if bool_decide (c = bslash) then
      match s1 with
      | "" => None
      | String e s2 =>
        if simple_escape e then prod_map (λ t, String c (String e t)) id <$> scan_str s2
        else if bool_decide (e = "u"%char) then
          match s2 with
          | String h1 (String h2 (String h3 (String h4 s3))) =>
            if is_hex h1 && is_hex h2 && is_hex h3 && is_hex h4
            then prod_map (λ t, String c (String e (String h1 (String h2 (String h3 (String h4 t))))))
                   id <$> scan_str s3
            else None
          | _ => None
          end
        else None
      end
    else if plain_byte c then prod_map (String c) id <$> scan_str s1
    else None
  end.

(** One or more items separated by commas, up to the closing byte; [n] bounds
    their number. *)
Fixpoint parse_items {A} (item : string → option (A * string)) (close : ascii) (n : nat)
    (s : string) : option (list A * string) :=
  match n with
  | O => None
  | S n' =>
    '(x, r) ← item s;
    match skip_ws r with
    | String c r' =>
      if bool_decide (c = ","%char) then
        '(xs, r2) ← parse_items item close n' r'; Some (x :: xs, r2)
      else if bool_decide (c = close) then Some ([x], r')
      else None
    | "" => None
    end
  end.

(** After the opening bracket. *)
Definition parse_seq {A} (item : string → option (A * string)) (close : ascii) (s : string)
    : option (list A * string) :=
  match skip_ws s with
  | "" => None
  | String c r =>
    if bool_decide (c = close) then Some ([], r)
    else parse_items item close (S (String.length s)) s
  end.

Definition parse_member {A} (val : string → option (A * string)) (s : string)
    : option (string * A * string) :=
  match skip_ws s with
  | String c t =>
    if bool_decide (c = dq) then
      '(raw, r) ← scan_str t;
      match skip_ws r with
      | String c' r' =>
        if bool_decide (c' = ":"%char) then '(v, r2) ← val r'; Some ((raw, v), r2) else None
      | "" => None
      end
    else None
  | "" => None
  end.

Fixpoint strip_prefix (pre s : string) : option string :=
  match pre, s with
  | "", _ => Some s
  | String a pre', String b s' => if bool_decide (a = b) then strip_prefix pre' s' else None
  | _, "" => None
  end.

(** A value and the rest of the text; [d] arrays and objects may be opened. *)
Fixpoint parse_value (d : nat) (s : string) : option (json * string) :=
  match skip_ws s with
  | "" => None
  | String c t =>
    if bool_decide (c = dq) then '(raw, r) ← scan_str t; Some (JStr raw, r)
    else if bool_decide (c = "{"%char) then
      match d with
      | O => None
      | S d' => '(m, r) ← parse_seq (parse_member (parse_value d')) "}"%char t; Some (JObj m, r)
      end
    else if bool_decide (c = "["%char) then
      match d with
      | O => None
      | S d' => '(l, r) ← parse_seq (parse_value d') "]"%char t; Some (JArr l, r)
      end
    else if bool_decide (c = "t"%char) then r ← strip_prefix "rue" t; Some (JBool true, r)
    else if bool_decide (c = "f"%char) then r ← strip_prefix "alse" t; Some (JBool false, r)
    else if bool_decide (c = "n"%char) then r ← strip_prefix "ull" t; Some (JNull, r)
    else '(n, r) ← scan_number (String c t); Some (JNum n, r)
  end.

(** The decoder refuses more than 10000 nested arrays and objects. *)
Definition max_depth : nat := Z.to_nat 10000.
Lemma max_depth_pos : max_depth ≠ 0.
Proof. unfold max_depth. lia. Qed.
#[global] Opaque max_depth.

Definition parse_json (s : string) : option json :=
  '(j, r) ← parse_value max_depth s;
  if bool_decide (skip_ws r = "") then Some j else None.

(** ** Strings: quoting and unquoting

    Both look at a string chunk by chunk. *)

Definition hex4 (h1 h2 h3 h4 : ascii) : N :=
  (hex_val h1 * 4096 + hex_val h2 * 256 + hex_val h3 * 16 + hex_val h4)%N.
Definition u_escape (n : N) : string :=
  String bslash (String "u" (String (hex_digit (n / 4096 mod 16)) (String (hex_digit (n / 256 mod 16))
    (String (hex_digit (n / 16 mod 16)) (String (hex_digit (n mod 16)) "")))))%N.

Definition is_html (a : ascii) : bool :=
  bool_decide (a = "<"%char ∨ a = ">"%char ∨ a = "&"%char).
(** The line and paragraph separators, which JavaScript does not allow. *)
Definition is_separator (r : N) : bool := (r =? 0x2028)%N || (r =? 0x2029)%N.

Definition escape_ascii (a : ascii) : string :=
  if bool_decide (a = dq ∨ a = bslash) then String bslash (String a "")
  else match byte_val a with
       | 8 => "\b" | 12 => "\f" | 10 => "\n" | 13 => "\r" | 9 => "\t"
       | n => if (n <? 32)%N || is_html a then u_escape n else String a ""
       end%N.
Definition escape_chunk (c : chunk) : string :=
  match c with
  | CAscii a => escape_ascii a
  | CRune r s => if is_separator r then u_escape r else s
  | CBad _ => "\ufffd"
  end.
(** What the encoder writes between the quotes for a Go string. *)
Definition escape (s : string) : string := flat_chunks escape_chunk (chunks s).

(** What compacting a text that is already JSON does to the inside of a string. *)
Fixpoint html_escape (raw : string) : string :=
  match raw with
  | "" => ""
  | String a s1 =>
    if is_html a then u_escape (byte_val a) +:+ html_escape s1 else
    match s1 with
    | String b (String c s3) =>
      if bool_decide (a = byte 0xE2 ∧ b = byte 0x80 ∧ (c = byte 0xA8 ∨ c = byte 0xA9))
      then u_escape (rune3 a b c) +:+ html_escape s3
      else String a (html_escape s1)
    | _ => String a (html_escape s1)
    end
  end.

Definition unescape1 (e : ascii) : ascii :=
  if bool_decide (e = "b"%char) then byte 8 else if bool_decide (e = "f"%char) then byte 12
  else if bool_decide (e = "n"%char) then byte 10 else if bool_decide (e = "r"%char) then byte 13
  else if bool_decide (e = "t"%char) then byte 9 else e.

Definition is_surrogate (r : N) : bool := in_range 0xD800 0xDFFF r.
(** The rune of a surrogate pair. *)
Definition decode_pair (r1 r2 : N) : option N :=
  if in_range 0xD800 0xDBFF r1 && in_range 0xDC00 0xDFFF r2
  then Some ((r1 - 0xD800) * 1024 + (r2 - 0xDC00) + 0x10000)%N else None.

(** A backslash starts an escape; a surrogate must be followed by its other half;
    invalid bytes become U+FFFD. *)
Fixpoint unescape (l : list chunk) : string :=
  match l with
  | [] => ""
  | CAscii a :: l1 =>
    if bool_decide (a = bslash) then
      match l1 with
      | CAscii e :: l2 =>
        if bool_decide (e = "u"%char) then
          match l2 with
          | CAscii h1 :: CAscii h2 :: CAscii h3 :: CAscii h4 :: l3 =>
            let r := hex4 h1 h2 h3 h4 in
            if is_surrogate r then
              match l3 with
              | CAscii b :: CAscii u :: CAscii g1 :: CAscii g2 :: CAscii g3 :: CAscii g4 :: l4 =>
                if bool_decide (b = bslash ∧ u = "u"%char) &&
                   (is_hex g1 && is_hex g2 && is_hex g3 && is_hex g4)
                then match decode_pair r (hex4 g1 g2 g3 g4) with
                     | Some r' => encode_rune r' +:+ unescape l4
                     | None => replacement +:+ unescape l3
                     end
                else replacement +:+ unescape l3
              | _ => replacement +:+ unescape l3
              end
            else encode_rune r +:+ unescape l3
          | _ => ""
          end
        else String (unescape1 e) (unescape l2)
      | _ => ""
      end
    else String a (unescape l1)
  | c :: l1 => valid_chunk c +:+ unescape l1
  end.
Definition unquote (raw : string) : string := unescape (chunks raw).

Fixpoint html_json (j : json) : json :=
  match j with
  | JStr raw => JStr (html_escape raw)
  | JArr l => JArr (map html_json l)
  | JObj m => JObj (map (λ kv, (html_escape kv.1, html_json kv.2)) m)
  | _ => j
  end.

(** ** Well-formed values *)

(** The bytes that may stand between quotes. *)
Inductive raw_ok : string → Prop :=
| raw_nil : raw_ok ""
| raw_plain c s : plain_byte c = true → raw_ok s → raw_ok (String c s)
| raw_escape e s : simple_escape e = true → raw_ok s → raw_ok (String bslash (String e s))
| raw_u h1 h2 h3 h4 s :
    is_hex h1 && is_hex h2 && is_hex h3 && is_hex h4 = true → raw_ok s →
    raw_ok (String bslash (String "u" (String h1 (String h2 (String h3 (String h4 s)))))).

Inductive wf_json : json → Prop :=
| wf_null : wf_json JNull
| wf_bool b : wf_json (JBool b)
| wf_num n : number_ok n = true → wf_json (JNum n)
| wf_str raw : raw_ok raw → wf_json (JStr raw)
| wf_arr l : Forall wf_json l → wf_json (JArr l)
| wf_obj m : Forall (λ kv, raw_ok kv.1 ∧ wf_json kv.2) m → wf_json (JObj m).

Definition max_list (l : list nat) : nat := foldr Nat.max 0 l.
Fixpoint depth (j : json) : nat :=
  match j with
  | JArr l => S (max_list (map depth l))
  | JObj m => S (max_list (map (λ kv, depth kv.2) m))
  | _ => 0
  end.

Create HintDb json.
#[export] Hint Constructors raw_ok wf_json : json.

Example json_text_examples :
  parse_json "[1, {`a` : tru}]" = None ∧
  parse_json " [1, -2.50e+1 ,[ ]]" = Some (JArr [JNum (number_of_Z 1);
    JNum {| n_neg := true; n_int := "2"; n_frac := Some "50"; n_exp := Some ("e"%char, "+", "1") |};
    JArr []]) ∧
  parse_json "01" = None ∧ parse_json "[1,]" = None ∧ parse_json "" = None ∧
  print_json (JArr [JStr (escape ("<" +:+ String dq "é" +:+ String (byte 1) ""))]) =
    "[" +:+ String dq "\u003c\" +:+ String dq "é\u0001" +:+ String dq "]" ∧
  unquote (escape ("<" +:+ String dq "é" +:+ String (byte 1) "")) =
    "<" +:+ String dq "é" +:+ String (byte 1) "" ∧
  unquote "\ud83d\ude00" = encode_rune 0x1F600 ∧ unquote "\ud83dx" = replacement +:+ "x".
Proof. vm_compute. repeat split. Qed.

(** ** Strings in texts *)

Lemma plain_not c : plain_byte c = true → c ≠ dq ∧ c ≠ bslash.
Proof.
  unfold plain_byte. intros [_ Hc%negb_true_iff]%andb_prop. apply bool_decide_eq_false in Hc.
  tauto.
Qed.

Lemma simple_not_u e : simple_escape e = true → e ≠ "u"%char.
Proof.
  unfold simple_escape. intros He%bool_decide_eq_true ->.
  by destruct He as [?|[?|[?|[?|[?|[?|[?|?]]]]]]].
Qed.

(** A well-formed string is scanned up to its closing quote. *)
Lemma scan_str_app raw r : raw_ok raw → scan_str (raw +:+ String dq r) = Some (raw, r).
Proof.
  induction 1 as [|c s Hc _ IH|e s He _ IH|h1 h2 h3 h4 s Hh _ IH]; [done|..];
    rewrite ?str_app_cons; cbn [scan_str].
  - destruct (plain_not c Hc). rewrite !bool_decide_false, Hc, IH by done. done.
  - rewrite bool_decide_false, bool_decide_true, He, IH by done. done.
  - rewrite bool_decide_false, bool_decide_true by done. cbn [simple_escape].
    change (simple_escape "u") with false. cbv iota.
    rewrite bool_decide_true, Hh, IH by done. done.
Qed.

Lemma fmap_some_inv {A B} (f : A → B) (o : option A) y : f <$> o = Some y → ∃ x, o = Some x ∧ y = f x.
Proof. destruct o; simpl; [intros [= <-]; eauto|done]. Qed.

(** What is scanned is well formed, and shorter than the text. *)
Lemma scan_str_sound s raw r :
  scan_str s = Some (raw, r) → raw_ok raw ∧ s = raw +:+ String dq r.
Proof.
  remember (String.length s) as n eqn:Hn. revert s raw r Hn.
  induction (lt_wf n) as [n _ IH]. intros s raw r ->.
  assert (∀ s' raw' r', String.length s' < String.length s →
    scan_str s' = Some (raw', r') → raw_ok raw' ∧ s' = raw' +:+ String dq r') as IH'
    by (intros s' raw' r' Hl; eapply IH; [exact Hl|done]). clear IH.
  destruct s as [|c s1]; [done|]. cbn [scan_str]. case_bool_decide as Hc1.
  { intros [= <- <-]. split; [constructor|by subst c]. }
  case_bool_decide as Hc2.
  - destruct s1 as [|e s2]; [done|]. destruct (simple_escape e) eqn:He.
    + intros ([t r'] & Hs & [= -> ->])%fmap_some_inv.
      apply IH' in Hs as [Ht ->]; [|simpl; lia]. subst c. auto with json.
    + case_bool_decide as Hu; [|done].
      destruct s2 as [|h1 [|h2 [|h3 [|h4 s3]]]]; try done.
      destruct (is_hex h1 && is_hex h2 && is_hex h3 && is_hex h4) eqn:Hh; [|done].
      intros ([t r'] & Hs & [= -> ->])%fmap_some_inv.
      apply IH' in Hs as [Ht ->]; [|simpl; lia]. subst c e. auto with json.
  - destruct (plain_byte c) eqn:Hp; [|done].
    intros ([t r'] & Hs & [= -> ->])%fmap_some_inv.
    apply IH' in Hs as [Ht ->]; [|simpl; lia]. auto with json.
Qed.

Lemma raw_ok_app s t : raw_ok s → raw_ok t → raw_ok (s +:+ t).
Proof. induction 1; intros; rewrite ?str_app_cons; auto with json. Qed.

(** ** Parsing what was printed *)

Definition clean_head (s : string) : Prop :=
  ∃ c t, s = String c t ∧ is_ws c = false ∧ c ≠ "]"%char ∧ c ≠ "}"%char.

Lemma clean_head_skip s r : clean_head s → skip_ws (s +:+ r) = s +:+ r.
Proof. intros (c & t & -> & Hc & _). rewrite str_app_cons. cbn [skip_ws]. by rewrite Hc. Qed.

Lemma digit_head c : is_digit c = true → is_ws c = false ∧ c ≠ "]"%char ∧ c ≠ "}"%char ∧
  c ≠ "{"%char ∧ c ≠ "["%char ∧ c ≠ "t"%char ∧ c ≠ "f"%char ∧ c ≠ "n"%char ∧ c ≠ dq.
Proof. destruct c as [[] [] [] [] [] [] [] []]; try done; by vm_compute. Qed.

Lemma number_head n : number_ok n = true →
  ∃ c t, print_number n = String c t ∧ (c = "-"%char ∨ is_digit c = true).
Proof.
  unfold number_ok, print_number. intros [[Hi _]%andb_prop _]%andb_prop.
  destruct (n_neg n); [eexists _, _; split; [done|by left]|].
  destruct (n_int n) as [|c i]; [done|]. eexists c, _. split; [done|]. right.
  unfold int_ok in Hi. case_bool_decide; [by subst|]. apply digits_all in Hi. cbn in Hi.
  by apply andb_prop in Hi as [? _].
Qed.

Lemma print_head j : wf_json j → clean_head (print_json j).
Proof.
  intros [|[]|n Hn|raw _|l _|m _];
    [by eexists _, _|by eexists _, _|by eexists _, _| |by eexists _, _..].
  destruct (number_head n Hn) as (c & t & Heq & Hc). cbn. rewrite Heq. eexists c, t.
  split; [done|]. destruct Hc as [->|Hc]; [done|]. by apply digit_head in Hc as (? & ? & ? & _).
Qed.

Lemma quoted_head s : clean_head (quoted s).
Proof. by eexists _, _. Qed.

Lemma parse_items_app {A} (item : string → option (A * string)) (print : A → string) close l n r :
  (close = "]"%char ∨ close = "}"%char) → l ≠ [] → length l ≤ n →
  (∀ x r', x ∈ l → num_stop r' = true → item (print x +:+ r') = Some (x, r')) →
  parse_items item close n (join "," (map print l) +:+ String close r) = Some (l, r).
Proof.
  intros Hclose. revert n. induction l as [|x l IH]; intros n Hne Hlen Hitem; [done|].
  destruct n as [|n]; [simpl in Hlen; lia|]. cbn [parse_items].
  destruct l as [|y l].
  - cbn [map join]. rewrite Hitem; [|by left|by destruct Hclose as [-> | ->]].
    simpl. destruct Hclose as [-> | ->]; done.
  - cbn [map]. rewrite join_cons by done. rewrite !str_app_assoc.
    change ("," +:+ (join "," (print y :: map print l) +:+ String close r)) with
      (String "," (join "," (map print (y :: l)) +:+ String close r)).
    rewrite Hitem; [|by left|done].
    cbn [mbind option_bind]. cbn [skip_ws]. change (is_ws ",") with false. cbv iota.
    rewrite bool_decide_true by done. rewrite IH; [done|done|simpl in *; lia|].
    intros z r' Hz. apply Hitem. by right.
Qed.

Lemma length_join_ge {A} (print : A → string) l r :
  (∀ x, x ∈ l → print x ≠ "") → length l ≤ String.length (join "," (map print l) +:+ r).
Proof.
  intros Hne. rewrite length_str_app. induction l as [|x l IH]; [simpl; lia|].
  assert (1 ≤ String.length (print x)) as Hx.
  { specialize (Hne x ltac:(by left)). destruct (print x); simpl; [done|lia]. }
  destruct l as [|y l]; [simpl; lia|]. cbn [map]. rewrite join_cons by done.
  rewrite !length_str_app. specialize (IH ltac:(intros; apply Hne; by right)).
  cbn [map length] in *. lia.
Qed.

Lemma parse_seq_app {A} (item : string → option (A * string)) (print : A → string) close l r :
  (close = "]"%char ∨ close = "}"%char) → (∀ x, x ∈ l → clean_head (print x)) →
  (∀ x r', x ∈ l → num_stop r' = true → item (print x +:+ r') = Some (x, r')) →
  parse_seq item close (join "," (map print l) +:+ String close r) = Some (l, r).
Proof.
  intros Hclose Hhead Hitem. unfold parse_seq. destruct l as [|x l].
  - cbn [map join]. change ("" +:+ String close r) with (String close r).
    by destruct Hclose as [-> | ->].
  - set (s := join "," (map print (x :: l)) +:+ String close r).
    assert (∃ c t, s = String c t ∧ is_ws c = false ∧ c ≠ close) as (c & t & Hs & Hws & Hc).
    { destruct (Hhead x ltac:(by left)) as (c & t & Heq & Hws & H1 & H2). subst s.
      exists c. destruct l as [|y l]; cbn [map join]; rewrite Heq, !str_app_cons;
        (eexists; split; [done|]; split; [done|]; by destruct Hclose as [-> | ->]). }
    rewrite Hs at 1. cbn [skip_ws]. rewrite Hws, bool_decide_false by done. subst s.
    apply parse_items_app; [done|done| |done].
    etrans; [apply length_join_ge|apply Nat.le_succ_diag_r].
    intros y Hy Hnil. destruct (Hhead y Hy) as (c' & t' & Heq & _). congruence.
Qed.

Lemma max_list_le {A} (f : A → nat) l x : x ∈ l → f x ≤ max_list (map f l).
Proof. induction 1 as [x l|x y l _ IH]; simpl; lia. Qed.

Lemma strip_prefix_app pre r : strip_prefix pre (pre +:+ r) = Some r.
Proof.
  induction pre as [|a pre IH]; [done|]. rewrite str_app_cons. cbn [strip_prefix].
  by rewrite bool_decide_true.
Qed.

Lemma parse_member_app (val : string → option (json * string)) kv r :
  raw_ok kv.1 → val (print_json kv.2 +:+ r) = Some (kv.2, r) →
  parse_member val (print_member kv +:+ r) = Some (kv, r).
Proof.
  intros Hraw Hval. unfold print_member, quoted, parse_member.
  rewrite str_app_assoc, str_app_cons, !str_app_assoc. cbn [skip_ws].
  change (is_ws dq) with false. cbv iota. rewrite bool_decide_true by done.
  rewrite str_app_cons. change ("" +:+ ?s) with s.
  rewrite scan_str_app by done. cbn [mbind option_bind].
  change (":" +:+ (print_json kv.2 +:+ r)) with (String ":" (print_json kv.2 +:+ r)).
  cbn [skip_ws]. change (is_ws ":") with false. cbv iota.
  rewrite bool_decide_true, Hval by done. by destruct kv.
Qed.

(** The printed form of a well-formed value, followed by something that is not
    taken for more of a number, parses as that value. *)
Lemma parse_print j d r :
  wf_json j → depth j ≤ d → num_stop r = true →
  parse_value d (print_json j +:+ r) = Some (j, r).
Proof.
  revert d r. induction j as [|b|n|raw|l IH|m IH] using json_ind_nested;
    intros d r Hwf Hd Hr; inversion Hwf as [|b'|n' Hn|raw' Hraw|l' Hl|m' Hm]; subst.
  - by destruct d.
  - destruct b; by destruct d.
  - destruct (number_head n Hn) as (c & t & Heq & Hc).
    pose proof (scan_number_app n r Hn Hr) as Hs. cbn [print_json]. rewrite Heq in *.
    rewrite str_app_cons in *.
    assert (is_ws c = false ∧ c ≠ "{"%char ∧ c ≠ "["%char ∧ c ≠ "t"%char ∧ c ≠ "f"%char ∧
            c ≠ "n"%char ∧ c ≠ dq) as (Hws & ? & ? & ? & ? & ? & ?).
    { destruct Hc as [->|Hc]; [done|]. apply digit_head in Hc. tauto. }
    destruct d; cbn [parse_value skip_ws]; rewrite Hws, !bool_decide_false, Hs by done; done.
  - cbn [print_json]. unfold quoted. rewrite str_app_cons, str_app_assoc.
    assert (String dq "" +:+ r = String dq r) as -> by done.
    destruct d; cbn [parse_value skip_ws]; change (is_ws dq) with false; cbv iota;
      rewrite bool_decide_true, scan_str_app by done; done.
  - destruct d as [|d]; [simpl in Hd; lia|]. cbn [print_json].
    rewrite !str_app_assoc.
    change ("[" +:+ (join "," (map print_json l) +:+ ("]" +:+ r))) with
      (String "[" (join "," (map print_json l) +:+ String "]" r)).
    cbn [parse_value skip_ws]. change (is_ws "[") with false. cbv iota.
    rewrite bool_decide_false, bool_decide_false, bool_decide_true by done.
    rewrite Forall_forall in IH, Hl. rewrite (parse_seq_app _ print_json); [done|by left| |].
    + intros x Hx. by apply print_head, Hl.
    + intros x r' Hx Hr'. apply IH; [done|by apply Hl| |done].
      pose proof (max_list_le depth l x Hx). simpl in Hd. lia.
  - destruct d as [|d]; [simpl in Hd; lia|]. cbn [print_json].
    fold print_member. change (λ kv, quoted kv.1 +:+ ":" +:+ print_json kv.2) with print_member.
    rewrite !str_app_assoc.
    change ("{" +:+ (join "," (map print_member m) +:+ ("}" +:+ r))) with
      (String "{" (join "," (map print_member m) +:+ String "}" r)).
    cbn [parse_value skip_ws]. change (is_ws "{") with false. cbv iota.
    rewrite bool_decide_false, bool_decide_true by done.
    rewrite Forall_forall in IH, Hm. rewrite (parse_seq_app _ print_member); [done|by right| |].
    + intros x Hx. by eexists _, _.
    + intros x r' Hx Hr'. apply parse_member_app; [by apply Hm|].
      apply IH; [done|by apply Hm| |done].
      pose proof (max_list_le (λ kv, depth kv.2) m x Hx). simpl in *. lia.
Qed.

(** ** Soundness of the parser *)

Lemma parse_items_sound {A} (item : string → option (A * string)) close n s l r (P : A → Prop) :
  (∀ s' x r', item s' = Some (x, r') → P x) →
  parse_items item close n s = Some (l, r) → Forall P l.
Proof.
  intros Hitem. revert s l r. induction n as [|n IH]; intros s l r; [done|].
  cbn [parse_items]. intros ([x r1] & Hx & Hrest)%bind_Some.
  destruct (skip_ws r1) as [|c r']; [done|]. case_bool_decide.
  - apply bind_Some in Hrest as ([xs r2] & Hxs & [= <- <-]). constructor; eauto.
  - case_bool_decide; [|done]. injection Hrest as <- <-. eauto.
Qed.

Lemma parse_seq_sound {A} (item : string → option (A * string)) close s l r (P : A → Prop) :
  (∀ s' x r', item s' = Some (x, r') → P x) →
  parse_seq item close s = Some (l, r) → Forall P l.
Proof.
  intros Hitem. unfold parse_seq. destruct (skip_ws s) as [|c t]; [done|].
  case_bool_decide; [by intros [= <- <-]; constructor|]. eauto using parse_items_sound.
Qed.

Lemma parse_member_sound {A} (val : string → option (A * string)) s kv r :
  parse_member val s = Some (kv, r) → raw_ok kv.1 ∧ ∃ s' r', val s' = Some (kv.2, r').
Proof.
  unfold parse_member. destruct (skip_ws s) as [|c t]; [done|]. case_bool_decide; [|done].
  intros ([raw r1] & Hraw & Hrest)%bind_Some. apply scan_str_sound in Hraw as [Hraw _].
  destruct (skip_ws r1) as [|c' r']; [done|]. case_bool_decide; [|done].
  apply bind_Some in Hrest as ([v r2] & Hv & [= <- <-]). eauto.
Qed.

Lemma max_list_bound {A} (f : A → nat) l n : Forall (λ x, f x ≤ n) l → max_list (map f l) ≤ n.
Proof. induction 1; simpl; lia. Qed.

(** What parses is well formed and nested no deeper than allowed. *)
Lemma parse_value_sound d s j r :
  parse_value d s = Some (j, r) → wf_json j ∧ depth j ≤ d.
Proof.
  revert s j r. induction d as [|d IH]; intros s j r; cbn [parse_value];
    (destruct (skip_ws s) as [|c t]; [done|]);
    (case_bool_decide; [intros ([raw r1] & Hs & [= <- <-])%bind_Some;
                        apply scan_str_sound in Hs as [Hs _]; split; [auto with json|simpl; lia]|]).
  - do 2 (case_bool_decide; [done|]).
    do 3 (case_bool_decide; [intros (r1 & _ & [= <- <-])%bind_Some; auto with json|]).
    intros ([n r1] & Hs & [= <- <-])%bind_Some. apply scan_number_sound in Hs as [Hs _].
    auto with json.
  - case_bool_decide.
    { intros ([m r1] & Hs & [= <- <-])%bind_Some.
      apply (parse_seq_sound _ _ _ _ _ (λ kv, raw_ok kv.1 ∧ wf_json kv.2 ∧ depth kv.2 ≤ d)) in Hs.
      - split; [constructor; eapply Forall_impl; [exact Hs|naive_solver]|].
        simpl. apply le_n_S, (max_list_bound (λ kv, depth kv.2)).
        eapply Forall_impl; [exact Hs|naive_solver].
      - intros s' kv r' (Hraw & s2 & r2 & Hv)%parse_member_sound. split; [done|eauto]. }
    case_bool_decide.
    { intros ([l r1] & Hs & [= <- <-])%bind_Some.
      apply (parse_seq_sound _ _ _ _ _ (λ x, wf_json x ∧ depth x ≤ d)) in Hs; [|eauto].
      split; [constructor; eapply Forall_impl; [exact Hs|naive_solver]|].
      simpl. apply le_n_S, max_list_bound. eapply Forall_impl; [exact Hs|naive_solver]. }
    do 3 (case_bool_decide; [intros (r1 & _ & [= <- <-])%bind_Some;
                             split; [auto with json|simpl; lia]|]).
    intros ([n r1] & Hs & [= <- <-])%bind_Some. apply scan_number_sound in Hs as [Hs _].
    split; [auto with json|simpl; lia].
Qed.

Lemma parse_json_sound s j : parse_json s = Some j → wf_json j ∧ depth j ≤ max_depth.
Proof.
  unfold parse_json. intros ([j' r] & Hp & Hr)%bind_Some. case_bool_decide; [|done].
  injection Hr as <-. by apply parse_value_sound in Hp.
Qed.

(** The round trip of whole texts. *)
Lemma parse_json_print j :
  wf_json j → depth j ≤ max_depth → parse_json (print_json j) = Some j.
Proof.
  intros Hwf Hd. unfold parse_json. pose proof (parse_print j max_depth "" Hwf Hd eq_refl) as Hp.
  rewrite str_app_nil in Hp. by rewrite Hp.
Qed.

(** ** Quoting *)

(** A fact about every byte, by looking at all of them. *)
Ltac all_bytes_of a := destruct a as [[] [] [] [] [] [] [] []]; try done.

Lemma non_ascii_plain a : is_ascii_byte a = false → plain_byte a = true ∧ is_html a = false.
Proof. all_bytes_of a. Qed.

Lemma cont_non_ascii c : cont_byte c = true → is_ascii_byte c = false ∧ c ≠ byte 0xE2.
Proof. all_bytes_of c. Qed.

Lemma low6_cont c : cont_byte c = true → (128 + low6 c = byte_val c ∧ low6 c < 64)%N.
Proof. all_bytes_of c. Qed.

Lemma ok2_cont a b : ok2 a b = true → cont_byte b = true ∧ a ≠ byte 0xE2.
Proof.
  unfold ok2. intros [Ha Hb]%andb_prop. split; [done|]. intros ->. done.
Qed.

Lemma lead3_cont a b : lead3 (byte_val a) (byte_val b) = true →
  cont_byte b = true ∧ in_range 0xE0 0xEF (byte_val a) = true.
Proof.
  unfold lead3, cont_byte, in_range. rewrite !orb_true_iff, !andb_true_iff, !N.eqb_eq, !N.leb_le.
  lia.
Qed.

Lemma lead4_cont a b : lead4 (byte_val a) (byte_val b) = true →
  cont_byte b = true ∧ (byte_val a = 0xF0 ∧ 0x90 ≤ byte_val b ∨ 0xF1 ≤ byte_val a ≤ 0xF4)%N.
Proof.
  unfold lead4, cont_byte, in_range. rewrite !orb_true_iff, !andb_true_iff, !N.eqb_eq, !N.leb_le.
  lia.
Qed.

Lemma land_low3 a : in_range 0xE0 0xEF (byte_val a) = true →
  (0xE0 + N.land (byte_val a) 0x0F = byte_val a)%N.
Proof. all_bytes_of a. Qed.
Lemma land_low4 a : in_range 0xF0 0xF4 (byte_val a) = true →
  (0xF0 + N.land (byte_val a) 0x07 = byte_val a)%N.
Proof. all_bytes_of a. Qed.
Lemma land_low2 a : (N.land (byte_val a) 0x1F < 32)%N.
Proof. all_bytes_of a. Qed.

Lemma byte_of_val a n : byte_val a = n → a = byte n.
Proof. intros <-. symmetry. apply ascii_N_embedding. Qed.

(** The separators are written with three particular bytes only. *)
Lemma separator2 a b : ok2 a b = true → is_separator (rune2 a b) = false.
Proof.
  intros [Hb _]%ok2_cont. pose proof (low6_cont b Hb). pose proof (land_low2 a).
  unfold is_separator, rune2. apply orb_false_iff. rewrite !N.eqb_neq. lia.
Qed.

Lemma separator3 a b c : ok3 a b c = true →
  is_separator (rune3 a b c) = true ↔
  a = byte 0xE2 ∧ b = byte 0x80 ∧ (c = byte 0xA8 ∨ c = byte 0xA9).
Proof.
  unfold ok3. intros [[Hb Ha]%lead3_cont Hc]%andb_prop.
  pose proof (low6_cont b Hb). pose proof (low6_cont c Hc). pose proof (land_low3 a Ha).
  unfold is_separator, rune3. rewrite orb_true_iff, !N.eqb_eq. split.
  - intros Hs. assert (byte_val a = 0xE2 ∧ byte_val b = 0x80 ∧
      (byte_val c = 0xA8 ∨ byte_val c = 0xA9))%N as (? & ? & Hz) by lia.
    split_and!; [by apply byte_of_val|by apply byte_of_val|].
    destruct Hz; [left|right]; by apply byte_of_val.
  - intros (-> & -> & [-> | ->]); vm_compute; auto.
Qed.

Lemma separator4 a b c d : ok4 a b c d = true → is_separator (rune4 a b c d) = false.
Proof.
  unfold ok4. intros [[[Hb Ha]%lead4_cont Hc]%andb_prop Hd]%andb_prop.
  pose proof (low6_cont b Hb). pose proof (low6_cont c Hc). pose proof (low6_cont d Hd).
  assert (0xF0 + N.land (byte_val a) 0x07 = byte_val a)%N as Hl.
  { apply land_low4. unfold in_range. apply andb_true_intro. rewrite !N.leb_le. lia. }
  unfold is_separator, rune4. apply orb_false_iff. rewrite !N.eqb_neq. lia.
Qed.

Lemma flat_chunks_cons f c l : flat_chunks f (c :: l) = f c +:+ flat_chunks f l.
Proof. done. Qed.

(** The chunks of an escaped ASCII byte are ASCII, and unescape to the byte. *)
Lemma unescape_escape_ascii a t :
  is_ascii_byte a = true → unescape (chunks (escape_ascii a +:+ t)) = String a (unescape (chunks t)).
Proof. all_bytes_of a. Qed.

Lemma escape_ascii_ok a : is_ascii_byte a = true → raw_ok (escape_ascii a).
Proof. all_bytes_of a; intros _; vm_compute; auto 10 with json. Qed.

Lemma unescape_separator a b c t :
  a = byte 0xE2 ∧ b = byte 0x80 ∧ (c = byte 0xA8 ∨ c = byte 0xA9) →
  unescape (chunks (u_escape (rune3 a b c) +:+ t)) =
    String a (String b (String c "")) +:+ unescape (chunks t).
Proof. by intros (-> & -> & [-> | ->]). Qed.

(** A Go string, quoted and unquoted: what is left is the string with each
    invalid byte replaced. *)
Lemma unquote_escape s : unquote (escape s) = to_valid s.
Proof.
  unfold unquote, escape, to_valid.
  induction s as [|a s Ha IH|a b s Ha Hb IH|a b c s Ha Hb Hc IH|a b c d s Ha Hb Hc Hd IH
                 |a s Ha Hbad IH] using chunks_ind; [done|..].
  - rewrite chunks_ascii, !flat_chunks_cons by done. cbn [escape_chunk valid_chunk].
    by rewrite unescape_escape_ascii, IH.
  - rewrite chunks_2, !flat_chunks_cons by done. cbn [escape_chunk valid_chunk].
    rewrite separator2, !str_app_cons by done. change ("" +:+ ?t) with t.
    rewrite chunks_2 by done. cbn [unescape valid_chunk]. by rewrite IH.
  - rewrite chunks_3, !flat_chunks_cons by done. cbn [escape_chunk valid_chunk].
    destruct (is_separator _) eqn:Hs.
    + rewrite unescape_separator by by apply separator3. by rewrite IH.
    + rewrite !str_app_cons. change ("" +:+ ?t) with t.
      rewrite chunks_3 by done. cbn [unescape valid_chunk]. by rewrite IH.
  - rewrite chunks_4, !flat_chunks_cons by done. cbn [escape_chunk valid_chunk].
    rewrite separator4, !str_app_cons by done. change ("" +:+ ?t) with t.
    rewrite chunks_4 by done. cbn [unescape valid_chunk]. by rewrite IH.
  - rewrite Hbad, !flat_chunks_cons. cbn [escape_chunk valid_chunk].
    rewrite <- IH. done.
Qed.

Lemma u_escape_ok n : raw_ok (u_escape n).
Proof.
  unfold u_escape. apply raw_u; [|constructor].
  assert (∀ m, (m < 16)%N → is_hex (hex_digit m) = true) as Hh.
  { intros m Hm. assert (m ∈ [0;1;2;3;4;5;6;7;8;9;10;11;12;13;14;15])%N as Hin
      by (set_unfold; lia).
    repeat (apply elem_of_cons in Hin as [->|Hin]; [done|]). set_solver. }
  rewrite !Hh by by apply N.mod_lt. done.
Qed.

Lemma raw_byte a : is_ascii_byte a = false → raw_ok (String a "").
Proof. intros Ha. apply raw_plain; [by apply non_ascii_plain|constructor]. Qed.

Lemma cont_plain c : cont_byte c = true → plain_byte c = true.
Proof. intros Hc. by apply non_ascii_plain, cont_non_ascii. Qed.

Lemma escape_ok s : raw_ok (escape s).
Proof.
  unfold escape.
  induction s as [|a s Ha IH|a b s Ha Hb IH|a b c s Ha Hb Hc IH|a b c d s Ha Hb Hc Hd IH
                 |a s Ha Hbad IH] using chunks_ind; [constructor|..].
  - rewrite chunks_ascii, flat_chunks_cons by done. by apply raw_ok_app; [apply escape_ascii_ok|].
  - rewrite chunks_2, flat_chunks_cons by done. cbn [escape_chunk]. rewrite separator2 by done.
    apply ok2_cont in Hb as [Hb _].
    apply raw_ok_app; [|done]. repeat constructor; [by apply non_ascii_plain|by apply cont_plain].
  - rewrite chunks_3, flat_chunks_cons by done. cbn [escape_chunk].
    apply raw_ok_app; [|done]. destruct (is_separator _); [apply u_escape_ok|].
    apply andb_prop in Hc as [[Hb' _]%lead3_cont Hc].
    repeat constructor; [by apply non_ascii_plain|by apply cont_plain..].
  - rewrite chunks_4, flat_chunks_cons by done. cbn [escape_chunk]. rewrite separator4 by done.
    apply andb_prop in Hd as [[[Hb' _]%lead4_cont Hc']%andb_prop Hd].
    apply raw_ok_app; [|done]. repeat constructor; [by apply non_ascii_plain|by apply cont_plain..].
  - rewrite Hbad, flat_chunks_cons. apply raw_ok_app; [|done].
    apply (raw_u "f" "f" "f" "d" ""); [done|constructor].
Qed.

(** ** Compacting *)

Lemma html_plain a s :
  is_html a = false → a ≠ byte 0xE2 → html_escape (String a s) = String a (html_escape s).
Proof.
  intros Ha HE. cbn [html_escape]. rewrite Ha.
  destruct s as [|b [|c s]]; try done. by rewrite bool_decide_false by tauto.
Qed.

Lemma html_E2 a b c s :
  a = byte 0xE2 → ¬ (b = byte 0x80 ∧ (c = byte 0xA8 ∨ c = byte 0xA9)) →
  html_escape (String a (String b (String c s))) = String a (html_escape (String b (String c s))).
Proof. intros -> Hn. cbn [html_escape]. change (is_html (byte 0xE2)) with false. cbv iota.
  by rewrite bool_decide_false by tauto.
Qed.

Lemma html_sep a b c s :
  a = byte 0xE2 ∧ b = byte 0x80 ∧ (c = byte 0xA8 ∨ c = byte 0xA9) →
  html_escape (String a (String b (String c s))) = u_escape (rune3 a b c) +:+ html_escape s.
Proof.
  intros (-> & -> & Hc). cbn [html_escape]. change (is_html (byte 0xE2)) with false. cbv iota.
  by rewrite bool_decide_true by tauto.
Qed.

Lemma raw_ok_inv c s :
  raw_ok (String c s) →
  plain_byte c = true ∧ raw_ok s ∨
  c = bslash ∧ ((∃ e t, s = String e t ∧ simple_escape e = true ∧ raw_ok t) ∨
    ∃ h1 h2 h3 h4 t, s = String "u" (String h1 (String h2 (String h3 (String h4 t)))) ∧
      is_hex h1 && is_hex h2 && is_hex h3 && is_hex h4 = true ∧ raw_ok t).
Proof.
  inversion 1; subst; [by left|right..]; (split; [done|]).
  - left. eexists _, _. split_and!; done.
  - right. eexists _, _, _, _, _. split_and!; done.
Qed.

(** Induction on the length of a string. *)
Lemma length_ind (P : string → Prop) :
  (∀ s, (∀ t, String.length t < String.length s → P t) → P s) → ∀ s, P s.
Proof.
  intros HP s. remember (String.length s) as n eqn:Hn. revert s Hn.
  induction (lt_wf n) as [n _ IH]. intros s ->. apply HP. intros t Ht. by eapply IH.
Qed.

Lemma escapes_not_html e : simple_escape e = true → is_html e = false ∧ e ≠ byte 0xE2 ∧ is_ascii_byte e = true.
Proof. all_bytes_of e. Qed.
Lemma hex_not_html e : is_hex e = true → is_html e = false ∧ e ≠ byte 0xE2 ∧ is_ascii_byte e = true.
Proof. all_bytes_of e. Qed.

(** Escapes pass through compaction unchanged. *)
Lemma html_simple e t :
  simple_escape e = true →
  html_escape (String bslash (String e t)) = String bslash (String e (html_escape t)).
Proof. intros (? & ? & _)%escapes_not_html. by rewrite !html_plain. Qed.

Lemma html_u h1 h2 h3 h4 t :
  is_hex h1 && is_hex h2 && is_hex h3 && is_hex h4 = true →
  html_escape (String bslash (String "u" (String h1 (String h2 (String h3 (String h4 t)))))) =
  String bslash (String "u" (String h1 (String h2 (String h3 (String h4 (html_escape t)))))).
Proof.
  intros [[[H1 H2]%andb_prop H3]%andb_prop H4]%andb_prop.
  apply hex_not_html in H1 as (? & ? & _), H2 as (? & ? & _), H3 as (? & ? & _),
    H4 as (? & ? & _). by rewrite !html_plain.
Qed.

Lemma E2_cases s :
  (∃ c t, s = String (byte 0x80) (String c t) ∧ (c = byte 0xA8 ∨ c = byte 0xA9)) ∨
  html_escape (String (byte 0xE2) s) = String (byte 0xE2) (html_escape s).
Proof.
  destruct s as [|b [|c s]]; [by right..|].
  destruct (decide (b = byte 0x80 ∧ (c = byte 0xA8 ∨ c = byte 0xA9))) as [[-> ?]|?];
    [left; eauto|right; by apply html_E2].
Qed.

Lemma html_escape_ok raw : raw_ok raw → raw_ok (html_escape raw).
Proof.
  induction raw as [raw IH] using length_ind. destruct raw as [|a s]; [constructor|].
  intros [[Hp Hs]|[-> [(e & t & -> & He & Ht)|(h1 & h2 & h3 & h4 & t & -> & Hh & Ht)]]]%raw_ok_inv.
  - destruct (is_html a) eqn:Ha.
    { cbn [html_escape]. rewrite Ha. apply raw_ok_app; [apply u_escape_ok|].
      apply IH; [simpl; lia|done]. }
    destruct (decide (a = byte 0xE2)) as [->|HE].
    + destruct (E2_cases s) as [(c & t & -> & Hc)|HE2]; [|rewrite HE2].
      * rewrite html_sep by done. apply raw_ok_app; [apply u_escape_ok|].
        apply IH; [simpl; lia|]. apply raw_ok_inv in Hs as [[_ Hs]|[Hs _]]; [|done].
        apply raw_ok_inv in Hs as [[_ Hs]|[Hs _]]; [done|]. subst c. by destruct Hc.
      * apply raw_plain; [done|]. apply IH; [simpl; lia|done].
    + rewrite html_plain by done. apply raw_plain; [done|]. apply IH; [simpl; lia|done].
  - rewrite html_simple by done. apply raw_escape; [done|]. apply IH; [simpl; lia|done].
  - rewrite html_u by done. apply raw_u; [done|]. apply IH; [simpl; lia|done].
Qed.

(** Whether a byte starts a sequence depends on the continuation bytes after it,
    which compaction keeps. *)
Fixpoint cont_prefix (n : nat) (s : string) : string :=
  match n, s with
  | S n', String c s' => if cont_byte c then String c (cont_prefix n' s') else ""
  | _, _ => ""
  end.

Lemma html_byte_not_cont a : is_html a = true → cont_byte a = false ∧ is_ascii_byte a = true.
Proof. all_bytes_of a. Qed.

Lemma html_cont_prefix n s : cont_prefix n (html_escape s) = cont_prefix n s.
Proof.
  revert s. induction n as [|n IH]; intros [|a s]; [done..|].
  destruct (is_html a) eqn:Ha.
  { cbn [html_escape]. rewrite Ha. unfold u_escape. rewrite str_app_cons.
    cbn [cont_prefix]. change (cont_byte bslash) with false. cbv iota.
    by rewrite (proj1 (html_byte_not_cont a Ha)). }
  destruct (decide (a = byte 0xE2)) as [->|HE].
  - destruct (E2_cases s) as [(c & t & -> & Hc)|Heq]; [rewrite html_sep by done; done|].
    by rewrite Heq.
  - rewrite html_plain by done. cbn [cont_prefix]. by rewrite IH.
Qed.

Lemma bad_prefix a s t :
  is_ascii_byte a = false → chunks (String a s) = CBad a :: chunks s →
  cont_prefix 3 t = cont_prefix 3 s → chunks (String a t) = CBad a :: chunks t.
Proof.
  intros Ha Hbad Hp. cbn [chunks] in *. rewrite Ha in *.
  destruct t as [|b t]; [done|]. destruct (ok2 a b) eqn:H2.
  { apply ok2_cont in H2 as Hb. cbn [cont_prefix] in Hp. rewrite (proj1 Hb) in Hp.
    destruct s as [|b' s]; [done|]. cbn [cont_prefix] in Hp.
    destruct (cont_byte b'); [|done]. injection Hp as -> _. by rewrite H2 in Hbad. }
  destruct t as [|c t]; [done|]. destruct (ok3 a b c) eqn:H3.
  { apply andb_prop in H3 as H3'. destruct H3' as [[Hb _]%lead3_cont Hc].
    cbn [cont_prefix] in Hp. rewrite Hb, Hc in Hp.
    destruct s as [|b' [|c' s]]; cbn [cont_prefix] in Hp; [done| |].
    - by destruct (cont_byte b').
    - destruct (cont_byte b'), (cont_byte c'); try done. injection Hp as -> -> _.
      by rewrite H2, H3 in Hbad. }
  destruct t as [|d t]; [done|]. destruct (ok4 a b c d) eqn:H4; [|done].
  apply andb_prop in H4 as H4'. destruct H4' as [[[Hb _]%lead4_cont Hc]%andb_prop Hd].
  cbn [cont_prefix] in Hp. rewrite Hb, Hc, Hd in Hp.
  destruct s as [|b' [|c' [|d' s]]]; cbn [cont_prefix] in Hp; [done| | |].
  - by destruct (cont_byte b').
  - by destruct (cont_byte b'), (cont_byte c').
  - destruct (cont_byte b'), (cont_byte c'), (cont_byte d'); try done.
    injection Hp as -> -> -> . by rewrite H2, H3, H4 in Hbad.
Qed.

(** The second half of a surrogate pair at the head of the chunks. *)
Definition low_half (r : N) (l : list chunk) : option (N * list chunk) :=
  match l with
  | CAscii b :: CAscii u :: CAscii g1 :: CAscii g2 :: CAscii g3 :: CAscii g4 :: l4 =>
    if bool_decide (b = bslash ∧ u = "u"%char) &&
       (is_hex g1 && is_hex g2 && is_hex g3 && is_hex g4)
    then (λ r', (r', l4)) <$> decode_pair r (hex4 g1 g2 g3 g4)
    else None
  | _ => None
  end.

Lemma unescape_u h1 h2 h3 h4 l :
  unescape (CAscii bslash :: CAscii "u" :: CAscii h1 :: CAscii h2 :: CAscii h3 :: CAscii h4 :: l) =
  let r := hex4 h1 h2 h3 h4 in
  if is_surrogate r then
    match low_half r l with
    | Some (r', l4) => encode_rune r' +:+ unescape l4
    | None => replacement +:+ unescape l
    end
  else encode_rune r +:+ unescape l.
Proof.
  cbn [unescape]. rewrite !bool_decide_true by done. cbv zeta.
  destruct (is_surrogate (hex4 h1 h2 h3 h4)); [|done].
  destruct l as [|[b| |] [|[u| |] [|[g1| |] [|[g2| |] [|[g3| |] [|[g4| |] l]]]]]]; try done.
  cbn [low_half]. destruct (bool_decide _ && _); [|done]. by destruct (decode_pair _ _).
Qed.

Lemma low_half_head r a l : a ≠ bslash → low_half r (CAscii a :: l) = None.
Proof.
  intros Ha. destruct l as [|[u| |] [|[g1| |] [|[g2| |] [|[g3| |] [|[g4| |] l]]]]]; try done.
  cbn [low_half]. by rewrite bool_decide_false by naive_solver.
Qed.
Lemma low_half_rune r x s l : low_half r (CRune x s :: l) = None.
Proof. done. Qed.
Lemma low_half_bad r a l : low_half r (CBad a :: l) = None.
Proof. done. Qed.

Lemma chunks_u h1 h2 h3 h4 t :
  is_hex h1 && is_hex h2 && is_hex h3 && is_hex h4 = true →
  chunks (String bslash (String "u" (String h1 (String h2 (String h3 (String h4 t)))))) =
  CAscii bslash :: CAscii "u" :: CAscii h1 :: CAscii h2 :: CAscii h3 :: CAscii h4 :: chunks t.
Proof.
  intros [[[H1 H2]%andb_prop H3]%andb_prop H4]%andb_prop.
  apply hex_not_html in H1 as (_ & _ & ?), H2 as (_ & _ & ?), H3 as (_ & _ & ?),
    H4 as (_ & _ & ?). by rewrite !chunks_ascii.
Qed.

(** An escaped HTML character or separator is no second half. *)
Lemma low_half_small r h1 h2 h3 h4 l :
  (hex4 h1 h2 h3 h4 <? 0xDC00)%N = true →
  low_half r (CAscii bslash :: CAscii "u" :: CAscii h1 :: CAscii h2 :: CAscii h3 :: CAscii h4 :: l)
    = None.
Proof.
  intros Hlt%N.ltb_lt. cbn [low_half]. destruct (bool_decide _ && _); [|done].
  unfold decode_pair. assert (in_range 0xDC00 0xDFFF (hex4 h1 h2 h3 h4) = false) as ->.
  { unfold in_range. apply andb_false_iff. left. by apply N.leb_gt. }
  by rewrite andb_false_r.
Qed.
Lemma low_half_html r a t :
  is_html a = true → low_half r (chunks (u_escape (byte_val a) +:+ t)) = None.
Proof.
  all_bytes_of a; intros _;
    [exact (low_half_small r "0" "0" "3" "e" (chunks t) eq_refl)
    |exact (low_half_small r "0" "0" "2" "6" (chunks t) eq_refl)
    |exact (low_half_small r "0" "0" "3" "c" (chunks t) eq_refl)].
Qed.
Lemma low_half_sep r a b c t :
  a = byte 0xE2 ∧ b = byte 0x80 ∧ (c = byte 0xA8 ∨ c = byte 0xA9) →
  low_half r (chunks (u_escape (rune3 a b c) +:+ t)) = None.
Proof.
  intros (-> & -> & [-> | ->]).
  - exact (low_half_small r "2" "0" "2" "8" (chunks t) eq_refl).
  - exact (low_half_small r "2" "0" "2" "9" (chunks t) eq_refl).
Qed.

Lemma unescape_html a t :
  is_html a = true → unescape (chunks (u_escape (byte_val a) +:+ t)) = String a (unescape (chunks t)).
Proof. all_bytes_of a. Qed.

Lemma unescape_plain a l : a ≠ bslash → unescape (CAscii a :: l) = String a (unescape l).
Proof. intros Ha. cbn [unescape]. by rewrite bool_decide_false. Qed.

Definition sep_bytes (a b c : ascii) : Prop :=
  a = byte 0xE2 ∧ b = byte 0x80 ∧ (c = byte 0xA8 ∨ c = byte 0xA9).

Lemma raw_ok_tail a s : is_ascii_byte a = false → raw_ok (String a s) → raw_ok s.
Proof. intros Ha [[_ Hs]|[-> _]]%raw_ok_inv; done. Qed.

Lemma cont_html_plain c s :
  cont_byte c = true → html_escape (String c s) = String c (html_escape s).
Proof.
  intros [Hc HE]%cont_non_ascii. apply html_plain; [by apply non_ascii_plain|done].
Qed.

(** A byte that is not ASCII: its chunk goes through compaction unchanged, or is
    a separator and is escaped. *)
Lemma html_chunk_step a s :
  is_ascii_byte a = false → raw_ok s →
  ∃ x s', chunks (String a s) = x :: chunks s' ∧ raw_ok s' ∧
    String.length s' ≤ String.length s ∧ (∀ c, x ≠ CAscii c) ∧
    (chunks (html_escape (String a s)) = x :: chunks (html_escape s') ∨
     ∃ b c, sep_bytes a b c ∧ html_escape (String a s) = u_escape (rune3 a b c) +:+ html_escape s' ∧
            x = CRune (rune3 a b c) (String a (String b (String c "")))).
Proof.
  intros Ha. destruct (non_ascii_plain a Ha) as [_ Hh].
  remember (String a s) as w eqn:Hw. revert a s Ha Hh Hw.
  induction w as [|a w Ha _|a b w Ha Hb _|a b c w Ha Hb Hc _|a b c d w Ha Hb Hc Hd _|a w Ha Hbad _]
    using chunks_ind; intros a' s' Ha' Hh Hw; [done|injection Hw as <- <-; intros Hraw..];
    [congruence|..].
  - apply ok2_cont in Hb as Hb'. destruct Hb' as [Hcb HE].
    exists (CRune (rune2 a b) (String a (String b ""))), w.
    split_and!; [by apply chunks_2| |simpl; lia|done|left].
    + eapply raw_ok_tail, Hraw. by apply cont_non_ascii.
    + by rewrite html_plain, cont_html_plain, chunks_2.
  - apply andb_prop in Hc as Hc'. destruct Hc' as [[Hcb _]%lead3_cont Hcc].
    exists (CRune (rune3 a b c) (String a (String b (String c "")))), w.
    split_and!; [by apply chunks_3| |simpl; lia|done|].
    + eapply raw_ok_tail, raw_ok_tail, Hraw; by apply cont_non_ascii.
    + destruct (is_separator (rune3 a b c)) eqn:Hs.
      * apply separator3 in Hs as Hs'; [|done]. right. exists b, c.
        split_and!; [done|by apply html_sep|done].
      * left. assert (¬ sep_bytes a b c) as Hn.
        { intros Hs'. apply (separator3 a b c Hc) in Hs'. congruence. }
        assert (html_escape (String a (String b (String c w))) =
                String a (html_escape (String b (String c w)))) as ->.
        { destruct (decide (a = byte 0xE2)); [|by apply html_plain].
          apply html_E2; [done|]. unfold sep_bytes in Hn. tauto. }
        by rewrite !cont_html_plain, chunks_3.
  - apply andb_prop in Hd as Hd'. destruct Hd' as [[[Hcb Hla]%lead4_cont Hcc]%andb_prop Hcd].
    exists (CRune (rune4 a b c d) (String a (String b (String c (String d ""))))), w.
    split_and!; [by apply chunks_4| |simpl; lia|done|left].
    + eapply raw_ok_tail, raw_ok_tail, raw_ok_tail, Hraw; by apply cont_non_ascii.
    + rewrite html_plain, !cont_html_plain, chunks_4; try done.
      intros ->. vm_compute in Hla. naive_solver lia.
  - exists (CBad a), w. split_and!; [done|done|done|done|left].
    assert (html_escape (String a w) = String a (html_escape w)) as ->.
    { destruct (decide (a = byte 0xE2)) as [->|]; [|by apply html_plain].
      destruct (E2_cases w) as [(c & t & -> & Hc)|?]; [|done].
      exfalso. rewrite chunks_3 in Hbad; [done|done|done|by destruct Hc as [-> | ->]]. }
    eapply bad_prefix; [done|done|apply html_cont_prefix].
Qed.

Lemma not_bslash a : plain_byte a = true → a ≠ bslash.
Proof. intros Hp. by apply plain_not in Hp as [_ ?]. Qed.

(** The second half of a pair is seen through compaction. *)
Lemma low_half_compact r t :
  raw_ok t →
  (low_half r (chunks t) = None ∧ low_half r (chunks (html_escape t)) = None) ∨
  ∃ r' t', low_half r (chunks t) = Some (r', chunks t') ∧
    low_half r (chunks (html_escape t)) = Some (r', chunks (html_escape t')) ∧
    raw_ok t' ∧ String.length t' < String.length t.
Proof.
  destruct t as [|a s]; [by left|].
  intros [[Hp Hs]|[-> [(e & t & -> & He & Ht)|(h1 & h2 & h3 & h4 & t & -> & Hh & Ht)]]]%raw_ok_inv.
  - left. destruct (is_ascii_byte a) eqn:Ha.
    + split; [by rewrite chunks_ascii, low_half_head by eauto using not_bslash|].
      destruct (is_html a) eqn:Hh; [cbn [html_escape]; rewrite Hh; by apply low_half_html|].
      rewrite html_plain by (try intros ->; done).
      by rewrite chunks_ascii, low_half_head by eauto using not_bslash.
    + destruct (html_chunk_step a s Ha Hs) as (x & s' & Hc & _ & _ & Hx & Hstep).
      rewrite Hc. split; [by destruct x; [destruct (Hx c)|..]|].
      destruct Hstep as [->|(b & c & Hsep & -> & _)]; [by destruct x; [destruct (Hx c)|..]|].
      by apply low_half_sep.
  - left. rewrite html_simple by done. pose proof (escapes_not_html e He) as (_ & _ & Hae).
    rewrite !chunks_ascii by done. apply simple_not_u in He.
    split; (destruct (chunks _) as [|[g1| |] [|[g2| |] [|[g3| |] [|[g4| |] l]]]]; try done;
            cbn [low_half]; by rewrite bool_decide_false by naive_solver).
  - rewrite html_u, !chunks_u by done. cbn [low_half].
    rewrite bool_decide_true, Hh by done. cbn [andb].
    destruct (decode_pair r (hex4 h1 h2 h3 h4)) as [r'|]; [right|by left].
    exists r', t. split_and!; [done|done|done|simpl; lia].
Qed.

(** Compacting a string does not change what it stands for. *)
Lemma unquote_html raw : raw_ok raw → unquote (html_escape raw) = unquote raw.
Proof.
  unfold unquote. induction raw as [raw IH] using length_ind. destruct raw as [|a s]; [done|].
  intros [[Hp Hs]|[-> [(e & t & -> & He & Ht)|(h1 & h2 & h3 & h4 & t & -> & Hh & Ht)]]]%raw_ok_inv.
  - destruct (is_ascii_byte a) eqn:Ha.
    + rewrite (chunks_ascii a), unescape_plain by eauto using not_bslash.
      assert (unescape (chunks (html_escape s)) = unescape (chunks s)) as <-
        by (apply IH; [simpl; lia|done]).
      destruct (is_html a) eqn:Hh.
      { cbn [html_escape]. rewrite Hh. by apply unescape_html. }
      rewrite html_plain by (try intros ->; done).
      by rewrite chunks_ascii, unescape_plain by eauto using not_bslash.
    + destruct (html_chunk_step a s Ha Hs) as (x & s' & Hc & Hs' & Hlen & Hx & Hstep).
      assert (unescape (chunks (html_escape s')) = unescape (chunks s')) as Heq
        by (apply IH; [simpl; lia|done]).
      assert (∀ l, unescape (x :: l) = valid_chunk x +:+ unescape l) as Hun.
      { intros l. by destruct x; [destruct (Hx c)|..]. }
      rewrite Hc, Hun, <- Heq. destruct Hstep as [->|(b & c & Hsep & -> & ->)]; [by rewrite Hun|].
      by rewrite unescape_separator.
  - rewrite html_simple by done. pose proof (escapes_not_html e He) as (_ & _ & Hae).
    rewrite !chunks_ascii by done. apply simple_not_u in He. cbn [unescape].
    rewrite bool_decide_true, bool_decide_false by done. f_equal. apply IH; [simpl; lia|done].
  - rewrite html_u, !chunks_u, !unescape_u by done. cbv zeta.
    assert (unescape (chunks (html_escape t)) = unescape (chunks t)) as Heq
      by (apply IH; [simpl; lia|done]).
    destruct (is_surrogate _); [|by rewrite Heq].
    destruct (low_half_compact (hex4 h1 h2 h3 h4) t Ht)
      as [[-> ->]|(r' & t' & -> & -> & Ht' & Hlen)]; [by rewrite Heq|].
    f_equal. apply IH; [simpl; lia|done].
Qed.

Lemma wf_html_json j : wf_json j → wf_json (html_json j) ∧ depth (html_json j) = depth j.
Proof.
  induction j as [|b|n|raw|l IH|m IH] using json_ind_nested; intros Hwf;
    inversion Hwf as [|?|? Hn|? Hraw|? Hl|? Hm]; subst; try (by split; auto with json).
  - split; [|done]. constructor. by apply html_escape_ok.
  - rewrite Forall_forall in IH, Hl. split.
    + constructor. apply Forall_fmap, Forall_forall. intros x Hx. by apply IH; [|apply Hl].
    + cbn [html_json depth]. rewrite map_map. do 2 f_equal. apply map_ext_in. intros x Hx.
      apply list_elem_of_In in Hx. by apply IH; [|apply Hl].
  - rewrite Forall_forall in IH, Hm. split.
    + constructor. apply Forall_fmap, Forall_forall. intros x Hx. simpl.
      destruct (Hm x Hx). split; [by apply html_escape_ok|by apply IH].
    + cbn [html_json depth]. rewrite map_map. do 2 f_equal. apply map_ext_in. intros x Hx.
      apply list_elem_of_In in Hx. simpl. by apply IH; [|apply Hm].
Qed.

(** ** Decoded strings are valid *)

Lemma unescape1_ascii e : is_ascii_byte e = true → is_ascii_byte (unescape1 e) = true.
Proof. intros He. unfold unescape1. by repeat case_bool_decide. Qed.

Lemma valid_ascii_cons a s :
  is_ascii_byte a = true → is_valid_utf8 s = true → is_valid_utf8 (String a s) = true.
Proof. intros Ha Hs. unfold is_valid_utf8. by rewrite chunks_ascii. Qed.

Lemma unescape_valid l : Forall chunk_ok l → is_valid_utf8 (unescape l) = true.
Proof.
  remember (length l) as n eqn:Hn. revert l Hn.
  induction (lt_wf n) as [n _ IH]. intros l -> Hl.
  assert (∀ k, length k < length l → Forall chunk_ok k → is_valid_utf8 (unescape k) = true) as IH'
    by (intros k Hk; by eapply IH). clear IH.
  assert (∀ r k, length k < length l → Forall chunk_ok k →
    is_valid_utf8 (encode_rune r +:+ unescape k) = true) as Hrune.
  { intros r k Hk Hf. apply valid_app; [apply encode_rune_valid|by apply IH']. }
  destruct l as [|c l1]; [done|]. pose proof (Forall_cons_1 _ _ _ Hl) as [[Hc Ha] Hl1].
  cbn [length] in *. destruct c as [a|r s|a]; cbn [unescape];
    [|apply valid_app; [done|apply IH'; [lia|done]]..].
  case_bool_decide; [|apply valid_ascii_cons; [done|apply IH'; [lia|done]]].
  destruct l1 as [|[e| |] l2]; try done.
  pose proof (Forall_cons_1 _ _ _ Hl1) as [[_ He] Hl2]. cbn [length] in *.
  case_bool_decide; [|apply valid_ascii_cons; [by apply unescape1_ascii|apply IH'; [lia|done]]].
  destruct l2 as [|[h1| |] [|[h2| |] [|[h3| |] [|[h4| |] l3]]]]; try done.
  cbv zeta. cbn [length] in *.
  assert (Forall chunk_ok l3) as Hl3 by (by repeat apply Forall_cons_1, proj2 in Hl2).
  assert (is_valid_utf8 (replacement +:+ unescape l3) = true) as Hrep by (apply Hrune; [lia|done]).
  destruct (is_surrogate _); [|apply Hrune; [lia|done]].
  destruct l3 as [|[b| |] [|[u| |] [|[g1| |] [|[g2| |] [|[g3| |] [|[g4| |] l4]]]]]]; try done.
  destruct (bool_decide _ && _); [|done]. destruct (decode_pair _ _); [|done].
  cbn [length] in *. apply Hrune; [lia|]. by repeat apply Forall_cons_1, proj2 in Hl3.
Qed.

Lemma unquote_valid raw : is_valid_utf8 (unquote raw) = true.
Proof. apply unescape_valid, chunks_ok. Qed.
