(* ===== verification/JsonCodec.v ===== *)
(** * encoding/json on dynamic values

    [json.Marshal], [json.Valid] and [json.Unmarshal] (into an [interface{}]) on
    the values of [GoValue], as an instance [go_json] of the class the rest of the
    development is written against.  Encoding builds a JSON text tree and prints
    it; decoding parses a text and reads the tree. *)
From S2P Require Import Prelude GoStrings GoValue Libs Utf8 Decimal JsonText.
From Stdlib Require Import SpecFloat.

(** What is left open: how values of other types encode themselves (a [time.Time]
    through its MarshalJSON), and the wording of syntax errors. *)
Class JsonTypes := {
  marshal_other : string → string → result string string;
  syntax_error : string → string;
}.

(** ** Encoding *)

(** Entries in the order of their keys, which is how maps are encoded. *)
Definition key_le {A} (x y : string * A) : Prop := String.le x.1 y.1.
#[export] Instance key_le_dec {A} : RelDecision (@key_le A).
Proof. unfold RelDecision, key_le. intros x y. apply _. Defined.
Definition sort_keyed {A} (l : list (string * A)) : list (string * A) := merge_sort key_le l.

(** The first error, or all the results. *)
Fixpoint seqR {E A} (l : list (result E A)) : result E (list A) :=
  match l with
  | [] => Ok []
  | x :: l' => y ← x; ys ← seqR l'; Ok (y :: ys)
  end.

Definition bad_float (f : spec_float) : string := "json: unsupported value: " +:+ format_g f.

Section encode.
Context `{JsonTypes}.

(** A text that a value produced itself is checked and compacted. *)
Definition compact (ty text : string) : result string json :=
  match parse_json text with
  | Some j => Ok (html_json j)
  | None => Err ("json: error calling MarshalJSON for type " +:+ ty +:+ ": " +:+ syntax_error text)
  end.

Fixpoint encode (v : value) : result string json :=
  match v with
  | VNil => Ok JNull
  | VBool b => Ok (JBool b)
  | VInt _ z => Ok (JNum (number_of_Z z))
  | VFloat64 f => if is_finite f then Ok (JNum (number_of_float f)) else Err (bad_float f)
  | VString s => Ok (JStr (escape s))
  | VBytes s => Ok (JStr (base64 s))
  | VSlice l => JArr <$> seqR (map encode l)
  | VMap _ m =>
    JObj <$> seqR (map (λ kr, pair (escape kr.1) <$> kr.2)
                     (sort_keyed (map (λ kv, (kv.1, encode kv.2)) m)))
  | VIMap _ => Err "json: unsupported type: map[interface {}]interface {}"
  | VRaw s => compact "json.RawMessage" s
  | VOther ty repr => text ← marshal_other ty repr; compact ty text
  end.

Definition Marshal (v : value) : result string string := print_json <$> encode v.
End encode.

(** ** Decoding

    The variable's value, and whether there was no error.  Objects become maps
    with the last of several equal keys; a number out of range leaves nil. *)

Fixpoint decode (j : json) : value * bool :=
  match j with
  | JNull => (VNil, true)
  | JBool b => (VBool b, true)
  | JNum n => let f := read_number n in
              if is_finite f then (VFloat64 f, true) else (VNil, false)
  | JStr raw => (VString (unquote raw), true)
  | JArr l => let r := map decode l in (VSlice (map fst r), forallb snd r)
  | JObj m =>
    let r := map (λ kv, (unquote kv.1, decode kv.2)) m in
    (VMap false (foldl (λ acc kr, assoc_set kr.1 kr.2.1 acc) [] r), forallb (λ kr, kr.2.2) r)
  end.

Definition Unmarshal (s : string) : value * bool :=
  match parse_json s with Some j => decode j | None => (VNil, false) end.
Definition Valid (s : string) : bool :=
  match parse_json s with Some _ => true | None => false end.

Definition go_json `{JsonTypes} : Json :=
  {| json_Unmarshal := Unmarshal; json_Valid := Valid; json_Marshal := Marshal |}.

(** ** What a reader gets back

    The value a decoder finds in the encoding of [v], described on [v] itself:
    numbers become float64, strings lose their invalid bytes, byte slices become
    base64, maps are filled in the order of their keys. *)

Definition read_num (n : number) : value * bool :=
  let f := read_number n in if is_finite f then (VFloat64 f, true) else (VNil, false).

Section as_read.
Context `{JsonTypes}.

Definition fill (l : list (string * (value * bool))) : value * bool :=
  (VMap false (foldl (λ acc kr, assoc_set kr.1 kr.2.1 acc) [] l), forallb (λ kr, kr.2.2) l).

Fixpoint as_read (v : value) : value * bool :=
  match v with
  | VInt _ z => read_num (number_of_Z z)
  | VString s => (VString (to_valid s), true)
  | VBytes s => (VString (base64 s), true)
  | VSlice l => let r := map as_read l in (VSlice (map fst r), forallb snd r)
  | VMap _ m =>
    fill (map (λ kr, (to_valid kr.1, kr.2)) (sort_keyed (map (λ kv, (kv.1, as_read kv.2)) m)))
  | VRaw s => Unmarshal s
  | VOther ty repr => match marshal_other ty repr with Ok s => Unmarshal s | Err _ => (VNil, false) end
  | _ => (v, true)
  end.

Definition seen (v : value) : value := (as_read v).1.

(** Every double in the value is a double. *)
Fixpoint doubles_ok (v : value) : bool :=
  match v with
  | VFloat64 f => valid64 f
  | VSlice l => forallb doubles_ok l
  | VMap _ m => forallb (λ kv, doubles_ok kv.2) m
  | VIMap m => forallb (λ kv, doubles_ok kv.1 && doubles_ok kv.2) m
  | _ => true
  end.

(** The nesting of the encoding. *)
Definition text_depth (s : string) : nat :=
  match parse_json s with Some j => depth j | None => 0 end.
Fixpoint value_depth (v : value) : nat :=
  match v with
  | VSlice l => S (max_list (map value_depth l))
  | VMap _ m => S (max_list (map (λ kv, value_depth kv.2) m))
  | VRaw s => text_depth s
  | VOther ty repr => match marshal_other ty repr with Ok s => text_depth s | Err _ => 0 end
  | _ => 0
  end.
End as_read.

(** ** Examples *)

Definition no_types : JsonTypes :=
  {| marshal_other ty repr := Err "unsupported"; syntax_error s := "invalid character" |}.

Example marshal_examples :
  @Marshal no_types (VMap false [("b", VInt KInt 1); ("a", VSlice [VNil; VBool true])]) =
    Ok ("{" +:+ quoted "a" +:+ ":[null,true]," +:+ quoted "b" +:+ ":1}") ∧
  @Marshal no_types (VRaw " [1 , 2] ") = Ok "[1,2]" ∧
  @Marshal no_types (VBytes "foo") = Ok (quoted "Zm9v") ∧
  @Marshal no_types (VSlice [VFloat64 S754_nan]) = Err "json: unsupported value: NaN" ∧
  Unmarshal ("{" +:+ quoted "a" +:+ ":1," +:+ quoted "a" +:+ ":[2]}") =
    (VMap false [("a", VSlice [VFloat64 (dbl 2 0)])], true) ∧
  Unmarshal "[1e999, true]" = (VSlice [VNil; VBool true], false) ∧
  Unmarshal "[1" = (VNil, false).
Proof. vm_compute. repeat split. Qed.

(** ** Sorting entries *)

(** Sorting looks at the keys only. *)
Section sort_map.
Context {A B : Type} (g : string * A → string * B) (Hg : ∀ x, (g x).1 = x.1).

Lemma list_merge_map l k :
  list_merge key_le (map g l) (map g k) = map g (list_merge key_le l k).
Proof.
  revert k. induction l as [|x l IHl]; intros k; [by destruct k|].
  induction k as [|y k IHk]; [done|].
  change (map g (x :: l)) with (g x :: map g l). change (map g (y :: k)) with (g y :: map g k).
  rewrite !list_merge_cons. assert (key_le (g x) (g y) ↔ key_le x y) as Hle
    by (unfold key_le; by rewrite !Hg).
  destruct (decide (key_le (g x) (g y))), (decide (key_le x y)); try tauto; cbn [map]; f_equal.
  - apply (IHl (y :: k)).
  - exact IHk.
Qed.

Definition map_stack (st : list (option (list (string * A)))) : list (option (list (string * B))) :=
  map (fmap (map g)) st.

Lemma merge_list_to_stack_map st l :
  merge_list_to_stack key_le (map_stack st) (map g l) = map_stack (merge_list_to_stack key_le st l).
Proof.
  revert l. induction st as [|[k|] st IH]; intros l; [done| |done]; simpl.
  f_equal. rewrite list_merge_map. apply IH.
Qed.

Lemma merge_stack_map st : merge_stack key_le (map_stack st) = map g (merge_stack key_le st).
Proof.
  induction st as [|[k|] st IH]; [done| |]; simpl; [|exact IH]. by rewrite IH, list_merge_map.
Qed.

Lemma merge_sort_aux_map st l :
  merge_sort_aux key_le (map_stack st) (map g l) = map g (merge_sort_aux key_le st l).
Proof.
  revert st. induction l as [|x l IH]; intros st; simpl; [apply merge_stack_map|].
  rewrite <- IH. f_equal. apply (merge_list_to_stack_map st [x]).
Qed.

Lemma sort_keyed_map l : sort_keyed (map g l) = map g (sort_keyed l).
Proof. apply (merge_sort_aux_map []). Qed.
End sort_map.

Lemma sort_keyed_perm {A} (l : list (string * A)) : sort_keyed l ≡ₚ l.
Proof. apply merge_sort_Permutation. Qed.

Lemma sort_keyed_values {A B} (f : A → B) (l : list (string * A)) :
  sort_keyed (map (λ kv, (kv.1, f kv.2)) l) = map (λ kv, (kv.1, f kv.2)) (sort_keyed l).
Proof. by apply (sort_keyed_map (λ kv, (kv.1, f kv.2))). Qed.

(** ** The codec *)

Lemma seqR_map {E A B} (f : A → result E B) l ys :
  seqR (map f l) = Ok ys ↔ Forall2 (λ x y, f x = Ok y) l ys.
Proof.
  revert ys. induction l as [|x l IH]; intros ys; simpl.
  - split; [by intros [= <-]|]. by inversion 1.
  - split.
    + unfold mbind, result_bind. destruct (f x) as [y|e] eqn:Hx; [|done].
      destruct (seqR (map f l)) as [ys'|e]; [|done]. intros [= <-]. constructor; [done|].
      by apply IH.
    + inversion 1 as [|? y ? ys' Hy Hys]; subst. rewrite Hy. apply IH in Hys.
      unfold mbind, result_bind. by rewrite Hys.
Qed.

Lemma Forall2_map_eq {A B C} (f : A → C) (g : B → C) (P : A → B → Prop) l k :
  (∀ x y, P x y → f x = g y) → Forall2 P l k → map f l = map g k.
Proof. intros Hfg. induction 1 as [|x y l k Hxy _ IH]; [done|]. simpl. by rewrite (Hfg x y), IH. Qed.

Lemma Forall2_r {A B} (P : A → B → Prop) (Q : B → Prop) l k :
  (∀ x y, x ∈ l → P x y → Q y) → Forall2 P l k → Forall Q k.
Proof.
  intros HPQ HF. induction HF as [|x y l k Hxy _ IH]; constructor.
  - apply (HPQ x); [by left|done].
  - apply IH. intros x' y' Hx'. apply HPQ. by right.
Qed.

Lemma Forall2_impl_in {A B} (P Q : A → B → Prop) l k :
  (∀ x y, x ∈ l → P x y → Q x y) → Forall2 P l k → Forall2 Q l k.
Proof.
  intros HPQ HF. induction HF as [|x y l k Hxy _ IH]; constructor.
  - apply HPQ; [by left|done].
  - apply IH. intros x' y' Hx'. apply HPQ. by right.
Qed.

Section codec.
Context `{JsonTypes}.

(** What encoding guarantees of the text tree. *)
Definition faithful (v : value) (j : json) : Prop :=
  wf_json j ∧ depth j = value_depth v ∧ decode j = as_read v.

Lemma decode_html j : wf_json j → decode (html_json j) = decode j.
Proof.
  induction j as [|b|n|raw|l IH|m IH] using json_ind_nested; intros Hwf;
    inversion Hwf as [|?|? Hn|? Hraw|? Hl|? Hm]; subst; try done.
  - simpl. by rewrite unquote_html.
  - rewrite Forall_forall in IH, Hl. cbn [html_json decode]. cbv zeta.
    assert (map decode (map html_json l) = map decode l) as Heq; [|by rewrite Heq].
    rewrite map_map. apply map_ext_in. intros x Hx%list_elem_of_In.
    apply IH; [done|by apply Hl].
  - rewrite Forall_forall in IH, Hm. cbn [html_json decode]. cbv zeta.
    assert (map (λ kv, (unquote kv.1, decode kv.2))
              (map (λ kv, (html_escape kv.1, html_json kv.2)) m) =
            map (λ kv, (unquote kv.1, decode kv.2)) m) as Heq; [|by rewrite Heq].
    rewrite map_map. apply map_ext_in. intros x Hx%list_elem_of_In. destruct (Hm x Hx).
    cbn [fst snd]. by rewrite unquote_html, IH.
Qed.

Lemma compact_faithful ty text j :
  compact ty text = Ok j →
  wf_json j ∧ depth j = text_depth text ∧ decode j = Unmarshal text ∧ depth j ≤ max_depth.
Proof.
  unfold compact, text_depth, Unmarshal. destruct (parse_json text) as [j'|] eqn:Hp; [|done].
  intros [= <-]. apply parse_json_sound in Hp as [Hwf Hd].
  destruct (wf_html_json j' Hwf) as [? Hdep]. rewrite Hdep. split_and!; [done..| |done].
  by apply decode_html.
Qed.

(** ** Byte slices *)

Definition plain_ascii (c : ascii) : bool := plain_byte c && is_ascii_byte c.

Lemma plain_ascii_text s :
  all_bytes plain_ascii s = true → raw_ok s ∧ unquote s = s.
Proof.
  unfold unquote. induction s as [|c s IH]; [split; [constructor|done]|].
  cbn [all_bytes]. intros [[Hp Ha]%andb_prop Hs]%andb_prop. destruct (IH Hs) as [Hr Hu].
  split; [by constructor|].
  rewrite chunks_ascii, unescape_plain by eauto using not_bslash. by rewrite Hu.
Qed.

Lemma b64_char_plain n : (n < 64)%N → plain_ascii (b64_char n) = true.
Proof.
  intros Hn. assert (∀ k, k < 64 → plain_ascii (b64_char (N.of_nat k)) = true) as Hk.
  { intros k Hk. do 64 (destruct k as [|k]; [by vm_compute|]). lia. }
  specialize (Hk (N.to_nat n) ltac:(lia)). by rewrite N2Nat.id in Hk.
Qed.

Lemma byte_val_lt c : (byte_val c < 256)%N.
Proof. apply N_ascii_bounded. Qed.

Lemma base64_plain s : all_bytes plain_ascii (base64 s) = true.
Proof.
  induction s as [s IH] using length_ind.
  destruct s as [|a [|b [|c s]]]; [done|..]; cbn [base64]; cbv zeta; cbn [all_bytes];
    pose proof (byte_val_lt a); try pose proof (byte_val_lt b); try pose proof (byte_val_lt c);
    rewrite !b64_char_plain by nlia; [done|done|].
  simpl. apply IH. simpl. lia.
Qed.

(** ** Encoding is faithful *)

Lemma faithful_slice l js : Forall2 faithful l js → faithful (VSlice l) (JArr js).
Proof.
  intros HF. split_and!.
  - constructor. eapply Forall2_r, HF. by intros x y _ (? & _).
  - cbn [depth value_depth]. do 2 f_equal. symmetry.
    eapply Forall2_map_eq, HF. by intros x y (_ & ? & _).
  - cbn [decode as_read]. cbv zeta. assert (map as_read l = map decode js) as ->; [|done].
    eapply Forall2_map_eq, HF. by intros x y (_ & _ & ?).
Qed.

Lemma max_list_perm l k : l ≡ₚ k → max_list l = max_list k.
Proof. induction 1; simpl; lia. Qed.

Lemma faithful_map n m ms :
  Forall2 (λ kv kj, kj.1 = escape kv.1 ∧ faithful kv.2 kj.2) (sort_keyed m) ms →
  faithful (VMap n m) (JObj ms).
Proof.
  intros HF. split_and!.
  - constructor. eapply Forall2_r, HF. intros x y _ [-> (? & _)]. split; [apply escape_ok|done].
  - cbn [depth value_depth]. f_equal.
    rewrite <- (max_list_perm (map (λ kv, value_depth kv.2) (sort_keyed m))
                  (map (λ kv, value_depth kv.2) m)) by (apply Permutation_map, sort_keyed_perm).
    f_equal. symmetry. eapply Forall2_map_eq, HF. by intros x y (_ & _ & ? & _).
  - cbn [decode as_read]. rewrite sort_keyed_values, map_map. cbn [fst snd]. unfold fill.
    assert (map (λ x, (to_valid x.1, as_read x.2)) (sort_keyed m) =
            map (λ kv, (unquote kv.1, decode kv.2)) ms) as ->; [|done].
    eapply Forall2_map_eq, HF. intros x y (-> & _ & _ & ->). by rewrite unquote_escape.
Qed.

Lemma encode_faithful v j : doubles_ok v = true → encode v = Ok j → faithful v j.
Proof.
  revert j. induction v as [|b|k z|f|s|s|l IH|n m IH|m IH|s|ty repr] using value_ind_nested;
    intros j Hd; cbn [encode].
  - intros [= <-]. split_and!; [constructor|done..].
  - intros [= <-]. split_and!; [constructor|done..].
  - intros [= <-]. split_and!; [constructor; apply number_of_Z_ok|done..].
  - destruct (is_finite f) eqn:Hf; [|done]. intros [= <-].
    destruct (number_of_float_spec f Hd Hf) as [Hok Hr].
    split_and!; [by constructor|done|]. cbn [decode]. by rewrite Hr, Hf.
  - intros [= <-]. split_and!; [constructor; apply escape_ok|done|].
    cbn [decode]. by rewrite unquote_escape.
  - intros [= <-]. destruct (plain_ascii_text (base64 s) (base64_plain s)) as [Hr Hu].
    split_and!; [by constructor|done|]. cbn [decode]. by rewrite Hu.
  - destruct (seqR (map encode l)) as [js|e] eqn:Hs; [|done]. intros [= <-].
    apply seqR_map in Hs. apply faithful_slice. cbn [doubles_ok] in Hd.
    rewrite forallb_forall in Hd. rewrite Forall_forall in IH.
    eapply Forall2_impl_in, Hs. intros x y Hx He.
    apply IH; [done|apply Hd; by apply list_elem_of_In|done].
  - rewrite (sort_keyed_values encode), map_map. cbn [fst snd].
    destruct (seqR _) as [ms|e] eqn:Hs; [|done]. intros [= <-].
    apply (seqR_map (λ x, pair (escape x.1) <$> encode x.2)) in Hs.
    apply faithful_map. cbn [doubles_ok] in Hd.
    rewrite forallb_forall in Hd. rewrite Forall_forall in IH.
    eapply Forall2_impl_in, Hs. intros x y Hx He. rewrite sort_keyed_perm in Hx.
    cbv beta in He.
    destruct (encode x.2) as [jx|e] eqn:Hex; simpl in He; [|done].
    injection He as <-. split; [done|].
    apply IH; [done|apply (Hd x); by apply list_elem_of_In|done].
  - done.
  - intros (? & ? & ? & _)%compact_faithful. unfold faithful. cbn [value_depth as_read].
    split_and!; assumption.
  - cbn [mbind result_bind]. intros He. unfold faithful. cbn [value_depth as_read].
    destruct (marshal_other ty repr) as [text|e]; [|done].
    by apply compact_faithful in He as (? & ? & ? & _).
Qed.

(** The encoding of a value nested no deeper than the decoder allows is valid,
    and decodes to what [as_read] describes. *)
Lemma Unmarshal_Marshal v text :
  doubles_ok v = true → value_depth v ≤ max_depth → Marshal v = Ok text →
  Valid text = true ∧ Unmarshal text = as_read v.
Proof.
  unfold Marshal. intros Hd Hdep. destruct (encode v) as [j|e] eqn:He; [|done]. intros [= <-].
  destruct (encode_faithful v j Hd He) as (Hwf & Hdj & Hdec).
  unfold Valid, Unmarshal. rewrite parse_json_print by (done || lia). done.
Qed.
(** ** What can be encoded *)

Definition encodes (v : value) : Prop := ∃ j, encode v = Ok j.

Lemma encodes_slice l : Forall encodes l → encodes (VSlice l).
Proof.
  intros HF. assert (∃ js, Forall2 (λ x y, encode x = Ok y) l js) as [js Hjs].
  { induction HF as [|x l [y Hy] _ [ys IH]]; [by exists []|]. exists (y :: ys). by constructor. }
  apply seqR_map in Hjs. exists (JArr js). cbn [encode]. by rewrite Hjs.
Qed.

Lemma encodes_map n m : Forall (λ kv, encodes kv.2) m → encodes (VMap n m).
Proof.
  intros HF. assert (Forall (λ kv, encodes kv.2) (sort_keyed m)) as HF'
    by (by rewrite sort_keyed_perm).
  assert (∃ js, Forall2 (λ x y, pair (escape x.1) <$> encode x.2 = Ok y) (sort_keyed m) js)
    as [js Hjs].
  { induction HF' as [|x l [y Hy] _ [ys IH]]; [by exists []|].
    exists ((escape x.1, y) :: ys). constructor; [by rewrite Hy|done]. }
  apply seqR_map in Hjs. exists (JObj js). cbn [encode].
  rewrite (sort_keyed_values encode), map_map. cbn [fst snd]. by rewrite Hjs.
Qed.

Lemma valid_compact ty text : Valid text = true → ∃ j, compact ty text = Ok j.
Proof. unfold Valid, compact. destruct (parse_json text); [eauto|done]. Qed.
Lemma encodes_slice_inv l : encodes (VSlice l) → Forall encodes l.
Proof.
  intros [j Hj]. cbn [encode] in Hj. destruct (seqR (map encode l)) as [js|] eqn:Hs; [|done].
  apply seqR_map in Hs. apply Forall_forall. intros x Hx.
  apply list_elem_of_lookup in Hx as [i Hi].
  destruct (Forall2_lookup_l _ _ _ _ _ Hs Hi) as (y & _ & Hy). by exists y.
Qed.

Lemma encodes_map_inv n m : encodes (VMap n m) → Forall (λ kv, encodes kv.2) m.
Proof.
  intros [j Hj]. cbn [encode] in Hj. rewrite (sort_keyed_values encode), map_map in Hj.
  cbn [fst snd] in Hj. destruct (seqR _) as [js|] eqn:Hs; [|done].
  apply (seqR_map (λ x, pair (escape x.1) <$> encode x.2)) in Hs.
  rewrite <- (sort_keyed_perm m). apply Forall_forall. intros x Hx.
  apply list_elem_of_lookup in Hx as [i Hi].
  destruct (Forall2_lookup_l _ _ _ _ _ Hs Hi) as (y & _ & Hy). cbv beta in Hy.
  destruct (encode x.2) as [jx|] eqn:Hex; [by exists jx|done].
Qed.

End codec.

(** ** What decoding gives

    Values a decoder produces: finite doubles, strings of valid UTF-8, slices, and
    maps keyed by distinct strings. *)
Fixpoint json_value (v : value) : bool :=
  match v with
  | VNil | VBool _ => true
  | VString s => is_valid_utf8 s
  | VFloat64 f => valid64 f && is_finite f
  | VSlice l => forallb json_value l
  | VMap false m =>
    bool_decide (NoDup m.*1) && forallb (λ kv, is_valid_utf8 kv.1 && json_value kv.2) m
  | _ => false
  end.

Lemma forallb_Forall' {A} (p : A → bool) l : forallb p l = true ↔ Forall (λ x, p x = true) l.
Proof. rewrite forallb_forall, Forall_forall. by setoid_rewrite list_elem_of_In. Qed.

(** What holds of all entries written holds of all entries of the map. *)
Lemma filled_entries (P : string → value → Prop) (l : list (string * (value * bool))) acc :
  Forall (λ kv, P kv.1 kv.2) acc → Forall (λ kr, P kr.1 kr.2.1) l →
  Forall (λ kv, P kv.1 kv.2) (foldl (λ acc kr, assoc_set kr.1 kr.2.1 acc) acc l).
Proof.
  revert acc. induction l as [|[k [v b]] l IH]; intros acc Ha Hl; [done|].
  apply Forall_cons in Hl as [Hv Hl]. apply IH; [|done]. apply Forall_forall.
  intros [k' v'] [[-> ->]|Hin]%assoc_set_elem; [done|]. rewrite Forall_forall in Ha.
  by apply (Ha (k', v')).
Qed.

Lemma filled_NoDup (l : list (string * (value * bool))) acc :
  NoDup acc.*1 → NoDup (foldl (λ acc kr, assoc_set kr.1 kr.2.1 acc) acc l).*1.
Proof. revert acc. induction l as [|x l IH]; intros acc Ha; [done|]. by apply IH, assoc_set_NoDup. Qed.

Lemma decode_json_value j : json_value (decode j).1 = true.
Proof.
  induction j as [|b|n|raw|l IH|m IH] using json_ind_nested; cbn [decode]; try done.
  - destruct (is_finite (read_number n)) eqn:Hf; [|done].
    cbn [fst json_value]. by rewrite read_number_valid, Hf.
  - apply unquote_valid.
  - cbn [fst json_value]. rewrite map_map, forallb_Forall'. by apply Forall_map.
  - cbn [fst json_value]. rewrite bool_decide_true by (apply filled_NoDup; constructor).
    apply forallb_Forall', (filled_entries (λ k v, is_valid_utf8 k && json_value v = true));
      [constructor|]. apply Forall_map. eapply Forall_impl; [exact IH|]. intros kv Hkv.
    cbn [fst snd]. by rewrite unquote_valid.
Qed.

Lemma decode_depth `{JsonTypes} j : value_depth (decode j).1 ≤ depth j.
Proof.
  induction j as [|b|n|raw|l IH|m IH] using json_ind_nested; cbn [decode]; try done.
  - by destruct (is_finite (read_number n)).
  - cbn [fst value_depth depth]. rewrite !map_map. apply le_n_S.
    clear -IH. induction IH as [|x l Hx _ IH]; simpl; lia.
  - cbn [fst value_depth depth]. apply le_n_S, max_list_bound.
    apply (filled_entries (λ _ v, value_depth v ≤ max_list (map (λ kv, depth kv.2) m)));
      [constructor|]. apply Forall_map. apply Forall_forall. intros x Hx. cbn [fst snd].
    rewrite Forall_forall in IH. pose proof (IH x Hx).
    pose proof (max_list_le (λ kv, depth kv.2) m x Hx). simpl in *. lia.
Qed.

Lemma Unmarshal_json_value s : json_value (Unmarshal s).1 = true.
Proof. unfold Unmarshal. destruct (parse_json s); [apply decode_json_value|done]. Qed.

Lemma text_depth_le s : text_depth s ≤ max_depth.
Proof.
  unfold text_depth. destruct (parse_json s) as [j|] eqn:Hp; [|lia].
  by apply parse_json_sound in Hp as [_ ?].
Qed.

Lemma Unmarshal_depth `{JsonTypes} s : value_depth (Unmarshal s).1 ≤ text_depth s.
Proof.
  unfold Unmarshal, text_depth. destruct (parse_json s) as [j|]; [apply decode_depth|done].
Qed.

(** The entries of a value that a decoder made. *)
Lemma json_value_map m :
  json_value (VMap false m) = true ↔
  NoDup m.*1 ∧ Forall (λ kv, is_valid_utf8 kv.1 = true ∧ json_value kv.2 = true) m.
Proof.
  cbn [json_value]. rewrite andb_true_iff, bool_decide_eq_true, forallb_Forall'.
  by setoid_rewrite andb_true_iff.
Qed.

Lemma json_value_slice l : json_value (VSlice l) = true ↔ Forall (λ v, json_value v = true) l.
Proof. apply forallb_Forall'. Qed.

Lemma json_value_doubles v : json_value v = true → doubles_ok v = true.
Proof.
  induction v as [|b|k z|f|s|s|l IH|[] m IH|m IH|s|ty repr] using value_ind_nested; try done.
  - cbn [json_value doubles_ok]. by intros [? _]%andb_prop.
  - rewrite json_value_slice. cbn [doubles_ok]. rewrite forallb_Forall', !Forall_forall in *. auto.
  - rewrite json_value_map. cbn [doubles_ok]. rewrite forallb_Forall', !Forall_forall in *.
    intros [_ Hm] x Hx. by apply IH, Hm.
Qed.

Lemma json_value_encodes `{JsonTypes} v : json_value v = true → encodes v.
Proof.
  induction v as [|b|k z|f|s|s|l IH|[] m IH|m IH|s|ty repr] using value_ind_nested; try done;
    intros Hv.
  - by eexists.
  - by eexists.
  - exists (JNum (number_of_float f)). apply andb_prop in Hv as [_ Hf]. cbn [encode]. by rewrite Hf.
  - by eexists.
  - apply encodes_slice. rewrite json_value_slice, !Forall_forall in *. auto.
  - apply encodes_map. rewrite json_value_map, !Forall_forall in *. destruct Hv as [_ Hm].
    intros x Hx. by apply IH, Hm.
Qed.

(** What is decoded, encoded and decoded again is what it was. *)
Lemma json_value_seen `{JsonTypes} v : json_value v = true → reordered v (seen v).
Proof.
  unfold seen. induction v as [|b|k z|f|s|s|l IH|[] m IH|m IH|s|ty repr] using value_ind_nested;
    try done; intros Hv; cbn [as_read fst].
  - constructor.
  - constructor.
  - constructor.
  - rewrite to_valid_id by done. constructor.
  - rewrite json_value_slice in Hv. apply ro_slice. rewrite map_map.
    clear -IH Hv. induction IH as [|x l Hx _ IHl]; [constructor|].
    apply Forall_cons in Hv as [Hv Hl]. constructor; [by apply Hx|by apply IHl].
  - apply json_value_map in Hv as [Hnd Hm]. rewrite sort_keyed_values, map_map. cbn [fst snd].
    unfold fill. cbn [fst]. rewrite (assoc_set_distinct fst), map_map.
    + apply (ro_map _ _ (sort_keyed m)); [done|by rewrite sort_keyed_perm|]. cbn [app fst snd].
      assert (Forall (λ kv, reordered kv.2 (as_read kv.2).1 ∧ is_valid_utf8 kv.1 = true)
                (sort_keyed m)) as Hs.
      { rewrite sort_keyed_perm. rewrite Forall_forall in *. intros x Hx.
        destruct (Hm x Hx). split; [by apply IH|done]. }
      clear -Hs. induction Hs as [|x l [Hx Hu] _ IHl]; [constructor|].
      constructor; [|done]. cbn [fst snd]. by rewrite to_valid_id.
    + cbn [fmap list_fmap app]. assert (map (λ x, to_valid x.1) (sort_keyed m) = (sort_keyed m).*1) as He.
      { apply map_ext_in. intros x Hx%list_elem_of_In. rewrite sort_keyed_perm in Hx.
        rewrite Forall_forall in Hm. destruct (Hm x Hx). by apply to_valid_id. }
      rewrite <- sort_keyed_perm in Hnd. rewrite <- He in Hnd.
      change (NoDup (map fst (map (λ x : string * value, (to_valid x.1, as_read x.2)) (sort_keyed m)))).
      by rewrite map_map.
Qed.
