(* ===== verification/Clock.v ===== *)
(** * Times, durations and numbers of seconds

    [time.ParseDuration] and [strconv.ParseFloat] as the [timeout] parameter of the
    spy's API uses them, and the RFC 3339 form of times that the API and the
    templates print. *)
From S2P Require Import Prelude GoStrings GoValue Utf8 Decimal.
From Stdlib Require Import SpecFloat.

(** ** Calendar dates

    The proleptic Gregorian date of a day counted from 1970-01-01. *)
Definition civil (days : Z) : Z * Z * Z :=
  (let z := days + 719468 in
   let era := z / 146097 in
   let doe := z mod 146097 in
   let yoe := (doe - doe / 1460 + doe / 36524 - doe / 146096) / 365 in
   let doy := doe - (365 * yoe + yoe / 4 - yoe / 100) in
   let mp := (5 * doy + 2) / 153 in
   let d := doy - (153 * mp + 2) / 5 + 1 in
   let m := if mp <? 10 then mp + 3 else mp - 9 in
   let y := yoe + era * 400 + (if m <=? 2 then 1 else 0) in
   (y, m, d))%Z.

(** [n] in decimal, with zeros in front up to [w] digits. *)
Definition pad (w : nat) (n : Z) : string :=
  let s := itoa n in zeros (w - String.length s) +:+ s.

Definition rfc3339_date (ns : Z) : string :=
  let secs := (ns / 1000000000)%Z in
  let '(y, m, d) := civil (secs / 86400)%Z in
  let t := (secs mod 86400)%Z in
  pad 4 y +:+ "-" +:+ pad 2 m +:+ "-" +:+ pad 2 d +:+ "T" +:+
  pad 2 (t / 3600)%Z +:+ ":" +:+ pad 2 (t / 60 mod 60)%Z +:+ ":" +:+ pad 2 (t mod 60)%Z.

(** [Format(time.RFC3339)] and [Format(time.RFC3339Nano)] of a UTC time, given in
    nanoseconds since 1970. *)
Definition rfc3339 (ns : Z) : string := rfc3339_date ns +:+ "Z".
Definition rfc3339_nano (ns : Z) : string :=
  let frac := strip_zeros (pad 9 (ns mod 1000000000)%Z) in
  rfc3339_date ns +:+ (if bool_decide (frac = "") then "" else "." +:+ frac) +:+ "Z".

Definition year_of (ns : Z) : Z := (civil (ns / 1000000000 / 86400)%Z).1.1.

(** ** Floats *)

Definition float_of_Z (z : Z) : spec_float := binary_normalize prec64 emax64 z 0 false.
Definition fmul := SFmul prec64 emax64.
Definition fdiv := SFdiv prec64 emax64.

(** The conversion of a double to an integer type drops the fraction. *)
Definition float_trunc (f : spec_float) : option Z :=
  match f with
  | S754_zero _ => Some 0%Z
  | S754_finite s m e =>
    let z := (if 0 <=? e then Zpos m * 2 ^ e else Zpos m / 2 ^ (- e))%Z in
    Some (if s then (- z)%Z else z)
  | _ => None
  end.

(** ** time.ParseDuration *)

Definition two63 : Z := (2 ^ 63)%Z.
Lemma two63_tenth : (two63 / 10)%Z = 922337203685477580%Z.
Proof. done. Qed.

(** The digits at the front of [s] as a number, unless it exceeds 2^63. *)
Fixpoint leading_int (x : Z) (s : string) : option (Z * string) :=
  match s with
  | String c s' =>
    if is_digit c then
      if (two63 / 10 <? x)%Z then None else
      let y := (x * 10 + digit_val c)%Z in
      if (two63 <? y)%Z then None else leading_int y s'
    else Some (x, s)
  | "" => Some (x, "")
  end.

(** The digits after a point and the scale; those that no longer fit are
    skipped. *)
Fixpoint leading_fraction (x : Z) (scale : spec_float) (overflow : bool) (s : string)
    : Z * spec_float * string :=
  match s with
  | String c s' =>
    if is_digit c then
      if overflow || ((two63 - 1) / 10 <? x)%Z then leading_fraction x scale true s' else
      let y := (x * 10 + digit_val c)%Z in
      if (two63 <? y)%Z then leading_fraction x scale true s'
      else leading_fraction y (fmul scale (float_of_Z 10)) false s'
    else (x, scale, s)
  | "" => (x, scale, "")
  end.

Fixpoint span_unit (s : string) : string * string :=
  match s with
  | String c s' =>
    if is_digit c || bool_decide (c = "."%char) then ("", s)
    else let '(u, r) := span_unit s' in (String c u, r)
  | "" => ("", "")
  end.

Definition unit_ns (u : string) : option Z :=
  if bool_decide (u = "ns") then Some 1%Z
  else if bool_decide (u = "us" ∨ u = "µs" ∨ u = "μs") then Some 1000%Z
  else if bool_decide (u = "ms") then Some 1000000%Z
  else if bool_decide (u = "s") then Some 1000000000%Z
  else if bool_decide (u = "m") then Some 60000000000%Z
  else if bool_decide (u = "h") then Some 3600000000000%Z
  else None.

(** One number with its unit, in nanoseconds, and the rest. *)
Definition duration_part (s : string) : option (Z * string) :=
  match s with
  | String c _ =>
    if is_digit c || bool_decide (c = "."%char) then
      '(v, r) ← leading_int 0 s;
      let pre := negb (bool_decide (r = s)) in
      let '(f, scale, r', post) :=
        match r with
        | String c' t =>
          if bool_decide (c' = "."%char) then
            let '(f, scale, r') := leading_fraction 0 (float_of_Z 1) false t in
            (f, scale, r', negb (bool_decide (r' = t)))
          else (0%Z, float_of_Z 1, r, false)
        | "" => (0%Z, float_of_Z 1, r, false)
        end in
      if negb pre && negb post then None else
      let '(u, rest) := span_unit r' in
      unit ← unit_ns u;
      if (two63 / unit <? v)%Z then None else
      let v := (v * unit)%Z in
      v ← (if (0 <? f)%Z
           then x ← float_trunc (fmul (float_of_Z f) (fdiv (float_of_Z unit) scale));
                if (two63 <? v + x)%Z then None else Some (v + x)%Z
           else Some v);
      Some (v, rest)
    else None
  | "" => None
  end.

(** The sum of the parts; each consumes at least one byte, so that [n] parts are
    enough for a text of [n] bytes. *)
Fixpoint duration_parts (n : nat) (d : Z) (s : string) : option Z :=
  match s with
  | "" => Some d
  | _ =>
    match n with
    | O => None
    | S n' =>
      '(v, r) ← duration_part s;
      if (two63 <? d + v)%Z then None else duration_parts n' (d + v)%Z r
    end
  end.

Definition ParseDuration (s : string) : option Z :=
  let '(neg, body) :=
    match s with
    | String c s' => if bool_decide (c = "-"%char) then (true, s')
                     else if bool_decide (c = "+"%char) then (false, s') else (false, s)
    | "" => (false, "")
    end in
  if bool_decide (body = "0") then Some 0%Z
  else if bool_decide (body = "") then None
  else
    d ← duration_parts (String.length body) 0 body;
    if neg : bool then Some (- d)%Z
    else if (two63 - 1 <? d)%Z then None else Some d.

(** ** strconv.ParseFloat

    [None] for a syntax error and for a number out of range. *)

Definition lower_bytes (s : string) : string := map_bytes lower_byte s.

(** [inf], [infinity] with a sign, [nan] without. *)
Definition special_float (s : string) : option spec_float :=
  let t := lower_bytes s in
  if bool_decide (t = "inf" ∨ t = "+inf" ∨ t = "infinity" ∨ t = "+infinity")
  then Some (S754_infinity false)
  else if bool_decide (t = "-inf" ∨ t = "-infinity") then Some (S754_infinity true)
  else if bool_decide (t = "nan") then Some S754_nan
  else None.

Definition hex_or_digit (hex : bool) (c : ascii) : bool :=
  is_digit c || hex && (in_range 97 102 (byte_val (lower_byte c))).
Definition mant_digit (c : ascii) : Z :=
  if is_digit c then digit_val c else (Z.of_N (byte_val (lower_byte c)) - 87)%Z.

(** The mantissa: its value, the number of digits after the point, whether there
    was a digit, and the rest. *)
Fixpoint scan_mantissa (hex sawdot sawdigits : bool) (m nfrac : Z) (s : string)
    : Z * Z * bool * string :=
  match s with
  | String c s' =>
    if bool_decide (c = "_"%char) then scan_mantissa hex sawdot sawdigits m nfrac s'
    else if bool_decide (c = "."%char) && negb sawdot
    then scan_mantissa hex true sawdigits m nfrac s'
    else if hex_or_digit hex c
    then scan_mantissa hex sawdot true (m * (if hex then 16 else 10) + mant_digit c)%Z
           (if sawdot then nfrac + 1 else nfrac)%Z s'
    else (m, nfrac, sawdigits, s)
  | "" => (m, nfrac, sawdigits, "")
  end.

Fixpoint scan_exponent (e : Z) (s : string) : Z * string :=
  match s with
  | String c s' =>
    if bool_decide (c = "_"%char) then scan_exponent e s'
    else if is_digit c then scan_exponent (if (e <? 10000)%Z then e * 10 + digit_val c else e)%Z s'
    else (e, s)
  | "" => (e, "")
  end.

(** Underscores stand between digits, a base prefix counting as a digit: the
    state is the kind of the byte before. *)
Inductive us_state := UStart | UDigit | UUnder | UOther.
#[export] Instance us_state_dec : EqDecision us_state.
Proof. solve_decision. Defined.

Fixpoint underscores_ok (hex : bool) (st : us_state) (s : string) : bool :=
  match s with
  | String c s' =>
    if hex_or_digit hex c then underscores_ok hex UDigit s'
    else if bool_decide (c = "_"%char) then
      bool_decide (st = UDigit) && underscores_ok hex UUnder s'
    else bool_decide (st ≠ UUnder) && underscores_ok hex UOther s'
  | "" => bool_decide (st ≠ UUnder)
  end.

(** [m * 2^e], rounded; as for decimals the extremes need no power. *)
Definition read_binary (neg : bool) (m e : Z) : spec_float :=
  match m with
  | Zpos p =>
    if (2000 <? e)%Z then S754_infinity neg
    else if (Zpos (digits2_pos p) + e <? -2000)%Z then S754_zero neg
    else binary_round prec64 emax64 neg p e
  | _ => S754_zero neg
  end.

Definition ParseFloat (s : string) : option spec_float :=
  match special_float s with
  | Some f => Some f
  | None =>
    let '(sign, body) := scan_sign s in
    let neg := bool_decide (sign = "-") in
    let '(hex, digits) :=
      match body with
      | String a (String b (String c t)) =>
        if bool_decide (a = "0"%char ∧ lower_byte b = "x"%char) then (true, String c t)
        else (false, body)
      | _ => (false, body)
      end in
    let '(m, nfrac, sawdigits, r) := scan_mantissa hex false false 0 0 digits in
    if negb sawdigits then None else
    '(e, r') ←
      match r with
      | String c t =>
        if bool_decide (lower_byte c = if hex then "p"%char else "e"%char) then
          let '(es, t') := scan_sign t in
          match t' with
          | String d _ =>
            if is_digit d then
              let '(x, r') := scan_exponent 0 t' in
              Some ((if bool_decide (es = "-") then - x else x)%Z, r')
            else None
          | "" => None
          end
        else if hex then None else Some (0%Z, r)
      | "" => if hex then None else Some (0%Z, "")
      end;
    if negb (bool_decide (r' = "")) then None
    else if has_byte "_" s && negb (underscores_ok hex (if hex then UDigit else UStart) digits)
    then None
    else
      let f := if hex then read_binary neg m (e - 4 * nfrac) else read_decimal neg m (e - nfrac) in
      if is_finite f then Some f else None
  end.

(** ** Numbers of seconds *)

Section seconds.
(** What the machine makes of a double that no int64 is near to. *)
Variable out_of_range : spec_float → Z.

(** [time.Duration(secs * float64(time.Second))] *)
Definition seconds (secs : spec_float) : Z :=
  let f := fmul secs (float_of_Z 1000000000) in
  match float_trunc f with
  | Some z => if int64_ok z then z else out_of_range f
  | None => out_of_range f
  end.
End seconds.

Example clock_examples :
  rfc3339 0 = "1970-01-01T00:00:00Z" ∧
  rfc3339_nano 1709210096012300000 = "2024-02-29T12:34:56.0123Z" ∧
  rfc3339 951782399000000000 = "2000-02-28T23:59:59Z" ∧
  rfc3339 951782400000000000 = "2000-02-29T00:00:00Z" ∧
  ParseDuration "1h15m30.918273645s" = Some 4530918273645%Z ∧
  ParseDuration "-1.5h" = Some (-5400000000000)%Z ∧ ParseDuration "500ms" = Some 500000000%Z ∧
  ParseDuration ".s" = None ∧ ParseDuration "3" = None ∧ ParseDuration "0" = Some 0%Z ∧
  ParseDuration "9223372036854775808ns" = None ∧ ParseDuration "1µs" = Some 1000%Z ∧
  ParseFloat "2.5" = Some (dbl 25 (-1)) ∧ ParseFloat "1e400" = None ∧
  ParseFloat "0x1.8p1" = Some (dbl 3 0) ∧ ParseFloat "1_000" = Some (dbl 1000 0) ∧
  ParseFloat "1__0" = None ∧ ParseFloat "+Inf" = Some (S754_infinity false) ∧
  ParseFloat "5x" = None ∧ seconds (λ _, 0%Z) (dbl 25 (-1)) = 2500000000%Z.
Proof. vm_compute. repeat split. Qed.

(** ** The parts of a duration are never empty *)

Lemma leading_int_length x s v r :
  leading_int x s = Some (v, r) → String.length r ≤ String.length s.
Proof.
  revert x. induction s as [|c s IH]; intros x; cbn [leading_int]; [by intros [= <- <-]|].
  destruct (is_digit c); [|by intros [= <- <-]].
  case_match; [done|]. case_match; [done|]. intros ?%IH. simpl. lia.
Qed.

Lemma leading_fraction_length x scale o s :
  String.length (leading_fraction x scale o s).2 ≤ String.length s.
Proof.
  revert x scale o. induction s as [|c s IH]; intros x scale o; cbn [leading_fraction]; [done|].
  destruct (is_digit c); [|done].
  repeat case_match; (etrans; [apply IH|simpl; lia]).
Qed.

Lemma span_unit_split s : (span_unit s).1 +:+ (span_unit s).2 = s.
Proof.
  induction s as [|c s IH]; [done|]. cbn [span_unit]. case_match; [done|].
  destruct (span_unit s) as [u r]. cbn [fst snd] in *. by rewrite str_app_cons, IH.
Qed.

Lemma duration_part_length s v r :
  duration_part s = Some (v, r) → String.length r < String.length s.
Proof.
  unfold duration_part. destruct s as [|c s]; [done|]. case_match; [|done].
  intros ([v0 r0] & Hl%leading_int_length & Hrest)%bind_Some.
  set (frac := match r0 with "" => _ | String c' t => _ end) in Hrest.
  assert (String.length frac.1.2 ≤ String.length r0) as Hf.
  { subst frac. destruct r0 as [|c' t]; [done|]. case_bool_decide; [|done].
    pose proof (leading_fraction_length 0 (float_of_Z 1) false t).
    destruct (leading_fraction _ _ _ _) as [[f sc] r']. simpl in *. lia. }
  destruct frac as [[[f sc] r'] post]. cbn [fst snd] in Hf. case_match; [done|].
  pose proof (span_unit_split r') as Hsp. destruct (span_unit r') as [u rest]. cbn [fst snd] in Hsp.
  apply bind_Some in Hrest as (unit & Hu & Hrest). case_match; [done|].
  apply bind_Some in Hrest as (x & _ & [= <- <-]).
  destruct u as [|cu u]; [done|]. subst r'. rewrite length_str_app in Hf. simpl in *. lia.
Qed.

(** So the fuel never decides the answer. *)
Lemma duration_parts_fuel n d s :
  String.length s ≤ n → duration_parts n d s = duration_parts (String.length s) d s.
Proof.
  revert d s. induction n as [n IH] using lt_wf_ind. intros d s Hn.
  destruct s as [|c s]; [by destruct n|]. destruct n as [|n]; [simpl in Hn; lia|].
  cbn [duration_parts String.length].
  destruct (duration_part (String c s)) as [[v r]|] eqn:Hp; [|done].
  apply duration_part_length in Hp. simpl in Hp, Hn |- *. case_match; [done|].
  rewrite (IH n) by lia. symmetry. apply IH; lia.
Qed.

(** ** Whole numbers of seconds *)

Lemma parse_digits_total x s : all_bytes is_digit s = true → ∃ v, parse_digits x s = Some v.
Proof.
  revert x. induction s as [|c s IH]; intros x; [by eexists|]. cbn.
  intros [-> Hs]%andb_prop. by apply IH.
Qed.

Lemma leading_int_digits x s r :
  (0 ≤ x)%Z → all_bytes is_digit s = true → no_digit_head r = true →
  (match parse_digits x s with Some v => v | None => 0 end ≤ two63 / 10)%Z →
  leading_int x (s +:+ r) = v ← parse_digits x s; Some (v, r).
Proof.
  revert x. induction s as [|c s IH]; intros x Hx Hs Hr Hv.
  - change ("" +:+ r) with r. simpl. destruct r as [|c r]; [done|]. simpl in *.
    by destruct (is_digit c).
  - rewrite str_app_cons. cbn [leading_int parse_digits] in *. cbn in Hs.
    apply andb_prop in Hs as [Hc Hs]. rewrite Hc in *. apply digit_val_range in Hc as Hd.
    replace (x * 10 + digit_val c)%Z with (10 * x + digit_val c)%Z by lia.
    destruct (parse_digits (10 * x + digit_val c) s) as [v|] eqn:Hp.
    + apply parse_digits_nonneg in Hp as Hle; [|lia].
      assert (two63 / 10 < two63)%Z by done.
      rewrite (proj2 (Z.ltb_ge _ _)) by lia. rewrite (proj2 (Z.ltb_ge two63 _)) by lia.
      rewrite IH; rewrite ?Hp; [done|lia|done|done|done].
    + by destruct (parse_digits_total (10 * x + digit_val c) s Hs) as [v ?]; simplify_eq.
Qed.

Lemma ParseDuration_unit n u k :
  (0 ≤ n)%Z → unit_ns u = Some k → (1 ≤ k)%Z → (n * k < two63)%Z → (n ≤ two63 / 10)%Z →
  no_digit_head u = true → span_unit u = (u, "") → (∀ t, u ≠ String "." t) →
  ParseDuration (itoa n +:+ u) = Some (n * k)%Z.
Proof.
  intros Hn Hu Hk Hnk Hbig Hhead Hspan Hdot.
  assert (u ≠ "") as Hue by (intros ->; done).
  destruct (digits_value_itoa n Hn) as [Hd Hv]. pose proof (digits_all _ Hd) as Ha.
  unfold digits_value in Hv.
  destruct (itoa n) as [|c t] eqn:Hit; [done|]. cbn in Ha. apply andb_prop in Ha as [Hc Ht].
  unfold ParseDuration. rewrite str_app_cons.
  assert (c ≠ "-"%char ∧ c ≠ "+"%char) as [Hm Hp] by (by split; intros ->).
  rewrite (bool_decide_false (c = "-"%char)), (bool_decide_false (c = "+"%char)) by done.
  rewrite bool_decide_false, bool_decide_false; [|done|].
  2:{ intros [= _ Htu]. destruct t; [|done]. by destruct u. }
  assert (duration_part (String c (t +:+ u)) = Some (n * k, "")%Z) as Hpart.
  { unfold duration_part. rewrite Hc. cbn [orb].
    pose proof (leading_int_digits 0 (String c t) u ltac:(lia)) as Hl.
    rewrite str_app_cons in Hl. cbn [all_bytes] in Hl. rewrite Hc, Ht in Hl.
    destruct (parse_digits_total 0 (String c t)) as [v Hpd]; [cbn; by rewrite Hc, Ht|].
    rewrite Hpd in *. cbn in Hv. subst v. rewrite Hl by done. cbn [mbind option_bind].
    rewrite (bool_decide_false (u = String c (t +:+ u))).
    2:{ intros Heq. apply (f_equal String.length) in Heq. simpl in Heq.
        rewrite length_str_app in Heq. lia. }
    destruct u as [|cu u']; [done|]. rewrite (bool_decide_false (cu = "."%char)) by naive_solver.
    cbn [negb andb]. rewrite Hspan, Hu. cbn [mbind option_bind].
    rewrite (proj2 (Z.ltb_ge _ _)); [done|]. apply Z.div_le_lower_bound; lia. }
  cbn [String.length duration_parts]. rewrite Hpart. cbn [mbind option_bind].
  rewrite (proj2 (Z.ltb_ge two63 _)) by lia.
  replace (duration_parts _ (0 + n * k)%Z "") with (Some (n * k)%Z) by by destruct (String.length _).
  cbn [mbind option_bind]. by rewrite (proj2 (Z.ltb_ge _ _)) by lia.
Qed.

(** A number without a unit is no duration. *)
Lemma ParseDuration_itoa n : (0 < n ≤ two63 / 10)%Z → ParseDuration (itoa n) = None.
Proof.
  intros Hn. destruct (itoa_pos n ltac:(lia)) as (c & t & Heq & Hc0 & Hd & Hv).
  pose proof (digits_all _ Hd) as Ha. rewrite Heq in *. cbn in Ha. apply andb_prop in Ha as [Hc Ht].
  unfold ParseDuration.
  assert (c ≠ "-"%char ∧ c ≠ "+"%char) as [Hm Hp] by (by split; intros ->).
  rewrite !(bool_decide_false (c = _)) by done.
  rewrite (bool_decide_false (String c t = "0")) by congruence.
  rewrite bool_decide_false by done. cbn [String.length duration_parts].
  assert (duration_part (String c t) = None) as ->; [|done].
  unfold duration_part. rewrite Hc. cbn [orb].
  pose proof (leading_int_digits 0 (String c t) "" ltac:(lia)) as Hl.
  rewrite str_app_nil in Hl. cbn [all_bytes] in Hl. rewrite Hc, Ht in Hl.
  destruct (parse_digits_total 0 (String c t)) as [v Hpd]; [cbn; by rewrite Hc, Ht|].
  unfold digits_value in Hv. rewrite Hpd in *. cbn in Hv. subst v.
  rewrite Hl by (done || lia). cbn [mbind option_bind]. done.
Qed.

Lemma scan_mantissa_digits m s :
  all_bytes is_digit s = true → s ≠ "" →
  scan_mantissa false false true m 0 s = (default 0%Z (parse_digits m s), 0%Z, true, "").
Proof.
  revert m. induction s as [|c s IH]; intros m Hs Hne; [done|].
  cbn in Hs. apply andb_prop in Hs as [Hc Hs]. cbn [scan_mantissa parse_digits].
  assert (c ≠ "_"%char ∧ c ≠ "."%char) as [Hu Hd] by (by split; intros ->).
  rewrite !bool_decide_false by done. unfold hex_or_digit, mant_digit. rewrite Hc.
  cbn [andb orb]. replace (m * 10 + digit_val c)%Z with (10 * m + digit_val c)%Z by lia.
  destruct s as [|d s]; [done|]. by apply IH.
Qed.

Lemma digit_no_special c t : is_digit c = true → special_float (String c t) = None.
Proof.
  intros Hc. assert (lower_byte c = c) as Hl.
  { unfold lower_byte. unfold is_digit in Hc. apply andb_prop in Hc as [_ Hc%N.leb_le].
    rewrite (proj2 (N.leb_gt 65 _)) by lia. done. }
  unfold special_float, lower_bytes. cbn [map_bytes]. rewrite Hl.
  rewrite !bool_decide_false; [done|..];
    intros Hor; repeat destruct Hor as [Hor|Hor]; injection Hor as -> _; done.
Qed.

Lemma ParseFloat_itoa n :
  (0 < n < 2 ^ 53)%Z → ParseFloat (itoa n) = Some (read_decimal false n 0).
Proof.
  intros Hn. destruct (itoa_pos n ltac:(lia)) as (c & t & Heq & Hc0 & Hd & Hv).
  pose proof (digits_all _ Hd) as Ha. pose proof (itoa_no_letter "_" n eq_refl ltac:(done)) as Hus.
  rewrite Heq in *. cbn in Ha. apply andb_prop in Ha as [Hc Ht].
  unfold ParseFloat. rewrite digit_no_special by done.
  assert (c ≠ "-"%char ∧ c ≠ "+"%char) as [Hm Hp] by (by split; intros ->).
  unfold scan_sign. rewrite !(bool_decide_false (c = _)) by done.
  rewrite (bool_decide_false ("" = "-")) by done.
  assert ((match String c t with
           | String a (String b (String c' t')) =>
             if bool_decide (a = "0"%char ∧ lower_byte b = "x"%char) then (true, String c' t')
             else (false, String c t)
           | _ => (false, String c t)
           end) = (false, String c t)) as ->.
  { destruct t as [|b [|d t]]; [done..|]. by rewrite bool_decide_false by naive_solver. }
  assert (scan_mantissa false false false 0 0 (String c t) = (n, 0%Z, true, "")) as ->.
  { cbn [scan_mantissa]. assert (c ≠ "_"%char ∧ c ≠ "."%char) as [Hu Hdt] by (by split; intros ->).
    rewrite !bool_decide_false by done. unfold hex_or_digit, mant_digit. rewrite Hc.
    cbn [andb orb]. unfold digits_value in Hv. cbn [parse_digits] in Hv. rewrite Hc in Hv.
    change (0 * 10 + digit_val c)%Z with (10 * 0 + digit_val c)%Z.
    destruct t as [|d t].
    - cbn [parse_digits default from_option id] in Hv. cbn [scan_mantissa]. by rewrite Hv.
    - rewrite scan_mantissa_digits by done. generalize dependent (String d t). intros.
      by rewrite Hv. }
  cbn [negb mbind option_bind]. rewrite (bool_decide_true ("" = "")) by done. cbn [negb].
  rewrite Hus. cbn [andb]. change (0 - 0)%Z with 0%Z.
  destruct n as [|p|p]; [lia| |lia]. by rewrite read_decimal_int, round_int by lia.
Qed.

Lemma seconds_int oob n :
  (0 < n)%Z → (n * 1000000000 < 2 ^ 53)%Z →
  seconds oob (read_decimal false n 0) = (n * 1000000000)%Z.
Proof.
  intros Hn Hlt. destruct n as [|p|p]; [lia| |lia].
  set (g := 1000000000%positive). set (q := (p * g)%positive).
  assert (Zpos q = Zpos p * 1000000000)%Z as Hq by (subst q; lia).
  assert (int_shift q ≤ int_shift p + int_shift g) as Hk.
  { unfold int_shift.
    assert (Zpos (digits2_pos p) ≤ Zpos (digits2_pos q) + 0)%Z by (apply digits2_le; lia). lia. }
  unfold seconds. rewrite read_decimal_int, round_int by lia.
  assert (float_of_Z 1000000000 = S754_finite false (shl g (int_shift g)) (- Z.of_nat (int_shift g)))
    as -> by exact (round_int false g eq_refl).
  unfold fmul, SFmul. cbn [xorb].
  assert (shl p (int_shift p) * shl g (int_shift g) =
          shl (shl q (int_shift q)) (int_shift p + int_shift g - int_shift q))%positive as ->.
  { apply Pos2Z.inj. rewrite Pos2Z.inj_mul, !shl_Z, Hq, Nat2Z.inj_sub, Nat2Z.inj_add by lia.
    rewrite <- (Z.mul_assoc _ (2 ^ Z.of_nat (int_shift q))), <- Z.pow_add_r by lia.
    replace (Z.of_nat (int_shift q) + _)%Z
      with (Z.of_nat (int_shift p) + Z.of_nat (int_shift g))%Z by lia.
    rewrite Z.pow_add_r by lia. subst g. lia. }
  replace (- Z.of_nat (int_shift p) + - Z.of_nat (int_shift g))%Z with
    (- Z.of_nat (int_shift q) - Z.of_nat (int_shift p + int_shift g - int_shift q))%Z by lia.
  rewrite round_exact by (apply int_bounded; lia).
  assert (float_trunc (S754_finite false (shl q (int_shift q)) (- Z.of_nat (int_shift q))) =
          Some (Zpos q)) as ->.
  { unfold float_trunc. rewrite shl_Z. f_equal. destruct (Z.leb_spec 0 (- Z.of_nat (int_shift q))).
    - assert (int_shift q = 0) as -> by lia. simpl. lia.
    - rewrite Z.opp_involutive. apply Z.div_mul, Z.pow_nonzero; lia. }
  unfold int64_ok. rewrite bool_decide_true by lia. lia.
Qed.
