(* ===== verification/Regex.v ===== *)
(** * Regular expressions

    Regular expressions over bytes with a matcher by derivatives, for the one
    pattern of the program whose whole-string matching is not a simple scan. *)
From S2P Require Import Prelude GoStrings.

Inductive re :=
| Empty
| Eps
| Chr (p : ascii → bool)
| Cat (r1 r2 : re)
| Alt (r1 r2 : re)
| Star (r : re).

(** The language of an expression. *)
Inductive lang : re → bytes → Prop :=
| lang_eps : lang Eps []
| lang_chr (p : ascii → bool) c : p c = true → lang (Chr p) [c]
| lang_cat r1 r2 s1 s2 : lang r1 s1 → lang r2 s2 → lang (Cat r1 r2) (s1 ++ s2)
| lang_alt_l r1 r2 s : lang r1 s → lang (Alt r1 r2) s
| lang_alt_r r1 r2 s : lang r2 s → lang (Alt r1 r2) s
| lang_star_nil r : lang (Star r) []
| lang_star_app r s1 s2 : lang r s1 → lang (Star r) s2 → lang (Star r) (s1 ++ s2).

Fixpoint nullable (r : re) : bool :=
  match r with
  | Empty | Chr _ => false
  | Eps | Star _ => true
  | Cat r1 r2 => nullable r1 && nullable r2
  | Alt r1 r2 => nullable r1 || nullable r2
  end.

(** Constructors that drop dead branches, to keep derivatives small. *)
Definition cat (r1 r2 : re) : re :=
  match r1 with Empty => Empty | Eps => r2 | _ => Cat r1 r2 end.
Definition alt (r1 r2 : re) : re :=
  match r1, r2 with Empty, _ => r2 | _, Empty => r1 | _, _ => Alt r1 r2 end.

Fixpoint deriv (c : ascii) (r : re) : re :=
  match r with
  | Empty | Eps => Empty
  | Chr p => if p c then Eps else Empty
  | Cat r1 r2 =>
    if nullable r1 then alt (cat (deriv c r1) r2) (deriv c r2) else cat (deriv c r1) r2
  | Alt r1 r2 => alt (deriv c r1) (deriv c r2)
  | Star r => cat (deriv c r) (Star r)
  end.

Fixpoint re_match (r : re) (s : bytes) : bool :=
  match s with
  | [] => nullable r
  | c :: s' => re_match (deriv c r) s'
  end.

(** Literals, options, repetition at least once. *)
Fixpoint lit (l : bytes) : re :=
  match l with [] => Eps | c :: l' => Cat (Chr (λ x, bool_decide (x = c))) (lit l') end.
Definition opt (r : re) : re := Alt r Eps.
Definition plus (r : re) : re := Cat r (Star r).
Definition cats (l : list re) : re := foldr Cat Eps l.

(** ** The matcher decides the language *)

Lemma lang_cat_iff r1 r2 s :
  lang (Cat r1 r2) s ↔ ∃ s1 s2, s = s1 ++ s2 ∧ lang r1 s1 ∧ lang r2 s2.
Proof.
  split; [|by intros (s1 & s2 & -> & ? & ?); constructor].
  inversion 1; subst. eauto.
Qed.

Lemma lang_cat_smart r1 r2 s : lang (cat r1 r2) s ↔ lang (Cat r1 r2) s.
Proof.
  destruct r1; simpl; try done; rewrite lang_cat_iff; split.
  - inversion 1.
  - intros (s1 & s2 & _ & H1 & _). inversion H1.
  - intros H. exists [], s. by split_and!; [|constructor|].
  - intros (s1 & s2 & -> & H1 & H2). by inversion H1; subst.
Qed.

Lemma lang_alt r1 r2 s : lang (Alt r1 r2) s ↔ lang r1 s ∨ lang r2 s.
Proof. split; [inversion 1; auto|intros [?|?]; by constructor]. Qed.

Lemma lang_empty s : ¬ lang Empty s.
Proof. by inversion 1. Qed.

Lemma lang_alt_smart r1 r2 s : lang (alt r1 r2) s ↔ lang (Alt r1 r2) s.
Proof.
  rewrite lang_alt. pose proof (lang_empty s).
  destruct r1, r2; simpl; rewrite ?lang_alt; tauto.
Qed.

Lemma nullable_spec r : nullable r = true ↔ lang r [].
Proof.
  induction r as [| |p|r1 IH1 r2 IH2|r1 IH1 r2 IH2|r IH]; simpl.
  - by split; [|inversion 1].
  - by split; [constructor|].
  - by split; [|inversion 1].
  - rewrite andb_true_iff, IH1, IH2. split.
    + intros [??]. by apply (lang_cat _ _ [] []).
    + intros (s1 & s2 & Hw & H1 & H2)%lang_cat_iff.
      symmetry in Hw. apply app_nil in Hw as [-> ->]. done.
  - by rewrite orb_true_iff, IH1, IH2, lang_alt.
  - by split; [constructor|].
Qed.

Lemma lang_star_cons r c s :
  lang (Star r) (c :: s) → ∃ s1 s2, s = s1 ++ s2 ∧ lang r (c :: s1) ∧ lang (Star r) s2.
Proof.
  intros H. remember (Star r) as e eqn:He. remember (c :: s) as w eqn:Hw.
  revert Hw. induction H as [|? ? ?|? ? ? ? ? ? ? ?|? ? ? ? ?|? ? ? ? ?|?|r' s1 s2 H1 _ H2 IH2];
    intros Hw; simplify_eq.
  destruct s1 as [|c' s1]; simplify_eq/=; [auto|]. eauto 10.
Qed.

Lemma deriv_spec c r s : lang (deriv c r) s ↔ lang r (c :: s).
Proof.
  revert s. induction r as [| |p|r1 IH1 r2 IH2|r1 IH1 r2 IH2|r IH]; intros s; simpl.
  - by split; inversion 1.
  - by split; inversion 1.
  - destruct (p c) eqn:Hp; split; inversion 1; subst; try done; [by constructor|constructor|].
    congruence.
  - assert (lang (cat (deriv c r1) r2) s ↔
            ∃ s1 s2, s = s1 ++ s2 ∧ lang r1 (c :: s1) ∧ lang r2 s2) as Hcat.
    { rewrite lang_cat_smart, lang_cat_iff. by setoid_rewrite IH1. }
    assert (lang (Cat r1 r2) (c :: s) ↔
            (∃ s1 s2, s = s1 ++ s2 ∧ lang r1 (c :: s1) ∧ lang r2 s2) ∨
            (lang r1 [] ∧ lang r2 (c :: s))) as Hspec.
    { split.
      - intros (s1 & s2 & Hs & H1 & H2)%lang_cat_iff.
        destruct s1 as [|c' s1]; simplify_eq/=; [by right|left; eauto].
      - intros [(s1 & s2 & -> & H1 & H2)|[H1 H2]].
        + by apply (lang_cat _ _ (c :: s1)).
        + by apply (lang_cat _ _ []). }
    destruct (nullable r1) eqn:Hn; rewrite Hspec.
    + apply nullable_spec in Hn. rewrite lang_alt_smart, lang_alt, Hcat, IH2. tauto.
    + rewrite Hcat. split; [by left|]. intros [?|[?%nullable_spec _]]; [done|congruence].
  - by rewrite lang_alt_smart, !lang_alt, IH1, IH2.
  - rewrite lang_cat_smart. split.
    + intros (s1 & s2 & -> & H1 & H2)%lang_cat_iff.
      apply (lang_star_app _ (c :: s1)); [by apply IH|done].
    + intros (s1 & s2 & -> & ? & ?)%lang_star_cons. constructor; [by apply IH|done].
Qed.

Lemma re_match_spec r s : re_match r s = true ↔ lang r s.
Proof.
  revert r. induction s as [|c s IH]; intros r; simpl; [apply nullable_spec|].
  by rewrite IH, deriv_spec.
Qed.

(** ** Texts of an expression *)

Lemma lang_lit l : lang (lit l) l.
Proof.
  induction l as [|c l IH]; [constructor|]. apply (lang_cat _ _ [c] l); [|done].
  constructor. by apply bool_decide_eq_true.
Qed.

Lemma lang_opt_none r : lang (opt r) [].
Proof. apply lang_alt_r. constructor. Qed.

Lemma lang_chars (p : ascii → bool) l : Forall (λ c, p c = true) l → lang (Star (Chr p)) l.
Proof.
  induction 1 as [|c l Hc _ IH]; [constructor|].
  apply (lang_star_app _ [c] l); [by constructor|done].
Qed.

Lemma lang_chars_plus (p : ascii → bool) l :
  l ≠ [] → Forall (λ c, p c = true) l → lang (plus (Chr p)) l.
Proof.
  destruct l as [|c l]; [done|]. intros _ [Hc Hl]%Forall_cons.
  apply (lang_cat _ _ [c] l); [by constructor|by apply lang_chars].
Qed.

Lemma lang_cats r rs s t : lang r s → lang (cats rs) t → lang (cats (r :: rs)) (s ++ t).
Proof. apply lang_cat. Qed.

Lemma lang_cats_nil : lang (cats []) [].
Proof. constructor. Qed.
