(* ===== verification/NetURL.v ===== *)
(** * URLs

    The part of [net/url] the program uses: parsing, the scheme, the user
    information and printing.  The grammar of URLs itself is the class [NetURL]. *)
From S2P Require Import Prelude.

Record Userinfo := { ui_Username : string; ui_Password : option string }.

(** [url_rest] stands for the fields nothing in chitchat looks at: host, path,
    query and fragment. *)
Record URL := {
  url_Scheme : string;
  url_User : option Userinfo;
  url_rest : string;
}.

Class NetURL := {
  url_Parse : string → result string URL;
  url_String : URL → string;
}.

Definition UserPassword (username password : string) : Userinfo :=
  {| ui_Username := username; ui_Password := Some password |}.

Definition set_User (u : URL) (i : Userinfo) : URL :=
  {| url_Scheme := url_Scheme u; url_User := Some i; url_rest := url_rest u |}.
