(* ===== verification/Topic.v ===== *)
(** * Routing a response (pkg/config/validate.go, lines 209-267)

    AMQP topic matching as the validator does it, and the prediction of whether
    a mock response is routed into a declared queue. *)
From S2P Require Import Prelude GoStrings GoValue Config.

(** ** Topic matching *)

Fixpoint matchWords (pattern key : list string) : bool :=
  match pattern with
  | [] => bool_decide (key = [])
  | w :: pattern' =>
    if bool_decide (w = "#") then
      (* for i := 0; i <= len(key); i++ { matchWords(pattern[1:], key[i:]) } *)
      (fix suffixes key := matchWords pattern' key ||
         match key with [] => false | _ :: key' => suffixes key' end) key
    else if bool_decide (w = "*") then
      match key with [] => false | _ :: key' => matchWords pattern' key' end
    else
      match key with
      | [] => false
      | k :: key' => bool_decide (w = k) && matchWords pattern' key'
      end
  end.

Definition topicMatches (pattern key : string) : bool :=
  matchWords (split_byte "." pattern) (split_byte "." key).

(** ** Routing *)

(** The loop of lines 216-223 has no break: the last declaration wins. *)
Definition exchange_type (c : Config) (name : string) : string :=
  foldl (λ exType ex,
           if bool_decide (ex_Name ex = name)
           then if bool_decide (ex_Type ex = "") then "direct" else ex_Type ex
           else exType)
    "topic" (d_Exchanges (bc_Declarations (c_Broker c))).

Definition binding_accepts (exType : string) (b : QueueBinding) (key : string) : bool :=
  if bool_decide (exType = "fanout") then true
  else if bool_decide (exType = "direct") then bool_decide (qb_RoutingKey b = key)
  else if bool_decide (exType = "topic") then topicMatches (qb_RoutingKey b) key
  else false.

Definition responseReachesQueue (c : Config) (resp : MockResponse) (q : QueueDeclaration)
    : bool :=
  if bool_decide (mr_Exchange resp = "") then false else
  let exType := exchange_type c (mr_Exchange resp) in
  existsb (λ b, bool_decide (qb_Exchange b = mr_Exchange resp) &&
                binding_accepts exType b (mr_RoutingKey resp)) (qd_Bindings q).

(** ** The AMQP rules, declaratively

    A pattern matches a key when the key can be cut into one piece per word of
    the pattern: any words for [#], one word for [*], the word itself otherwise. *)
Inductive topic_rel : list string → list string → Prop :=
| topic_nil : topic_rel [] []
| topic_hash ws p k : topic_rel p k → topic_rel ("#" :: p) (ws ++ k)
| topic_star w p k : topic_rel p k → topic_rel ("*" :: p) (w :: k)
| topic_word w p k : w ≠ "#" → w ≠ "*" → topic_rel p k → topic_rel (w :: p) (w :: k).

Section matching.
Implicit Types p k : list string.

Lemma matchWords_hash p k :
  matchWords ("#" :: p) k = true ↔ ∃ ws k', k = ws ++ k' ∧ matchWords p k' = true.
Proof.
  simpl. induction k as [|w k IH].
  - rewrite orb_true_iff. split.
    + intros [?|?]; [|done]. by exists [], [].
    + intros (ws & k' & Hk & ?). symmetry in Hk. apply app_nil in Hk as [-> ->]. eauto.
  - rewrite orb_true_iff, IH. split.
    + intros [?|(ws & k' & -> & ?)]; [by exists [], (w :: k)|by exists (w :: ws), k'].
    + intros ([|w' ws] & k' & Hk & ?); simplify_eq/=; [eauto|].
      right. by exists ws, k'.
Qed.

(** Unfoldings without the hash loop. *)
Lemma matchWords_star p k :
  matchWords ("*" :: p) k = true ↔ ∃ w k', k = w :: k' ∧ matchWords p k' = true.
Proof. simpl. destruct k as [|w k]; naive_solver. Qed.

Lemma matchWords_word w p k : w ≠ "#" → w ≠ "*" →
  matchWords (w :: p) k = true ↔ ∃ k', k = w :: k' ∧ matchWords p k' = true.
Proof.
  intros. simpl. rewrite !bool_decide_false by done.
  destruct k as [|w' k]; [naive_solver|].
  rewrite andb_true_iff, bool_decide_eq_true. naive_solver.
Qed.

Lemma matchWords_rel p k : matchWords p k = true ↔ topic_rel p k.
Proof.
  split.
  - revert k. induction p as [|w p IH]; intros k.
    + intros ->%bool_decide_eq_true. constructor.
    + destruct (decide (w = "#")) as [->|]; [|destruct (decide (w = "*")) as [->|]].
      * intros (ws & k' & -> & ?)%matchWords_hash. constructor. auto.
      * intros (w & k' & -> & ?)%matchWords_star. constructor. auto.
      * intros (k' & -> & ?)%matchWords_word; [|done..]. constructor; auto.
  - induction 1.
    + done.
    + apply matchWords_hash. eauto.
    + apply matchWords_star. eauto.
    + apply matchWords_word; eauto.
Qed.

Lemma topic_rel_refl p : topic_rel p p.
Proof.
  induction p as [|w p IH]; [constructor|].
  destruct (decide (w = "#")) as [->|]; [by apply (topic_hash ["#"])|].
  destruct (decide (w = "*")) as [->|]; by constructor.
Qed.

(** A pattern without wildcards matches itself only. *)
Lemma topic_rel_literal p k :
  Forall (λ w, w ≠ "#" ∧ w ≠ "*") p → topic_rel p k → k = p.
Proof. induction 2; decompose_Forall_hyps; naive_solver. Qed.
End matching.

(** Splitting is injective, so routing keys and word lists are interchangeable. *)
Lemma split_byte_inj c s t : split_byte c s = split_byte c t → s = t.
Proof. intros H. by rewrite <- (join_split c s), H, join_split. Qed.

(** ** Exchange types *)

Definition declared_exchanges (c : Config) : list ExchangeDeclaration :=
  d_Exchanges (bc_Declarations (c_Broker c)).

(** An exchange declared without a type is a direct exchange. *)
Definition effective_type (ex : ExchangeDeclaration) : string :=
  if bool_decide (ex_Type ex = "") then "direct" else ex_Type ex.

(** The exchange a response is published to, as the broker would see it: a
    declared exchange has the type of its last declaration (Validate refuses a
    second one), an undeclared one is taken for a topic exchange. *)
Inductive exchange_of (c : Config) (name : string) : string → Prop :=
| exchange_of_declared l1 ex l2 :
    declared_exchanges c = l1 ++ ex :: l2 → ex_Name ex = name → name ∉ (ex_Name <$> l2) →
    exchange_of c name (effective_type ex)
| exchange_of_undeclared :
    name ∉ (ex_Name <$> declared_exchanges c) → exchange_of c name "topic".

Lemma exchange_fold_skip name l acc :
  name ∉ (ex_Name <$> l) →
  foldl (λ exType ex, if bool_decide (ex_Name ex = name)
           then if bool_decide (ex_Type ex = "") then "direct" else ex_Type ex
           else exType) acc l = acc.
Proof.
  induction l as [|ex l IH]; [done|]. rewrite fmap_cons, not_elem_of_cons. intros [Hne Hl].
  simpl. rewrite bool_decide_false by done. by apply IH.
Qed.

Lemma exchange_of_type c name ty : exchange_of c name ty ↔ exchange_type c name = ty.
Proof.
  assert (∀ ty, exchange_of c name ty → exchange_type c name = ty) as Hdet.
  { unfold exchange_type. intros _ [l1 ex l2 Hl Hn Hl2|Hu].
    - fold (declared_exchanges c). rewrite Hl, foldl_app. simpl. rewrite (bool_decide_true _ Hn).
      by apply exchange_fold_skip.
    - by apply exchange_fold_skip. }
  split; [apply Hdet|]. intros <-.
  destruct (decide (name ∈ ex_Name <$> declared_exchanges c)) as [Hin|Hin].
  - apply list_elem_of_split_r in Hin as (l1 & l2 & Hl & Hl2).
    apply fmap_app_inv in Hl as (k1 & k2 & _ & Hk & Hd).
    symmetry in Hk. apply fmap_cons_inv in Hk as (ex & k3 & -> & -> & ->).
    assert (exchange_of c (ex_Name ex) (effective_type ex)) as He
      by (by eapply exchange_of_declared).
    by rewrite (Hdet _ He).
  - pose proof (exchange_of_undeclared c name Hin) as He. by rewrite (Hdet _ He).
Qed.

(** What a broker does with the response, for one binding of an exchange of type
    [ty].  A headers exchange compares the binding's arguments with the headers of
    the message; what it makes of them is up to the broker. *)
Inductive accepts (headers_accept : QueueBinding → MockResponse → Prop)
    : string → QueueBinding → MockResponse → Prop :=
| accepts_fanout b resp : accepts headers_accept "fanout" b resp
| accepts_direct b resp :
    qb_RoutingKey b = mr_RoutingKey resp → accepts headers_accept "direct" b resp
| accepts_topic b resp :
    topic_rel (split_byte "." (qb_RoutingKey b)) (split_byte "." (mr_RoutingKey resp)) →
    accepts headers_accept "topic" b resp
| accepts_headers b resp :
    headers_accept b resp → accepts headers_accept "headers" b resp.

(** The response gets into the queue through one of its bindings. *)
Definition routed (headers_accept : QueueBinding → MockResponse → Prop)
    (c : Config) (resp : MockResponse) (q : QueueDeclaration) : Prop :=
  mr_Exchange resp ≠ "" ∧
  ∃ ty b, exchange_of c (mr_Exchange resp) ty ∧ b ∈ qd_Bindings q ∧
          qb_Exchange b = mr_Exchange resp ∧ accepts headers_accept ty b resp.

Lemma binding_accepts_spec headers_accept ty b resp :
  binding_accepts ty b (mr_RoutingKey resp) = true ↔
  accepts headers_accept ty b resp ∧ ty ≠ "headers".
Proof.
  unfold binding_accepts. case_bool_decide as H1; [|case_bool_decide as H2;
    [|case_bool_decide as H3]]; simplify_eq.
  - by split; [split; [constructor|]|].
  - rewrite bool_decide_eq_true. split; [by intros Hk; split; [constructor|]|].
    by intros [Ha _]; inversion Ha.
  - unfold topicMatches. rewrite matchWords_rel.
    split; [by split; [constructor|]|by intros [Ha _]; inversion Ha].
  - split; [done|]. intros [Ha Hn]. by inversion Ha; subst.
Qed.

Lemma reaches_routed headers_accept c resp q :
  responseReachesQueue c resp q = true ↔
  routed headers_accept c resp q ∧ ¬ exchange_of c (mr_Exchange resp) "headers".
Proof.
  unfold responseReachesQueue, routed. case_bool_decide as Hex; [naive_solver|].
  rewrite existsb_exists. setoid_rewrite <- list_elem_of_In.
  setoid_rewrite andb_true_iff. setoid_rewrite bool_decide_eq_true.
  setoid_rewrite (binding_accepts_spec headers_accept). setoid_rewrite exchange_of_type. split.
  - intros (b & ? & ? & ? & Hne). split; [split; [done|by eexists _, b]|congruence].
  - intros [(_ & ty & b & <- & ? & ? & ?) Hne]. by exists b.
Qed.

(** ** Properties *)

(** C25: topic matching implements the AMQP rules: a pattern matches a routing
    key exactly when the key's words can be cut up along the pattern's words,
    any number of them for [#], one for [*]. *)
Theorem topicMatches_correct pattern key :
  topicMatches pattern key = true ↔
  topic_rel (split_byte "." pattern) (split_byte "." key).
Proof. apply matchWords_rel. Qed.

(** C26: the prediction of a feedback route: whatever a headers exchange makes of
    arguments and headers, the function reports exactly the responses that name an
    exchange and that one of the queue's bindings to this exchange accepts, under
    the type of the exchange, unless it is a headers exchange.  So it is right about
    direct, fanout and topic exchanges, and never reports a route through a headers
    exchange. *)
Theorem responseReachesQueue_correct headers_accept c resp q :
  responseReachesQueue c resp q = true ↔
  routed headers_accept c resp q ∧ ¬ exchange_of c (mr_Exchange resp) "headers".
Proof. apply reaches_routed. Qed.

(** A configuration with one topic exchange, for evaluation. *)
Definition example_exchange (name ty : string) : ExchangeDeclaration :=
  {| ex_Name := name; ex_Type := ty; ex_Durable := true; ex_AutoDelete := false;
     ex_Internal := false; ex_NoWait := false; ex_Args := ∅ |}.
Definition example_binding (exchange key : string) : QueueBinding :=
  {| qb_Exchange := exchange; qb_RoutingKey := key; qb_NoWait := false; qb_Args := ∅ |}.
Definition example_queue (name : string) (bindings : list QueueBinding) : QueueDeclaration :=
  {| qd_Name := name; qd_Durable := true; qd_AutoDelete := false; qd_Exclusive := false;
     qd_NoWait := false; qd_Args := ∅; qd_Bindings := bindings |}.
Definition example_response (exchange key : string) : MockResponse :=
  {| mr_Exchange := exchange; mr_RoutingKey := key; mr_DelayMS := 0; mr_Headers := ∅;
     mr_Payload := VNil |}.
Definition example_topology (exs : list ExchangeDeclaration) (qs : list QueueDeclaration)
    : Config :=
  {| c_Broker := {| bc_URL := default_url;
                    bc_Declarations := {| d_Exchanges := exs; d_Queues := qs |} |};
     c_Server := c_Server DefaultConfig; c_Logging := c_Logging DefaultConfig;
     c_Spy := c_Spy DefaultConfig; c_Rules := [] |}.

Definition example_config : Config :=
  example_topology [example_exchange "order.exchange" "topic"]
    [example_queue "orders" [example_binding "order.exchange" "order.#"]].

(** Through a topic exchange, and through a headers exchange that takes everything. *)
Example response_routes :
  routed (λ _ _, True) example_config (example_response "order.exchange" "order.event.created")
    (example_queue "orders" [example_binding "order.exchange" "order.#"]) ∧
  let h := example_topology [example_exchange "h" "headers"] [] in
  let q := example_queue "q" [example_binding "h" ""] in
  routed (λ _ _, True) h (example_response "h" "") q ∧
  responseReachesQueue h (example_response "h" "") q = false.
Proof.
  split; [by apply reaches_routed|]. split; [|done]. split; [done|].
  exists "headers", (example_binding "h" ""). split_and!; [|by left|done|by constructor].
  by apply exchange_of_type.
Qed.

(** What the comment on undeclared exchanges relies on: a key that a direct
    exchange would deliver through a binding is delivered by a topic exchange
    too. *)
Lemma topic_superset_of_direct b key :
  binding_accepts "direct" b key = true → binding_accepts "topic" b key = true.
Proof.
  unfold binding_accepts. simpl. intros <-%bool_decide_eq_true.
  apply matchWords_rel, topic_rel_refl.
Qed.
