(* ===== verification/Validate.v ===== *)
(** * Validation and warnings (pkg/config/validate.go)

    [Validate] collects every problem of a configuration, [Warnings] every
    observation about it; both build the texts the user sees. *)
From S2P Require Import Prelude GoStrings GoValue NetURL Config Topic.

Record ValidationError := { Problems : list string }.

(** [(e *ValidationError) Error()]. *)
Definition ValidationError_Error (e : ValidationError) : string :=
  "invalid configuration (" +:+ itoa (len (Problems e)) +:+ " problem" +:+
  (if bool_decide (length (Problems e) ≠ 1) then "s" else "") +:+ "):" +:+
  foldr (λ p acc, String (ascii_of_N 10) "" +:+ "  - " +:+ p +:+ acc) "" (Problems e).

Definition validExchangeTypes : list string := [""; "direct"; "topic"; "fanout"; "headers"].
Definition validLogLevels : list string := ["debug"; "info"; "warn"; "warning"; "error"].
Definition validLogFormats : list string := ["text"; "json"].

(** The [%d] of a slice index. *)
Definition idx (i : nat) : string := itoa (Z.of_nat i).

(** [OriginHeader]. *)
Definition OriginHeader : string := "x-chitchat-origin".

Section validate.
Context `{Unicode, NetURL}.

Definition ruleLabel (i : nat) (r : Rule) : string :=
  if bool_decide (r_Name r = "") then "rules[" +:+ idx i +:+ "]"
  else "rules[" +:+ idx i +:+ "] (" +:+ quote (r_Name r) +:+ ")".

(** ** The checks of Validate, in its order *)

Definition check_url (url : string) : list string :=
  if is_blank url then ["broker.url must not be empty"]
  else match url_Parse url with
       | Err _ => ["broker.url is not a valid URL"]
       | Ok u =>
         if bool_decide (url_Scheme u ≠ "amqp" ∧ url_Scheme u ≠ "amqps")
         then ["broker.url scheme must be amqp or amqps, got " +:+ quote (url_Scheme u)]
         else []
       end.

(** [exchanges] is the map of the names seen so far. *)
Fixpoint check_exchanges (i : nat) (exchanges : gset string) (l : list ExchangeDeclaration)
    : list string :=
  match l with
  | [] => []
  | ex :: l' =>
    let at_i := "broker.declarations.exchanges[" +:+ idx i +:+ "]" in
    let '(problems, exchanges) :=
      if bool_decide (ex_Name ex = "")
      then ([at_i +:+ ": name must not be empty"], exchanges)
      else if bool_decide (ex_Name ex ∈ exchanges)
      then ([at_i +:+ ": duplicate exchange " +:+ quote (ex_Name ex)], exchanges)
      else ([], {[ex_Name ex]} ∪ exchanges) in
    problems ++
    (if bool_decide (ex_Type ex ∈ validExchangeTypes) then []
     else [at_i +:+ " (" +:+ quote (ex_Name ex) +:+ "): unknown type " +:+
           quote (ex_Type ex) +:+ " (expected direct, topic, fanout or headers)"]) ++
    check_exchanges (S i) exchanges l'
  end.

Definition check_bindings (i : nat) (q : QueueDeclaration) : list string :=
  concat_imap (λ j b,
    if bool_decide (qb_Exchange b = "")
    then ["broker.declarations.queues[" +:+ idx i +:+ "] (" +:+ quote (qd_Name q) +:+
          ").bindings[" +:+ idx j +:+ "]: exchange must not be empty"]
    else []) (qd_Bindings q).

Fixpoint check_queues (i : nat) (queues : gset string) (l : list QueueDeclaration)
    : list string :=
  match l with
  | [] => []
  | q :: l' =>
    let at_i := "broker.declarations.queues[" +:+ idx i +:+ "]" in
    let '(problems, queues) :=
      if bool_decide (qd_Name q = "")
      then ([at_i +:+ ": name must not be empty"], queues)
      else if bool_decide (qd_Name q ∈ queues)
      then ([at_i +:+ ": duplicate queue " +:+ quote (qd_Name q)], queues)
      else ([], {[qd_Name q]} ∪ queues) in
    problems ++ check_bindings i q ++ check_queues (S i) queues l'
  end.

Definition check_server (s : ServerConfig) : list string :=
  (if bool_decide (sc_Port s < 1 ∨ 65535 < sc_Port s)%Z
   then ["server.port must be between 1 and 65535, got " +:+ itoa (sc_Port s)] else []) ++
  (if bool_decide (sc_RingBufferSize s < 1)%Z
   then ["server.ring_buffer_size must be at least 1, got " +:+ itoa (sc_RingBufferSize s)]
   else []).

Definition check_logging (l : LogConfig) : list string :=
  (if bool_decide (to_lower (trim_space (lc_Level l)) ∈ validLogLevels) then []
   else ["logging.level " +:+ quote (lc_Level l) +:+
         " is not one of debug, info, warn, error"]) ++
  (if bool_decide (to_lower (trim_space (lc_Format l)) ∈ validLogFormats) then []
   else ["logging.format " +:+ quote (lc_Format l) +:+ " is not one of text, json"]).

Definition check_spy (s : SpyConfig) : list string :=
  concat_imap (λ i q, if is_blank q
    then ["spy.queues[" +:+ idx i +:+ "]: queue name must not be empty"] else [])
    (sp_Queues s).

(** The checks of one rule after its name. *)
Definition check_rule_body (label : string) (r : Rule) : list string :=
  (if bool_decide (tr_Queue (r_Trigger r) = "")
   then [label +:+ ": trigger.queue must not be empty"] else []) ++
  concat_imap (λ j jr, if is_blank (jr_Filter jr)
    then [label +:+ ": trigger.jsonpath_rules[" +:+ idx j +:+ "].filter must not be empty"]
    else []) (tr_JSONPathRules (r_Trigger r)) ++
  (if bool_decide (mr_Exchange (r_MockResponse r) = "" ∧ mr_RoutingKey (r_MockResponse r) = "")
   then [label +:+ ": mock_response needs an exchange and/or routing_key (an empty exchange publishes via the default exchange to the queue named by routing_key)"]
   else []) ++
  (if bool_decide (mr_DelayMS (r_MockResponse r) < 0)%Z
   then [label +:+ ": mock_response.delay_ms must not be negative, got " +:+
         itoa (mr_DelayMS (r_MockResponse r))]
   else []).

(** [seen] maps a name to the first rule that has it. *)
Fixpoint check_rules (i : nat) (seen : gmap string nat) (l : list Rule) : list string :=
  match l with
  | [] => []
  | r :: l' =>
    let label := ruleLabel i r in
    let '(problems, seen) :=
      if is_blank (r_Name r) then ([label +:+ ": name must not be empty"], seen)
      else match seen !! r_Name r with
           | Some first =>
             ([label +:+ ": duplicate rule name (first used by rules[" +:+ idx first +:+ "])"],
              seen)
           | None => ([], <[r_Name r := i]> seen)
           end in
    problems ++ check_rule_body label r ++ check_rules (S i) seen l'
  end.

Definition problems_of (c : Config) : list string :=
  check_url (bc_URL (c_Broker c)) ++
  check_exchanges 0 ∅ (d_Exchanges (bc_Declarations (c_Broker c))) ++
  check_queues 0 ∅ (d_Queues (bc_Declarations (c_Broker c))) ++
  check_server (c_Server c) ++
  check_logging (c_Logging c) ++
  check_spy (c_Spy c) ++
  check_rules 0 ∅ (c_Rules c).

Definition Validate (c : Config) : option ValidationError :=
  let problems := problems_of c in
  if bool_decide (0 < length problems) then Some {| Problems := problems |} else None.

(** ** Warnings *)

Fixpoint dedupe_loop (seen : gset string) (l : list string) : list string :=
  match l with
  | [] => []
  | s :: l' =>
    if bool_decide (s ∈ seen) then dedupe_loop seen l'
    else s :: dedupe_loop ({[s]} ∪ seen) l'
  end.
Definition dedupe (l : list string) : list string := dedupe_loop ∅ l.

Definition describeTarget (m : MockResponse) : string :=
  "exchange " +:+ quote (mr_Exchange m) +:+ " with routing key " +:+ quote (mr_RoutingKey m).

Definition triggerQueues (c : Config) : gset string :=
  list_to_set (map (λ r, tr_Queue (r_Trigger r)) (c_Rules c)).

Definition rule_warnings (c : Config) (i : nat) (r : Rule) : list string :=
  let label := ruleLabel i r in
  let declaredQueues : gset string :=
    list_to_set (map qd_Name (d_Queues (bc_Declarations (c_Broker c)))) in
  let declaredExchanges : gset string :=
    list_to_set (map ex_Name (d_Exchanges (bc_Declarations (c_Broker c)))) in
  let queue := tr_Queue (r_Trigger r) in
  let ex := mr_Exchange (r_MockResponse r) in
  (if bool_decide (length (tr_JSONPathRules (r_Trigger r)) = 0 ∧ tr_RoutingKey (r_Trigger r) = "")
   then [label +:+ ": no jsonpath_rules or routing_key, so it matches every message on queue "
         +:+ quote queue] else []) ++
  (if bool_decide (declaredQueues ≠ ∅ ∧ queue ≠ "" ∧ queue ∉ declaredQueues)
   then [label +:+ ": trigger queue " +:+ quote queue +:+
         " is not in broker.declarations.queues (assumed to already exist)"] else []) ++
  (if bool_decide (declaredExchanges ≠ ∅ ∧ ex ≠ "" ∧ ex ∉ declaredExchanges) &&
      negb (has_prefix ex "amq.")
   then [label +:+ ": response exchange " +:+ quote ex +:+
         " is not in broker.declarations.exchanges (assumed to already exist)"] else []).

Definition feedback_warning (i : nat) (r : Rule) (q : QueueDeclaration) : string :=
  ruleLabel i r +:+ " publishes to " +:+ describeTarget (r_MockResponse r) +:+
  " which is routed to trigger queue " +:+ quote (qd_Name q) +:+
  "; chitchat's loop guard (header " +:+ OriginHeader +:+
  ") stops it re-triggering on its own responses".

Definition default_feedback_warning (i : nat) (r : Rule) : string :=
  ruleLabel i r +:+ " publishes to trigger queue " +:+
  quote (mr_RoutingKey (r_MockResponse r)) +:+
  " via the default exchange; chitchat's loop guard (header " +:+ OriginHeader +:+
  ") stops it re-triggering on its own responses".

Definition loop_warnings (c : Config) (i : nat) (r : Rule) : list string :=
  concat_imap (λ _ q,
    if bool_decide (qd_Name q ∈ triggerQueues c) &&
       responseReachesQueue c (r_MockResponse r) q
    then [feedback_warning i r q] else []) (d_Queues (bc_Declarations (c_Broker c))) ++
  (if bool_decide (mr_Exchange (r_MockResponse r) = "" ∧
                   mr_RoutingKey (r_MockResponse r) ∈ triggerQueues c ∧
                   mr_RoutingKey (r_MockResponse r) ≠ "")
   then [default_feedback_warning i r] else []).

Definition Warnings (c : Config) : list string :=
  dedupe
    ((if bool_decide (length (c_Rules c) = 0 ∧ length (sp_Queues (c_Spy c)) = 0)
      then ["no rules or spy.queues configured: chitchat will not consume from any queue"]
      else []) ++
     concat_imap (rule_warnings c) (c_Rules c) ++
     concat_imap (loop_warnings c) (c_Rules c)).
End validate.

(** ** What a valid configuration is *)

Section valid.
Context `{Unicode, NetURL}.

Record valid_url (url : string) : Prop := {
  vu_not_blank : is_blank url = false;
  vu_parses : ∃ u, url_Parse url = Ok u ∧ url_Scheme u ∈ ["amqp"; "amqps"];
}.

Definition valid_exchange (ex : ExchangeDeclaration) : Prop :=
  ex_Name ex ≠ "" ∧ ex_Type ex ∈ validExchangeTypes.

Definition valid_queue (q : QueueDeclaration) : Prop :=
  qd_Name q ≠ "" ∧ Forall (λ b, qb_Exchange b ≠ "") (qd_Bindings q).

Record valid_rule (r : Rule) : Prop := {
  vr_name : is_blank (r_Name r) = false;
  vr_queue : tr_Queue (r_Trigger r) ≠ "";
  vr_filters : Forall (λ jr, is_blank (jr_Filter jr) = false) (tr_JSONPathRules (r_Trigger r));
  vr_target : mr_Exchange (r_MockResponse r) ≠ "" ∨ mr_RoutingKey (r_MockResponse r) ≠ "";
  vr_delay : (0 ≤ mr_DelayMS (r_MockResponse r))%Z;
}.

Record valid_config (c : Config) : Prop := {
  vc_url : valid_url (bc_URL (c_Broker c));
  vc_exchanges : Forall valid_exchange (d_Exchanges (bc_Declarations (c_Broker c)));
  vc_exchange_names : NoDup (ex_Name <$> d_Exchanges (bc_Declarations (c_Broker c)));
  vc_queues : Forall valid_queue (d_Queues (bc_Declarations (c_Broker c)));
  vc_queue_names : NoDup (qd_Name <$> d_Queues (bc_Declarations (c_Broker c)));
  vc_port : (1 ≤ sc_Port (c_Server c) ≤ 65535)%Z;
  vc_ring : (1 ≤ sc_RingBufferSize (c_Server c))%Z;
  vc_level : to_lower (trim_space (lc_Level (c_Logging c))) ∈ validLogLevels;
  vc_format : to_lower (trim_space (lc_Format (c_Logging c))) ∈ validLogFormats;
  vc_spy : Forall (λ q, is_blank q = false) (sp_Queues (c_Spy c));
  vc_rules : Forall valid_rule (c_Rules c);
  vc_rule_names : NoDup (r_Name <$> c_Rules c);
}.

(** ** Each check against its part *)

Lemma if_nil (b : bool) (x : string) : (if b then [x] else []) = [] ↔ b = false.
Proof. by destruct b. Qed.

Lemma if_nil' (b : bool) (x : string) : (if b then [] else [x]) = [] ↔ b = true.
Proof. by destruct b. Qed.

Lemma check_url_nil url : check_url url = [] ↔ valid_url url.
Proof.
  unfold check_url. destruct (is_blank url) eqn:Hb; [by split; [|intros []; congruence]|].
  destruct (url_Parse url) as [u|e] eqn:Hp.
  - rewrite if_nil, bool_decide_eq_false. split.
    + intros Hs. split; [done|]. exists u. split; [done|]. set_unfold.
      destruct (decide (url_Scheme u = "amqp")); [by left|right].
      destruct (decide (url_Scheme u = "amqps")); [by left|tauto].
    + intros [_ (u1 & Hu & Hs)]. rewrite Hp in Hu. injection Hu as <-.
      rewrite !elem_of_cons, elem_of_nil in Hs. tauto.
  - split; [done|]. intros [_ (u & ? & _)]. congruence.
Qed.

Lemma check_exchanges_nil i seen l :
  check_exchanges i seen l = [] ↔ Forall valid_exchange l ∧ fresh_names ex_Name seen l.
Proof.
  revert i seen. induction l as [|ex l IH]; intros i seen; simpl.
  { by rewrite fresh_names_nil, Forall_nil. }
  rewrite Forall_cons, fresh_names_cons. unfold valid_exchange at 1.
  case_bool_decide; [naive_solver|]. case_bool_decide; [naive_solver|].
  simpl. rewrite app_nil, if_nil', bool_decide_eq_true, IH. tauto.
Qed.

Lemma concat_imap_if_nil {A} (p : A → bool) (f : nat → A → string) l :
  concat_imap (λ i x, if p x then [f i x] else []) l = [] ↔ Forall (λ x, p x = false) l.
Proof.
  rewrite concat_imap_nil, Forall_lookup. by setoid_rewrite if_nil.
Qed.

Lemma check_queues_nil i seen l :
  check_queues i seen l = [] ↔ Forall valid_queue l ∧ fresh_names qd_Name seen l.
Proof.
  revert i seen. induction l as [|q l IH]; intros i seen; simpl.
  { by rewrite fresh_names_nil, Forall_nil. }
  rewrite Forall_cons, fresh_names_cons. unfold valid_queue at 1.
  case_bool_decide; [naive_solver|]. case_bool_decide; [naive_solver|].
  simpl. unfold check_bindings. rewrite app_nil, IH.
  rewrite (concat_imap_if_nil (λ b, bool_decide (qb_Exchange b = ""))).
  setoid_rewrite bool_decide_eq_false. tauto.
Qed.

Lemma check_server_nil s :
  check_server s = [] ↔ (1 ≤ sc_Port s ≤ 65535)%Z ∧ (1 ≤ sc_RingBufferSize s)%Z.
Proof. unfold check_server. rewrite app_nil, !if_nil, !bool_decide_eq_false. lia. Qed.

Lemma check_logging_nil l :
  check_logging l = [] ↔ to_lower (trim_space (lc_Level l)) ∈ validLogLevels ∧
                         to_lower (trim_space (lc_Format l)) ∈ validLogFormats.
Proof. unfold check_logging. by rewrite app_nil, !if_nil', !bool_decide_eq_true. Qed.

Lemma check_rule_body_nil label r :
  is_blank (r_Name r) = false → check_rule_body label r = [] ↔ valid_rule r.
Proof.
  intros Hn. unfold check_rule_body.
  rewrite !app_nil, !if_nil, !bool_decide_eq_false, (concat_imap_if_nil (λ jr, is_blank _)).
  split.
  - intros (?&?&Ht&?). split; [done|done|done| |lia].
    destruct (decide (mr_Exchange (r_MockResponse r) = "")); [right|by left]. naive_solver.
  - intros []. repeat split; [done|done| |lia]. naive_solver.
Qed.

Lemma check_rules_nil i seen l :
  check_rules i seen l = [] ↔ Forall valid_rule l ∧ fresh_names r_Name (dom seen) l.
Proof.
  revert i seen. induction l as [|r l IH]; intros i seen; simpl.
  { by rewrite fresh_names_nil, Forall_nil. }
  rewrite Forall_cons, fresh_names_cons.
  destruct (is_blank (r_Name r)) eqn:Hn.
  { split; [done|]. intros [[[] _] _]. congruence. }
  rewrite not_elem_of_dom. destruct (seen !! r_Name r); [naive_solver|].
  simpl. rewrite app_nil, check_rule_body_nil, IH, dom_insert_L by done. tauto.
Qed.

Lemma problems_of_nil c : problems_of c = [] ↔ valid_config c.
Proof.
  unfold problems_of, check_spy.
  rewrite !app_nil, check_url_nil, check_exchanges_nil, check_queues_nil, check_server_nil,
    check_logging_nil, (concat_imap_if_nil is_blank), check_rules_nil, dom_empty_L,
    !fresh_names_empty.
  split; [intros (?&[]&[]&[]&[]&?&[]); by constructor|intros []; tauto].
Qed.
End valid.

(** ** Every faulty rule is named *)

Section reports.
Context `{Unicode, NetURL}.

(** A problem about the rule with label [label]. *)
Definition about_rule (label p : string) : Prop := ∃ rest, p = label +:+ ": " +:+ rest.

Lemma string_app_assoc (s t u : string) : (s +:+ t) +:+ u = s +:+ (t +:+ u).
Proof.
  induction s as [|a s IH]; [done|].
  change (String a ((s +:+ t) +:+ u) = String a (s +:+ (t +:+ u))). by rewrite IH.
Qed.

Lemma about_rule_intro label rest : about_rule label (label +:+ ": " +:+ rest).
Proof. by exists rest. Qed.

Lemma about_rule_if label (b : bool) p rest :
  p = label +:+ ": " +:+ rest → Forall (about_rule label) (if b then [p] else []).
Proof. intros ->. destruct b; [|constructor]. by constructor; [exists rest|constructor]. Qed.

Lemma Forall_concat_imap {A B} (P : B → Prop) (f : nat → A → list B) l :
  (∀ i x, l !! i = Some x → Forall P (f i x)) → Forall P (concat_imap f l).
Proof.
  intros Hf. apply Forall_forall. intros y (i & x & Hl & Hy)%elem_of_concat_imap.
  specialize (Hf i x Hl). rewrite Forall_forall in Hf. auto.
Qed.

Lemma check_rule_body_about label r : Forall (about_rule label) (check_rule_body label r).
Proof.
  unfold check_rule_body. rewrite !Forall_app. split_and!.
  - eapply about_rule_if. reflexivity.
  - apply Forall_concat_imap. intros j jr _. eapply about_rule_if. reflexivity.
  - eapply about_rule_if. reflexivity.
  - eapply about_rule_if. reflexivity.
Qed.

Lemma check_rule_body_reports label r :
  is_blank (r_Name r) = false → ¬ valid_rule r →
  ∃ p, p ∈ check_rule_body label r ∧ about_rule label p.
Proof.
  intros Hn Hv. rewrite <- (check_rule_body_nil label) in Hv by done.
  pose proof (check_rule_body_about label r) as Hall.
  destruct (check_rule_body label r) as [|p ps]; [done|].
  exists p. split; [by left|]. by apply Forall_cons in Hall as [? _].
Qed.

(** The head of the loop reports a bad or repeated first rule. *)
Lemma check_rules_head i seen r l :
  ¬ valid_rule r ∨ r_Name r ∈ dom seen →
  ∃ p, p ∈ check_rules i seen (r :: l) ∧ about_rule (ruleLabel i r) p.
Proof.
  intros Hbad. simpl. destruct (is_blank (r_Name r)) eqn:Hn.
  { eexists. split; [by left|]. apply about_rule_intro. }
  destruct (seen !! r_Name r) as [first|] eqn:Hs.
  { eexists. split; [by left|]. apply about_rule_intro. }
  destruct Hbad as [Hv|Hd]; [|by apply not_elem_of_dom in Hs].
  destruct (check_rule_body_reports (ruleLabel i r) r Hn Hv) as (p & Hp & ?).
  exists p. split; [|done]. simpl. rewrite elem_of_app. by left.
Qed.

Lemma check_rules_cons i seen r l :
  ∃ ps seen', check_rules i seen (r :: l) = ps ++ check_rules (S i) seen' l ∧
    dom seen ⊆ dom seen' ∧ (is_blank (r_Name r) = false → r_Name r ∈ dom seen').
Proof.
  simpl. destruct (is_blank (r_Name r)) eqn:Hn.
  { eexists _, seen. rewrite app_assoc. done. }
  destruct (seen !! r_Name r) as [first|] eqn:Hs.
  - eexists _, seen. rewrite app_assoc. split_and!; [done..|].
    intros _. by apply elem_of_dom_2 in Hs.
  - eexists _, _. rewrite app_assoc. split_and!; [done| |]; rewrite dom_insert_L; set_solver.
Qed.

Lemma check_rules_reports i seen l k r :
  l !! k = Some r →
  ¬ valid_rule r ∨ r_Name r ∈ dom seen ∨
    (∃ j r', j < k ∧ l !! j = Some r' ∧ r_Name r' = r_Name r) →
  ∃ p, p ∈ check_rules i seen l ∧ about_rule (ruleLabel (i + k) r) p.
Proof.
  revert i seen k. induction l as [|r0 l IH]; intros i seen k Hk Hbad; [done|].
  destruct k as [|k].
  - injection Hk as ->. rewrite Nat.add_0_r. apply check_rules_head.
    destruct Hbad as [?|[?|(j & ? & ? & _)]]; [by left|by right|lia].
  - destruct (check_rules_cons i seen r0 l) as (ps & seen' & -> & Hd & Hn).
    assert (∃ p, p ∈ check_rules (S i) seen' l ∧
                 about_rule (ruleLabel (S i + k) r) p) as (p & Hp & Ha).
    { apply IH; [done|]. destruct Hbad as [?|[?|([|j] & r' & ? & Hj & Heq)]].
      - by left.
      - right; left. set_solver.
      - injection Hj as ->. destruct (is_blank (r_Name r)) eqn:Hb.
        + left. intros []. congruence.
        + right; left. rewrite <- Heq. apply Hn. congruence.
      - right; right. exists j, r'. split_and!; [lia|done|done]. }
    exists p. rewrite elem_of_app. replace (i + S k) with (S i + k) by lia. auto.
Qed.
End reports.

(** ** dedupe *)



Lemma dedupe_loop_sublist seen l : dedupe_loop seen l `sublist_of` l.
Proof.
  revert seen. induction l as [|s l IH]; intros seen; simpl; [done|].
  case_bool_decide; [by apply sublist_cons|by apply sublist_skip].
Qed.


(** ** Properties *)

(** A URL parser for evaluation: the scheme is what precedes the first colon. *)
Definition example_url : NetURL :=
  {| url_Parse s := match cut_byte ":" s with
       | Some (scheme, rest) => Ok {| url_Scheme := scheme; url_User := None; url_rest := rest |}
       | None => Err "missing scheme"
       end;
     url_String u := url_Scheme u +:+ ":" +:+ url_rest u |}.

Definition example_rule (name queue exchange key : string) : Rule :=
  {| r_Name := name;
     r_Trigger := {| tr_Queue := queue; tr_RoutingKey := ""; tr_JSONPathRules := [] |};
     r_MockResponse := example_response exchange key |}.

Definition with_rules (c : Config) (rules : list Rule) : Config :=
  {| c_Broker := c_Broker c; c_Server := c_Server c; c_Logging := c_Logging c;
     c_Spy := c_Spy c; c_Rules := rules |}.

(** C24: Validate accepts exactly the configurations that are valid in every
    respect: a parsable amqp URL, named and distinct exchanges and queues, known
    exchange types, bindings with an exchange, settings in range, spy queues and
    rules that are named, distinct and have a trigger, a target and no negative
    delay. *)
Theorem Validate_correct `{Unicode, NetURL} c : Validate c = None ↔ valid_config c.
Proof.
  unfold Validate. rewrite <- problems_of_nil.
  case_bool_decide as Hl; split; intros Hp; try done.
  - rewrite Hp in Hl. simpl in Hl. lia.
  - destruct (problems_of c); [done|]. simpl in Hl. lia.
Qed.

(** All problems in one pass: every rule that is not valid, or that repeats
    the name of an earlier rule, has a problem of its own in the error, whatever
    else is wrong. *)
Theorem Validate_reports_every_rule `{Unicode, NetURL} c i r :
  c_Rules c !! i = Some r →
  ¬ valid_rule r ∨ (∃ j r', j < i ∧ c_Rules c !! j = Some r' ∧ r_Name r' = r_Name r) →
  ∃ e p, Validate c = Some e ∧ p ∈ Problems e ∧ about_rule (ruleLabel i r) p.
Proof.
  intros Hr Hbad.
  destruct (check_rules_reports 0 ∅ (c_Rules c) i r Hr) as (p & Hp & Ha); [tauto|].
  assert (p ∈ problems_of c) as Hin.
  { unfold problems_of. rewrite !elem_of_app. tauto. }
  exists {| Problems := problems_of c |}, p. split_and!; [|done|done].
  unfold Validate. rewrite bool_decide_true; [done|].
  destruct (problems_of c); [set_solver|simpl; lia].
Qed.

Definition duplicate_rules : Config :=
  with_rules example_config
    [example_rule "pay" "orders" "" "k"; example_rule "pay" "orders" "" "k"].

Lemma Validate_reports_every_rule_witness :
  ∃ e p, @Validate example_unicode example_url duplicate_rules = Some e ∧ p ∈ Problems e ∧
         about_rule (@ruleLabel example_unicode 1 (example_rule "pay" "orders" "" "k")) p.
Proof.
  apply (@Validate_reports_every_rule example_unicode example_url duplicate_rules 1
           (example_rule "pay" "orders" "" "k")); [reflexivity|].
  right. exists 0, (example_rule "pay" "orders" "" "k"). split_and!; [lia|reflexivity|reflexivity].
Defined.

(** After parsing, the lower bounds Validate puts on the port and the ring
    buffer size cannot be violated: ParseConfig has replaced zero and negative
    values by the defaults, explicit ones included, and the overrides keep them
    positive.  Only a port that is too large is ever reported. *)
Theorem loaded_server_bounds `{Yaml} data cfg url port level :
  ParseConfig data = Ok cfg →
  check_server (c_Server (ApplyOverrides cfg url port level)) =
    let p := sc_Port (c_Server (ApplyOverrides cfg url port level)) in
    if bool_decide (65535 < p)%Z
    then ["server.port must be between 1 and 65535, got " +:+ itoa p] else [].
Proof.
  unfold ParseConfig. intros Hp.
  assert (settings_filled cfg) as Hf.
  { repeat case_match; simplify_eq; auto with config. }
  apply (ApplyOverrides_filled _ url port level) in Hf as (_ & ? & ? & _).
  unfold check_server; simpl. rewrite (bool_decide_false (_ < 1)%Z) by lia.
  rewrite app_nil_r. case_bool_decide; case_bool_decide; done || lia.
Qed.

(** A decoder that reads one key, for evaluation: [port: n] sets the port. *)
Definition example_yaml : Yaml :=
  {| yaml_decode s c := match has_prefix s "port: ", cut_byte " " s with
       | true, Some (_, v) => match atoi v with
                              | Some n => (set_Port n c, None)
                              | None => (c, Some (YamlError "not a number"))
                              end
       | _, _ => (c, Some YamlEOF)
       end |}.

Lemma loaded_server_bounds_witness :
  ∃ cfg, @ParseConfig example_yaml "port: -1" = Ok cfg ∧
    check_server (c_Server (ApplyOverrides cfg "" 70000 "")) =
      ["server.port must be between 1 and 65535, got 70000"].
Proof.
  eexists. split; [reflexivity|].
  rewrite (@loaded_server_bounds example_yaml "port: -1");
    reflexivity.
Defined.



Definition feedback_config : Config :=
  with_rules example_config [example_rule "echo" "orders" "order.exchange" "order.done"].

(** The one warning of a rule that answers into the queue it listens on, and about a
    file without rules. *)
Example feedback_warnings :
  @feedback_warning example_unicode 0
    (example_rule "echo" "orders" "order.exchange" "order.done")
    (example_queue "orders" [example_binding "order.exchange" "order.#"])
  ∈ @Warnings example_unicode feedback_config.
Proof. by vm_compute; right; left. Qed.
