(* ===== verification/Broker.v ===== *)
(** * The broker abstraction (pkg/broker/driver.go, pkg/broker/mock_driver.go)

    Messages, the [Driver] interface with what its clients rely on, and the
    in-memory driver as an implementation of it. *)
From S2P Require Import Prelude GoStrings GoValue Config.

Definition DirectionReceived : string := "received".
Definition DirectionPublished : string := "published".

(** A header table; a Go nil map reads as the empty one. *)
Abbreviation headers := (gmap string value).

Record Message := {
  m_Queue : string;
  m_RoutingKey : string;
  m_Headers : headers;
  m_Body : string;
  m_Direction : string;
  m_Exchange : string;
  m_Rule : string;
  m_MessageID : string;
}.

Definition set_Direction (d : string) (m : Message) : Message :=
  {| m_Queue := m_Queue m; m_RoutingKey := m_RoutingKey m; m_Headers := m_Headers m;
     m_Body := m_Body m; m_Direction := d; m_Exchange := m_Exchange m; m_Rule := m_Rule m;
     m_MessageID := m_MessageID m |}.

Record PublishedMessage := {
  p_Exchange : string;
  p_RoutingKey : string;
  p_Body : string;
  p_Headers : headers;
}.

(** ** The interface

    The operations of [broker.Driver] on a driver state [D].  A Go channel is
    named by a number.  The result is Go's [error], [None] for nil. *)
Class Driver (D : Type) := {
  Connect : string → D → option string * D;
  DeclareTopology : Declarations → D → option string * D;
  StartConsuming : string → nat → D → option string * D;
  Publish : string → string → string → headers → D → option string * D;
  Close : D → option string * D;
}.

(** What clients rely on: the log of messages handed to the broker grows by the
    message of a successful [Publish] and by nothing else, and [Close] can be
    called again. *)
Class DriverSpec (D : Type) `{Driver D} := {
  published : D → list PublishedMessage;
  published_publish e k b h d :
    published (Publish e k b h d).2 =
    published d ++ match (Publish e k b h d).1 with
                   | None => [{| p_Exchange := e; p_RoutingKey := k; p_Body := b;
                                 p_Headers := h |}]
                   | Some _ => []
                   end;
  published_declare t d : published (DeclareTopology t d).2 = published d;
  published_consume q ch d : published (StartConsuming q ch d).2 = published d;
  published_close d : published (Close d).2 = published d;
  close_again d : Close (Close d).2 = (None, (Close d).2);
}.

(** ** MockDriver *)

Record MockDriver := {
  md_Connected : bool;
  md_URL : string;
  md_Topology : option Declarations;
  md_Consumers : gmap string nat;
  md_Published : list PublishedMessage;
  md_Closed : bool;
  md_PublishHook : option (string → string → string → headers → option string);
  md_done_closed : bool;
}.

Definition NewMockDriver : MockDriver :=
  {| md_Connected := false; md_URL := ""; md_Topology := None; md_Consumers := ∅;
     md_Published := []; md_Closed := false; md_PublishHook := None;
     md_done_closed := false |}.

Definition mock_Connect (rawURL : string) (m : MockDriver) : option string * MockDriver :=
  (None, {| md_Connected := true; md_URL := rawURL; md_Topology := md_Topology m;
            md_Consumers := md_Consumers m; md_Published := md_Published m;
            md_Closed := md_Closed m; md_PublishHook := md_PublishHook m;
            md_done_closed := md_done_closed m |}).

Definition mock_DeclareTopology (t : Declarations) (m : MockDriver)
    : option string * MockDriver :=
  (None, {| md_Connected := md_Connected m; md_URL := md_URL m; md_Topology := Some t;
            md_Consumers := md_Consumers m; md_Published := md_Published m;
            md_Closed := md_Closed m; md_PublishHook := md_PublishHook m;
            md_done_closed := md_done_closed m |}).

Definition mock_StartConsuming (queue : string) (ch : nat) (m : MockDriver)
    : option string * MockDriver :=
  (None, {| md_Connected := md_Connected m; md_URL := md_URL m;
            md_Topology := md_Topology m;
            md_Consumers := <[queue := ch]> (md_Consumers m);
            md_Published := md_Published m; md_Closed := md_Closed m;
            md_PublishHook := md_PublishHook m; md_done_closed := md_done_closed m |}).

Definition mock_Publish (exchange routingKey body : string) (h : headers) (m : MockDriver)
    : option string * MockDriver :=
  match md_PublishHook m with
  | Some hook =>
    match hook exchange routingKey body h with
    | Some err => (Some err, m)
    | None => (None, {| md_Connected := md_Connected m; md_URL := md_URL m;
        md_Topology := md_Topology m; md_Consumers := md_Consumers m;
        md_Published := md_Published m ++
          [{| p_Exchange := exchange; p_RoutingKey := routingKey; p_Body := body;
              p_Headers := h |}];
        md_Closed := md_Closed m; md_PublishHook := md_PublishHook m;
        md_done_closed := md_done_closed m |})
    end
  | None => (None, {| md_Connected := md_Connected m; md_URL := md_URL m;
        md_Topology := md_Topology m; md_Consumers := md_Consumers m;
        md_Published := md_Published m ++
          [{| p_Exchange := exchange; p_RoutingKey := routingKey; p_Body := body;
              p_Headers := h |}];
        md_Closed := md_Closed m; md_PublishHook := md_PublishHook m;
        md_done_closed := md_done_closed m |})
  end.

(** Closing [done] a second time would panic; the panic is an error here. *)
Definition mock_Close (m : MockDriver) : option string * MockDriver :=
  if md_Closed m then (None, m)
  else
    (if md_done_closed m then Some "panic: close of closed channel" else None,
     {| md_Connected := md_Connected m; md_URL := md_URL m;
        md_Topology := md_Topology m; md_Consumers := md_Consumers m;
        md_Published := md_Published m; md_Closed := true;
        md_PublishHook := md_PublishHook m; md_done_closed := true |}).

(** The first half of SimulateIncomingMessage: the channel and the message. *)
Definition simulate_message (queue routingKey body : string) (h : headers) : Message :=
  {| m_Queue := queue; m_RoutingKey := routingKey; m_Headers := h; m_Body := body;
     m_Direction := ""; m_Exchange := ""; m_Rule := ""; m_MessageID := "" |}.

Definition simulate_lookup `{Unicode} (queue : string) (m : MockDriver) : result string nat :=
  match md_Consumers m !! queue with
  | Some ch => Ok ch
  | None => Err ("no consumer registered for queue " +:+ quote queue)
  end.

(** Its second half is a select between sending and the driver being closed: each
    case is possible when it is ready, and the call blocks when none is. *)
Inductive simulate_select (capacity : nat) (m : MockDriver) (msg : Message)
    : list Message → option string → list Message → Prop :=
| simulate_sent buf :
    length buf < capacity → simulate_select capacity m msg buf None (buf ++ [msg])
| simulate_closed buf :
    md_done_closed m = true →
    simulate_select capacity m msg buf (Some "mock driver is closed") buf.

(** GetPublished copies the slice. *)
Definition mock_GetPublished (m : MockDriver) : list PublishedMessage := md_Published m.

#[export] Instance mock_driver : Driver MockDriver := {|
  Connect := mock_Connect;
  DeclareTopology := mock_DeclareTopology;
  StartConsuming := mock_StartConsuming;
  Publish := mock_Publish;
  Close := mock_Close;
|}.

#[export] Program Instance mock_driver_spec : DriverSpec MockDriver := {|
  published := mock_GetPublished;
|}.
Next Obligation.
  intros e k b h d. simpl. unfold mock_Publish, mock_GetPublished.
  destruct (md_PublishHook d) as [hook|]; [|done].
  destruct (hook e k b h); simpl; by rewrite ?app_nil_r.
Qed.
Next Obligation. done. Qed.
Next Obligation. done. Qed.
Next Obligation. intros d. simpl. unfold mock_Close. by destruct (md_Closed d). Qed.
Next Obligation.
  intros d. simpl. unfold mock_Close. by destruct (md_Closed d) eqn:Hc; simpl; rewrite ?Hc.
Qed.

(** ** The channel of a mock driver

    [done] is closed exactly when the driver is: no operation closes it twice. *)
Definition mock_wf (m : MockDriver) : Prop := md_done_closed m = md_Closed m.

Inductive mock_reachable : MockDriver → Prop :=
| mock_new : mock_reachable NewMockDriver
| mock_connect u m : mock_reachable m → mock_reachable (mock_Connect u m).2
| mock_declare t m : mock_reachable m → mock_reachable (mock_DeclareTopology t m).2
| mock_consume q ch m : mock_reachable m → mock_reachable (mock_StartConsuming q ch m).2
| mock_publish e k b h m : mock_reachable m → mock_reachable (mock_Publish e k b h m).2
| mock_close m : mock_reachable m → mock_reachable (mock_Close m).2.

Lemma mock_reachable_wf m : mock_reachable m → mock_wf m.
Proof.
  unfold mock_wf.
  induction 1 as [|u m _ IH|t m _ IH|q ch m _ IH|e k b h m _ IH|m _ IH]; simpl; try done.
  - unfold mock_Publish. destruct (md_PublishHook m) as [hook|]; [destruct (hook e k b h)|];
      simpl; done.
  - unfold mock_Close. by destruct (md_Closed m) eqn:Hc; simpl; rewrite ?Hc.
Qed.

(** ** Properties *)

(** The mock driver's Close never panics, marks the driver closed and
    releases every blocked SimulateIncomingMessage: on a reachable driver it
    returns nil, and afterwards a simulated message can always finish, whatever
    the state of the consumer's channel. *)
Theorem mock_close_releases m capacity msg buf :
  mock_reachable m →
  (mock_Close m).1 = None ∧ md_Closed (mock_Close m).2 = true ∧
  ∃ err buf', simulate_select capacity (mock_Close m).2 msg buf err buf'.
Proof.
  intros Hwf%mock_reachable_wf. unfold mock_wf in Hwf. unfold mock_Close.
  destruct (md_Closed m) eqn:Hc; rewrite ?Hwf; simpl; (split; [done|]); (split; [done|]);
    eexists _, _; by apply simulate_closed.
Qed.

Lemma mock_close_releases_witness :
  ∃ err buf', simulate_select 0 (mock_Close NewMockDriver).2
                (simulate_message "q" "k" "{}" ∅) [] err buf'.
Proof. apply mock_close_releases. constructor. Defined.
