(* ===== verification/Rabbit.v ===== *)
(** * The RabbitMQ driver (pkg/broker/rabbitmq.go)

    The driver over an AMQP client library, which is the class [Amqp]: its
    connections and channels are names, its effects are on a world [W]. The
    driver's state and operations, the consumer goroutines, and the driver as an
    implementation of the [Driver] interface. *)
From S2P Require Import Prelude GoStrings GoValue NetURL Config Broker.

(** ** The client library *)

(** [amqp.Publishing], the fields the driver sets; nil and empty header tables
    are the same. *)
Record Publishing := {
  pb_ContentType : string;
  pb_Body : string;
  pb_Headers : headers;
  pb_Timestamp : Z;
}.

(** [amqp.Delivery], the fields the driver reads. *)
Record Delivery := {
  dl_Headers : headers;
  dl_RoutingKey : string;
  dl_Body : string;
  dl_MessageId : string;
}.

(** The declaration calls on a channel. *)
Inductive amqp_call :=
| ExchangeDeclare (name type : string) (durable autoDelete internal noWait : bool) (args : headers)
| QueueDeclare (name : string) (durable autoDelete exclusive noWait : bool) (args : headers)
| QueueBind (name key exchange : string) (noWait : bool) (args : headers).

Class Amqp (W : Type) := {
  connection : Type;
  channel : Type;
  amqp_Dial : string → W → result string connection * W;
  conn_IsClosed : connection → W → bool;
  conn_Channel : connection → W → result string channel * W;
  conn_Close : connection → W → option string * W;
  ch_call : channel → amqp_call → W → option string * W;
  ch_Consume : channel → string → W → option string * W;
  ch_Publish : channel → string → string → Publishing → W → option string * W;
  ch_Close : channel → W → option string * W;
  amqp_now : W → Z;
}.

(** What a client may assume of publishing: there is a log of the messages handed
    over, which a successful publish extends and nothing else touches. *)
Class AmqpSpec (W : Type) `{Amqp W} := {
  sent : W → list PublishedMessage;
  sent_call c k w : sent (ch_call c k w).2 = sent w;
  sent_consume c q w : sent (ch_Consume c q w).2 = sent w;
  sent_close_channel c w : sent (ch_Close c w).2 = sent w;
  sent_close_conn c w : sent (conn_Close c w).2 = sent w;
  sent_publish c e k p w :
    sent (ch_Publish c e k p w).2 =
    sent w ++ match (ch_Publish c e k p w).1 with
              | None => [{| p_Exchange := e; p_RoutingKey := k; p_Body := pb_Body p;
                            p_Headers := pb_Headers p |}]
              | Some _ => []
              end;
}.

(** ** The driver *)

(** SanitizeURL *)
Definition SanitizeURL `{NetURL} (rawURL : string) : string :=
  match url_Parse rawURL with
  | Err _ => "[invalid url]"
  | Ok u =>
    match url_User u with
    | Some i => url_String (set_User u (UserPassword (ui_Username i) "xxxxx"))
    | None => url_String u
    end
  end.

(** [rd_cancelled]: the context was cancelled; [rd_consumers]: the count of the
    wait group. *)
Record RabbitMQDriver (W : Type) `{Amqp W} := {
  rd_conn : option connection;
  rd_channel : option channel;
  rd_closed : bool;
  rd_cancelled : bool;
  rd_consumers : nat;
  rd_world : W;
}.
Arguments rd_conn {W _} _. Arguments rd_channel {W _} _. Arguments rd_closed {W _} _.
Arguments rd_cancelled {W _} _. Arguments rd_consumers {W _} _. Arguments rd_world {W _} _.

Section driver.
Context `{Unicode, NetURL, Amqp W}.
Implicit Types r : RabbitMQDriver W.

Definition NewRabbitMQDriver (w : W) : RabbitMQDriver W :=
  {| rd_conn := None; rd_channel := None; rd_closed := false; rd_cancelled := false;
     rd_consumers := 0; rd_world := w |}.

Definition set_world (w : W) r : RabbitMQDriver W :=
  {| rd_conn := rd_conn r; rd_channel := rd_channel r; rd_closed := rd_closed r;
     rd_cancelled := rd_cancelled r; rd_consumers := rd_consumers r; rd_world := w |}.

Definition add_consumer r : RabbitMQDriver W :=
  {| rd_conn := rd_conn r; rd_channel := rd_channel r; rd_closed := rd_closed r;
     rd_cancelled := rd_cancelled r; rd_consumers := S (rd_consumers r);
     rd_world := rd_world r |}.

Definition not_connected : string := "rabbitmq driver is not connected".

(** [r.channel == nil || r.closed] *)
Definition usable r : option channel := if rd_closed r then None else rd_channel r.

Definition rabbit_Connect (amqpURL : string) r : option string * RabbitMQDriver W :=
  let connected := match rd_conn r with
                   | Some c => negb (conn_IsClosed c (rd_world r))
                   | None => false
                   end in
  if connected then (None, r)
  else
    match amqp_Dial amqpURL (rd_world r) with
    | (Err err, w) =>
      (Some ("failed to dial rabbitmq at " +:+ SanitizeURL amqpURL +:+ ": " +:+ err),
       set_world w r)
    | (Ok conn, w) =>
      match conn_Channel conn w with
      | (Err err, w') =>
        (Some ("failed to open rabbitmq channel: " +:+ err), set_world (conn_Close conn w').2 r)
      | (Ok ch, w') =>
        (None, {| rd_conn := Some conn; rd_channel := Some ch; rd_closed := false;
                  rd_cancelled := rd_cancelled r; rd_consumers := rd_consumers r;
                  rd_world := w' |})
      end
    end.

(** One declaration call, with the error the driver reports for it. *)
Definition declare_call (ch : channel) (call : amqp_call) (describe : string) (w : W)
    : option string * W :=
  match ch_call ch call w with
  | (Some err, w') => (Some (describe +:+ ": " +:+ err), w')
  | (None, w') => (None, w')
  end.

Definition exchange_call (ex : ExchangeDeclaration) : amqp_call :=
  ExchangeDeclare (ex_Name ex) (if bool_decide (ex_Type ex = "") then "direct" else ex_Type ex)
    (ex_Durable ex) (ex_AutoDelete ex) (ex_Internal ex) (ex_NoWait ex) (ex_Args ex).

Fixpoint declare_exchanges (ch : channel) (l : list ExchangeDeclaration) (w : W)
    : option string * W :=
  match l with
  | [] => (None, w)
  | ex :: l' =>
    match declare_call ch (exchange_call ex)
            ("failed to declare exchange " +:+ quote (ex_Name ex)) w with
    | (Some err, w') => (Some err, w')
    | (None, w') => declare_exchanges ch l' w'
    end
  end.

Definition bind_error (q : QueueDeclaration) (b : QueueBinding) : string :=
  "failed to bind queue " +:+ quote (qd_Name q) +:+ " to exchange " +:+ quote (qb_Exchange b)
    +:+ " with routing key " +:+ quote (qb_RoutingKey b).

Definition binding_call (q : QueueDeclaration) (b : QueueBinding) : amqp_call :=
  QueueBind (qd_Name q) (qb_RoutingKey b) (qb_Exchange b) (qb_NoWait b) (qb_Args b).

Fixpoint declare_bindings (ch : channel) (q : QueueDeclaration) (l : list QueueBinding) (w : W)
    : option string * W :=
  match l with
  | [] => (None, w)
  | b :: l' =>
    match declare_call ch (binding_call q b) (bind_error q b) w with
    | (Some err, w') => (Some err, w')
    | (None, w') => declare_bindings ch q l' w'
    end
  end.

Definition queue_call (q : QueueDeclaration) : amqp_call :=
  QueueDeclare (qd_Name q) (qd_Durable q) (qd_AutoDelete q) (qd_Exclusive q) (qd_NoWait q)
    (qd_Args q).

Fixpoint declare_queues (ch : channel) (l : list QueueDeclaration) (w : W) : option string * W :=
  match l with
  | [] => (None, w)
  | q :: l' =>
    match declare_call ch (queue_call q) ("failed to declare queue " +:+ quote (qd_Name q)) w with
    | (Some err, w') => (Some err, w')
    | (None, w') =>
      match declare_bindings ch q (qd_Bindings q) w' with
      | (Some err, w'') => (Some err, w'')
      | (None, w'') => declare_queues ch l' w''
      end
    end
  end.

(** The pointer the engine passes is never nil. *)
Definition rabbit_DeclareTopology (d : Declarations) r : option string * RabbitMQDriver W :=
  match usable r with
  | None => (Some not_connected, r)
  | Some ch =>
    match declare_exchanges ch (d_Exchanges d) (rd_world r) with
    | (Some err, w) => (Some err, set_world w r)
    | (None, w) =>
      let '(err, w') := declare_queues ch (d_Queues d) w in (err, set_world w' r)
    end
  end.

(** The consumer goroutine it starts is the step relation below. *)
Definition rabbit_StartConsuming (queue : string) (messageChan : nat) r
    : option string * RabbitMQDriver W :=
  match usable r with
  | None => (Some not_connected, r)
  | Some ch =>
    match ch_Consume ch queue (rd_world r) with
    | (Some err, w) =>
      (Some ("failed to register consumer for queue " +:+ quote queue +:+ ": " +:+ err),
       set_world w r)
    | (None, w) => (None, add_consumer (set_world w r))
    end
  end.

Definition rabbit_Publish (exchange routingKey body : string) (h : headers) r
    : option string * RabbitMQDriver W :=
  match usable r with
  | None => (Some not_connected, r)
  | Some ch =>
    match ch_Publish ch exchange routingKey
            {| pb_ContentType := "application/json"; pb_Body := body; pb_Headers := h;
               pb_Timestamp := amqp_now (rd_world r) |} (rd_world r) with
    | (Some err, w) =>
      (Some ("failed to publish message to exchange " +:+ quote exchange +:+ " routing_key " +:+
             quote routingKey +:+ ": " +:+ err), set_world w r)
    | (None, w) => (None, set_world w r)
    end
  end.

(** Close up to its wait for the consumers. *)
Definition close_all r : option string * RabbitMQDriver W :=
  let '(e1, w1) := match rd_channel r with
                   | Some ch => ch_Close ch (rd_world r)
                   | None => (None, rd_world r)
                   end in
  let '(e2, w2) := match rd_conn r with Some c => conn_Close c w1 | None => (None, w1) end in
  (match e1 with Some e => Some e | None => e2 end,
   {| rd_conn := rd_conn r; rd_channel := rd_channel r; rd_closed := true;
      rd_cancelled := true; rd_consumers := rd_consumers r; rd_world := w2 |}).

Definition set_consumers (n : nat) r : RabbitMQDriver W :=
  {| rd_conn := rd_conn r; rd_channel := rd_channel r; rd_closed := rd_closed r;
     rd_cancelled := rd_cancelled r; rd_consumers := n; rd_world := rd_world r |}.

(** It returns when the consumers, cancelled, have all exited. *)
Definition rabbit_Close r : option string * RabbitMQDriver W :=
  if rd_closed r then (None, r)
  else let '(err, r') := close_all r in (err, set_consumers 0 r').

#[export] Instance rabbit_driver : Driver (RabbitMQDriver W) := {|
  Connect := rabbit_Connect;
  DeclareTopology := rabbit_DeclareTopology;
  StartConsuming := rabbit_StartConsuming;
  Publish := rabbit_Publish;
  Close := rabbit_Close;
|}.
End driver.

Lemma close_all_spec `{Amqp W} (r : RabbitMQDriver W) :
  let r' := (close_all r).2 in
  rd_closed r' = true ∧ rd_cancelled r' = true ∧ rd_consumers r' = rd_consumers r.
Proof.
  unfold close_all. cbv zeta.
  repeat match goal with |- context [let '(_, _) := ?x in _] => destruct x end. done.
Qed.

Lemma rabbit_Close_closed `{Amqp W} (r : RabbitMQDriver W) : rd_closed (rabbit_Close r).2 = true.
Proof.
  unfold rabbit_Close. destruct (rd_closed r) eqn:Hc; [done|].
  destruct (close_all_spec r) as [Hr _]. by destruct (close_all r).
Qed.

(** ** The consumer goroutine of StartConsuming

    It takes deliveries from the library's channel and sends messages to the
    channel it was given. *)

Definition message_of (queue : string) (d : Delivery) : Message :=
  {| m_Queue := queue; m_RoutingKey := dl_RoutingKey d; m_Headers := dl_Headers d;
     m_Body := dl_Body d; m_Direction := DirectionReceived; m_Exchange := ""; m_Rule := "";
     m_MessageID := dl_MessageId d |}.

(** In the outer select, in the inner one with a message to send, returned. *)
Inductive consumer_pc := CSelect | CSend (m : Message) | CExit.

(** The deliveries that arrived so far and those not taken yet, whether the
    library closed its channel, whether the driver was closed, and the messages
    sent so far. *)
Record consumer := Consumer {
  cn_arrived : list Delivery;
  cn_pending : list Delivery;
  cn_closed : bool;
  cn_cancelled : bool;
  cn_pc : consumer_pc;
  cn_sent : list Message;
}.

Inductive consumer_step (queue : string) : consumer → consumer → Prop :=
| c_take a d p cl ca s :
    consumer_step queue (Consumer a (d :: p) cl ca CSelect s)
                        (Consumer a p cl ca (CSend (message_of queue d)) s)
| c_closed a ca s :
    consumer_step queue (Consumer a [] true ca CSelect s) (Consumer a [] true ca CExit s)
| c_cancelled a p cl pc s :
    pc ≠ CExit → consumer_step queue (Consumer a p cl true pc s) (Consumer a p cl true CExit s)
| c_send a p cl ca m s :
    consumer_step queue (Consumer a p cl ca (CSend m) s) (Consumer a p cl ca CSelect (s ++ [m])).

(** The library delivers and closes its channel; Close cancels the context. *)
Inductive delivery_step : consumer → consumer → Prop :=
| d_arrive a p d ca pc s :
    delivery_step (Consumer a p false ca pc s) (Consumer (a ++ [d]) (p ++ [d]) false ca pc s)
| d_close a p ca pc s :
    delivery_step (Consumer a p false ca pc s) (Consumer a p true ca pc s)
| d_cancel a p cl ca pc s :
    delivery_step (Consumer a p cl ca pc s) (Consumer a p cl true pc s).

Inductive consumer_reachable (queue : string) : consumer → Prop :=
| cr_start : consumer_reachable queue (Consumer [] [] false false CSelect [])
| cr_consumer c c' :
    consumer_reachable queue c → consumer_step queue c c' → consumer_reachable queue c'
| cr_delivery c c' :
    consumer_reachable queue c → delivery_step c c' → consumer_reachable queue c'.

Definition holding (pc : consumer_pc) : list Message :=
  match pc with CSend m => [m] | _ => [] end.

(** Nothing is lost, duplicated or reordered until the driver is closed. *)
Record consumer_inv (queue : string) (c : consumer) : Prop := {
  ci_running : cn_pc c ≠ CExit →
    map (message_of queue) (cn_arrived c) =
    cn_sent c ++ holding (cn_pc c) ++ map (message_of queue) (cn_pending c);
  ci_prefix : cn_sent c `prefix_of` map (message_of queue) (cn_arrived c);
  ci_exit : cn_pc c = CExit → cn_cancelled c = false →
    cn_closed c = true ∧ cn_sent c = map (message_of queue) (cn_arrived c);
}.

Lemma consumer_step_inv queue c c' :
  consumer_inv queue c → consumer_step queue c c' → consumer_inv queue c'.
Proof.
  intros [Hrun Hpre Hexit] Hstep. destruct Hstep; simpl in *.
  - split; simpl; [|done|done]. intros _. by rewrite Hrun.
  - split; simpl; [done|done|]. intros _ _. split; [done|].
    rewrite Hrun by done. by rewrite !app_nil_r.
  - split; simpl; [done|done|done].
  - split; simpl; [|by rewrite Hrun; [eexists; by rewrite <- app_assoc|]|done].
    intros _. by rewrite Hrun, <- app_assoc.
Qed.

Lemma delivery_step_inv queue c c' :
  consumer_inv queue c → delivery_step c c' → consumer_inv queue c'.
Proof.
  intros [Hrun Hpre Hexit] Hstep. destruct Hstep; simpl in *.
  - split; simpl.
    + intros Hpc. by rewrite !map_app, Hrun, <- !app_assoc.
    + rewrite map_app. by apply prefix_app_r.
    + intros Hpc Hca. by destruct (Hexit Hpc Hca).
  - split; simpl; [done|done|]. intros Hpc Hca. by destruct (Hexit Hpc Hca).
  - by split.
Qed.

Lemma consumer_reachable_inv queue c : consumer_reachable queue c → consumer_inv queue c.
Proof.
  induction 1; eauto using consumer_step_inv, delivery_step_inv.
  split; simpl; done.
Qed.

(** ** Properties *)

Section spec.
Context `{Unicode, NetURL, AmqpSpec W}.
Implicit Types r : RabbitMQDriver W.

Lemma declare_call_sent ch call what w : sent (declare_call ch call what w).2 = sent w.
Proof.
  unfold declare_call. pose proof (sent_call ch call w) as Hs.
  by destruct (ch_call ch call w) as [[] ?].
Qed.

Lemma declare_exchanges_sent ch l w : sent (declare_exchanges ch l w).2 = sent w.
Proof.
  revert w. induction l as [|ex l IH]; intros w; [done|]. cbn [declare_exchanges].
  pose proof (declare_call_sent ch (exchange_call ex)
    ("failed to declare exchange " +:+ quote (ex_Name ex)) w) as Hs.
  destruct (declare_call _ _ _ w) as [[err|] w']; simpl in *; [done|]. by rewrite IH.
Qed.

Lemma declare_bindings_sent ch q l w : sent (declare_bindings ch q l w).2 = sent w.
Proof.
  revert w. induction l as [|b l IH]; intros w; [done|]. cbn [declare_bindings].
  pose proof (declare_call_sent ch (binding_call q b) (bind_error q b) w) as Hs.
  destruct (declare_call _ _ _ w) as [[err|] w']; simpl in *; [done|]. by rewrite IH.
Qed.

Lemma declare_queues_sent ch l w : sent (declare_queues ch l w).2 = sent w.
Proof.
  revert w. induction l as [|q l IH]; intros w; [done|]. cbn [declare_queues].
  pose proof (declare_call_sent ch (queue_call q)
    ("failed to declare queue " +:+ quote (qd_Name q)) w) as Hs.
  destruct (declare_call _ _ _ w) as [[err|] w']; simpl in *; [done|].
  pose proof (declare_bindings_sent ch q (qd_Bindings q) w') as Hb.
  destruct (declare_bindings _ _ _ w') as [[err|] w'']; simpl in *; [congruence|].
  rewrite IH. congruence.
Qed.

(** The driver is an implementation of the interface the engine relies on. *)
#[export] Program Instance rabbit_driver_spec : DriverSpec (RabbitMQDriver W) := {|
  published r := sent (rd_world r);
|}.
Next Obligation.
  intros e k b h r. simpl. unfold rabbit_Publish.
  destruct (usable r) as [ch|]; [|simpl; by rewrite app_nil_r].
  set (p := {| pb_ContentType := _ |}). pose proof (sent_publish ch e k p (rd_world r)) as Hs.
  by destruct (ch_Publish ch e k p (rd_world r)) as [[err|] w].
Qed.
Next Obligation.
  intros t r. simpl. unfold rabbit_DeclareTopology. destruct (usable r) as [ch|]; [|done].
  pose proof (declare_exchanges_sent ch (d_Exchanges t) (rd_world r)) as He.
  destruct (declare_exchanges _ _ _) as [[err|] w]; simpl in *; [done|].
  pose proof (declare_queues_sent ch (d_Queues t) w) as Hq.
  destruct (declare_queues _ _ _) as [err w']; simpl in *. congruence.
Qed.
Next Obligation.
  intros q ch r. simpl. unfold rabbit_StartConsuming. destruct (usable r) as [c|]; [|done].
  pose proof (sent_consume c q (rd_world r)) as Hs.
  by destruct (ch_Consume c q (rd_world r)) as [[err|] w].
Qed.
Next Obligation.
  intros r. simpl. unfold rabbit_Close, close_all. destruct (rd_closed r); [done|].
  destruct (rd_channel r) as [ch|], (rd_conn r) as [c|];
    repeat match goal with
      | |- context [ch_Close ?c ?w] =>
        pose proof (sent_close_channel c w); destruct (ch_Close c w) as [? ?]
      | |- context [conn_Close ?c ?w] =>
        pose proof (sent_close_conn c w); destruct (conn_Close c w) as [? ?]
      end; simpl in *; congruence.
Qed.
Next Obligation.
  intros r. simpl. unfold rabbit_Close at 1. by rewrite rabbit_Close_closed.
Qed.
End spec.

Section topology.
Context `{Unicode, NetURL, Amqp W}.
Implicit Types r : RabbitMQDriver W.

(** The calls a topology asks for, with the texts their errors begin with: all
    exchanges first, then each queue followed by its own bindings. *)
Definition queue_plan (q : QueueDeclaration) : list (amqp_call * string) :=
  (queue_call q, "failed to declare queue " +:+ quote (qd_Name q)) ::
  map (λ b, (binding_call q b, bind_error q b)) (qd_Bindings q).

Definition topology_plan (d : Declarations) : list (amqp_call * string) :=
  map (λ ex, (exchange_call ex, "failed to declare exchange " +:+ quote (ex_Name ex)))
    (d_Exchanges d) ++ mjoin (queue_plan <$> d_Queues d).

(** Makes the calls in order until one fails. *)
Fixpoint run_plan (ch : channel) (l : list (amqp_call * string)) (w : W) : option string * W :=
  match l with
  | [] => (None, w)
  | (call, what) :: l' =>
    match declare_call ch call what w with
    | (Some err, w') => (Some err, w')
    | (None, w') => run_plan ch l' w'
    end
  end.

Lemma run_plan_app ch l k w :
  run_plan ch (l ++ k) w =
  match run_plan ch l w with (Some err, w') => (Some err, w') | (None, w') => run_plan ch k w' end.
Proof.
  revert w. induction l as [|[call what] l IH]; intros w; [done|]. cbn [run_plan app].
  by destruct (declare_call ch call what w) as [[err|] w'].
Qed.

Lemma declare_exchanges_plan ch l w :
  declare_exchanges ch l w =
  run_plan ch (map (λ ex, (exchange_call ex,
                "failed to declare exchange " +:+ quote (ex_Name ex))) l) w.
Proof.
  revert w. induction l as [|ex l IH]; intros w; [done|]. cbn [declare_exchanges run_plan map].
  by destruct (declare_call _ _ _ w) as [[err|] w'].
Qed.

Lemma declare_bindings_plan ch q l w :
  declare_bindings ch q l w = run_plan ch (map (λ b, (binding_call q b, bind_error q b)) l) w.
Proof.
  revert w. induction l as [|b l IH]; intros w; [done|]. cbn [declare_bindings run_plan map].
  by destruct (declare_call _ _ _ w) as [[err|] w'].
Qed.

Lemma declare_queues_plan ch l w :
  declare_queues ch l w = run_plan ch (mjoin (queue_plan <$> l)) w.
Proof.
  revert w. induction l as [|q l IH]; intros w; [done|]. cbn [declare_queues].
  change (mjoin (queue_plan <$> q :: l)) with (queue_plan q ++ mjoin (queue_plan <$> l)).
  rewrite run_plan_app. unfold queue_plan at 1. cbn [run_plan].
  destruct (declare_call _ _ _ w) as [[err|] w']; [done|].
  rewrite <- declare_bindings_plan. by destruct (declare_bindings _ _ _ w') as [[err|] w''].
Qed.
End topology.

(** C35: DeclareTopology makes one call per exchange, queue and binding: all
    exchanges first (a missing type meaning direct), then each queue directly
    followed by its own bindings; it stops at the first call that fails, with an
    error that names what failed, and a driver without an open channel makes no
    call at all. *)
Theorem DeclareTopology_plan `{Unicode, NetURL, Amqp W} d (r : RabbitMQDriver W) :
  rabbit_DeclareTopology d r =
  match usable r with
  | None => (Some not_connected, r)
  | Some ch => let '(err, w) := run_plan ch (topology_plan d) (rd_world r) in (err, set_world w r)
  end.
Proof.
  unfold rabbit_DeclareTopology, topology_plan. destruct (usable r) as [ch|]; [|done].
  rewrite run_plan_app, declare_exchanges_plan.
  destruct (run_plan ch (map _ _) _) as [[err|] w]; [done|]. by rewrite declare_queues_plan.
Qed.

(** Close releases the driver for good: afterwards every operation but
    Connect fails with no call to the broker, a second Close returns nil with no
    call, no consumer is left, and the error returned is the channel's or else the
    connection's. *)
Theorem rabbit_Close_final `{Unicode, NetURL, Amqp W} (r : RabbitMQDriver W) :
  let r' := (rabbit_Close r).2 in
  rd_closed r' = true ∧
  (∀ d, rabbit_DeclareTopology d r' = (Some not_connected, r')) ∧
  (∀ q ch, rabbit_StartConsuming q ch r' = (Some not_connected, r')) ∧
  (∀ e k b h, rabbit_Publish e k b h r' = (Some not_connected, r')) ∧
  rabbit_Close r' = (None, r') ∧
  (rd_closed r = false → rd_cancelled r' = true ∧ rd_consumers r' = 0 ∧
    ∀ ch c, rd_channel r = Some ch → rd_conn r = Some c →
      (rabbit_Close r).1 =
        match (ch_Close ch (rd_world r)).1 with
        | Some e => Some e
        | None => (conn_Close c (ch_Close ch (rd_world r)).2).1
        end).
Proof.
  assert (∀ r' : RabbitMQDriver W, rd_closed r' = true → usable r' = None) as Hu.
  { intros r' Hc. unfold usable. by rewrite Hc. }
  pose proof (rabbit_Close_closed r) as Hclosed.
  cbv zeta. split_and!; [done| | | | |].
  - intros d. unfold rabbit_DeclareTopology. by rewrite Hu.
  - intros q ch. unfold rabbit_StartConsuming. by rewrite Hu.
  - intros e k b h. unfold rabbit_Publish. by rewrite Hu.
  - unfold rabbit_Close at 1. by rewrite Hclosed.
  - intros Hc. unfold rabbit_Close. rewrite Hc.
    destruct (close_all_spec r) as (_ & Hca & _). split_and!.
    + by destruct (close_all r).
    + by destruct (close_all r).
    + intros ch c Hch Hconn. unfold close_all. rewrite Hch, Hconn. destruct (ch_Close ch (rd_world r)) as [e1 w1]. simpl.
      by destruct (conn_Close c w1) as [e2 w2].
Qed.

(** What the driver logs of a broker URL does not depend on the password: two
    URLs that parse to the same user, host and path print the same, whatever their
    passwords, and a URL that does not parse is not shown at all. *)
Theorem SanitizeURL_hides_password `{NetURL} raw1 raw2 u1 u2 i1 i2 :
  url_Parse raw1 = Ok u1 → url_Parse raw2 = Ok u2 →
  url_User u1 = Some i1 → url_User u2 = Some i2 →
  ui_Username i1 = ui_Username i2 → url_Scheme u1 = url_Scheme u2 → url_rest u1 = url_rest u2 →
  SanitizeURL raw1 = SanitizeURL raw2.
Proof.
  intros H1 H2 Hi1 Hi2 Hn Hs Hr. unfold SanitizeURL. rewrite H1, H2, Hi1, Hi2.
  unfold set_User. by rewrite Hn, Hs, Hr.
Qed.

(** A toy grammar for evaluation: the text is the password. *)
Definition password_url : NetURL := {|
  url_Parse s := Ok {| url_Scheme := "amqp"; url_rest := "host";
                       url_User := Some {| ui_Username := "guest"; ui_Password := Some s |} |};
  url_String u := url_Scheme u +:+ "://" +:+
    match url_User u with
    | Some i => ui_Username i +:+ ":" +:+ default "" (ui_Password i) +:+ "@"
    | None => ""
    end +:+ url_rest u;
|}.

Lemma SanitizeURL_hides_password_witness :
  @SanitizeURL password_url "secret" = @SanitizeURL password_url "s3cret".
Proof. by eapply (@SanitizeURL_hides_password password_url). Defined.

(** A consumer forwards the deliveries of its queue: each becomes one
    received message with the delivery's key, headers, body and id; they are sent
    in order and none is lost or sent twice while the consumer runs; it returns by
    itself only when the library closed its channel and everything was sent; once
    the driver is closed it can always return at once, and after it has returned
    it sends nothing. *)
Theorem consumer_correct queue c :
  consumer_reachable queue c →
  cn_sent c `prefix_of` map (message_of queue) (cn_arrived c) ∧
  (cn_pc c ≠ CExit →
     map (message_of queue) (cn_arrived c) =
     cn_sent c ++ holding (cn_pc c) ++ map (message_of queue) (cn_pending c) ∧
     (cn_cancelled c = true → ∃ c', consumer_step queue c c' ∧ cn_pc c' = CExit ∧
                                    cn_sent c' = cn_sent c)) ∧
  (cn_pc c = CExit → (∀ c', ¬ consumer_step queue c c') ∧
     (cn_cancelled c = false →
        cn_closed c = true ∧ cn_sent c = map (message_of queue) (cn_arrived c))).
Proof.
  intros [Hrun Hpre Hexit]%consumer_reachable_inv. split_and!; [done| |].
  - intros Hpc. split; [by apply Hrun|]. intros Hca. destruct c as [a p cl ca pc s]; simpl in *.
    subst ca. eexists. by split; [apply c_cancelled|].
  - intros Hpc. split; [|by apply Hexit]. intros c' Hstep. by destruct Hstep; simpl in *.
Qed.

Definition example_delivery : Delivery :=
  {| dl_Headers := ∅; dl_RoutingKey := "k"; dl_Body := "{}"; dl_MessageId := "1" |}.

Lemma consumer_correct_witness :
  [message_of "q" example_delivery] `prefix_of` map (message_of "q") [example_delivery].
Proof.
  apply (consumer_correct "q" (Consumer [example_delivery] [] false false CSelect
           [message_of "q" example_delivery])).
  eapply cr_consumer; [|apply (c_send _ _ _ _ _ (message_of "q" example_delivery) [])].
  eapply cr_consumer; [|apply c_take].
  eapply cr_delivery; [apply cr_start|apply (d_arrive [] [])].
Defined.
