(* ===== verification/Consumers.v ===== *)
(** * The RabbitMQ driver with its consumers (pkg/broker/rabbitmq.go)

    The driver, the goroutines its StartConsuming started and a Close in progress,
    as one step relation over [Rabbit].  Connect, DeclareTopology, StartConsuming and
    Publish hold the driver's mutex throughout, and Close from its beginning until
    its wait is over; the consumers use none of it.  What the wait group counts,
    what Close waits for and what it guarantees when it returns are theorems
    here; the function [rabbit_Close] is what the steps compute. *)
From S2P Require Import Prelude GoStrings NetURL Config Broker Rabbit.

(** The call of Close that holds the mutex: waiting for the consumers with the error
    it will return, or none. *)
Inductive close_call := NoClose | CloseWaits (err : option string).

(** The consumers are those ever started, each with its queue. *)
Record rabbit_sys (W : Type) `{Amqp W} := RSys {
  rs_driver : RabbitMQDriver W;
  rs_consumers : list (string * consumer);
  rs_close : close_call;
}.
Arguments RSys {W _}. Arguments rs_driver {W _}. Arguments rs_consumers {W _}.
Arguments rs_close {W _}.

(** A consumer as StartConsuming leaves it: the context is the driver's. *)
Definition new_consumer (cancelled : bool) : consumer := Consumer [] [] false cancelled CSelect [].

(** Every consumer watches the context that Close cancels. *)
Definition cancel (c : consumer) : consumer :=
  Consumer (cn_arrived c) (cn_pending c) (cn_closed c) true (cn_pc c) (cn_sent c).

#[export] Instance consumer_pc_exit_dec pc : Decision (pc = CExit).
Proof. destruct pc; [right|right|left]; done. Defined.

Definition live (qc : string * consumer) : Prop := cn_pc qc.2 ≠ CExit.
#[export] Instance live_dec qc : Decision (live qc).
Proof. unfold live. apply _. Defined.

(** [defer r.consumers.Done()] *)
Definition after_step {W} `{Amqp W} (c : consumer) (r : RabbitMQDriver W) : RabbitMQDriver W :=
  if decide (cn_pc c = CExit) then set_consumers (pred (rd_consumers r)) r else r.

Section system.
Context `{Unicode, NetURL, Amqp W}.
Implicit Types (r : RabbitMQDriver W) (l : list (string * consumer)) (s : rabbit_sys W).

(** The consumers' own steps. *)
Inductive consumers_step : rabbit_sys W → rabbit_sys W → Prop :=
| rs_consumer i q c c' r l cl :
    l !! i = Some (q, c) → consumer_step q c c' →
    consumers_step (RSys r l cl) (RSys (after_step c' r) (<[i := (q, c')]> l) cl).

Inductive rabbit_step : rabbit_sys W → rabbit_sys W → Prop :=
| rs_consumers_step s s' : consumers_step s s' → rabbit_step s s'
| rs_connect url r l : rabbit_step (RSys r l NoClose) (RSys (rabbit_Connect url r).2 l NoClose)
| rs_declare t r l :
    rabbit_step (RSys r l NoClose) (RSys (rabbit_DeclareTopology t r).2 l NoClose)
| rs_publish e k b h r l :
    rabbit_step (RSys r l NoClose) (RSys (rabbit_Publish e k b h r).2 l NoClose)
| rs_refused q ch err r r' l :
    rabbit_StartConsuming q ch r = (Some err, r') →
    rabbit_step (RSys r l NoClose) (RSys r' l NoClose)
| rs_consume q ch r r' l :
    rabbit_StartConsuming q ch r = (None, r') →
    rabbit_step (RSys r l NoClose) (RSys r' (l ++ [(q, new_consumer (rd_cancelled r))]) NoClose)
| rs_library i q c c' r l cl :
    l !! i = Some (q, c) → delivery_step c c' → cn_cancelled c' = cn_cancelled c →
    rabbit_step (RSys r l cl) (RSys r (<[i := (q, c')]> l) cl)
| rs_close_begin err r r' l :
    rd_closed r = false → close_all r = (err, r') →
    rabbit_step (RSys r l NoClose) (RSys r' (prod_map id cancel <$> l) (CloseWaits err))
| rs_close_end err r l :
    rd_consumers r = 0 → rabbit_step (RSys r l (CloseWaits err)) (RSys r l NoClose).

Inductive rabbit_reachable (w : W) : rabbit_sys W → Prop :=
| rr_start : rabbit_reachable w (RSys (NewRabbitMQDriver w) [] NoClose)
| rr_step s s' : rabbit_reachable w s → rabbit_step s s' → rabbit_reachable w s'.

(** ** The invariant *)

Definition live_count l : nat := length (filter live l).

(** A consumer of the system is a consumer as [Rabbit] has it, with the driver's
    context. *)
Definition consumer_ok (cancelled : bool) (qc : string * consumer) : Prop :=
  consumer_reachable qc.1 qc.2 ∧ cn_cancelled qc.2 = cancelled.

Record rabbit_inv s : Prop := {
  ri_count : rd_consumers (rs_driver s) = live_count (rs_consumers s);
  ri_each : Forall (consumer_ok (rd_cancelled (rs_driver s))) (rs_consumers s);
  ri_closing : ∀ err, rs_close s = CloseWaits err → rd_closed (rs_driver s) = true;
  ri_closed : rd_closed (rs_driver s) = true → rd_cancelled (rs_driver s) = true;
  ri_stopped : rs_close s = NoClose → rd_closed (rs_driver s) = true →
    live_count (rs_consumers s) = 0;
}.

Lemma live_count_app l l' : live_count (l ++ l') = live_count l + live_count l'.
Proof. unfold live_count. by rewrite filter_app, length_app. Qed.

Lemma live_count_cons q c l :
  live_count ((q, c) :: l) = (if decide (cn_pc c = CExit) then 0 else 1) + live_count l.
Proof.
  unfold live_count. rewrite filter_cons.
  destruct (decide (live (q, c))) as [Hl|Hl], (decide (cn_pc c = CExit)) as [He|He]; try done.
Qed.

(** One consumer changes. *)
Lemma live_count_insert l i q c c' :
  l !! i = Some (q, c) →
  live_count (<[i := (q, c')]> l) + (if decide (cn_pc c = CExit) then 0 else 1) =
  live_count l + (if decide (cn_pc c' = CExit) then 0 else 1).
Proof.
  intros Hi. rewrite <- (take_drop_middle l i (q, c)) at 2 by done.
  rewrite insert_take_drop by by eapply lookup_lt_Some.
  rewrite !live_count_app, !live_count_cons. lia.
Qed.

Lemma live_count_cancel l : live_count (prod_map id cancel <$> l) = live_count l.
Proof.
  induction l as [|[q c] l IH]; [done|]. cbn [fmap list_fmap prod_map fst snd].
  rewrite !live_count_cons. simpl. lia.
Qed.

Lemma live_count_zero l : live_count l = 0 ↔ ∀ qc, qc ∈ l → cn_pc qc.2 = CExit.
Proof.
  unfold live_count. rewrite length_zero_iff_nil. split.
  - intros Hf qc Hin. destruct (decide (cn_pc qc.2 = CExit)) as [|Hne]; [done|].
    assert (qc ∈ filter live l) as Hq by by apply list_elem_of_filter.
    rewrite Hf in Hq. by apply elem_of_nil in Hq.
  - intros Hall. destruct (filter live l) as [|qc k] eqn:Hf; [done|].
    assert (qc ∈ filter live l) as [Hl Hin]%list_elem_of_filter by (rewrite Hf; by left).
    by destruct Hl; apply Hall.
Qed.

(** The calls that start no consumer keep the wait group and the context, and a
    driver that they leave closed was closed. *)
Definition keeps r r' : Prop :=
  rd_consumers r' = rd_consumers r ∧ rd_cancelled r' = rd_cancelled r ∧
  (rd_closed r' = true → rd_closed r = true).

Lemma connect_keeps url r : keeps r (rabbit_Connect url r).2.
Proof.
  unfold keeps, rabbit_Connect.
  destruct (match rd_conn r with Some _ => _ | None => _ end); [done|].
  destruct (amqp_Dial url (rd_world r)) as [[conn|err] w]; [|done].
  by destruct (conn_Channel conn w) as [[ch|err] w'].
Qed.

Lemma declare_keeps t r : keeps r (rabbit_DeclareTopology t r).2.
Proof.
  unfold keeps, rabbit_DeclareTopology. destruct (usable r) as [ch|]; [|done].
  destruct (declare_exchanges ch (d_Exchanges t) (rd_world r)) as [[err|] w]; [done|].
  by destruct (declare_queues ch (d_Queues t) w).
Qed.

Lemma publish_keeps e k b h r : keeps r (rabbit_Publish e k b h r).2.
Proof.
  unfold keeps, rabbit_Publish. destruct (usable r) as [ch|]; [|done].
  by destruct (ch_Publish ch e k _ (rd_world r)) as [[err|] w].
Qed.

Lemma refused_keeps q ch err r r' : rabbit_StartConsuming q ch r = (Some err, r') → keeps r r'.
Proof.
  unfold keeps, rabbit_StartConsuming. destruct (usable r) as [c|]; [|by intros [= _ <-]].
  destruct (ch_Consume c q (rd_world r)) as [[e|] w]; [by intros [= _ <-]|done].
Qed.

Lemma StartConsuming_ok q ch r r' :
  rabbit_StartConsuming q ch r = (None, r') →
  rd_closed r = false ∧ rd_consumers r' = S (rd_consumers r) ∧
  rd_cancelled r' = rd_cancelled r ∧ rd_closed r' = rd_closed r.
Proof.
  unfold rabbit_StartConsuming, usable.
  destruct (rd_closed r) eqn:Hcl; [done|]. destruct (rd_channel r) as [c|]; [|done].
  destruct (ch_Consume c q (rd_world r)) as [[e|] w]; [done|]. by intros [= <-].
Qed.

(** A new consumer, with the context cancelled already or not. *)
Lemma new_consumer_reachable q cancelled : consumer_reachable q (new_consumer cancelled).
Proof.
  destruct cancelled; [|apply cr_start].
  eapply cr_delivery; [apply cr_start|apply d_cancel].
Qed.

Lemma cancel_reachable q c : consumer_reachable q c → consumer_reachable q (cancel c).
Proof. intros Hc. destruct c. eapply cr_delivery; [done|apply d_cancel]. Qed.

Lemma consumer_step_cancelled q c c' : consumer_step q c c' → cn_cancelled c' = cn_cancelled c.
Proof. by destruct 1. Qed.
Lemma consumer_step_running q c c' : consumer_step q c c' → cn_pc c ≠ CExit.
Proof. by destruct 1. Qed.
Lemma delivery_step_pc c c' : delivery_step c c' → cn_pc c' = cn_pc c.
Proof. by destruct 1. Qed.

Lemma keeps_inv r r' l :
  keeps r r' → rabbit_inv (RSys r l NoClose) → rabbit_inv (RSys r' l NoClose).
Proof.
  intros (Hn & Hca & Hcl) [Hcount Heach _ Hcan Hstop].
  split; simpl in *; rewrite ?Hca; [congruence|done|done|auto|auto].
Qed.

Lemma after_step_fields c r :
  rd_cancelled (after_step c r) = rd_cancelled r ∧ rd_closed (after_step c r) = rd_closed r ∧
  rd_consumers (after_step c r) + (if decide (cn_pc c = CExit) then 1 else 0) =
  if decide (cn_pc c = CExit) then S (pred (rd_consumers r)) else rd_consumers r.
Proof. unfold after_step. destruct (decide _); simpl; split_and!; try done; lia. Qed.

Lemma consumers_step_inv s s' : rabbit_inv s → consumers_step s s' → rabbit_inv s'.
Proof.
  intros [Hcount Heach Hclosing Hcan Hstop] Hstep.
  destruct Hstep as [i q c c' r l cl Hi Hstep]; simpl in *.
  destruct (after_step_fields c' r) as (Hca & Hcl & Hn).
  pose proof (live_count_insert l i q c c' Hi) as Hlive.
  rewrite (decide_False (P := cn_pc c = CExit)) in Hlive by by eapply consumer_step_running.
  destruct (proj1 (Forall_lookup _ _) Heach i (q, c) Hi) as [Hr Hc]; simpl in *.
  split; simpl.
  - destruct (decide (cn_pc c' = CExit)); lia.
  - rewrite Hca. apply Forall_insert; [done|]. split; simpl; [by eapply cr_consumer|].
    by rewrite (consumer_step_cancelled q c c').
  - by rewrite Hcl.
  - by rewrite Hca, Hcl.
  - rewrite Hcl. intros Hno Hclosed. specialize (Hstop Hno Hclosed).
    destruct (decide (cn_pc c' = CExit)); lia.
Qed.

Lemma rabbit_step_inv s s' : rabbit_inv s → rabbit_step s s' → rabbit_inv s'.
Proof.
  intros Hinv Hstep.
  destruct Hstep as [s s' Hstep|url r l|t r l|e k b h r l|q ch err r r' l Hs|q ch r r' l Hs
                    |i q c c' r l cl Hi Hd Hca|err r r' l Hcl Ha|err r l Hn].
  - by eapply consumers_step_inv.
  - by eapply keeps_inv, Hinv; apply connect_keeps.
  - by eapply keeps_inv, Hinv; apply declare_keeps.
  - by eapply keeps_inv, Hinv; apply publish_keeps.
  - by eapply keeps_inv, Hinv; eapply refused_keeps.
  - apply StartConsuming_ok in Hs as (Hcl & Hn & Hca & Hcl').
    destruct Hinv as [Hcount Heach _ _ _]. split; simpl in *; [| |done|congruence|congruence].
    + rewrite live_count_app, live_count_cons, Hn, Hcount. simpl. unfold live_count. simpl. lia.
    + rewrite Hca. apply Forall_app. split; [done|]. apply Forall_singleton.
      split; [apply new_consumer_reachable|done].
  - destruct Hinv as [Hcount Heach Hclosing Hcan Hstop].
    pose proof (live_count_insert l i q c c' Hi) as Hlive.
    rewrite (delivery_step_pc c c' Hd) in Hlive.
    destruct (proj1 (Forall_lookup _ _) Heach i (q, c) Hi) as [Hr Hc]; simpl in *.
    split; simpl; [lia| |done|done|].
    + apply Forall_insert; [done|]. split; simpl; [by eapply cr_delivery|congruence].
    + intros Hno Hclosed. specialize (Hstop Hno Hclosed). lia.
  - destruct (close_all_spec r) as (Hcl' & Hca & Hn). rewrite Ha in *. simpl in *.
    destruct Hinv as [Hcount Heach _ _ _]. split; simpl in *; [| |done|done|done].
    + rewrite live_count_cancel. congruence.
    + rewrite Hca. apply Forall_fmap. eapply Forall_impl; [done|].
      intros [q c] [Hr _]. split; simpl; [by apply cancel_reachable|done].
  - destruct Hinv as [Hcount Heach _ Hcan _]. split; simpl in *; [done|done|done|done|].
    intros _ _. congruence.
Qed.

Lemma rabbit_reachable_inv w s : rabbit_reachable w s → rabbit_inv s.
Proof.
  induction 1 as [|s s' _ IH Hstep]; [|by eapply rabbit_step_inv].
  split; simpl; [done|constructor|done|done|done].
Qed.

(** ** The end of the consumers *)

(** How many steps a consumer can still take by itself. *)
Definition steps_left (qc : string * consumer) : nat :=
  match cn_pc qc.2 with
  | CSelect => 2 * length (cn_pending qc.2) + 1
  | CSend _ => 2 * length (cn_pending qc.2) + 2
  | CExit => 0
  end.

Lemma consumer_step_left q c c' :
  consumer_step q c c' → steps_left (q, c') < steps_left (q, c).
Proof.
  unfold steps_left. destruct 1 as [| |a p cl [|m|] s Hpc|]; simpl; try lia. by destruct Hpc.
Qed.

Lemma consumers_step_left s s' :
  consumers_step s s' →
  sum_list_with steps_left (rs_consumers s') < sum_list_with steps_left (rs_consumers s).
Proof.
  destruct 1 as [i q c c' r l cl Hi Hstep]. cbn [rs_consumers].
  rewrite <- (take_drop_middle l i (q, c)) at 2 by done.
  rewrite insert_take_drop by by eapply lookup_lt_Some.
  rewrite !sum_list_with_app. simpl. pose proof (consumer_step_left q c c' Hstep). lia.
Qed.

Lemma consumers_step_sn s : sn consumers_step s.
Proof.
  induction (Nat.lt_wf_0_projected (λ s, sum_list_with steps_left (rs_consumers s)) s)
    as [s _ IH].
  constructor. intros s' Hstep. by apply IH, consumers_step_left.
Qed.

Lemma consumers_step_close s s' : consumers_step s s' → rs_close s' = rs_close s.
Proof. by destruct 1. Qed.

(** With the context cancelled only consumers that have returned are stuck. *)
Lemma consumers_stuck s :
  rabbit_inv s → rd_cancelled (rs_driver s) = true → nf consumers_step s →
  rd_consumers (rs_driver s) = 0.
Proof.
  intros [Hcount Heach _ _ _] Hca Hnf. rewrite Hcount. apply live_count_zero.
  intros [q c] [i Hi]%list_elem_of_lookup. simpl.
  destruct (decide (cn_pc c = CExit)) as [|Hne]; [done|]. destruct Hnf.
  destruct (proj1 (Forall_lookup _ _) Heach i (q, c) Hi) as [_ Hc]. simpl in Hc.
  destruct s as [r l cl], c as [a p cl' ca pc sent]; simpl in *. subst ca. rewrite Hca in Hi.
  eexists. by eapply rs_consumer; [|apply c_cancelled].
Qed.

(** A consumer that has returned does nothing more. *)
Lemma consumers_stopped s s' :
  live_count (rs_consumers s) = 0 → ¬ consumers_step s s'.
Proof.
  intros Hlive Hstep. destruct Hstep as [i q c c' r l cl Hi Hstep].
  by destruct (consumer_step_running q c c' Hstep),
    (proj1 (live_count_zero l) Hlive (q, c) (list_elem_of_lookup_2 _ _ _ Hi)).
Qed.
(** With the context cancelled everyone can return at once. *)
Lemma consumers_drain r l cl :
  rabbit_inv (RSys r l cl) → rd_cancelled r = true →
  ∃ l', rtc consumers_step (RSys r l cl) (RSys (set_consumers 0 r) l' cl) ∧
        (cn_sent ∘ snd <$> l') = (cn_sent ∘ snd <$> l).
Proof.
  remember (live_count l) as n eqn:Hn. revert r l Hn.
  induction n as [|n IH]; intros r l Hn Hinv Hca.
  - exists l. split; [|done]. destruct Hinv as [Hcount _ _ _ _]. simpl in Hcount.
    rewrite <- Hn in Hcount. destruct r; simpl in *. by subst.
  - destruct (filter live l) as [|[q c] k] eqn:Hf; [unfold live_count in Hn; by rewrite Hf in Hn|].
    assert ((q, c) ∈ filter live l) as [Hlive [i Hi]%list_elem_of_lookup]%list_elem_of_filter
      by (rewrite Hf; by left).
    pose proof (ri_each _ Hinv) as Heach.
    destruct (proj1 (Forall_lookup _ _) Heach i (q, c) Hi) as [_ Hc]. simpl in *.
    destruct c as [a p clo ca pc sent]; simpl in *. subst ca. rewrite Hca in Hi.
    pose proof (rs_consumer i q _ _ r l cl Hi (c_cancelled q a p clo pc sent Hlive)) as Hstep.
    pose proof (consumers_step_inv _ _ Hinv Hstep) as Hinv'.
    change (after_step _ r) with (set_consumers (pred (rd_consumers r)) r) in *.
    pose proof (live_count_insert l i q _ (Consumer a p clo true CExit sent) Hi) as Hcnt.
    cbn [cn_pc] in Hcnt. rewrite decide_False, decide_True in Hcnt by done.
    destruct (IH (set_consumers (pred (rd_consumers r)) r)
                (<[i := (q, Consumer a p clo true CExit sent)]> l) ltac:(lia) Hinv' Hca)
      as (l' & Hsteps & Hsent).
    exists l'. split; [by eapply rtc_l|]. rewrite Hsent, list_fmap_insert.
    apply list_insert_id. by rewrite list_lookup_fmap, Hi.
Qed.

(** Close left to itself: its steps compute the function [rabbit_Close], and no
    message is sent on the way. *)
Lemma Close_runs r l :
  rabbit_inv (RSys r l NoClose) → rd_closed r = false →
  ∃ l', rtc rabbit_step (RSys r l NoClose) (RSys (rabbit_Close r).2 l' NoClose) ∧
        (cn_sent ∘ snd <$> l') = (cn_sent ∘ snd <$> l).
Proof.
  intros Hinv Hcl. unfold rabbit_Close. rewrite Hcl.
  destruct (close_all_spec r) as (_ & Hca & _).
  destruct (close_all r) as [err r'] eqn:Ha. simpl in *.
  pose proof (rs_close_begin err r r' l Hcl Ha) as Hbegin.
  destruct (consumers_drain _ _ _ (rabbit_step_inv _ _ Hinv Hbegin) Hca) as (l' & Hsteps & Hsent).
  exists l'. split.
  - eapply rtc_l; [done|]. eapply rtc_r; [|by apply rs_close_end].
    by eapply (rtc_congruence id); [|done]; intros; apply rs_consumers_step.
  - rewrite Hsent, <- list_fmap_compose. by apply list_fmap_ext.
Qed.

Lemma connect_cancelled url r : rd_cancelled (rabbit_Connect url r).2 = rd_cancelled r.
Proof. by destruct (connect_keeps url r) as (_ & ? & _). Qed.
End system.

(** C34: the driver with all its consumers, in every state it can reach, whatever the
    broker delivers and however its operations interleave.  The wait group counts
    exactly the consumers that have not returned.  Each consumer forwards the
    deliveries of its queue in order, with none lost or sent twice while it runs,
    and unless the driver was closed it returns only when everything was sent.
    While Close waits, every schedule of the consumers ends, and where it ends
    Close can return; once Close has returned no consumer does anything any more,
    so that nothing writes to a message channel.  The context Close cancels is
    never replaced: a driver that is connected again starts its consumers with the
    cancelled context, and they can return at once. *)
Theorem consumers_correct `{Unicode, NetURL, Amqp W} (w : W) s :
  rabbit_reachable w s →
  rd_consumers (rs_driver s) = live_count (rs_consumers s) ∧
  (∀ q c, (q, c) ∈ rs_consumers s →
     cn_sent c `prefix_of` map (message_of q) (cn_arrived c) ∧
     (cn_pc c ≠ CExit →
        map (message_of q) (cn_arrived c) =
        cn_sent c ++ holding (cn_pc c) ++ map (message_of q) (cn_pending c)) ∧
     (cn_pc c = CExit → rd_cancelled (rs_driver s) = false →
        cn_closed c = true ∧ cn_sent c = map (message_of q) (cn_arrived c))) ∧
  (∀ err, rs_close s = CloseWaits err →
     sn consumers_step s ∧
     ∀ s', rtc consumers_step s s' → nf consumers_step s' →
           rabbit_step s' (RSys (rs_driver s') (rs_consumers s') NoClose)) ∧
  (rs_close s = NoClose → rd_closed (rs_driver s) = true → ∀ s', ¬ consumers_step s s') ∧
  (rd_closed (rs_driver s) = true → ∀ url q ch r,
     rabbit_StartConsuming q ch (rabbit_Connect url (rs_driver s)).2 = (None, r) →
     consumer_step q (new_consumer (rd_cancelled r)) (Consumer [] [] false true CExit [])).
Proof.
  intros Hinv%rabbit_reachable_inv. split_and!.
  - by apply ri_count.
  - intros q c Hin.
    destruct (proj1 (Forall_forall _ _) (ri_each s Hinv) (q, c) Hin) as [Hr Hca]. simpl in *.
    apply consumer_reachable_inv in Hr as [Hrun Hpre Hexit].
    split_and!; [done|done|]. rewrite <- Hca. auto.
  - intros err Hcl. split; [apply consumers_step_sn|]. intros s' Hsteps Hnf.
    assert (rabbit_inv s' ∧ rs_close s' = rs_close s) as [Hinv' Hcl'].
    { clear Hnf. induction Hsteps as [s|s1 s2 s3 Hstep _ IH]; [done|].
      destruct IH as [? Heq]; [by eapply consumers_step_inv| |].
      - by rewrite (consumers_step_close s1 s2).
      - split; [done|]. by rewrite Heq, (consumers_step_close s1 s2). }
    rewrite Hcl in Hcl'. pose proof (consumers_stuck s' Hinv') as Hzero.
    rewrite (ri_closed s' Hinv' (ri_closing s' Hinv' err Hcl')) in Hzero.
    destruct s' as [r l cl]; simpl in *. subst cl. apply rs_close_end. auto.
  - intros Hcl Hclosed s'. apply consumers_stopped. by apply ri_stopped.
  - intros Hclosed url q ch r (_ & _ & Hca & _)%StartConsuming_ok.
    rewrite connect_cancelled, (ri_closed s Hinv Hclosed) in Hca. rewrite Hca.
    by apply c_cancelled.
Qed.

(** ** A library for evaluation

    Every call succeeds; the world is the log of what was published. *)
#[local] Instance example_amqp : Amqp (list PublishedMessage) := {|
  connection := unit;
  channel := unit;
  amqp_Dial _ w := (Ok tt, w);
  conn_IsClosed _ _ := true;
  conn_Channel _ w := (Ok tt, w);
  conn_Close _ w := (None, w);
  ch_call _ _ w := (None, w);
  ch_Consume _ _ w := (None, w);
  ch_Publish _ e k p w :=
    (None, w ++ [{| p_Exchange := e; p_RoutingKey := k; p_Body := pb_Body p;
                    p_Headers := pb_Headers p |}]);
  ch_Close _ w := (None, w);
  amqp_now _ := 0%Z;
|}.
#[local] Instance example_amqp_spec : AmqpSpec (list PublishedMessage).
Proof. by refine {| sent w := w |}. Qed.

#[local] Existing Instances example_unicode password_url.

Definition example_driver : RabbitMQDriver (list PublishedMessage) :=
  (rabbit_StartConsuming "q" 0 (rabbit_Connect "amqp://" (NewRabbitMQDriver [])).2).2.

(** Close waits for a consumer that has a message to send. *)
Definition example_closing : rabbit_sys (list PublishedMessage) :=
  RSys (close_all example_driver).2
    [("q", Consumer [example_delivery] [] false true (CSend (message_of "q" example_delivery)) [])]
    (CloseWaits None).

Lemma example_closing_reachable : rabbit_reachable [] example_closing.
Proof.
  set (d := example_delivery).
  eapply rr_step;
    [|apply (rs_close_begin None example_driver (close_all example_driver).2
        [("q", Consumer [d] [] false false (CSend (message_of "q" d)) [])]); reflexivity].
  eapply rr_step;
    [|apply rs_consumers_step, (rs_consumer 0 "q" (Consumer [d] [d] false false CSelect [])
        (Consumer [d] [] false false (CSend (message_of "q" d)) [])
        example_driver [("q", Consumer [d] [d] false false CSelect [])] NoClose);
      [reflexivity|apply c_take]].
  eapply rr_step;
    [|apply (rs_library 0 "q" (new_consumer false) (Consumer [d] [d] false false CSelect [])
        example_driver [("q", new_consumer false)] NoClose);
      [reflexivity|apply (d_arrive [] [] d)|reflexivity]].
  eapply rr_step;
    [|apply (rs_consume "q" 0 (rabbit_Connect "amqp://" (NewRabbitMQDriver [])).2 example_driver []);
      reflexivity].
  eapply rr_step; [apply rr_start|apply (rs_connect "amqp://" (NewRabbitMQDriver []))].
Qed.

Lemma consumers_correct_witness :
  rd_consumers (rs_driver example_closing) = 1 ∧ sn consumers_step example_closing.
Proof.
  split; [by vm_compute|].
  by apply (consumers_correct [] example_closing example_closing_reachable) with (err := None).
Defined.
