(* ===== verification/Ring.v ===== *)
(** * The spy's ring buffer (pkg/spy/server.go, lines 28-265)

    Captured messages, filters, and the bounded sliding window with its
    sequence numbers and change notification. *)
From S2P Require Import Prelude GoStrings GoValue Libs Config Broker.

(** ** Data *)

Record CapturedMessage := {
  cm_Seq : Z;
  cm_Timestamp : Z;
  cm_Direction : string;
  cm_Queue : string;
  cm_Exchange : string;
  cm_RoutingKey : string;
  cm_Rule : string;
  cm_MessageID : string;
  cm_Body : value;
  cm_Headers : headers;
  cm_raw : string;
}.

Record BodyFilter := { bf_Path : string; bf_Value : option string }.

Record Filter := {
  f_Queue : string;
  f_Exchange : string;
  f_RoutingKey : string;
  f_Direction : string;
  f_Rule : string;
  f_Headers : gmap string (option string);
  f_Body : list BodyFilter;
  f_SinceSeq : Z;
  f_Limit : Z;
}.

(** [changed] is the current notification channel: channels are numbered in the
    order they are made, and all but the current one are closed. *)
Record RingBuffer := {
  rb_messages : list CapturedMessage;
  rb_maxSize : Z;
  rb_nextSeq : Z;
  rb_changed : nat;
}.

(** ** Filters *)

(** A field that is set must agree. *)
Definition field_ok (want got : string) : bool :=
  bool_decide (want = "") || bool_decide (got = want).

Section matches.
Context `{Gjson, GoFmt}.

Definition header_ok (hs : headers) (kw : string * option string) : bool :=
  match hs !! kw.1 with
  | None => false
  | Some v => match kw.2 with Some want => bool_decide (sprint v = want) | None => true end
  end.

Definition body_ok (raw : string) (bf : BodyFilter) : bool :=
  if bool_decide (raw = "") then false else
  let res := gjson_GetBytes raw (bf_Path bf) in
  if negb (res_Exists res) then false else
  match bf_Value bf with Some want => bool_decide (res_String res = want) | None => true end.

Definition matches (f : Filter) (m : CapturedMessage) : bool :=
  if bool_decide (f_Queue f ≠ "" ∧ cm_Queue m ≠ f_Queue f) then false else
  if bool_decide (f_Exchange f ≠ "" ∧ cm_Exchange m ≠ f_Exchange f) then false else
  if bool_decide (f_RoutingKey f ≠ "" ∧ cm_RoutingKey m ≠ f_RoutingKey f) then false else
  if bool_decide (f_Direction f ≠ "" ∧ cm_Direction m ≠ f_Direction f) then false else
  if bool_decide (f_Rule f ≠ "" ∧ cm_Rule m ≠ f_Rule f) then false else
  if bool_decide (0 < f_SinceSeq f ∧ cm_Seq m ≤ f_SinceSeq f)%Z then false else
  if forallb (header_ok (cm_Headers m)) (map_to_list (f_Headers f))
  then forallb (body_ok (cm_raw m)) (f_Body f)
  else false.
End matches.

(** ** Normalising header values *)

Fixpoint normalizeHeaderValue (v : value) : value :=
  match v with
  | VBytes s => VString s
  | VSlice l => VSlice (map normalizeHeaderValue l)
  | VMap _ m => VMap false (map (λ kv, (kv.1, normalizeHeaderValue kv.2)) m)
  | _ => v
  end.

Definition normalizeHeaders (h : headers) : headers := normalizeHeaderValue <$> h.

(** ** The buffer *)

Definition NewRingBuffer (maxSize : Z) : RingBuffer :=
  {| rb_messages := []; rb_maxSize := if bool_decide (maxSize ≤ 0)%Z then 1000 else maxSize;
     rb_nextSeq := 1; rb_changed := 0 |}.

(** Closes the current channel and makes the next one. *)
Definition notifyLocked (rb : RingBuffer) : RingBuffer :=
  {| rb_messages := rb_messages rb; rb_maxSize := rb_maxSize rb; rb_nextSeq := rb_nextSeq rb;
     rb_changed := S (rb_changed rb) |}.

Definition Changed (rb : RingBuffer) : nat := rb_changed rb.
Definition channel_closed (rb : RingBuffer) (ch : nat) : bool := ch <? rb_changed rb.

Section buffer.
Context `{Json}.

Definition decode_body (body : string) : value :=
  if bool_decide (0 < len (bytes_of body))%Z then
    match json_Unmarshal body with (v, true) => v | (_, false) => VString body end
  else VString "".

(** The message as captured with sequence number [seq] at time [now]. *)
Definition capture (seq now : Z) (msg : Message) : CapturedMessage :=
  {| cm_Seq := seq;
     cm_Timestamp := now;
     cm_Direction := if bool_decide (m_Direction msg = "") then DirectionReceived
                     else m_Direction msg;
     cm_Queue := m_Queue msg;
     cm_Exchange := m_Exchange msg;
     cm_RoutingKey := m_RoutingKey msg;
     cm_Rule := m_Rule msg;
     cm_MessageID := m_MessageID msg;
     cm_Body := decode_body (m_Body msg);
     cm_Headers := normalizeHeaders (m_Headers msg);
     cm_raw := m_Body msg |}.

Definition ring_Record (now : Z) (msg : Message) (rb : RingBuffer) : RingBuffer :=
  let captured := capture (rb_nextSeq rb) now msg in
  let messages := rb_messages rb ++ [captured] in
  notifyLocked
    {| rb_messages := if bool_decide (rb_maxSize rb < len messages)%Z
                      then slice_from (len messages - rb_maxSize rb) messages
                      else messages;
       rb_maxSize := rb_maxSize rb;
       rb_nextSeq := u64 (rb_nextSeq rb + 1);
       rb_changed := rb_changed rb |}.

Definition ring_Clear (rb : RingBuffer) : Z * RingBuffer :=
  (len (rb_messages rb),
   notifyLocked {| rb_messages := []; rb_maxSize := rb_maxSize rb;
                   rb_nextSeq := rb_nextSeq rb; rb_changed := rb_changed rb |}).

Definition Count (rb : RingBuffer) : Z := len (rb_messages rb).
End buffer.

Section query.
Context `{Gjson, GoFmt}.

(** [limit] keeps the most recent ones. *)
Definition apply_limit (limit : Z) (l : list CapturedMessage) : list CapturedMessage :=
  if bool_decide (0 < limit ∧ limit < len l)%Z then slice_from (len l - limit) l else l.

Definition Query (f : Filter) (rb : RingBuffer) : list CapturedMessage :=
  apply_limit (f_Limit f) (filter (λ m, matches f m = true) (rb_messages rb)).

Definition filter_all : Filter :=
  {| f_Queue := ""; f_Exchange := ""; f_RoutingKey := ""; f_Direction := ""; f_Rule := "";
     f_Headers := ∅; f_Body := []; f_SinceSeq := 0; f_Limit := 0 |}.

Definition GetMessages (queueFilter routingKeyFilter : string) (rb : RingBuffer)
    : list CapturedMessage :=
  Query {| f_Queue := queueFilter; f_Exchange := ""; f_RoutingKey := routingKeyFilter;
           f_Direction := ""; f_Rule := ""; f_Headers := ∅; f_Body := []; f_SinceSeq := 0;
           f_Limit := 0 |} rb.
End query.

(** ** Specification: the unbounded log

    The buffer is a window on a log that is never trimmed: every message is
    appended with the number of messages recorded so far, plus one, as its
    sequence number; clearing empties the log and keeps the count. *)

Inductive ring_op := OpRecord (now : Z) (msg : Message) | OpClear.

Record spy_log := { sl_log : list CapturedMessage; sl_total : Z }.

Section spec.
Context `{Json}.

Definition ring_step (rb : RingBuffer) (op : ring_op) : RingBuffer :=
  match op with
  | OpRecord now msg => ring_Record now msg rb
  | OpClear => (ring_Clear rb).2
  end.
Definition ring_run (rb : RingBuffer) (ops : list ring_op) : RingBuffer :=
  foldl ring_step rb ops.

Definition log_step (l : spy_log) (op : ring_op) : spy_log :=
  match op with
  | OpRecord now msg =>
    {| sl_log := sl_log l ++ [capture (u64 (sl_total l + 1)) now msg];
       sl_total := sl_total l + 1 |}
  | OpClear => {| sl_log := []; sl_total := sl_total l |}
  end.
Definition log_run (l : spy_log) (ops : list ring_op) : spy_log := foldl log_step l ops.

Definition empty_log : spy_log := {| sl_log := []; sl_total := 0 |}.

(** The log's messages carry consecutive numbers, the last one [sl_total]. *)
Definition log_wf (l : spy_log) : Prop :=
  (len (sl_log l) ≤ sl_total l)%Z ∧
  ∀ i m, sl_log l !! i = Some m →
    cm_Seq m = u64 (sl_total l - len (sl_log l) + 1 + Z.of_nat i).

(** [rb] is the window of [size] messages on [l]. *)
Definition window_on (size : nat) (rb : RingBuffer) (l : spy_log) : Prop :=
  1 ≤ size ∧ rb_maxSize rb = Z.of_nat size ∧
  rb_messages rb = last_n size (sl_log l) ∧
  rb_nextSeq rb = u64 (sl_total l + 1) ∧ log_wf l.

Lemma log_step_wf l op : log_wf l → log_wf (log_step l op).
Proof.
  intros [Hle Hseq]. destruct op as [now msg|]; split; simpl.
  - unfold len in *. rewrite length_app. simpl. lia.
  - intros i m. unfold len in *. rewrite length_app. simpl.
    intros [Hi|[Hi Hm]]%lookup_app_Some.
    + rewrite (Hseq i m Hi). f_equal. lia.
    + apply list_lookup_singleton_Some in Hm as [Hz <-]. simpl. f_equal. lia.
  - unfold len in *. simpl. lia.
  - set_solver.
Qed.

Lemma trim_last_n size (l : list CapturedMessage) :
  (if bool_decide (Z.of_nat size < len l)%Z
   then slice_from (len l - Z.of_nat size) l else l) = last_n size l.
Proof.
  unfold len. case_bool_decide.
  - apply slice_from_last_n. lia.
  - rewrite last_n_all by lia. done.
Qed.

Lemma u64_succ z : u64 (u64 z + 1) = u64 (z + 1).
Proof. unfold u64. by rewrite Zplus_mod_idemp_l. Qed.

(** The simulation: one operation on the buffer is one operation on the log. *)
Lemma window_step size rb l op :
  window_on size rb l → window_on size (ring_step rb op) (log_step l op).
Proof.
  intros (Hs & Hm & Hmsgs & Hn & Hwf). apply (log_step_wf l op) in Hwf.
  destruct op as [now msg|].
  - unfold window_on, ring_step, ring_Record, notifyLocked; cbn [rb_messages rb_maxSize rb_nextSeq].
    rewrite Hm, Hmsgs, trim_last_n, last_n_absorb, Hn, u64_succ. done.
  - done.
Qed.

Lemma window_run size rb l ops :
  window_on size rb l → window_on size (ring_run rb ops) (log_run l ops).
Proof.
  revert rb l. induction ops as [|op ops IH]; intros rb l Hw; simpl; [done|].
  apply IH. by apply window_step.
Qed.

(** The capacity NewRingBuffer settles on. *)
Definition ring_size (maxSize : Z) : nat := Z.to_nat (rb_maxSize (NewRingBuffer maxSize)).

Lemma window_new maxSize : window_on (ring_size maxSize) (NewRingBuffer maxSize) empty_log.
Proof.
  unfold window_on, ring_size; simpl. case_bool_decide; split_and!; try lia; try done;
    by (split; [done|set_solver]).
Qed.

Lemma log_run_total l ops :
  (sl_total l ≤ sl_total (log_run l ops))%Z.
Proof.
  revert l. induction ops as [|op ops IH]; intros l; simpl; [done|].
  etrans; [|apply IH]. destruct op; simpl; lia.
Qed.

Lemma log_wf_seq l i m :
  log_wf l → (sl_total l < 2 ^ 64)%Z → sl_log l !! i = Some m →
  cm_Seq m = (sl_total l - len (sl_log l) + 1 + Z.of_nat i)%Z.
Proof.
  intros [Hle Hseq] Ht Hi. rewrite (Hseq i m Hi). apply u64_small.
  apply lookup_lt_Some in Hi. unfold len in *. lia.
Qed.

(** Everything logged by a run is newer than what was there before. *)
Lemma log_run_split l ops :
  ∃ old new, sl_log (log_run l ops) = old ++ new ∧
    (old = sl_log l ∨ old = []) ∧
    (len new ≤ sl_total (log_run l ops) - sl_total l)%Z.
Proof.
  revert l. induction ops as [|op ops IH] using rev_ind; intros l.
  - exists (sl_log l), []. rewrite app_nil_r. split_and!; [done|by left|]. unfold len. simpl. lia.
  - unfold log_run. rewrite foldl_app. simpl. fold (log_run l ops).
    destruct (IH l) as (old & new & Heq & Hold & Hlen). destruct op as [now msg|]; simpl.
    + exists old. eexists. rewrite Heq, <- app_assoc. split_and!; [done..|].
      unfold len in *. rewrite length_app. simpl. lia.
    + exists [], []. split_and!; [done|by right|].
      unfold len. simpl. pose proof (log_run_total l ops). lia.
Qed.
End spec.

(** ** Filters, declaratively *)

Definition wants (want got : string) : Prop := want ≠ "" → got = want.

Section matches_spec.
Context `{Gjson, GoFmt}.

Record selects (f : Filter) (m : CapturedMessage) : Prop := {
  sel_queue : wants (f_Queue f) (cm_Queue m);
  sel_exchange : wants (f_Exchange f) (cm_Exchange m);
  sel_key : wants (f_RoutingKey f) (cm_RoutingKey m);
  sel_direction : wants (f_Direction f) (cm_Direction m);
  sel_rule : wants (f_Rule f) (cm_Rule m);
  sel_since : (0 < f_SinceSeq f)%Z → (f_SinceSeq f < cm_Seq m)%Z;
  sel_headers : ∀ name want, f_Headers f !! name = Some want →
    ∃ v, cm_Headers m !! name = Some v ∧ ∀ w, want = Some w → sprint v = w;
  sel_body : ∀ bf, bf ∈ f_Body f →
    cm_raw m ≠ "" ∧ res_Exists (gjson_GetBytes (cm_raw m) (bf_Path bf)) = true ∧
    ∀ w, bf_Value bf = Some w → res_String (gjson_GetBytes (cm_raw m) (bf_Path bf)) = w;
}.

Lemma header_ok_spec hs name want :
  header_ok hs (name, want) = true ↔
  ∃ v, hs !! name = Some v ∧ ∀ w, want = Some w → sprint v = w.
Proof.
  unfold header_ok; simpl. destruct (hs !! name) as [v|]; [|naive_solver].
  destruct want as [w|]; [rewrite bool_decide_eq_true|]; naive_solver.
Qed.

Lemma body_ok_spec raw bf :
  body_ok raw bf = true ↔
  raw ≠ "" ∧ res_Exists (gjson_GetBytes raw (bf_Path bf)) = true ∧
  ∀ w, bf_Value bf = Some w → res_String (gjson_GetBytes raw (bf_Path bf)) = w.
Proof.
  unfold body_ok. case_bool_decide; [naive_solver|].
  destruct (res_Exists _); simpl; [|naive_solver].
  destruct (bf_Value bf) as [w|]; [rewrite bool_decide_eq_true|]; naive_solver.
Qed.

Lemma wants_guard (want got : string) : ¬ (want ≠ "" ∧ got ≠ want) ↔ wants want got.
Proof. unfold wants. destruct (decide (got = want)); tauto. Qed.

(** The guards of [matches], one by one; the loop over the header map does not
    depend on its order. *)
Lemma matches_spec f m : matches f m = true ↔ selects f m.
Proof.
  unfold matches. rewrite !guard_true, !wants_guard, <- andb_lazy_alt, andb_true_iff.
  rewrite !forallb_forall. setoid_rewrite <- list_elem_of_In.
  setoid_rewrite body_ok_spec. split.
  - intros (?&?&?&?&?&?&Hh&Hb). split; auto; [lia|].
    intros name want Hw. apply header_ok_spec, Hh. by apply elem_of_map_to_list.
  - intros []. split_and!; auto; [lia|].
    intros [name want] Hw%elem_of_map_to_list. apply header_ok_spec. auto.
Qed.
End matches_spec.

(** ** More on the log and the window *)

Section frame.
Context `{Json}.

Definition clears (op : ring_op) : bool := match op with OpClear => true | _ => false end.

(** A run appends to what was there, unless it clears it; what it appends does
    not depend on what was there. *)
Lemma log_run_frame l ops :
  sl_log (log_run l ops) =
    (if existsb clears ops then [] else sl_log l) ++
    sl_log (log_run {| sl_log := []; sl_total := sl_total l |} ops) ∧
  sl_total (log_run l ops) =
    sl_total (log_run {| sl_log := []; sl_total := sl_total l |} ops).
Proof.
  induction ops as [|op ops IH] using rev_ind; simpl; [by rewrite app_nil_r|].
  unfold log_run in *. rewrite !foldl_app, existsb_app. simpl.
  destruct IH as [IHl IHt]. destruct op as [now msg|]; simpl; split; try done.
  - rewrite IHl, IHt, orb_false_r, app_assoc. done.
  - by rewrite IHt.
  - by rewrite orb_true_r.
Qed.

Lemma empty_log_wf t : (0 ≤ t)%Z → log_wf {| sl_log := []; sl_total := t |}.
Proof. by split; [|set_solver]. Qed.

Lemma log_run_wf l ops : log_wf l → log_wf (log_run l ops).
Proof.
  revert l. induction ops as [|op ops IH]; intros l Hwf; simpl; [done|].
  apply IH. by apply log_step_wf.
Qed.

Lemma log_wf_newer l m :
  log_wf l → (sl_total l < 2 ^ 64)%Z → m ∈ sl_log l →
  (sl_total l - len (sl_log l) < cm_Seq m ≤ sl_total l)%Z.
Proof.
  intros Hwf Ht [i Hi]%list_elem_of_lookup. rewrite (log_wf_seq l i m) by done.
  apply lookup_lt_Some in Hi. unfold len in *. lia.
Qed.

(** What a run logs is numbered after the messages counted before it. *)
Lemma log_run_newer t ops m :
  (0 ≤ t)%Z → (sl_total (log_run {| sl_log := []; sl_total := t |} ops) < 2 ^ 64)%Z →
  m ∈ sl_log (log_run {| sl_log := []; sl_total := t |} ops) → (t < cm_Seq m)%Z.
Proof.
  intros Ht Hmax Hm.
  apply log_wf_newer in Hm; [|by apply log_run_wf, empty_log_wf|done].
  destruct (log_run_split {| sl_log := []; sl_total := t |} ops)
    as (old & new & Heq & Hold & Hlen). simpl in *.
  rewrite Heq in Hm. destruct Hold as [-> | ->]; simpl in *; lia.
Qed.
End frame.

Section query_facts.
Context `{Gjson, GoFmt}.

Definition set_since (s : Z) (f : Filter) : Filter :=
  {| f_Queue := f_Queue f; f_Exchange := f_Exchange f; f_RoutingKey := f_RoutingKey f;
     f_Direction := f_Direction f; f_Rule := f_Rule f; f_Headers := f_Headers f;
     f_Body := f_Body f; f_SinceSeq := s; f_Limit := f_Limit f |}.

Definition set_limit (n : Z) (f : Filter) : Filter :=
  {| f_Queue := f_Queue f; f_Exchange := f_Exchange f; f_RoutingKey := f_RoutingKey f;
     f_Direction := f_Direction f; f_Rule := f_Rule f; f_Headers := f_Headers f;
     f_Body := f_Body f; f_SinceSeq := f_SinceSeq f; f_Limit := n |}.

Lemma matches_since s f m :
  matches (set_since s f) m =
  negb (bool_decide (0 < s ∧ cm_Seq m ≤ s)%Z) && matches (set_since 0 f) m.
Proof.
  unfold matches, set_since;
    cbn [f_Queue f_Exchange f_RoutingKey f_Direction f_Rule f_Headers f_Body f_SinceSeq].
  do 5 (match goal with |- context [bool_decide (?w ≠ "" ∧ ?g ≠ ?w)] =>
          destruct (bool_decide (w ≠ "" ∧ g ≠ w)); [by rewrite andb_false_r|] end).
  rewrite (bool_decide_false (0 < 0 ∧ _)%Z) by lia. by case_bool_decide.
Qed.

Lemma apply_limit_last_n n l :
  (0 < n)%Z → apply_limit n l = last_n (Z.to_nat n) l.
Proof.
  intros Hn. unfold apply_limit, len. case_bool_decide as Hc.
  - rewrite <- (Z2Nat.id n) at 1 by lia. apply slice_from_last_n. lia.
  - by rewrite last_n_all by lia.
Qed.

Lemma apply_limit_off n l : (n ≤ 0)%Z → apply_limit n l = l.
Proof. intros. unfold apply_limit. rewrite bool_decide_false by lia. done. Qed.

Lemma apply_limit_suffix n l : apply_limit n l `suffix_of` l.
Proof.
  destruct (decide (0 < n)%Z).
  - rewrite apply_limit_last_n by done. apply last_n_suffix.
  - by rewrite apply_limit_off by lia.
Qed.

Lemma Query_sublist f rb : Query f rb `sublist_of` rb_messages rb.
Proof.
  unfold Query. etrans; [|apply (sublist_filter (λ m, matches f m = true))].
  destruct (apply_limit_suffix (f_Limit f)
    (filter (λ m, matches f m = true) (rb_messages rb))) as [k Hk].
  rewrite Hk at 2. by apply sublist_inserts_l.
Qed.

Lemma elem_of_Query f rb m : m ∈ Query f rb → m ∈ rb_messages rb ∧ matches f m = true.
Proof.
  unfold Query. destruct (apply_limit_suffix (f_Limit f)
    (filter (λ m, matches f m = true) (rb_messages rb))) as [k Hk].
  intros Hm. assert (m ∈ k ++ apply_limit (f_Limit f)
    (filter (λ m, matches f m = true) (rb_messages rb))) as Hin by set_solver.
  rewrite <- Hk in Hin. apply list_elem_of_filter in Hin. tauto.
Qed.
End query_facts.

(** ** Header normalisation *)

(** No byte slice is left where JSON would encode it as base64. *)
Fixpoint no_bytes (v : value) : bool :=
  match v with
  | VBytes _ => false
  | VSlice l => forallb no_bytes l
  | VMap named m => negb named && forallb (λ kv, no_bytes kv.2) m
  | _ => true
  end.

Lemma normalize_no_bytes v : no_bytes (normalizeHeaderValue v) = true.
Proof.
  induction v using value_ind_nested; simpl; try done.
  - induction H; simpl; [done|]. by rewrite H, IHForall.
  - induction H as [|kv m Hkv _ IH]; simpl; [done|]. by rewrite Hkv, IH.
Qed.

(** On a value without byte slices it is the identity. *)
Lemma normalize_id v : no_bytes v = true → normalizeHeaderValue v = v.
Proof.
  induction v as [| | | | | |l IH|n m IH| | |] using value_ind_nested; simpl; try done.
  - intros Hl. f_equal. induction IH as [|x l Hx _ IHl]; simpl in *; [done|].
    apply andb_prop in Hl as [??]. by rewrite Hx, IHl.
  - intros [Hn Hm]%andb_prop. destruct n; [done|]. f_equal.
    induction IH as [|kv m Hx _ IHm]; simpl in *; [done|].
    apply andb_prop in Hm as [??]. destruct kv as [k x]; simpl in *. by rewrite Hx, IHm.
Qed.

(** ** Properties *)

Definition example_message (queue body : string) : Message :=
  {| m_Queue := queue; m_RoutingKey := "k"; m_Headers := ∅; m_Body := body;
     m_Direction := ""; m_Exchange := ""; m_Rule := ""; m_MessageID := "" |}.

(** C6: the ring buffer implements the unbounded log: after any sequence of
    records and clears it holds exactly the last [size] messages of the log (so at
    most [size]), and the next sequence number is the number of messages ever
    recorded plus one. *)
Theorem ring_refines_log `{Json} maxSize ops :
  let rb := ring_run (NewRingBuffer maxSize) ops in
  let l := log_run empty_log ops in
  rb_messages rb = last_n (ring_size maxSize) (sl_log l) ∧
  (Count rb ≤ Z.of_nat (ring_size maxSize))%Z ∧
  rb_nextSeq rb = u64 (sl_total l + 1).
Proof.
  intros rb l. destruct (window_run _ _ _ ops (window_new maxSize)) as (_ & _ & Hm & Hn & _).
  fold rb l in Hm, Hn. split_and!; [done| |done].
  unfold Count, len. rewrite Hm, length_last_n. lia.
Qed.

(** The retained messages carry consecutive sequence numbers that end just
    below the next one, as long as fewer than 2^64 messages were recorded. *)
Theorem ring_seq_consecutive `{Json} maxSize ops i m :
  let rb := ring_run (NewRingBuffer maxSize) ops in
  (sl_total (log_run empty_log ops) + 1 < 2 ^ 64)%Z →
  rb_messages rb !! i = Some m →
  cm_Seq m = (rb_nextSeq rb - Count rb + Z.of_nat i)%Z.
Proof.
  intros rb Ht Hi.
  destruct (window_run _ _ _ ops (window_new maxSize)) as (_ & _ & Hm & Hn & Hwf).
  fold rb in Hm, Hn. pose proof Hwf as [Hle _]. rewrite Hm in Hi.
  unfold last_n in Hi. rewrite lookup_drop in Hi.
  rewrite (log_wf_seq _ _ _ Hwf ltac:(lia) Hi), Hn.
  apply lookup_lt_Some in Hi. unfold Count, len in *. rewrite Hm, length_last_n.
  rewrite u64_small by lia. lia.
Qed.

Lemma ring_seq_consecutive_witness :
  ∃ m, cm_Seq m = 2%Z ∧ rb_messages (@ring_run example_json (NewRingBuffer 1)
         [OpRecord 0 (example_message "q" "a"); OpRecord 0 (example_message "q" "b")]) = [m].
Proof.
  eexists. split; [|reflexivity].
  apply (@ring_seq_consecutive example_json 1
    [OpRecord 0 (example_message "q" "a"); OpRecord 0 (example_message "q" "b")] 0);
    [vm_compute; reflexivity|reflexivity].
Defined.

(** C13: a [since] cursor is exact, also across clears: after polling at a
    moment when the last sequence number was [s], a query for [since = s] gives
    precisely the matching messages recorded after that moment that are still
    retained: none is missed for having been seen, none is seen twice. *)
Theorem cursor_exact `{Json, Gjson, GoFmt} maxSize ops1 ops2 f :
  let rb1 := ring_run (NewRingBuffer maxSize) ops1 in
  let rb2 := ring_run rb1 ops2 in
  let before := sl_total (log_run empty_log ops1) in
  (sl_total (log_run empty_log (ops1 ++ ops2)) + 1 < 2 ^ 64)%Z →
  Query (set_limit 0 (set_since (rb_nextSeq rb1 - 1) f)) rb2 =
  filter (λ m, matches (set_since 0 f) m = true)
    (last_n (ring_size maxSize)
       (sl_log (log_run {| sl_log := []; sl_total := before |} ops2))).
Proof.
  intros rb1 rb2 before Ht. set (l1 := log_run empty_log ops1) in *. subst before.
  assert (window_on (ring_size maxSize) rb1 l1) as Hw1 by apply window_run, window_new.
  pose proof (window_run _ _ _ ops2 Hw1) as (_ & _ & Hm2 & _ & Hwf2). fold rb2 in Hm2.
  destruct Hw1 as (_ & _ & _ & Hn1 & Hwf1).
  unfold log_run in Ht. rewrite foldl_app in Ht. fold (log_run empty_log ops1) in Ht.
  fold l1 (log_run l1 ops2) in Ht. pose proof (log_run_total l1 ops2) as Hmono.
  assert (0 ≤ sl_total l1)%Z by (apply (log_run_total empty_log ops1)).
  rewrite Hn1, u64_small by lia. replace (sl_total l1 + 1 - 1)%Z with (sl_total l1) by lia.
  unfold Query. cbn [f_Limit set_limit]. rewrite apply_limit_off by lia. rewrite Hm2.
  destruct (log_run_frame l1 ops2) as [Hframe Htot]. rewrite Hframe, last_n_app, filter_app.
  rewrite filter_none; [apply filter_agree|]; intros m Hin;
    apply elem_of_last_n in Hin;
    change (matches (set_limit 0 (set_since (sl_total l1) f)) m)
      with (matches (set_since (sl_total l1) f) m); rewrite matches_since.
  - apply log_run_newer in Hin; [|done|simpl in *; lia].
    rewrite bool_decide_false by (simpl in *; lia). done.
  - assert (m ∈ sl_log l1) as Hold by (by destruct (existsb clears ops2); [set_solver|]).
    apply log_wf_newer in Hold; [|done|lia]. destruct Hwf1.
    rewrite bool_decide_true by (simpl in *; lia). done.
Qed.

Lemma cursor_exact_witness :
  let rb1 := @ring_run example_json (NewRingBuffer 10)
               [OpRecord 0 (example_message "q" "a")] in
  length (@Query example_gjson plain_fmt
    (set_limit 0 (set_since (rb_nextSeq rb1 - 1) filter_all))
    (@ring_run example_json rb1
       [OpRecord 0 (example_message "q" "b"); OpRecord 0 (example_message "q" "c")])) = 2.
Proof.
  intros rb1. unfold rb1.
  rewrite (@cursor_exact example_json example_gjson plain_fmt 10
    [OpRecord 0 (example_message "q" "a")]
    [OpRecord 0 (example_message "q" "b"); OpRecord 0 (example_message "q" "c")] filter_all);
    vm_compute; reflexivity.
Defined.

(** C14: a query returns retained messages that satisfy every condition of the
    filter, in order; without a limit it returns all of them, and a limit keeps
    the most recent ones of that answer. *)
Theorem Query_correct `{Gjson, GoFmt} f rb :
  Query f rb `sublist_of` rb_messages rb ∧
  (∀ m, m ∈ Query f rb → selects f m) ∧
  ((f_Limit f ≤ 0)%Z → ∀ m, m ∈ rb_messages rb → selects f m → m ∈ Query f rb) ∧
  ((0 < f_Limit f)%Z →
     Query f rb = last_n (Z.to_nat (f_Limit f)) (Query (set_limit 0 f) rb)).
Proof.
  split_and!.
  - apply Query_sublist.
  - intros m [_ Hm]%elem_of_Query. by apply matches_spec.
  - intros Hl m Hm Hsel. unfold Query. rewrite apply_limit_off by done.
    apply list_elem_of_filter. split; [by apply matches_spec|done].
  - intros Hl. unfold Query. rewrite apply_limit_last_n by done. by rewrite apply_limit_off.
Qed.

Lemma Query_correct_witness :
  @Query example_gjson plain_fmt (set_limit 1 filter_all)
    (@ring_run example_json (NewRingBuffer 10)
      [OpRecord 0 (example_message "q" "a"); OpRecord 0 (example_message "q" "b")])
  = [@capture example_json 2 0 (example_message "q" "b")].
Proof.
  rewrite (proj2 (proj2 (proj2 (@Query_correct example_gjson plain_fmt (set_limit 1 filter_all)
    (@ring_run example_json (NewRingBuffer 10)
      [OpRecord 0 (example_message "q" "a"); OpRecord 0 (example_message "q" "b")])))));
    vm_compute; reflexivity.
Defined.

(** The headers of a captured message are those of the broker message,
    name by name, with no byte slice left in a value (JSON would show it as
    base64), and a value that has none is kept as it is. *)
Theorem capture_headers `{Json} seq now msg name :
  cm_Headers (capture seq now msg) !! name = normalizeHeaderValue <$> m_Headers msg !! name ∧
  (∀ v, cm_Headers (capture seq now msg) !! name = Some v → no_bytes v = true) ∧
  (∀ v, m_Headers msg !! name = Some v → no_bytes v = true →
        cm_Headers (capture seq now msg) !! name = Some v).
Proof.
  change (cm_Headers (capture seq now msg)) with (normalizeHeaderValue <$> m_Headers msg).
  rewrite lookup_fmap. split_and!; [done| |].
  - intros v (w & _ & ->)%fmap_Some. apply normalize_no_bytes.
  - intros v Hm Hv. apply fmap_Some. exists v. by rewrite normalize_id.
Qed.
