(* ===== verification/SpyServer.v ===== *)
(** * The handlers of the spy's REST server (pkg/spy/server.go, lines 364-593)

    Query parameters, the blocking [wait_for] request as a step relation, and
    the HTTP handlers, whose answers are still values; [SpyHttp] encodes them and
    puts the server together. *)
From S2P Require Import Prelude GoStrings GoValue Libs Decimal JsonText Clock Config Broker Ring.
From Stdlib Require Import SpecFloat.

(** ** Time

    Durations are nanoseconds. [time.ParseDuration], [strconv.ParseFloat] and the
    conversion of a number of seconds to a duration (whose result out of range
    depends on the machine) are the class [GoTime]. *)
Class GoTime := {
  time_ParseDuration : string → option Z;
  strconv_ParseFloat : string → option spec_float;
  duration_of_seconds : spec_float → Z;
}.

(** The concrete functions; what the machine makes of a double that is no int64
    stays open. *)
Definition go_time (out_of_range : spec_float → Z) : GoTime :=
  {| time_ParseDuration := ParseDuration; strconv_ParseFloat := ParseFloat;
     duration_of_seconds := seconds out_of_range |}.

Definition time_Second : Z := 1000000000.
Definition defaultWaitTimeout : Z := 5 * time_Second.
Definition maxWaitTimeout : Z := 60 * time_Second.

(** ** Query parameters *)

(** [url.Values]: each parameter with its values in order. *)
Abbreviation url_Values := (gmap string (list string)).

Definition values (q : url_Values) (key : string) : list string := default [] (q !! key).
Definition url_Get (q : url_Values) (key : string) : string := default "" (head (values q key)).

Definition splitKV (s : string) : string * option string :=
  match cut_byte "=" s with
  | Some (name, v) => (name, Some v)
  | None => (s, None)
  end.

Section parse.
Context `{Unicode}.

Fixpoint parse_headers (l : list string) (acc : gmap string (option string))
    : result string (gmap string (option string)) :=
  match l with
  | [] => Ok acc
  | h :: l' =>
    let '(name, val) := splitKV h in
    if bool_decide (name = "") then Err ("invalid header filter " +:+ quote h)
    else parse_headers l' (<[name := val]> acc)
  end.

Fixpoint parse_body (l : list string) (acc : list BodyFilter) : result string (list BodyFilter) :=
  match l with
  | [] => Ok acc
  | b :: l' =>
    let '(path, val) := splitKV b in
    if bool_decide (path = "") then Err ("invalid body filter " +:+ quote b)
    else parse_body l' (acc ++ [{| bf_Path := path; bf_Value := val |}])
  end.

Definition parse_since (v : string) : result string Z :=
  if bool_decide (v = "") then Ok 0%Z else
  match parse_uint v with
  | Some n => Ok n
  | None => Err ("invalid since " +:+ quote v +:+ ": must be a non-negative integer")
  end.

(** A non-negative int parameter, used for [limit] and [wait_for]. *)
Definition parse_nonneg (name v : string) : result string Z :=
  match atoi v with
  | Some n => if bool_decide (n < 0)%Z
              then Err ("invalid " +:+ name +:+ " " +:+ quote v +:+
                        ": must be a non-negative integer")
              else Ok n
  | None => Err ("invalid " +:+ name +:+ " " +:+ quote v +:+
                 ": must be a non-negative integer")
  end.

Definition parse_limit (v : string) : result string Z :=
  if bool_decide (v = "") then Ok 0%Z else parse_nonneg "limit" v.

Definition parseFilter (q : url_Values) : result string Filter :=
  let direction := url_Get q "direction" in
  if bool_decide (direction ≠ "" ∧ direction ≠ DirectionReceived ∧
                  direction ≠ DirectionPublished)
  then Err ("invalid direction " +:+ quote direction +:+ " (expected " +:+
            quote DirectionReceived +:+ " or " +:+ quote DirectionPublished +:+ ")")
  else
  since ← parse_since (url_Get q "since");
  limit ← parse_limit (url_Get q "limit");
  hs ← parse_headers (values q "header") ∅;
  body ← parse_body (values q "body") [];
  Ok {| f_Queue := url_Get q "queue"; f_Exchange := url_Get q "exchange";
        f_RoutingKey := url_Get q "routing_key"; f_Direction := direction;
        f_Rule := url_Get q "rule"; f_Headers := hs; f_Body := body;
        f_SinceSeq := since; f_Limit := limit |}.

Definition parseTimeout `{GoTime} (v : string) : result string Z :=
  if bool_decide (v = "") then Ok defaultWaitTimeout else
  d ← match time_ParseDuration v with
      | Some d => Ok d
      | None =>
        match strconv_ParseFloat v with
        | Some secs => Ok (duration_of_seconds secs)
        | None => Err ("invalid timeout " +:+ quote v +:+
                       " (use e.g. 5s, 500ms or a number of seconds)")
        end
      end;
  if bool_decide (d < 0)%Z
  then Err ("invalid timeout " +:+ quote v +:+ ": must not be negative")
  else if bool_decide (maxWaitTimeout < d)%Z then Ok maxWaitTimeout else Ok d.
End parse.

(** ** Waiting for messages

    [waitForMessages] runs concurrently with everything that changes the buffer.
    Its state is the place it is at; the lock makes [Changed] and [Query] single
    steps, and the select takes any case that is ready. *)

Inductive wait_pc :=
| WGrab
| WQuery (changed : nat)
| WSelect (changed : nat) (msgs : list CapturedMessage)
| WTimedOut
| WDone (msgs : list CapturedMessage) (ok : bool).

Record wait_state := {
  w_pc : wait_pc;
  w_rb : RingBuffer;
  w_timer : bool;
  w_ctx : bool;
}.

Definition at_pc (pc : wait_pc) (s : wait_state) : wait_state :=
  {| w_pc := pc; w_rb := w_rb s; w_timer := w_timer s; w_ctx := w_ctx s |}.

Section wait.
Context `{Json, Gjson, GoFmt}.
Variables (maxSize : Z) (f : Filter) (n : nat).

(** A step of the waiting goroutine. *)
Inductive wait_step : wait_state → wait_state → Prop :=
| wait_grab s :
    w_pc s = WGrab → wait_step s (at_pc (WQuery (Changed (w_rb s))) s)
| wait_query_enough s ch :
    w_pc s = WQuery ch → n ≤ length (Query f (w_rb s)) →
    wait_step s (at_pc (WDone (Query f (w_rb s)) true) s)
| wait_query_few s ch :
    w_pc s = WQuery ch → length (Query f (w_rb s)) < n →
    wait_step s (at_pc (WSelect ch (Query f (w_rb s))) s)
| wait_woken s ch msgs :
    w_pc s = WSelect ch msgs → channel_closed (w_rb s) ch = true →
    wait_step s (at_pc WGrab s)
| wait_timer s ch msgs :
    w_pc s = WSelect ch msgs → w_timer s = true → wait_step s (at_pc WTimedOut s)
| wait_timed_out s :
    w_pc s = WTimedOut → wait_step s (at_pc (WDone (Query f (w_rb s)) false) s)
| wait_cancelled s ch msgs :
    w_pc s = WSelect ch msgs → w_ctx s = true → wait_step s (at_pc (WDone msgs false) s).

(** A step of the environment: the buffer changes, the timer fires, the client
    goes away. *)
Inductive env_step : wait_state → wait_state → Prop :=
| env_buffer s op :
    env_step s {| w_pc := w_pc s; w_rb := ring_step (w_rb s) op; w_timer := w_timer s;
                  w_ctx := w_ctx s |}
| env_timer s :
    env_step s {| w_pc := w_pc s; w_rb := w_rb s; w_timer := true; w_ctx := w_ctx s |}
| env_ctx s :
    env_step s {| w_pc := w_pc s; w_rb := w_rb s; w_timer := w_timer s; w_ctx := true |}.

(** Starts at the top of the loop, on a buffer in any state. *)
Inductive wait_reachable : wait_state → Prop :=
| wait_init ops : wait_reachable
    {| w_pc := WGrab; w_rb := ring_run (NewRingBuffer maxSize) ops; w_timer := false;
       w_ctx := false |}
| wait_by_step s s' : wait_reachable s → wait_step s s' → wait_reachable s'
| wait_by_env s s' : wait_reachable s → env_step s s' → wait_reachable s'.
End wait.

(** ** HTTP *)

(** A value given to the encoder from outside: what encoding it gives. *)
Abbreviation encoded := (result string json).
Definition enc_string (s : string) : encoded := Ok (JStr (escape s)).
Definition enc_int (z : Z) : encoded := Ok (JNum (number_of_Z z)).

(** The values the handlers answer with: captured messages, an error object, a
    plain text, a [map[string]interface{}], any other value. *)
Inductive http_body :=
| BMessages (l : list CapturedMessage)
| BError (msg : string)
| BText (msg : string)
| BObject (fields : list (string * encoded))
| BValue (v : encoded).

Record http_response := {
  h_Status : Z;
  h_Count : option string;
  h_Body : http_body;
}.

Definition StatusOK : Z := 200.
Definition StatusBadRequest : Z := 400.
Definition StatusMethodNotAllowed : Z := 405.
Definition StatusRequestTimeout : Z := 408.
Definition StatusNotImplemented : Z := 501.

Definition writeJSON (status : Z) (b : http_body) : http_response :=
  {| h_Status := status; h_Count := None; h_Body := b |}.
Definition writeError (status : Z) (msg : string) : http_response :=
  writeJSON status (BError msg).
Definition method_not_allowed : http_response :=
  {| h_Status := StatusMethodNotAllowed; h_Count := None; h_Body := BText "Method Not Allowed" |}.

Definition handleClear2 (rb : RingBuffer) : http_response * RingBuffer :=
  let '(n, rb') := ring_Clear rb in
  (writeJSON StatusOK (BObject [("status", enc_string "cleared"); ("cleared", enc_int n)]), rb').

Definition handleClear (method : string) (rb : RingBuffer) : http_response * RingBuffer :=
  if bool_decide (method ≠ "POST") then (method_not_allowed, rb) else handleClear2 rb.

Definition handleHealth (rb : RingBuffer) : http_response :=
  writeJSON StatusOK (BObject [("status", enc_string "ok"); ("messages", enc_int (Count rb))]).

(** The [X-Chitchat-Count] header and the messages. *)
Definition messages_response (status : Z) (l : list CapturedMessage) : http_response :=
  {| h_Status := status; h_Count := Some (itoa (len l)); h_Body := BMessages l |}.

(** handleMessages either answers at once or waits for [n] messages matching
    [waitFilter] for at most [timeout], and answers from the outcome and [filter]. *)
Inductive messages_action :=
| Respond (r : http_response) (rb : RingBuffer)
| Wait (filter waitFilter : Filter) (n : Z) (timeout : Z).

Section handle.
Context `{Unicode, GoTime, Gjson, GoFmt}.

Definition handleMessages (method : string) (query : url_Values) (rb : RingBuffer)
    : messages_action :=
  if bool_decide (method = "GET") then
    match parseFilter query with
    | Err e => Respond (writeError StatusBadRequest e) rb
    | Ok filter =>
      let wf := url_Get query "wait_for" in
      if bool_decide (wf ≠ "") then
        match n ← parse_nonneg "wait_for" wf;
              timeout ← parseTimeout (url_Get query "timeout"); Ok (n, timeout) with
        | Err e => Respond (writeError StatusBadRequest e) rb
        | Ok (n, timeout) => Wait filter (set_limit 0 filter) n timeout
        end
      else Respond (messages_response StatusOK (Query filter rb)) rb
    end
  else if bool_decide (method = "DELETE") then
    let '(r, rb') := handleClear2 rb in Respond r rb'
  else Respond method_not_allowed rb.

(** What follows the wait: nothing is written for a client that went away. *)
Definition finish_messages (filter : Filter) (messages : list CapturedMessage) (ok ctx_err : bool)
    : option http_response :=
  if negb ok && ctx_err then None
  else
    Some (messages_response (if ok then StatusOK else StatusRequestTimeout)
            (apply_limit (f_Limit filter) messages)).
End handle.

(** handleRules and handleReload call the hooks the main program registers; the
    reloader changes a state [S] outside the server. *)
Definition handleRules (method : string) (rules : option encoded) : http_response :=
  if bool_decide (method ≠ "GET") then method_not_allowed
  else match rules with
       | None => writeJSON StatusOK (BValue (Ok (JArr [])))
       | Some v => writeJSON StatusOK (BValue v)
       end.

Definition reload_answer (res : result string encoded) : http_response :=
  match res with
  | Err e => writeError StatusBadRequest e
  | Ok summary =>
    writeJSON StatusOK (BObject [("status", enc_string "reloaded"); ("result", summary)])
  end.

Definition handleReload {S : Type} (method : string)
    (reloader : option (S → result string encoded * S)) (s : S) : http_response * S :=
  if bool_decide (method ≠ "POST") then (method_not_allowed, s)
  else match reloader with
       | None => (writeError StatusNotImplemented "hot reload is not available", s)
       | Some reload => let '(res, s') := reload s in (reload_answer res, s')
       end.

(** ** The waiting loop *)

Section wait_facts.
Context `{Json, Gjson, GoFmt}.
Variables (maxSize : Z) (f : Filter) (n : nat).

Abbreviation reach := (wait_reachable maxSize f n).

(** What the loop knows at each place. In the select, as long as the channel
    is open the buffer is the one that was queried. *)
Definition wait_inv (s : wait_state) : Prop :=
  match w_pc s with
  | WQuery ch => ch ≤ rb_changed (w_rb s)
  | WSelect ch msgs =>
    ch ≤ rb_changed (w_rb s) ∧
    (ch = rb_changed (w_rb s) → msgs = Query f (w_rb s) ∧ length msgs < n)
  | WDone msgs true => n ≤ length msgs
  | _ => True
  end.

Lemma ring_step_changed rb op : rb_changed (ring_step rb op) = S (rb_changed rb).
Proof. by destruct op. Qed.

Lemma wait_reachable_inv s : reach s → wait_inv s.
Proof.
  induction 1 as [ops|s s' _ IH Hstep|s s' _ IH Hstep]; [done| |].
  - unfold wait_inv in *. destruct Hstep; simpl in *; try done; rewrite H2 in IH.
    split; [done|]. by intros _.
  - unfold wait_inv in *. destruct Hstep; simpl; [|done|done].
    rewrite ring_step_changed. destruct (w_pc s); try done; [lia|].
    split; [lia|]. intros ->. lia.
Qed.

Lemma wait_reachable_ring s :
  reach s → ∃ ops, w_rb s = ring_run (NewRingBuffer maxSize) ops.
Proof.
  induction 1 as [ops|s s' _ [ops IH] Hstep|s s' _ [ops IH] Hstep]; [by exists ops| |].
  - exists ops. by destruct Hstep.
  - destruct Hstep as [s op|s|s]; simpl; [|by exists ops|by exists ops].
    exists (ops ++ [op]). unfold ring_run in *. rewrite foldl_app. simpl. by rewrite <- IH.
Qed.

(** From the top of the loop, undisturbed, one round decides. *)
Lemma wait_round s :
  w_pc s = WGrab → n ≤ length (Query f (w_rb s)) →
  rtc (wait_step f n) s (at_pc (WDone (Query f (w_rb s)) true) s).
Proof.
  intros Hpc Hn. eapply rtc_l; [by apply wait_grab|].
  apply rtc_once. by eapply (wait_query_enough f n (at_pc (WQuery _) s)).
Qed.

(** Once the timer has fired, the loop can finish without anyone's help. *)
Lemma wait_finishes s :
  reach s → w_timer s = true →
  ∃ msgs ok, rtc (wait_step f n) s (at_pc (WDone msgs ok) s).
Proof.
  intros Hr Ht.
  assert (∀ ch msgs, w_pc s = WSelect ch msgs →
            ∃ msgs ok, rtc (wait_step f n) s (at_pc (WDone msgs ok) s)) as Hsel.
  { intros ch msgs Hpc. exists (Query f (w_rb s)), false.
    eapply rtc_l; [by eapply wait_timer|].
    apply rtc_once. by apply (wait_timed_out f n (at_pc WTimedOut s)). }
  assert (∀ ch, ∃ msgs ok, rtc (wait_step f n) (at_pc (WQuery ch) s)
                             (at_pc (WDone msgs ok) s)) as Hq.
  { intros ch. destruct (decide (n ≤ length (Query f (w_rb s)))).
    - exists (Query f (w_rb s)), true. apply rtc_once.
      by apply (wait_query_enough f n (at_pc (WQuery ch) s) ch).
    - exists (Query f (w_rb s)), false.
      eapply rtc_l; [eapply (wait_query_few f n (at_pc (WQuery ch) s)); [done|simpl; lia]|].
      eapply rtc_l; [by eapply (wait_timer f n (at_pc (WSelect _ _) s))|].
      apply rtc_once. by apply (wait_timed_out f n (at_pc WTimedOut s)). }
  destruct s as [pc rb t c]. simpl in *. subst t. destruct pc as [|ch|ch msgs| |msgs ok].
  - destruct (Hq rb.(rb_changed)) as (msgs & ok & Hrtc). exists msgs, ok.
    eapply rtc_l; [by apply wait_grab|exact Hrtc].
  - apply (Hq ch).
  - by eapply Hsel.
  - exists (Query f rb), false. apply rtc_once. by apply (wait_timed_out f n).
  - exists msgs, ok. done.
Qed.

(** Blocked on an open channel, the loop has the current answer, and it is short. *)
Lemma wait_blocked s ch msgs :
  reach s → w_pc s = WSelect ch msgs → channel_closed (w_rb s) ch = false →
  msgs = Query f (w_rb s) ∧ length (Query f (w_rb s)) < n.
Proof.
  intros Hr Hpc Hopen%Nat.ltb_ge. pose proof (wait_reachable_inv s Hr) as Hinv. unfold wait_inv in Hinv.
  rewrite Hpc in Hinv. destruct Hinv as [Hle Heq]. destruct Heq as [-> ?]; [lia|done].
Qed.

(** With enough messages there, the loop succeeds, unless it has timed out. *)
Lemma wait_succeeds s :
  reach s → n ≤ length (Query f (w_rb s)) → w_pc s ≠ WTimedOut →
  (∀ msgs ok, w_pc s ≠ WDone msgs ok) →
  rtc (wait_step f n) s (at_pc (WDone (Query f (w_rb s)) true) s).
Proof.
  intros Hr Hn Ht Hd. pose proof (wait_reachable_inv s Hr) as Hinv.
  unfold wait_inv in Hinv. destruct (w_pc s) as [|ch|ch msgs| |msgs ok] eqn:Hpc; [| | |done|].
  - by apply wait_round.
  - apply rtc_once. by eapply wait_query_enough.
  - destruct Hinv as [Hle Heq]. eapply rtc_l; [eapply wait_woken; [done|]|].
    + apply Nat.ltb_lt. destruct (decide (ch = rb_changed (w_rb s))) as [He|]; [|lia].
      destruct (Heq He) as [-> ?]. lia.
    + by apply (wait_round (at_pc WGrab s)).
  - by destruct (Hd msgs ok).
Qed.

(** A success holds what the buffer held when it was queried, and it is enough. *)
Lemma wait_success s s' msgs :
  wait_step f n s s' → w_pc s' = WDone msgs true →
  msgs = Query f (w_rb s) ∧ n ≤ length msgs.
Proof. intros Hstep Hpc. destruct Hstep; simpl in Hpc; by simplify_eq. Qed.
End wait_facts.

(** ** Encoding a filter as a query *)

Definition encode_kv (kv : string * option string) : string :=
  match kv.2 with None => kv.1 | Some v => kv.1 +:+ String "=" v end.

(** The query string a client writes for a filter, parameter by parameter. *)
Definition encode_filter (f : Filter) : url_Values :=
  {[ "queue" := [f_Queue f]; "exchange" := [f_Exchange f];
     "routing_key" := [f_RoutingKey f]; "direction" := [f_Direction f];
     "rule" := [f_Rule f]; "since" := [itoa (f_SinceSeq f)]; "limit" := [itoa (f_Limit f)];
     "header" := map encode_kv (map_to_list (f_Headers f));
     "body" := map (λ b, encode_kv (bf_Path b, bf_Value b)) (f_Body f) ]}.

(** A name that can be written before the equals sign. *)
Definition plain_name (s : string) : Prop := s ≠ "" ∧ has_byte "=" s = false.

#[export] Instance plain_name_dec s : Decision (plain_name s).
Proof. unfold plain_name. apply _. Defined.

Record encodable (f : Filter) : Prop := {
  en_direction : f_Direction f ∈ [""; DirectionReceived; DirectionPublished];
  en_since : (0 ≤ f_SinceSeq f < 2 ^ 64)%Z;
  en_limit : (0 ≤ f_Limit f < 2 ^ 63)%Z;
  en_headers : ∀ name v, f_Headers f !! name = Some v → plain_name name;
  en_body : ∀ b, b ∈ f_Body f → plain_name (bf_Path b);
}.

Lemma splitKV_encode kv : plain_name kv.1 → splitKV (encode_kv kv) = kv.
Proof.
  intros [_ Hn]. destruct kv as [name [v|]]; simpl in *; unfold splitKV, encode_kv; simpl.
  - by rewrite cut_byte_app.
  - by rewrite cut_byte_none.
Qed.

Section parse_facts.
Context `{Unicode}.

Lemma parse_headers_encode (l : list (string * option string)) acc :
  Forall (λ kv, plain_name kv.1) l →
  parse_headers (map encode_kv l) acc = Ok (foldl (λ m kv, <[kv.1 := kv.2]> m) acc l).
Proof.
  intros Hl. revert acc. induction Hl as [|kv l Hkv _ IH]; intros acc; simpl; [done|].
  rewrite splitKV_encode by done. destruct Hkv as [Hne _], kv as [name v]; simpl in *.
  by rewrite bool_decide_false.
Qed.

Lemma foldl_insert_map_to_list (m : gmap string (option string)) :
  foldl (λ m kv, <[kv.1 := kv.2]> m) ∅ (map_to_list m) = m.
Proof.
  transitivity (list_to_map (reverse (map_to_list m)) : gmap string (option string)).
  - generalize (map_to_list m). clear m. intros l.
    induction l as [|[k v] l IH] using rev_ind; [done|].
    rewrite foldl_snoc, reverse_snoc, list_to_map_cons, IH. done.
  - symmetry. apply list_to_map_flip. by rewrite reverse_Permutation.
Qed.

Lemma parse_body_encode l acc :
  Forall (λ b, plain_name (bf_Path b)) l →
  parse_body (map (λ b, encode_kv (bf_Path b, bf_Value b)) l) acc = Ok (acc ++ l).
Proof.
  intros Hl. revert acc. induction Hl as [|b l Hb _ IH]; intros acc; simpl;
    [by rewrite app_nil_r|].
  rewrite splitKV_encode by done. destruct Hb as [Hne _].
  rewrite bool_decide_false, IH, <- app_assoc by done. by destruct b.
Qed.

Lemma itoa_ne z : itoa z ≠ "".
Proof.
  destruct (decide (0 ≤ z)%Z).
  - rewrite itoa_nonneg by lia. apply parse_digits_empty_ne.
  - by rewrite itoa_neg by lia.
Qed.

Lemma parse_since_itoa z : (0 ≤ z < 2 ^ 64)%Z → parse_since (itoa z) = Ok z.
Proof.
  intros Hz. unfold parse_since. rewrite bool_decide_false by apply itoa_ne.
  by rewrite parse_uint_itoa.
Qed.

Lemma parse_limit_itoa z : (0 ≤ z < 2 ^ 63)%Z → parse_limit (itoa z) = Ok z.
Proof.
  intros Hz. unfold parse_limit, parse_nonneg. rewrite bool_decide_false by apply itoa_ne.
  rewrite atoi_itoa by (by apply bool_decide_eq_true; lia).
  by rewrite bool_decide_false by lia.
Qed.
End parse_facts.

Section parse_ranges.
Context `{Unicode}.

Lemma parse_since_range v z : parse_since v = Ok z → (0 ≤ z < 2 ^ 64)%Z.
Proof.
  unfold parse_since. case_bool_decide; [by intros [= <-]|].
  destruct (parse_uint v) eqn:Hp; [|done]. intros [= <-]. by apply parse_uint_range in Hp.
Qed.

Lemma parse_limit_range v z : parse_limit v = Ok z → (0 ≤ z < 2 ^ 63)%Z.
Proof.
  unfold parse_limit, parse_nonneg. case_bool_decide; [by intros [= <-]|].
  destruct (atoi v) eqn:Hp; [|done]. apply atoi_range, bool_decide_eq_true in Hp.
  case_bool_decide; [done|]. intros [= <-]. lia.
Qed.

Lemma parse_headers_named l acc hs :
  acc !! "" = None → parse_headers l acc = Ok hs → hs !! "" = None.
Proof.
  revert acc. induction l as [|h l IH]; intros acc Hacc; simpl; [by intros [= <-]|].
  destruct (splitKV h) as [name v]. case_bool_decide; [done|]. apply IH.
  by rewrite lookup_insert_ne.
Qed.

Lemma parse_body_named l acc body :
  Forall (λ b, bf_Path b ≠ "") acc → parse_body l acc = Ok body →
  Forall (λ b, bf_Path b ≠ "") body.
Proof.
  revert acc. induction l as [|h l IH]; intros acc Hacc; simpl; [by intros [= <-]|].
  destruct (splitKV h) as [path v]. case_bool_decide; [done|]. apply IH.
  apply Forall_app. by split; [|constructor].
Qed.

Lemma timeout_range `{GoTime} v d : parseTimeout v = Ok d → (0 ≤ d ≤ maxWaitTimeout)%Z.
Proof.
  unfold parseTimeout, maxWaitTimeout, defaultWaitTimeout, time_Second.
  case_bool_decide; [intros [= <-]; lia|].
  destruct (match time_ParseDuration v with Some _ => _ | None => _ end) as [x|]; [|done].
  simpl. repeat case_bool_decide; intros [= <-]; lia.
Qed.
End parse_ranges.

(** ** Properties *)

(** C15: no wake-up is lost: whenever the waiting request is blocked in its
    select on a channel that is still open, fewer than [n] messages match in the
    buffer as it is now, and the answer it holds is the current one. *)
Theorem wait_no_lost_wakeup `{Json, Gjson, GoFmt} maxSize f n s ch msgs :
  wait_reachable maxSize f n s → w_pc s = WSelect ch msgs →
  channel_closed (w_rb s) ch = false →
  msgs = Query f (w_rb s) ∧ length (Query f (w_rb s)) < n.
Proof. apply wait_blocked. Qed.

Definition blocked_state : wait_state :=
  {| w_pc := WSelect 0 []; w_rb := NewRingBuffer 10; w_timer := false; w_ctx := false |}.

Lemma wait_no_lost_wakeup_witness :
  [] = @Query example_gjson plain_fmt filter_all (NewRingBuffer 10) ∧
  length (@Query example_gjson plain_fmt filter_all (NewRingBuffer 10)) < 1.
Proof.
  apply (@wait_no_lost_wakeup example_json example_gjson plain_fmt 10 filter_all 1
           blocked_state 0 []); [|reflexivity|reflexivity].
  apply (wait_by_step 10 filter_all 1 (at_pc (WQuery 0) blocked_state)).
  - apply (wait_by_step 10 filter_all 1 (at_pc WGrab blocked_state)).
    + exact (wait_init 10 filter_all 1 []).
    + exact (wait_grab filter_all 1 (at_pc WGrab blocked_state) eq_refl).
  - exact (@wait_query_few example_gjson plain_fmt filter_all 1
             (at_pc (WQuery 0) blocked_state) 0 eq_refl (le_n 1)).
Defined.

(** The wait makes progress: once [n] matching messages are there, the
    loop reaches a successful answer with them by its own steps, from anywhere it
    can be except after the timeout; and once the timer has fired it can always
    finish. *)
Theorem wait_progress `{Json, Gjson, GoFmt} maxSize f n s :
  wait_reachable maxSize f n s →
  (n ≤ length (Query f (w_rb s)) → w_pc s ≠ WTimedOut → (∀ msgs ok, w_pc s ≠ WDone msgs ok) →
     rtc (wait_step f n) s (at_pc (WDone (Query f (w_rb s)) true) s)) ∧
  (w_timer s = true → ∃ msgs ok, rtc (wait_step f n) s (at_pc (WDone msgs ok) s)).
Proof. intros Hr. split; [by eapply wait_succeeds|by eapply wait_finishes]. Qed.

Lemma wait_progress_witness :
  ∃ msgs ok, rtc (@wait_step example_gjson plain_fmt filter_all 0)
    (at_pc WGrab blocked_state) (at_pc (WDone msgs ok) (at_pc WGrab blocked_state)).
Proof.
  exists [], true.
  apply (@wait_progress example_json example_gjson plain_fmt 10 filter_all 0
           (at_pc WGrab blocked_state)); [exact (wait_init 10 filter_all 0 [])
    |apply le_n|discriminate|discriminate].
Defined.

(** The answers of the wait: a successful one holds at least [n] messages,
    so a request for more messages than the buffer can hold never succeeds. *)
Theorem wait_capacity `{Json, Gjson, GoFmt} maxSize f n s s' msgs :
  wait_reachable maxSize f n s → wait_step f n s s' → w_pc s' = WDone msgs true →
  msgs = Query f (w_rb s) ∧ n ≤ length msgs ∧ n ≤ ring_size maxSize.
Proof.
  intros Hr Hstep Hpc.
  destruct (wait_success f n s s' msgs Hstep Hpc) as [-> Hn].
  split_and!; [done..|]. etrans; [exact Hn|].
  destruct (wait_reachable_ring _ _ _ _ Hr) as [ops Hops].
  destruct (window_run _ _ _ ops (window_new maxSize)) as (_ & _ & Hm & _).
  etrans; [apply sublist_length, Query_sublist|]. rewrite Hops, Hm, length_last_n. lia.
Qed.

Lemma wait_capacity_witness :
  0 ≤ ring_size 10.
Proof.
  apply (@wait_capacity example_json example_gjson plain_fmt 10 filter_all 0
           (at_pc (WQuery 0) blocked_state) (at_pc (WDone [] true) blocked_state) []);
    [|exact (@wait_query_enough example_gjson plain_fmt filter_all 0
               (at_pc (WQuery 0) blocked_state) 0 eq_refl (le_n 0))|reflexivity].
  apply (wait_by_step 10 filter_all 0 (at_pc WGrab blocked_state)).
  - exact (wait_init 10 filter_all 0 []).
  - exact (wait_grab filter_all 0 (at_pc WGrab blocked_state) eq_refl).
Defined.

(** Query parameters say everything a filter says: parsing the parameters
    a client writes for a filter gives the filter back. *)
Theorem parseFilter_roundtrip `{Unicode} f :
  encodable f → parseFilter (encode_filter f) = Ok f.
Proof.
  intros [Hd Hs Hl Hh Hb]. unfold parseFilter.
  change (url_Get (encode_filter f) "direction") with (f_Direction f).
  rewrite bool_decide_false by (set_unfold; naive_solver).
  change (url_Get (encode_filter f) "since") with (itoa (f_SinceSeq f)).
  rewrite parse_since_itoa by done. simpl.
  change (url_Get (encode_filter f) "limit") with (itoa (f_Limit f)).
  rewrite parse_limit_itoa by done. simpl.
  change (values (encode_filter f) "header") with (map encode_kv (map_to_list (f_Headers f))).
  rewrite parse_headers_encode, foldl_insert_map_to_list; simpl.
  - change (values (encode_filter f) "body")
      with (map (λ b, encode_kv (bf_Path b, bf_Value b)) (f_Body f)).
    rewrite parse_body_encode by (by apply Forall_forall). by destruct f.
  - apply Forall_forall. intros [name v] Hkv%elem_of_map_to_list. eauto.
Qed.

Definition example_filter : Filter :=
  {| f_Queue := "orders"; f_Exchange := ""; f_RoutingKey := "order.*"; f_Direction := "received";
     f_Rule := ""; f_Headers := {[ "x-id" := Some "a=b"; "x-any" := None ]};
     f_Body := [{| bf_Path := "order.id"; bf_Value := Some "7" |}];
     f_SinceSeq := 42; f_Limit := 10 |}.

Lemma parseFilter_roundtrip_witness :
  @parseFilter example_unicode (encode_filter example_filter) = Ok example_filter.
Proof.
  apply parseFilter_roundtrip. split.
  - apply (bool_decide_unpack _). vm_compute. reflexivity.
  - vm_compute. split; [discriminate|reflexivity].
  - vm_compute. split; [discriminate|reflexivity].
  - apply (bool_decide_unpack (map_Forall (λ name _, plain_name name)
             (f_Headers example_filter))). vm_compute. reflexivity.
  - intros b ->%list_elem_of_singleton. split; [discriminate|reflexivity].
Defined.

(** Every filter that parsing accepts is well formed: a known direction,
    numbers in range and no empty header or path name. *)
Theorem parseFilter_valid `{Unicode} q f :
  parseFilter q = Ok f →
  f_Direction f ∈ [""; DirectionReceived; DirectionPublished] ∧
  (0 ≤ f_SinceSeq f < 2 ^ 64)%Z ∧ (0 ≤ f_Limit f < 2 ^ 63)%Z ∧
  f_Headers f !! "" = None ∧ Forall (λ b, bf_Path b ≠ "") (f_Body f).
Proof.
  unfold parseFilter. case_bool_decide as Hd; [done|].
  destruct (parse_since _) as [since|] eqn:Hs; [|done]; simpl.
  destruct (parse_limit _) as [limit|] eqn:Hl; [|done]; simpl.
  destruct (parse_headers _ _) as [hs|] eqn:Hh; [|done]; simpl.
  destruct (parse_body _ _) as [body|] eqn:Hb; [|done]; simpl.
  intros [= <-]; simpl. split_and!.
  - rewrite !elem_of_cons, elem_of_nil.
    destruct (decide (url_Get q "direction" = "")); [by left|].
    destruct (decide (url_Get q "direction" = DirectionReceived)); [by right; left|].
    right; right; left. destruct (decide (url_Get q "direction" = DirectionPublished)); tauto.
  - by apply parse_since_range in Hs as [].
  - by apply parse_since_range in Hs as [].
  - by apply parse_limit_range in Hl as [].
  - by apply parse_limit_range in Hl as [].
  - eapply parse_headers_named; [|done]. done.
  - eapply parse_body_named; [|done]. constructor.
Qed.

Lemma parseFilter_valid_witness :
  (0 ≤ f_SinceSeq example_filter < 2 ^ 64)%Z.
Proof.
  apply (@parseFilter_valid example_unicode (encode_filter example_filter) example_filter).
  vm_compute. reflexivity.
Defined.

(** However it is written, an accepted timeout is between zero and the cap
    of sixty seconds; an absent one is five seconds. *)
Theorem parseTimeout_bounds `{Unicode, GoTime} v d :
  parseTimeout v = Ok d →
  (0 ≤ d ≤ maxWaitTimeout)%Z ∧ (v = "" → d = defaultWaitTimeout).
Proof.
  intros Hd. split; [by apply timeout_range in Hd|]. intros ->. unfold parseTimeout in Hd.
  by injection Hd.
Qed.

Definition example_time : GoTime :=
  {| time_ParseDuration s := n ← atoi s; Some (n * time_Second)%Z;
     strconv_ParseFloat s := None; duration_of_seconds _ := 0%Z |}.

Lemma parseTimeout_bounds_witness :
  (0 ≤ maxWaitTimeout ≤ maxWaitTimeout)%Z.
Proof.
  apply (@parseTimeout_bounds example_unicode example_time "3600" maxWaitTimeout).
  vm_compute. reflexivity.
Defined.

(** The methods of /messages: reading never changes the buffer and answers
    200 with the query's result, or 400 when a parameter is wrong, or waits with
    the unlimited filter; DELETE clears; any other method is refused with 405. *)
Theorem handleMessages_correct `{Unicode, GoTime, Gjson, GoFmt} method q rb :
  match handleMessages method q rb with
  | Respond r rb' =>
    (rb' = rb ∧
       (h_Status r = StatusMethodNotAllowed ∧ method ≠ "GET" ∧ method ≠ "DELETE" ∨
        h_Status r = StatusBadRequest ∧ method = "GET" ∨
        method = "GET" ∧ ∃ f, parseFilter q = Ok f ∧
          r = messages_response StatusOK (Query f rb))) ∨
    (method = "DELETE" ∧ h_Status r = StatusOK ∧ rb_messages rb' = [] ∧
       rb_nextSeq rb' = rb_nextSeq rb)
  | Wait f wf n timeout =>
    method = "GET" ∧ parseFilter q = Ok f ∧ wf = set_limit 0 f ∧ (0 ≤ n)%Z ∧
    (0 ≤ timeout ≤ maxWaitTimeout)%Z
  end.
Proof.
  unfold handleMessages. case_bool_decide as Hget; [|case_bool_decide as Hdel; simpl].
  - destruct (parseFilter q) as [f|e] eqn:Hf; [|left; simpl; eauto 10].
    case_bool_decide; [|left; eauto 10].
    destruct (parse_nonneg _ _) as [n|e] eqn:Hn; simpl; [|left; eauto 10].
    destruct (parseTimeout _) as [t|e] eqn:Ht; simpl; [|left; eauto 10].
    apply timeout_range in Ht. split_and!; [done..| |lia|lia].
    unfold parse_nonneg in Hn. destruct (atoi _); [|done]. case_bool_decide; simplify_eq. lia.
  - right. split_and!; done.
  - left. split; [done|]. left. split_and!; done.
Qed.

(** A whole number of seconds may be written with or without its unit: [5] and
    [5s] are the same timeout, exact to the nanosecond and cut to the cap of sixty
    seconds; milliseconds likewise. *)
Theorem timeout_spellings `{Unicode} oob n :
  let _ := go_time oob in
  (0 < n ≤ 9000000)%Z →
  parseTimeout (itoa n) = Ok (Z.min (n * time_Second) maxWaitTimeout) ∧
  parseTimeout (itoa n +:+ "s") = Ok (Z.min (n * time_Second) maxWaitTimeout) ∧
  parseTimeout (itoa n +:+ "ms") = Ok (Z.min (n * 1000000) maxWaitTimeout).
Proof.
  intros T Hn.
  assert (∀ v d, v ≠ "" → (0 ≤ d)%Z →
    time_ParseDuration v = Some d ∨
      (time_ParseDuration v = None ∧ ∃ f, strconv_ParseFloat v = Some f ∧ duration_of_seconds f = d) →
    parseTimeout v = Ok (Z.min d maxWaitTimeout)) as Hrun.
  { intros v d Hv Hd Hp. unfold parseTimeout. rewrite bool_decide_false by done.
    assert ((if bool_decide (maxWaitTimeout < d)%Z then Ok maxWaitTimeout else Ok d : result string Z)
            = Ok (Z.min d maxWaitTimeout)) as Hmin.
    { case_bool_decide; f_equal; lia. }
    destruct Hp as [->|(-> & f & -> & ->)]; simpl; by rewrite bool_decide_false by lia. }
  destruct (itoa_pos n ltac:(lia)) as (c & t & Heq & _).
  unfold time_Second. split_and!; apply Hrun; try lia; try (by rewrite Heq).
  - right. split; [apply ParseDuration_itoa; rewrite two63_tenth; lia|]. exists (read_decimal false n 0).
    split; [apply ParseFloat_itoa; lia|]. apply seconds_int; lia.
  - left. by apply (ParseDuration_unit _ "s" 1000000000); rewrite ?two63_tenth; try done; unfold two63; lia.
  - left. by apply (ParseDuration_unit _ "ms" 1000000); rewrite ?two63_tenth; try done; unfold two63; lia.
Qed.

Lemma timeout_spellings_witness :
  let _ := go_time (λ _, 0%Z) in
  @parseTimeout example_unicode (go_time (λ _, 0%Z)) "90" = Ok maxWaitTimeout ∧
  @parseTimeout example_unicode (go_time (λ _, 0%Z)) "90s" = Ok maxWaitTimeout ∧
  @parseTimeout example_unicode (go_time (λ _, 0%Z)) "90ms" = Ok 90000000%Z.
Proof. exact (@timeout_spellings example_unicode (λ _, 0%Z) 90 ltac:(lia)). Defined.
