(* ===== verification/SpyHttp.v ===== *)
(** * The spy's REST server (pkg/spy/server.go, lines 267-362 and the encodings)

    The JSON the API writes, the Server with its hooks, and the dispatch of a
    request to its handler. *)
From S2P Require Import Prelude GoStrings GoValue Libs Utf8 Decimal JsonText JsonCodec Clock Config Broker Ring SpyServer.
From Stdlib Require Import SpecFloat.

(** ** What is written to the client *)

Definition newline : string := String (byte 10) "".

(** A field of a struct: its name and its encoding. *)
Definition field (name : string) (v : result string json) : result string (string * json) :=
  pair (escape name) <$> v.
(** [omitempty] *)
Definition str_field_opt (name v : string) : list (result string (string * json)) :=
  if bool_decide (v = "") then [] else [field name (enc_string v)].

(** A time's MarshalJSON, which has no room for years of five digits. *)
Definition enc_time (ns : Z) : encoded :=
  if bool_decide (0 ≤ year_of ns ≤ 9999)%Z then Ok (JStr (rfc3339_nano ns))
  else Err "json: error calling MarshalJSON for type time.Time: Time.MarshalJSON: year outside of range [0,9999]".

Section encoding.
Context `{JsonTypes}.

(** The fields of a CapturedMessage by their json tags, in the struct's order. *)
Definition message_fields (m : CapturedMessage) : list (result string (string * json)) :=
  [field "seq" (enc_int (cm_Seq m)); field "timestamp" (enc_time (cm_Timestamp m));
   field "direction" (enc_string (cm_Direction m)); field "queue" (enc_string (cm_Queue m))] ++
  str_field_opt "exchange" (cm_Exchange m) ++
  [field "routing_key" (enc_string (cm_RoutingKey m))] ++
  str_field_opt "rule" (cm_Rule m) ++ str_field_opt "message_id" (cm_MessageID m) ++
  [field "body" (encode (cm_Body m));
   field "headers" (encode (VMap false (map_to_list (cm_Headers m))))].

Definition encode_message (m : CapturedMessage) : encoded := JObj <$> seqR (message_fields m).

(** A [map[string]interface{}], by its keys. *)
Definition encode_object (fields : list (string * encoded)) : encoded :=
  JObj <$> seqR (map (λ kv, field kv.1 kv.2) (sort_keyed fields)).

Definition encode_body (b : http_body) : encoded :=
  match b with
  | BMessages l => JArr <$> seqR (map encode_message l)
  | BError msg => Ok (JObj [(escape "error", JStr (escape msg))])
  | BText msg => enc_string msg
  | BObject fields => encode_object fields
  | BValue v => v
  end.

(** What the connection carries: an encoder that fails writes nothing, and its
    error is dropped; the status has been sent before. *)
Record wire := { wr_Status : Z; wr_Headers : list (string * string); wr_Body : string }.

Definition wire_body (b : http_body) : string :=
  match b with
  | BText msg => msg +:+ newline
  | _ => match encode_body b with Ok j => print_json j +:+ newline | Err _ => "" end
  end.

Definition wire_type (b : http_body) : string :=
  match b with BText _ => "text/plain; charset=utf-8" | _ => "application/json" end.

(** [http.Error] adds a header to its texts. *)
Definition wire_headers (b : http_body) : list (string * string) :=
  ("Content-Type", wire_type b) ::
  match b with BText _ => [("X-Content-Type-Options", "nosniff")] | _ => [] end.

Definition write_response (r : http_response) : wire :=
  {| wr_Status := h_Status r;
     wr_Headers := wire_headers (h_Body r) ++
       match h_Count r with Some n => [("X-Chitchat-Count", n)] | None => [] end;
     wr_Body := wire_body (h_Body r) |}.
End encoding.

(** ** The server

    Its hooks read and change what the main program shares with it, a world [W];
    the buffer is normally part of that world (the engine records into it), unless
    NewServer had to make one. *)

Class SharedBuffer (W : Type) := {
  get_buffer : W → RingBuffer;
  set_buffer : RingBuffer → W → W;
  has_buffer : W → Prop;
  get_set_buffer rb w : has_buffer w → get_buffer (set_buffer rb w) = rb;
  set_get_buffer w : set_buffer (get_buffer w) w = w;
}.
#[export] Instance buffer_itself : SharedBuffer RingBuffer.
Proof.
  refine {| get_buffer rb := rb; set_buffer rb _ := rb; has_buffer _ := True |}; done.
Defined.

Inductive buffer_ref := BufShared | BufOwn (rb : RingBuffer).

Section server.
Context {W : Type} `{SharedBuffer W}.

Record Server := {
  s_buffer : buffer_ref;
  s_host : string;
  s_port : Z;
  s_Addr : string;
  s_listening : bool;
  s_rules : option (W → encoded);
  s_reloader : option (W → result string encoded * W);
}.

(** [buffer] is nil or the shared one. *)
Definition NewServer (port : Z) (buffer : option buffer_ref) : Server :=
  let port := if bool_decide (port ≤ 0)%Z then 8082%Z else port in
  {| s_buffer := default (BufOwn (NewRingBuffer 1000)) buffer;
     s_host := ""; s_port := port; s_Addr := ":" +:+ itoa port; s_listening := false;
     s_rules := None; s_reloader := None |}.

Definition WithHost (host : string) (s : Server) : Server :=
  {| s_buffer := s_buffer s; s_host := host; s_port := s_port s; s_Addr := s_Addr s;
     s_listening := s_listening s; s_rules := s_rules s; s_reloader := s_reloader s |}.

Definition SetRulesProvider (p : W → encoded) (s : Server) : Server :=
  {| s_buffer := s_buffer s; s_host := s_host s; s_port := s_port s; s_Addr := s_Addr s;
     s_listening := s_listening s; s_rules := Some p; s_reloader := s_reloader s |}.

Definition SetReloader (r : W → result string encoded * W) (s : Server) : Server :=
  {| s_buffer := s_buffer s; s_host := s_host s; s_port := s_port s; s_Addr := s_Addr s;
     s_listening := s_listening s; s_rules := s_rules s; s_reloader := Some r |}.

Definition Port (s : Server) : Z := s_port s.
Definition Buffer (s : Server) (w : W) : RingBuffer :=
  match s_buffer s with BufShared => get_buffer w | BufOwn rb => rb end.
Definition put_buffer (rb : RingBuffer) (s : Server) (w : W) : Server * W :=
  match s_buffer s with
  | BufShared => (s, set_buffer rb w)
  | BufOwn _ =>
    ({| s_buffer := BufOwn rb; s_host := s_host s; s_port := s_port s; s_Addr := s_Addr s;
        s_listening := s_listening s; s_rules := s_rules s; s_reloader := s_reloader s |}, w)
  end.

(** ** Start and Stop *)

Definition JoinHostPort (host port : string) : string :=
  if has_byte ":" host || has_byte "%" host then "[" +:+ host +:+ "]:" +:+ port
  else host +:+ ":" +:+ port.

Definition set_listening (port : Z) (l : bool) (s : Server) : Server :=
  {| s_buffer := s_buffer s; s_host := s_host s; s_port := port; s_Addr := s_Addr s;
     s_listening := l; s_rules := s_rules s; s_reloader := s_reloader s |}.

(** [listen] is [net.Listen("tcp", addr)]: the port bound, or an error. *)
Definition server_Start (listen : string → result string Z) (s : Server) : result string Server :=
  let addr := JoinHostPort (s_host s) (itoa (s_port s)) in
  match listen addr with
  | Err e => Err ("failed to bind spy server to " +:+ addr +:+ ": " +:+ e)
  | Ok port => Ok (set_listening port true s)
  end.

(** [Shutdown] closes the listener at once; [drain] is whether the requests in
    flight ended in time. *)
Definition server_Stop (drain : option string) (s : Server) : option string * Server :=
  (drain, set_listening (s_port s) false s).

(** ** Requests *)

(** [q_Path] is a clean path: others are redirected by the library's mux. *)
Record request := { q_Method : string; q_Path : string; q_Query : url_Values }.

Inductive endpoint := EMessages | EClear | EHealth | ERules | EReload.

(** The patterns of the mux have no trailing slash: a path is matched exactly. *)
Definition mux (path : string) : option endpoint :=
  if bool_decide (path = "/_chitchat/messages") then Some EMessages
  else if bool_decide (path = "/_chitchat/clear") then Some EClear
  else if bool_decide (path = "/_chitchat/health") then Some EHealth
  else if bool_decide (path = "/_chitchat/rules") then Some ERules
  else if bool_decide (path = "/_chitchat/reload") then Some EReload
  else None.

Definition not_found : http_response :=
  {| h_Status := 404; h_Count := None; h_Body := BText "404 page not found" |}.

(** A request is answered, or goes on waiting for messages. *)
Inductive reply :=
| Answered (r : http_response) (s : Server) (w : W)
| Waiting (filter waitFilter : Filter) (n timeout : Z).

Section serve.
Context `{Unicode, GoTime, Gjson, GoFmt}.

Definition serve (s : Server) (w : W) (q : request) : reply :=
  match mux (q_Path q) with
  | None => Answered not_found s w
  | Some EMessages =>
    match handleMessages (q_Method q) (q_Query q) (Buffer s w) with
    | Respond r rb => let '(s', w') := put_buffer rb s w in Answered r s' w'
    | Wait f wf n timeout => Waiting f wf n timeout
    end
  | Some EClear =>
    let '(r, rb) := handleClear (q_Method q) (Buffer s w) in
    let '(s', w') := put_buffer rb s w in Answered r s' w'
  | Some EHealth => Answered (handleHealth (Buffer s w)) s w
  | Some ERules => Answered (handleRules (q_Method q) ((λ p, p w) <$> s_rules s)) s w
  | Some EReload =>
    let '(r, w') := handleReload (q_Method q) (s_reloader s) w in Answered r s w'
  end.
End serve.
End server.
Arguments Server W : clear implicits.
Arguments reply W : clear implicits.

(** ** Effects of requests *)

Section serve_facts.
Context {W : Type} `{SharedBuffer W} `{Unicode, GoTime, Gjson, GoFmt}.

Lemma put_same (s : Server W) (w : W) : put_buffer (Buffer s w) s w = (s, w).
Proof.
  unfold put_buffer, Buffer. destruct s as [[|rb] h p a l rs rl]; simpl; [|done].
  by rewrite set_get_buffer.
Qed.

Lemma mux_path path e : mux path = Some e →
  path = match e with
         | EMessages => "/_chitchat/messages" | EClear => "/_chitchat/clear"
         | EHealth => "/_chitchat/health" | ERules => "/_chitchat/rules"
         | EReload => "/_chitchat/reload"
         end.
Proof. unfold mux. repeat case_bool_decide; by intros [= <-]. Qed.

(** The two requests that empty the buffer. *)
Definition clears (q : request) : Prop :=
  (q_Path q = "/_chitchat/messages" ∧ q_Method q = "DELETE") ∨
  (q_Path q = "/_chitchat/clear" ∧ q_Method q = "POST").
Definition reloads (q : request) : Prop :=
  q_Path q = "/_chitchat/reload" ∧ q_Method q = "POST".

Lemma serve_outcome s w q :
  match serve s w q with
  | Waiting f wf n timeout =>
    q_Path q = "/_chitchat/messages" ∧ q_Method q = "GET" ∧ parseFilter (q_Query q) = Ok f
  | Answered r s' w' =>
    (¬ clears q ∧ (reloads q → s_reloader s = None) ∧ s' = s ∧ w' = w) ∨
    (clears q ∧ h_Status r = StatusOK ∧ (s', w') = put_buffer (ring_Clear (Buffer s w)).2 s w) ∨
    (reloads q ∧ s' = s ∧ ∃ reload, s_reloader s = Some reload ∧ w' = (reload w).2)
  end.
Proof.
  unfold serve, clears, reloads. destruct (mux (q_Path q)) as [e|] eqn:Hm.
  2:{ left. split_and!; try done; [|intros [Hp _]; by rewrite Hp in Hm].
      intros [[Hp _]|[Hp _]]; by rewrite Hp in Hm. }
  apply mux_path in Hm. rewrite Hm. destruct e.
  - unfold handleMessages. destruct (decide (q_Method q = "GET")) as [->|Hget].
    + rewrite bool_decide_true by done. destruct (parseFilter (q_Query q)) as [f|e].
      2:{ rewrite put_same. left. naive_solver. }
      case_bool_decide; [|rewrite put_same; left; naive_solver].
      destruct (parse_nonneg _ _) as [n|e]; simpl; [|rewrite put_same; left; naive_solver].
      destruct (parseTimeout _) as [t|e]; simpl; [done|rewrite put_same; left; naive_solver].
    + rewrite bool_decide_false by done.
      destruct (decide (q_Method q = "DELETE")) as [->|Hdel].
      * rewrite bool_decide_true by done. unfold handleClear2.
        destruct (ring_Clear (Buffer s w)) as [n rb] eqn:Hc. simpl.
        destruct (put_buffer rb s w) as [s' w'] eqn:Hp. right; left. naive_solver.
      * rewrite bool_decide_false, put_same by done. left. naive_solver.
  - unfold handleClear. case_bool_decide as Hpost; [rewrite put_same; left; naive_solver|].
    unfold handleClear2. destruct (ring_Clear (Buffer s w)) as [n rb] eqn:Hc. simpl.
    destruct (put_buffer rb s w) as [s' w'] eqn:Hp. right; left.
    naive_solver.
  - left. naive_solver.
  - left. naive_solver.
  - unfold handleReload. case_bool_decide as Hpost; [left; naive_solver|].
    destruct (s_reloader s) as [reload|] eqn:Hr.
    + destruct (reload w) as [[v|e] w'] eqn:Hrun; right; right; split_and!; try done;
        exists reload; by rewrite Hrun.
    + left. naive_solver.
Qed.
End serve_facts.

(** ** Encoded messages *)

Section message_facts.
Context `{JsonTypes}.

Lemma seqR_ok {E A} (l : list (result E A)) ys : seqR l = Ok ys ↔ Forall2 (λ x y, x = Ok y) l ys.
Proof. rewrite <- (seqR_map id l ys). by rewrite map_id. Qed.

(** A message whose headers cannot be encoded takes the whole answer with it. *)
Lemma bad_message l m :
  m ∈ l → ¬ encodes (VMap false (map_to_list (cm_Headers m))) → wire_body (BMessages l) = "".
Proof.
  intros Hm Hbad. unfold wire_body. cbn [encode_body].
  destruct (seqR (map encode_message l)) as [js|] eqn:Hs; [exfalso|done].
  apply seqR_map in Hs. apply list_elem_of_lookup in Hm as [i Hi].
  destruct (Forall2_lookup_l _ _ _ _ _ Hs Hi) as (j & _ & Hj).
  unfold encode_message in Hj. destruct (seqR (message_fields m)) as [fs|] eqn:Hf; [|done].
  apply seqR_ok in Hf. apply Hbad.
  assert (field "headers" (encode (VMap false (map_to_list (cm_Headers m)))) ∈ message_fields m) as Hin.
  { unfold message_fields. rewrite !elem_of_app. right. right. right. right. right. right. by left. }
  apply list_elem_of_lookup in Hin as [k Hk].
  destruct (Forall2_lookup_l _ _ _ _ _ Hf Hk) as (y & _ & Hy). cbv beta in Hy.
  unfold field in Hy. destruct (encode _) as [jh|] eqn:He; [by exists jh|done].
Qed.
End message_facts.

(** ** What a client reads *)

Section client.
Context `{JsonTypes}.

Definition headers_value (m : CapturedMessage) : value := VMap false (map_to_list (cm_Headers m)).

(** A message an answer can show: a sequence number a double holds exactly, a time
    with a year of four digits, a body and headers that can be encoded and leave
    the answer within the nesting a decoder accepts. *)
Record presentable (m : CapturedMessage) : Prop := {
  ps_seq : (0 ≤ cm_Seq m < 2 ^ 53)%Z;
  ps_year : (0 ≤ year_of (cm_Timestamp m) ≤ 9999)%Z;
  ps_body : encodes (cm_Body m) ∧ doubles_ok (cm_Body m) = true ∧
            2 + value_depth (cm_Body m) ≤ max_depth;
  ps_headers : encodes (headers_value m) ∧ doubles_ok (headers_value m) = true ∧
               2 + value_depth (headers_value m) ≤ max_depth;
}.

(** An arrival whose captured message is one: whatever the body is, if it nests less
    deep than the decoder allows by two. *)
Record readable (seq now : Z) (msg : Message) : Prop := {
  rd_seq : (0 ≤ seq < 2 ^ 53)%Z;
  rd_year : (0 ≤ year_of now ≤ 9999)%Z;
  rd_body : 2 + text_depth (m_Body msg) ≤ max_depth;
  rd_headers : let v := VMap false (map_to_list (normalizeHeaders (m_Headers msg))) in
               encodes v ∧ doubles_ok v = true ∧ 2 + value_depth v ≤ max_depth;
}.

Lemma decode_body_value body :
  let v := @decode_body go_json body in
  encodes v ∧ doubles_ok v = true ∧ value_depth v ≤ text_depth body.
Proof.
  assert (∀ s, let v := VString s in encodes v ∧ doubles_ok v = true ∧ value_depth v ≤ text_depth body)
    as Hs by (intros s; split_and!; [by eexists|done|simpl; lia]).
  unfold decode_body. simpl. case_bool_decide; [|apply Hs].
  pose proof (Unmarshal_json_value body). pose proof (Unmarshal_depth body).
  destruct (Unmarshal body) as [v []]; [|apply Hs].
  split_and!; [by apply json_value_encodes|by apply json_value_doubles|done].
Qed.

Lemma readable_presentable seq now msg :
  readable seq now msg → presentable (@capture go_json seq now msg).
Proof.
  intros [Hseq Hyear Hbody Hheaders]. destruct (decode_body_value (m_Body msg)) as (He & Hv & Hd).
  split; [done|done| |done]. cbn [cm_Body capture]. split_and!; [done|done|lia].
Qed.

Definition text_field_opt (name v : string) : list (string * value) :=
  if bool_decide (v = "") then [] else [(name, VString (to_valid v))].

(** The object a client decodes for [m]; [seq] is its number as a double. *)
Definition message_view (m : CapturedMessage) : value :=
  VMap false
    ([("seq", VFloat64 (read_number (number_of_Z (cm_Seq m))));
      ("timestamp", VString (rfc3339_nano (cm_Timestamp m)));
      ("direction", VString (to_valid (cm_Direction m)));
      ("queue", VString (to_valid (cm_Queue m)))] ++
     text_field_opt "exchange" (cm_Exchange m) ++
     [("routing_key", VString (to_valid (cm_RoutingKey m)))] ++
     text_field_opt "rule" (cm_Rule m) ++ text_field_opt "message_id" (cm_MessageID m) ++
     [("body", seen (cm_Body m)); ("headers", seen (headers_value m))]).

Lemma pad_plain w n : (0 ≤ n)%Z → all_bytes is_digit (pad w n) = true.
Proof.
  intros Hn. unfold pad. rewrite all_bytes_app, zeros_digits. simpl.
  by apply digits_all, digits_value_itoa.
Qed.

Lemma digits_plain s : all_bytes is_digit s = true → all_bytes plain_ascii s = true.
Proof.
  induction s as [|c s IH]; [done|]. cbn. intros [Hc Hs]%andb_prop. rewrite IH by done.
  assert (plain_ascii c = true) as ->; [|done].
  destruct c as [[] [] [] [] [] [] [] []]; done.
Qed.

Lemma strip_zeros_digits s : all_bytes is_digit s = true → all_bytes is_digit (strip_zeros s) = true.
Proof.
  induction s as [|c s IH]; [done|]. cbn. intros [Hc Hs]%andb_prop. specialize (IH Hs).
  destruct (strip_zeros s) as [|d t]; [|cbn in *; by rewrite Hc].
  case_bool_decide; [done|]. cbn. by rewrite Hc.
Qed.

(** A time of the years 0 to 9999 is written with digits and punctuation. *)
Lemma rfc3339_nano_plain ns :
  (0 ≤ year_of ns)%Z → all_bytes plain_ascii (rfc3339_nano ns) = true.
Proof.
  unfold rfc3339_nano, rfc3339_date, year_of. destruct (civil _) as [[y m] d] eqn:Hc.
  cbn [fst]. intros Hy.
  assert (0 ≤ m ∧ 0 ≤ d)%Z as [Hm Hd].
  { unfold civil in Hc. injection Hc as _ <- <-.
    set (z := (_ / 86400 + 719468)%Z). set (doe := (z mod 146097)%Z).
    assert (0 ≤ doe < 146097)%Z by (subst doe; apply Z.mod_pos_bound; lia). clearbody doe.
    split; [case_match; Z.to_euclidean_division_equations; lia|].
    Z.to_euclidean_division_equations; lia. }
  pose proof (Z.mod_pos_bound (ns / 1000000000) 86400 ltac:(lia)) as Ht.
  set (t := ((ns / 1000000000) mod 86400)%Z) in *.
  assert (∀ w n, (0 ≤ n)%Z → all_bytes plain_ascii (pad w n) = true) as Hpad
    by (intros; by apply digits_plain, pad_plain).
  rewrite !all_bytes_app, !Hpad;
    [|by (apply Z.mod_pos_bound; lia)|by (apply Z.mod_pos_bound; lia)|by (apply Z.div_pos; lia)|done..].
  case_bool_decide; [done|]. rewrite all_bytes_app.
  assert (all_bytes plain_ascii (strip_zeros (pad 9 (ns mod 1000000000))) = true) as ->; [|done].
  apply digits_plain, strip_zeros_digits, pad_plain. apply Z.mod_pos_bound. lia.
Qed.
Lemma message_encodes m :
  presentable m →
  ∃ j, encode_message m = Ok j ∧ wf_json j ∧ 1 + depth j ≤ max_depth ∧ (decode j).1 = message_view m.
Proof.
  intros [Hseq Hyear ([jb Hb] & Hbd & Hbn) ([jh Hh] & Hhd & Hhn)].
  destruct (encode_faithful _ _ Hbd Hb) as (Hbw & Hbdep & Hbdec).
  destruct (encode_faithful _ _ Hhd Hh) as (Hhw & Hhdep & Hhdec).
  destruct (plain_ascii_text _ (rfc3339_nano_plain (cm_Timestamp m) (proj1 Hyear))) as [Htr Htu].
  destruct (read_number_of_Z (cm_Seq m) ltac:(lia)) as [Hfi _].
  assert (is_finite (read_number (number_of_Z (cm_Seq m))) = true) as Hfin.
  { by destruct (read_number (number_of_Z (cm_Seq m))) as [[]|[]| |]. }
  unfold encode_message, message_fields, enc_time, message_view, text_field_opt, str_field_opt,
    headers_value, seen in *.
  rewrite bool_decide_true by lia. rewrite Hb, Hh.
  set (fs := [("seq", JNum (number_of_Z (cm_Seq m))); ("timestamp", JStr (rfc3339_nano (cm_Timestamp m)));
    ("direction", JStr (escape (cm_Direction m))); ("queue", JStr (escape (cm_Queue m)))] ++
    (if bool_decide (cm_Exchange m = "") then [] else [("exchange", JStr (escape (cm_Exchange m)))]) ++
    [("routing_key", JStr (escape (cm_RoutingKey m)))] ++
    (if bool_decide (cm_Rule m = "") then [] else [("rule", JStr (escape (cm_Rule m)))]) ++
    (if bool_decide (cm_MessageID m = "") then [] else [("message_id", JStr (escape (cm_MessageID m)))]) ++
    [("body", jb); ("headers", jh)]).
  exists (JObj fs).
  assert (Forall (λ kv, raw_ok kv.1 ∧ wf_json kv.2 ∧ 2 + depth kv.2 ≤ max_depth) fs) as Hfs.
  { assert (2 ≤ max_depth) by lia.
    assert (∀ k s, raw_ok k → raw_ok k ∧ wf_json (JStr (escape s)) ∧
      2 + depth (JStr (escape s)) ≤ max_depth) as Hstr.
    { intros k s Hk. split_and!; [done|constructor; apply escape_ok|done]. }
    assert (∀ s, all_bytes plain_ascii s = true → raw_ok s) as Hk by (intros; by apply plain_ascii_text).
    subst fs. rewrite !Forall_app. split_and!; repeat (case_bool_decide || constructor);
      cbn [fst snd]; try (by apply Hk); try (by apply escape_ok); try lia; try done;
      try (by apply number_of_Z_ok). }
  assert (∀ s, unquote (escape s) = to_valid s) as Hu by apply unquote_escape.
  split_and!.
  - subst fs. by repeat case_bool_decide.
  - constructor. eapply Forall_impl; [exact Hfs|naive_solver].
  - cbn [depth]. enough (max_list (map (λ kv, depth kv.2) fs) ≤ max_depth - 2) by lia.
    apply (max_list_bound (λ kv, depth kv.2)). eapply Forall_impl; [exact Hfs|].
    intros kv (_ & _ & ?). lia.
  - subst fs. cbn [decode]. cbv zeta.
    repeat case_bool_decide; cbn [app map fst snd decode];
      rewrite ?Hu, ?Htu, ?Hfin, ?Hbdec, ?Hhdec; reflexivity.
Qed.

(** The text of the messages endpoint, decoded. *)
Lemma messages_text l :
  Forall presentable l →
  ∃ text, wire_body (BMessages l) = text ∧ text ≠ "" ∧ Valid text = true ∧
    (Unmarshal text).1 = VSlice (map message_view l).
Proof.
  intros HF. assert (∃ js, seqR (map encode_message l) = Ok js ∧
    Forall2 (λ m j, wf_json j ∧ 1 + depth j ≤ max_depth ∧ (decode j).1 = message_view m) l js)
    as (js & Hjs & Hspec).
  { induction HF as [|m l Hm _ (js & Hjs & IH)]; [by exists []|].
    destruct (message_encodes m Hm) as (j & Hj & Hspec). exists (j :: js). split.
    - simpl. by rewrite Hj, Hjs.
    - by constructor. }
  eexists. split; [done|]. unfold wire_body. cbn [encode_body]. rewrite Hjs.
  cbn [fmap result_fmap].
  assert (parse_json (print_json (JArr js) +:+ newline) = Some (JArr js)) as Hp.
  { unfold parse_json. rewrite parse_print; [done| | |done].
    - constructor. eapply Forall2_r, Hspec. naive_solver.
    - cbn [depth]. destruct l as [|m l].
      + inversion Hspec. simpl. destruct max_depth eqn:Hmd; [|lia]. exfalso. by apply max_depth_pos.
      + assert (1 ≤ max_depth) by (inversion Hspec; naive_solver lia).
        enough (max_list (map depth js) ≤ max_depth - 1) by lia.
        apply max_list_bound. eapply Forall2_r, Hspec. naive_solver lia. }
  split_and!.
  - cbn [print_json]. by destruct (join _ _).
  - unfold Valid. by rewrite Hp.
  - unfold Unmarshal. rewrite Hp. cbn [decode]. cbv zeta. cbn [fst]. f_equal.
    rewrite map_map. symmetry. eapply Forall2_map_eq, Hspec. naive_solver.
Qed.
End client.

(** ** Properties *)

(** The methods an endpoint accepts. *)
Definition accepts (e : endpoint) (method : string) : Prop :=
  match e with
  | EMessages => method = "GET" ∨ method = "DELETE"
  | EClear | EReload => method = "POST"
  | EHealth => True
  | ERules => method = "GET"
  end.

Lemma serve_status {W} `{SharedBuffer W} `{Unicode, GoTime, Gjson, GoFmt} (s : Server W) w q r s' w' :
  serve s w q = Answered r s' w' →
  (mux (q_Path q) = None ∧ h_Status r = 404%Z) ∨
  ∃ e, mux (q_Path q) = Some e ∧
    ((accepts e (q_Method q) ∧ h_Status r ∈ [StatusOK; StatusBadRequest; StatusNotImplemented]) ∨
     (¬ accepts e (q_Method q) ∧ h_Status r = StatusMethodNotAllowed)).
Proof.
  unfold serve. destruct (mux (q_Path q)) as [e|]; [|intros [= <- _ _]; by left].
  intros Hs. right. exists e. split; [done|]. revert Hs. destruct e; unfold accepts.
  - unfold handleMessages, handleClear2. destruct (decide (q_Method q = "GET")) as [Hg|Hg];
      [rewrite (bool_decide_true _ Hg)|rewrite (bool_decide_false _ Hg);
       destruct (decide (q_Method q = "DELETE")) as [Hd|Hd];
       [rewrite (bool_decide_true _ Hd)|rewrite (bool_decide_false _ Hd)]].
    + destruct (parseFilter _) as [f|]; [case_bool_decide|].
      * destruct (parse_nonneg _ _); [destruct (parseTimeout _)|]; simpl; try done;
          destruct (put_buffer _ s w); intros [= <- _ _]; left; set_solver.
      * destruct (put_buffer _ s w); intros [= <- _ _]; left; set_solver.
      * destruct (put_buffer _ s w); intros [= <- _ _]; left; set_solver.
    + destruct (ring_Clear _). destruct (put_buffer _ s w); intros [= <- _ _]; left; set_solver.
    + destruct (put_buffer _ s w); intros [= <- _ _]; right. split; [by intros []|done].
  - unfold handleClear, handleClear2. case_bool_decide.
    + destruct (put_buffer _ s w); intros [= <- _ _]; by right.
    + destruct (ring_Clear _). destruct (put_buffer _ s w); intros [= <- _ _].
      left. split; [naive_solver|set_solver].
  - intros [= <- _ _]. left. set_solver.
  - intros [= <- _ _]. unfold handleRules. case_bool_decide; [by right|].
    left. split; [naive_solver|]. destruct (s_rules s); set_solver.
  - unfold handleReload. case_bool_decide; [intros [= <- _ _]; by right|].
    assert (q_Method q = "POST") as Hp by naive_solver.
    destruct (s_reloader s) as [reload|]; [|intros [= <- _ _]; left; set_solver].
    destruct (reload w) as [[v|e] w1]; intros [= <- _ _]; left; set_solver.
Qed.

(** C22: what a request can do.  An unknown path answers 404 and a method the
    endpoint does not accept 405, and only these do; DELETE on messages and POST on
    clear answer 200 and empty the buffer; POST on reload runs the reloader, if
    there is one; every other request leaves the server, the buffer and what the
    hooks share as they are; only a valid GET on messages waits. *)
Theorem serve_effects {W} `{SharedBuffer W} `{Unicode, GoTime, Gjson, GoFmt} (s : Server W) w q :
  match serve s w q with
  | Waiting f wf n timeout =>
    q_Path q = "/_chitchat/messages" ∧ q_Method q = "GET" ∧ parseFilter (q_Query q) = Ok f
  | Answered r s' w' =>
    (h_Status r = 404%Z ↔ mux (q_Path q) = None) ∧
    (h_Status r = StatusMethodNotAllowed ↔
       ∃ e, mux (q_Path q) = Some e ∧ ¬ accepts e (q_Method q)) ∧
    ((¬ clears q ∧ (reloads q → s_reloader s = None) ∧ s' = s ∧ w' = w) ∨
     (clears q ∧ h_Status r = StatusOK ∧ (s', w') = put_buffer (ring_Clear (Buffer s w)).2 s w) ∨
     (reloads q ∧ s' = s ∧ ∃ reload, s_reloader s = Some reload ∧ w' = (reload w).2))
  end.
Proof.
  pose proof (serve_outcome s w q) as Ho.
  destruct (serve s w q) as [r s' w'|] eqn:Hs; [|done]. split_and!; [| |exact Ho]; clear Ho;
    destruct (serve_status s w q r s' w' Hs) as [[-> ->]|(e & -> & [[Ha Hst]|[Ha ->]])];
    try (apply elem_of_cons in Hst as [-> |[->|[->|[]%elem_of_nil]%elem_of_cons]%elem_of_cons]);
    naive_solver.
Qed.

(** C21: what a client of the messages endpoint decodes, as long as every message is
    readable: the answer is valid JSON, an array with one object per message, oldest
    first, whose fields are the message's: the number, the time, the texts with
    their invalid bytes replaced, the body and the headers as any encoding of them
    reads; and the count in the header is that of the messages.  Readable means that
    JSON can express the headers (no NaN or infinity, see the next property), that
    headers and body nest within the limit of a decoder, that the number is below
    2^53, and that the year has four digits.  Texts and body may hold anything
    else, JSON or not. *)
Theorem messages_decode `{JsonTypes} status (arrivals : list (Z * Z * Message)) :
  Forall (λ a, readable a.1.1 a.1.2 a.2) arrivals →
  let l := map (λ a, @capture go_json a.1.1 a.1.2 a.2) arrivals in
  let answer := write_response (messages_response status l) in
  wr_Status answer = status ∧ ("X-Chitchat-Count", itoa (len l)) ∈ wr_Headers answer ∧
  Valid (wr_Body answer) = true ∧
  (Unmarshal (wr_Body answer)).1 = VSlice (map message_view l).
Proof.
  intros Hl l. destruct (messages_text l) as (text & <- & _ & Hv & Hu).
  { subst l. apply Forall_map. eapply Forall_impl; [exact Hl|]. intros a. apply readable_presentable. }
  split_and!; [done| |done|done]. simpl. by right; left.
Qed.

(** C38: one message with a header that JSON cannot express, a NaN or an infinity,
    which AMQP can carry, takes every answer with it that would show the message:
    the status is 200 and the header counts the messages, but the body is empty,
    for the encoder's error comes after the status and is dropped. *)
Theorem bad_header_empties_answer `{JsonTypes, Json} l seq now msg name x :
  capture seq now msg ∈ l → m_Headers msg !! name = Some (VFloat64 x) → is_finite x = false →
  write_response (messages_response StatusOK l) =
  {| wr_Status := 200;
     wr_Headers := [("Content-Type", "application/json"); ("X-Chitchat-Count", itoa (len l))];
     wr_Body := "" |}.
Proof.
  intros Hl Hh Hx. unfold write_response. simpl. f_equal. apply (bad_message l _ Hl).
  intros He%encodes_map_inv. rewrite Forall_forall in He.
  destruct (He (name, VFloat64 x)) as [j Hj].
  - apply elem_of_map_to_list. simpl. unfold normalizeHeaders. by rewrite lookup_fmap, Hh.
  - simpl in Hj. by rewrite Hx in Hj.
Qed.

(** An order, captured on the 14th of November 2023. *)
Definition order_body : string := "{" +:+ quoted "id" +:+ ":7}".
Definition example_captured : CapturedMessage :=
  @capture (@go_json no_types) 1 1700000000500000000 (example_message "orders" order_body).

Lemma messages_decode_witness :
  (Unmarshal (wr_Body (@write_response no_types (messages_response StatusOK [example_captured])))).1
  = VSlice [@message_view no_types example_captured].
Proof.
  apply (@messages_decode no_types StatusOK
           [(1%Z, 1700000000500000000%Z, example_message "orders" order_body)]).
  constructor; [|constructor].
  split; [by vm_compute|by vm_compute|apply Nat.leb_le; by vm_compute|].
  split_and!; [by eexists; vm_compute|by vm_compute|apply Nat.leb_le; by vm_compute].
Defined.

Definition nan_message : Message :=
  {| m_Queue := "orders"; m_RoutingKey := ""; m_Headers := {["load" := VFloat64 S754_nan]};
     m_Body := order_body; m_Direction := ""; m_Exchange := ""; m_Rule := ""; m_MessageID := "" |}.

Lemma bad_header_empties_answer_witness :
  wr_Body (@write_response no_types (messages_response StatusOK
    [example_captured; @capture (@go_json no_types) 2 1700000001000000000 nan_message])) = "".
Proof.
  rewrite (@bad_header_empties_answer no_types (@go_json no_types) _ 2 1700000001000000000
             nan_message "load" S754_nan); [done| |by vm_compute|done].
  right. by left.
Defined.
