(* ===== verification/Matcher.v ===== *)
(** * Rule matching (pkg/engine/matcher.go) *)
From S2P Require Import Prelude GoStrings GoValue Libs Config Broker Validate.
From Stdlib Require Import SpecFloat.

Section matcher.
Context `{Unicode, GoFmt, Gjson}.

(** [actual] is decoded from JSON, [expected] from the YAML rule. *)
Definition compareValues (actual expected : value) : bool :=
  if is_nil actual && is_nil expected then true
  else if is_nil actual || is_nil expected then false
  else if deep_equal actual expected then true
  else
    let actualStr := sprint actual in
    let expectedStr := sprint expected in
    if bool_decide (actualStr = expectedStr) then true
    else if equal_fold actualStr expectedStr then true
    else false.

Definition evalJSONPathRule (body : string) (rule : JSONPathRule) : bool :=
  let res := gjson_GetBytes body (jr_Filter rule) in
  if negb (res_Exists res) then false
  else compareValues (res_Value res) (jr_Equals rule).

Definition MatchesRule (rule : Rule) (msg : Message) : bool :=
  let t := r_Trigger rule in
  if bool_decide (tr_Queue t ≠ "" ∧ tr_Queue t ≠ m_Queue msg) then false
  else if bool_decide (tr_RoutingKey t ≠ "" ∧ tr_RoutingKey t ≠ m_RoutingKey msg) then false
  else forallb (evalJSONPathRule (m_Body msg)) (tr_JSONPathRules t).
End matcher.

(** ** ASCII texts *)

Lemma all_bytes_impl (p q : ascii → bool) s :
  (∀ c, p c = true → q c = true) → all_bytes p s = true → all_bytes q s = true.
Proof.
  intros Hpq. induction s as [|c s IH]; simpl; [done|].
  intros [Hc Hs]%andb_prop. by rewrite Hpq, IH.
Qed.

(** The bytes of printed numbers: ASCII, and no capital letter. *)
Definition is_number_byte (c : ascii) : bool :=
  is_digit c || bool_decide (c ∈ ["-"; "+"; "."; "e"]%char).

Lemma number_byte_cases c : is_number_byte c = true →
  is_ascii_byte c = true ∧ lower_byte c = c.
Proof.
  unfold is_number_byte, is_digit, is_ascii_byte, lower_byte.
  destruct c as [[] [] [] [] [] [] [] []]; vm_compute; done.
Qed.

Lemma number_bytes_ascii s : all_bytes is_number_byte s = true → is_ascii s = true.
Proof. apply all_bytes_impl. intros c Hc. by apply number_byte_cases. Qed.

Lemma number_bytes_lower s :
  all_bytes is_number_byte s = true → map_bytes lower_byte s = s.
Proof.
  induction s as [|c s IH]; simpl; [done|]. intros [Hc Hs]%andb_prop.
  by rewrite (proj2 (number_byte_cases c Hc)), IH.
Qed.

Lemma itoa_number z : all_bytes is_number_byte (itoa z) = true.
Proof.
  assert (∀ x : N, all_bytes is_number_byte (pretty x) = true) as Hp.
  { intros x. eapply all_bytes_impl; [|apply pretty_N_digits].
    intros c Hc. unfold is_number_byte. by rewrite Hc. }
  destruct (decide (0 ≤ z)%Z).
  - by rewrite itoa_nonneg by lia.
  - rewrite itoa_neg by lia. simpl. by rewrite Hp.
Qed.

Lemma strip_zeros_number s :
  all_bytes is_number_byte s = true → all_bytes is_number_byte (strip_zeros s) = true.
Proof.
  induction s as [|c s IH]; simpl; [done|]. intros [Hc Hs]%andb_prop.
  specialize (IH Hs). destruct (strip_zeros s).
  - case_bool_decide; simpl; [done|by rewrite Hc].
  - simpl in *. by rewrite Hc.
Qed.

Lemma format_g_int_number z : all_bytes is_number_byte (format_g_int z) = true.
Proof.
  unfold format_g_int.
  assert (∀ d, all_bytes is_number_byte d = true →
            all_bytes is_number_byte (exp_form d) = true) as Hexp.
  { intros d Hd%strip_zeros_number. unfold exp_form. rewrite !all_bytes_app.
    rewrite !andb_true_iff. split_and!; [|done|].
    - destruct (strip_zeros d) as [|c [|c' t]]; [done..|].
      simpl in Hd |- *. by apply andb_prop in Hd as [-> Hd].
    - case_match; rewrite ?all_bytes_app; by rewrite itoa_number. }
  repeat case_match; rewrite ?all_bytes_app; auto using itoa_number;
    by rewrite ?Hexp, ?itoa_number by apply itoa_number.
Qed.

(** Two printed numbers agree up to case only when they agree. *)
Lemma equal_fold_numbers `{Unicode} s t :
  all_bytes is_number_byte s = true → all_bytes is_number_byte t = true →
  equal_fold s t = bool_decide (s = t).
Proof.
  intros Hs Ht. unfold equal_fold.
  by rewrite !number_bytes_ascii, !number_bytes_lower by done.
Qed.

(** The text of an integral float is the text of an integer only below 10^6. *)
Lemma format_g_int_itoa z z' :
  format_g_int z = itoa z' ↔ z = z' ∧ (Z.abs z < 10 ^ 6)%Z.
Proof.
  destruct (decide (Z.abs z < 10 ^ 6)%Z) as [Hz|Hz].
  - rewrite format_g_int_small by done. split; [|by intros [-> _]].
    by intros ->%(inj pretty).
  - split; [|lia]. intros Heq.
    pose proof (format_g_int_large z ltac:(lia)) as He. rewrite Heq in He.
    by rewrite itoa_no_letter in He.
Qed.

(** ** What a rule asks for *)

Section spec.
Context `{Unicode, GoFmt, Gjson}.

(** Two values agree when both are null, or when neither is and they are deeply
    equal or have the same text, or the same text up to letter case. *)
Inductive value_agrees : value → value → Prop :=
| agrees_null : value_agrees VNil VNil
| agrees_equal a e : is_nil a = false → is_nil e = false → deep_equal a e = true →
    value_agrees a e
| agrees_text a e : is_nil a = false → is_nil e = false → sprint a = sprint e →
    value_agrees a e
| agrees_fold a e : is_nil a = false → is_nil e = false →
    equal_fold (sprint a) (sprint e) = true → value_agrees a e.

Lemma compareValues_spec a e : compareValues a e = true ↔ value_agrees a e.
Proof.
  unfold compareValues. split.
  - destruct (is_nil a) eqn:Ha, (is_nil e) eqn:He; simpl; try done; intros Hc.
    + destruct a, e; try done. constructor.
    + destruct (deep_equal a e) eqn:Hd; [by apply agrees_equal|].
      case_bool_decide; [by apply agrees_text|].
      destruct (equal_fold _ _) eqn:Hf; [by apply agrees_fold|done].
  - destruct 1 as [|a e Ha He Hd|a e Ha He Ht|a e Ha He Hf]; [done|..]; rewrite Ha, He; simpl.
    + by rewrite Hd.
    + rewrite bool_decide_true by done. by destruct (deep_equal a e).
    + rewrite Hf. destruct (deep_equal a e); [done|]. by case_bool_decide.
Qed.

Record triggers (rule : Rule) (msg : Message) : Prop := {
  tg_queue : tr_Queue (r_Trigger rule) ≠ "" → m_Queue msg = tr_Queue (r_Trigger rule);
  tg_key : tr_RoutingKey (r_Trigger rule) ≠ "" →
           m_RoutingKey msg = tr_RoutingKey (r_Trigger rule);
  tg_body : ∀ jr, jr ∈ tr_JSONPathRules (r_Trigger rule) →
    let res := gjson_GetBytes (m_Body msg) (jr_Filter jr) in
    res_Exists res = true ∧ value_agrees (res_Value res) (jr_Equals jr);
}.
End spec.

(** ** Properties *)

(** C28: a rule matches a message exactly when the queue and the routing key are
    the wanted ones, where wanted, and every JSON path exists in the body with an
    agreeing value. *)
Theorem MatchesRule_correct `{Unicode, GoFmt, Gjson} rule msg :
  MatchesRule rule msg = true ↔ triggers rule msg.
Proof.
  unfold MatchesRule. rewrite !guard_true, forallb_forall. setoid_rewrite <- list_elem_of_In.
  assert (∀ w g : string, ¬ (w ≠ "" ∧ w ≠ g) ↔ (w ≠ "" → g = w)) as Hguard.
  { intros w g. destruct (decide (w = g)); naive_solver. }
  rewrite !Hguard. unfold evalJSONPathRule.
  assert (∀ res e, (if negb (res_Exists res) then false else compareValues (res_Value res) e)
            = true ↔ res_Exists res = true ∧ value_agrees (res_Value res) e) as Heval.
  { intros res e. rewrite <- compareValues_spec. destruct (res_Exists res); naive_solver. }
  setoid_rewrite Heval. split; [intros (?&?&?); by constructor|intros []; by split_and!].
Qed.

(** C39: numbers across YAML and JSON: an integral JSON number below 2^53, up to where
    doubles hold every integer, matches a YAML integer exactly if they are equal and
    below one million in absolute value.  From 10^6 on the JSON number prints in the
    exponent form and matches no integer, not even an equal one. *)
Theorem compare_float_int `{Unicode, GoFmt} f k z z' :
  float_int f = Some z → (Z.abs z < 2 ^ 53)%Z →
  compareValues (VFloat64 f) (VInt k z') = true ↔ z = z' ∧ (Z.abs z < 10 ^ 6)%Z.
Proof.
  intros Hf Hz. unfold compareValues; simpl. unfold sprint_float. rewrite Hf.
  rewrite (proj2 (Z.ltb_lt _ _)) by lia.
  rewrite equal_fold_numbers by auto using format_g_int_number, itoa_number.
  rewrite <- format_g_int_itoa. case_bool_decide; naive_solver.
Qed.

(** One million, as the JSON decoder represents it. *)
Definition float_million : spec_float := S754_finite false 8589934592000000 (-33).

Lemma compare_float_int_witness :
  ¬ @compareValues example_unicode plain_fmt (VFloat64 float_million) (VInt KInt 1000000) = true.
Proof.
  intros Hc.
  apply (@compare_float_int example_unicode plain_fmt float_million KInt 1000000)
    in Hc as [_ Hlt]; [discriminate Hlt|reflexivity|reflexivity].
Defined.

(** A boolean in the body matches a string in the rule that spells it, in
    any letter case, and no other ASCII string. *)
Theorem compare_bool_string `{Unicode, GoFmt} b s :
  is_ascii s = true →
  compareValues (VBool b) (VString s) = true ↔
  map_bytes lower_byte s = if b then "true" else "false".
Proof.
  intros Hs. unfold compareValues; simpl. unfold equal_fold.
  assert (is_ascii (if b then "true" else "false") = true) as -> by by destruct b.
  assert (map_bytes lower_byte (if b then "true" else "false")
          = if b then "true" else "false") as -> by by destruct b.
  rewrite Hs; simpl. case_bool_decide as Heq; [|case_bool_decide; naive_solver].
  split; [|done]. intros _. subst s. by destruct b.
Qed.

Lemma compare_bool_string_witness :
  @compareValues example_unicode plain_fmt (VBool true) (VString "TRUE") = true.
Proof.
  apply (@compare_bool_string example_unicode plain_fmt true "TRUE"); reflexivity.
Defined.
