(* ===== verification/Rewrite.v ===== *)
(** * The friendly template syntax (pkg/engine/template.go, lines 19-121)

    The rewriting of references such as [trigger.id] to the dot notation of
    [text/template], and what it does to a text: only the code of actions changes,
    only dots are added, and rewriting a second time changes nothing. *)
From S2P Require Import Prelude GoStrings.

(** ** The regular expressions of the rewriting

    [contextVarRegex] and [bareVarRegex] both match a keyword at the start of the
    text or after a separator and put a dot before it. *)

(** [[\s(|,]] *)
Definition is_sep (c : ascii) : bool :=
  bool_decide (c ∈ [ascii_of_N 9; ascii_of_N 10; ascii_of_N 12; ascii_of_N 13; " ";
                    "("; "|"; ","]%char).

(** [\w], the bytes [\b] distinguishes. *)
Definition is_word (c : ascii) : bool :=
  let n := byte_val c in
  is_digit c || ((65 <=? n) && (n <=? 90) || (97 <=? n) && (n <=? 122) || (n =? 95))%N.

Fixpoint drop_bytes (n : nat) (s : string) : string :=
  match n, s with
  | S n', String _ s' => drop_bytes n' s'
  | _, _ => s
  end.

(** The length of the keyword at the head of [s]: [(?:trigger|system|headers)\.] *)
Definition context_keyword (s : string) : option nat :=
  if has_prefix s "trigger." then Some 8
  else if has_prefix s "system." then Some 7
  else if has_prefix s "headers." then Some 8
  else None.

(** [\b] after a keyword: the text ends or goes on with a non-word byte. *)
Definition word_end (s : string) : bool :=
  match s with "" => true | String c _ => negb (is_word c) end.

(** [(queue|routing_key)\b] *)
Definition bare_keyword (s : string) : option nat :=
  if has_prefix s "queue" && word_end (drop_bytes 5 s) then Some 5
  else if has_prefix s "routing_key" && word_end (drop_bytes 11 s) then Some 11
  else None.

Section rewrite.
Variable keyword : string → option nat.

(** [skip] bytes belong to the match just made and are copied; then a
    separator followed by a keyword is the next match. *)
Fixpoint rewrite_from (skip : nat) (s : string) : string :=
  match s with
  | "" => ""
  | String c s' =>
    match skip with
    | S k => String c (rewrite_from k s')
    | 0 =>
      if is_sep c then
        match keyword s' with
        | Some n => String c (String "." (rewrite_from n s'))
        | None => String c (rewrite_from 0 s')
        end
      else String c (rewrite_from 0 s')
    end
  end.

(** [ReplaceAllString(s, "${1}.${2}")]: the start of the text counts as a
    separator. *)
Definition rewrite_refs (s : string) : string :=
  match keyword s with
  | Some n => String "." (rewrite_from n s)
  | None => rewrite_from 0 s
  end.
End rewrite.

Definition rewriteCode (code : string) : string :=
  rewrite_refs bare_keyword (rewrite_refs context_keyword code).

(** ** Action bodies *)

Definition is_quote (c : ascii) : bool :=
  bool_decide (c = ascii_of_N 34 ∨ c = "`"%char).

(** The rest of a string literal opened with [c], through the closing quote
    (or the end), and what follows it.  A backslash protects the next byte in a
    double-quoted literal. *)
Fixpoint take_literal (c : ascii) (s : string) : string * string :=
  match s with
  | "" => ("", "")
  | String x s' =>
    if bool_decide (x = c) then (String x "", s')
    else if bool_decide (c = ascii_of_N 34 ∧ x = "\"%char) then
      match s' with
      | "" => (String x "", "")
      | String y s'' => let '(l, r) := take_literal c s'' in (String x (String y l), r)
      end
    else let '(l, r) := take_literal c s' in (String x l, r)
  end.

(** The code up to the next quote. *)
Fixpoint take_code (s : string) : string * string :=
  match s with
  | "" => ("", "")
  | String x s' =>
    if is_quote x then ("", s) else let '(l, r) := take_code s' in (String x l, r)
  end.

(** The loop of rewriteAction over what is left of the content; each round
    consumes at least one byte. *)
Fixpoint rewriteAction_loop (fuel : nat) (content : string) : string :=
  match fuel with
  | 0 => ""
  | S fuel' =>
    match content with
    | "" => ""
    | String c rest =>
      if is_quote c then
        let '(l, r) := take_literal c rest in String c l +:+ rewriteAction_loop fuel' r
      else
        let '(l, r) := take_code content in rewriteCode l +:+ rewriteAction_loop fuel' r
    end
  end.

Definition rewriteAction (content : string) : string :=
  rewriteAction_loop (S (String.length content)) content.

(** Cut at the first occurrence of the two bytes [a b]. *)
Fixpoint cut2 (a b : ascii) (s : string) : option (string * string) :=
  match s with
  | String x (String y s'' as s') =>
    if bool_decide (x = a ∧ y = b) then Some ("", s'')
    else prod_map (String x) id <$> cut2 a b s'
  | _ => None
  end.

(** [actionRegex.ReplaceAllStringFunc]: an action runs from the first opening
    braces to the first closing braces after them. *)
Fixpoint preprocess_loop (fuel : nat) (s : string) : string :=
  match fuel with
  | 0 => s
  | S fuel' =>
    match cut2 "{" "{" s with
    | None => s
    | Some (pre, rest) =>
      match cut2 "}" "}" rest with
      | None => s
      | Some (inner, post) =>
        pre +:+ "{{" +:+ rewriteAction inner +:+ "}}" +:+ preprocess_loop fuel' post
      end
    end
  end.

Definition preprocessTemplate (s : string) : string :=
  preprocess_loop (S (String.length s)) s.

(** ** Examples from the comments of the source *)

Example preprocess_examples :
  preprocessTemplate "{{trigger.id}}" = "{{.trigger.id}}" ∧
  preprocessTemplate "{{ json trigger.id }}" = "{{ json .trigger.id }}" ∧
  preprocessTemplate "{{ if .trigger.flag }}x{{ end }}" = "{{ if .trigger.flag }}x{{ end }}" ∧
  preprocessTemplate "{{ print `trigger.x` trigger.y queue}}" =
    "{{ print `trigger.x` .trigger.y .queue}}" ∧
  preprocessTemplate "trigger.id" = "trigger.id".
Proof. vm_compute. repeat split. Qed.

(** ** Rewriting references *)

(** [s] and [t] agree up to and including their first separator: all a keyword
    test looks at. *)
Fixpoint head_agree (s t : string) : Prop :=
  match s, t with
  | "", "" => True
  | String a s', String b t' => a = b ∧ (is_sep a = true ∨ head_agree s' t')
  | _, _ => False
  end.

(** No separator is followed by a keyword. *)
Fixpoint clean_from (keyword : string → option nat) (s : string) : Prop :=
  match s with
  | "" => True
  | String c s' => (is_sep c = true → keyword s' = None) ∧ clean_from keyword s'
  end.

(** No reference is left undotted. *)
Definition clean (keyword : string → option nat) (s : string) : Prop :=
  keyword s = None ∧ clean_from keyword s.

Fixpoint no_sep_prefix (n : nat) (s : string) : Prop :=
  match n, s with
  | S n', String c s' => is_sep c = false ∧ no_sep_prefix n' s'
  | _, _ => True
  end.

(** What the rewriting needs to know about a keyword test. *)
Class Keyword (keyword : string → option nat) : Prop := {
  keyword_local s t : head_agree s t → keyword s = keyword t;
  keyword_dot s : keyword (String "." s) = None;
  keyword_no_sep s n : keyword s = Some n → no_sep_prefix n s;
}.

Section rewrite_facts.
Context (kw kw' : string → option nat) `{Keyword kw, Keyword kw'}.

Lemma rewrite_from_head k s : head_agree (rewrite_from kw k s) s.
Proof.
  revert k. induction s as [|c s IH]; intros k; simpl; [done|].
  destruct k as [|k]; [destruct (is_sep c) eqn:Hc; [destruct (kw s)|]|]; simpl; auto.
Qed.

Lemma rewrite_from_keyword k s : kw' (rewrite_from kw k s) = kw' s.
Proof. apply keyword_local, rewrite_from_head. Qed.

(** Rewriting one kind of reference leaves the other kind clean. *)
Lemma rewrite_from_keeps_clean k s :
  clean_from kw' s → clean_from kw' (rewrite_from kw k s).
Proof.
  revert k. induction s as [|c s IH]; intros k; simpl; [done|]. intros [Hc Hs].
  destruct k as [|k]; [destruct (is_sep c) eqn:Hsep|]; simpl.
  - destruct (kw s); simpl.
    + split; [intros _; apply keyword_dot|]. split; [done|auto].
    + split; [|auto]. intros _. rewrite rewrite_from_keyword. auto.
  - split; [congruence|auto].
  - split; [|auto]. rewrite rewrite_from_keyword. auto.
Qed.

Lemma rewrite_refs_keeps_clean s : clean kw' s → clean kw' (rewrite_refs kw s).
Proof.
  intros [Hk Hc]. unfold rewrite_refs. destruct (kw s); split.
  - apply keyword_dot.
  - split; [done|]. by apply rewrite_from_keeps_clean.
  - by rewrite rewrite_from_keyword.
  - by apply rewrite_from_keeps_clean.
Qed.

(** A clean text is not changed. *)
Lemma rewrite_from_clean s : clean_from kw s → rewrite_from kw 0 s = s.
Proof.
  induction s as [|c s IH]; simpl; [done|]. intros [Hc Hs].
  destruct (is_sep c); [rewrite Hc by done|]; by rewrite IH.
Qed.

Lemma rewrite_refs_clean s : clean kw s → rewrite_refs kw s = s.
Proof. intros [Hk Hc]. unfold rewrite_refs. rewrite Hk. by apply rewrite_from_clean. Qed.
End rewrite_facts.

Section rewrite_result.
Context (kw : string → option nat) `{Keyword kw}.

Lemma rewrite_from_is_clean k s :
  no_sep_prefix k s → clean_from kw (rewrite_from kw k s).
Proof.
  revert k. induction s as [|c s IH]; intros k; simpl; [done|].
  destruct k as [|k]; simpl; intros Hk.
  - destruct (is_sep c) eqn:Hc; [|split; [congruence|by apply IH]].
    destruct (kw s) as [n|] eqn:Hs; simpl.
    + split; [intros _; apply keyword_dot|]. split; [done|].
      apply IH. by apply keyword_no_sep.
    + split; [|by apply IH]. by rewrite (rewrite_from_keyword kw kw).
  - destruct Hk as [Hc Hk]. split; [congruence|by apply IH].
Qed.

Lemma rewrite_refs_is_clean s : clean kw (rewrite_refs kw s).
Proof.
  unfold rewrite_refs. destruct (kw s) as [n|] eqn:Hs; split.
  - apply keyword_dot.
  - split; [done|]. by apply rewrite_from_is_clean, keyword_no_sep.
  - by rewrite (rewrite_from_keyword kw kw).
  - by apply rewrite_from_is_clean.
Qed.

(** Only dots are added. *)
Fixpoint remove_dots (s : string) : string :=
  match s with
  | "" => ""
  | String c s' => if bool_decide (c = "."%char) then remove_dots s'
                   else String c (remove_dots s')
  end.

Lemma rewrite_from_dots k s : remove_dots (rewrite_from kw k s) = remove_dots s.
Proof.
  revert k. induction s as [|c s IH]; intros k; simpl; [done|].
  destruct k as [|k]; [destruct (is_sep c); [destruct (kw s)|]|]; simpl; by rewrite IH.
Qed.

Lemma rewrite_refs_dots s : remove_dots (rewrite_refs kw s) = remove_dots s.
Proof. unfold rewrite_refs. destruct (kw s); simpl; apply rewrite_from_dots. Qed.
End rewrite_result.

(** A literal without separators is found by looking up to the first one. *)
Lemma has_prefix_local s t pre :
  all_bytes (λ c, negb (is_sep c)) pre = true → head_agree s t →
  has_prefix s pre = has_prefix t pre.
Proof.
  revert s t. induction pre as [|a pre IH]; intros s t; [by destruct s, t|].
  simpl. intros [Ha Hp]%andb_prop. destruct s as [|b s], t as [|b' t]; simpl; try done.
  intros [-> Hag]. case_bool_decide as Heq; [|done]. subst b'. simpl. apply IH; [done|].
  destruct Hag as [Hs|]; [|done]. by rewrite Hs in Ha.
Qed.

Lemma has_prefix_no_sep s pre :
  all_bytes (λ c, negb (is_sep c)) pre = true → has_prefix s pre = true →
  no_sep_prefix (String.length pre) s.
Proof.
  revert s. induction pre as [|a pre IH]; intros s; [by destruct s|].
  simpl. intros [Ha Hp]%andb_prop. destruct s as [|b s]; [done|].
  intros [Hb Hs]%andb_prop. apply bool_decide_eq_true in Hb as <-.
  split; [by apply negb_true_iff|auto].
Qed.

(** The byte after a literal is also part of what agrees. *)
Lemma word_end_local s t pre :
  all_bytes (λ c, negb (is_sep c)) pre = true → head_agree s t →
  has_prefix s pre = true →
  word_end (drop_bytes (String.length pre) s) = word_end (drop_bytes (String.length pre) t).
Proof.
  revert s t. induction pre as [|a pre IH]; intros s t; simpl.
  - intros _ Hag _. destruct s, t; simpl in *; try done. by destruct Hag as [-> _].
  - intros [Ha Hp]%andb_prop. destruct s as [|b s], t as [|b' t]; try done.
    intros [-> Hag] [Heq Hpre]%andb_prop. apply bool_decide_eq_true in Heq as <-.
    apply IH; [done| |done]. destruct Hag as [Hs|]; [|done]. by rewrite Hs in Ha.
Qed.

#[export] Instance context_keyword_ok : Keyword context_keyword.
Proof.
  split.
  - intros s t Hag. unfold context_keyword.
    by rewrite !(has_prefix_local s t) by done.
  - done.
  - intros s n. unfold context_keyword.
    destruct (has_prefix s "trigger.") eqn:H1;
      [intros [= <-]; by apply (has_prefix_no_sep s "trigger.")|].
    destruct (has_prefix s "system.") eqn:H2;
      [intros [= <-]; by apply (has_prefix_no_sep s "system.")|].
    destruct (has_prefix s "headers.") eqn:H3;
      [intros [= <-]; by apply (has_prefix_no_sep s "headers.")|done].
Qed.

#[export] Instance bare_keyword_ok : Keyword bare_keyword.
Proof.
  split.
  - intros s t Hag. unfold bare_keyword.
    pose proof (has_prefix_local s t "queue" eq_refl Hag) as H1.
    pose proof (has_prefix_local s t "routing_key" eq_refl Hag) as H2.
    pose proof (word_end_local s t "queue" eq_refl Hag) as H3.
    pose proof (word_end_local s t "routing_key" eq_refl Hag) as H4.
    change (String.length "queue") with 5 in H3.
    change (String.length "routing_key") with 11 in H4.
    rewrite <- H1, <- H2.
    destruct (has_prefix s "queue"); [rewrite <- (H3 eq_refl)|];
      destruct (has_prefix s "routing_key"); rewrite ?andb_false_l; try done;
      by rewrite <- (H4 eq_refl).
  - done.
  - intros s n. unfold bare_keyword.
    destruct (has_prefix s "queue" && _) eqn:H1.
    { intros [= <-]. apply andb_prop in H1 as [H1 _]. by apply (has_prefix_no_sep s "queue"). }
    destruct (has_prefix s "routing_key" && _) eqn:H2; [|done].
    intros [= <-]. apply andb_prop in H2 as [H2 _]. by apply (has_prefix_no_sep s "routing_key").
Qed.

(** RewriteCode puts a dot before every reference of the friendly syntax and
    changes nothing else: afterwards no separator (nor the start of the code) is
    followed by an undotted reference of either kind, rewriting again changes
    nothing, and removing the dots gives the same text before and after. *)
Theorem rewriteCode_correct code :
  clean context_keyword (rewriteCode code) ∧ clean bare_keyword (rewriteCode code) ∧
  rewriteCode (rewriteCode code) = rewriteCode code ∧
  remove_dots (rewriteCode code) = remove_dots code.
Proof.
  assert (clean context_keyword (rewriteCode code)) as Hc
    by apply (rewrite_refs_keeps_clean _ _), rewrite_refs_is_clean, _.
  assert (clean bare_keyword (rewriteCode code)) as Hb
    by apply rewrite_refs_is_clean, _.
  split_and!; [done|done| |].
  - unfold rewriteCode at 1. rewrite (rewrite_refs_clean context_keyword) by done.
    by apply rewrite_refs_clean.
  - unfold rewriteCode. by rewrite !rewrite_refs_dots.
Qed.

(** ** Action bodies: literals and code *)

(** The inside of a string literal opened with [q]: no unescaped [q]. *)
Inductive lit_body (q : ascii) : string → Prop :=
| lit_nil : lit_body q ""
| lit_char x s :
    x ≠ q → ¬ (q = ascii_of_N 34 ∧ x = "\"%char) → lit_body q s → lit_body q (String x s)
| lit_escape x s :
    q = ascii_of_N 34 → lit_body q s → lit_body q (String "\" (String x s)).

(** What may end a literal that is never closed: nothing, or a lone backslash. *)
Definition open_end (q : ascii) (s : string) : Prop :=
  s = "" ∨ q = ascii_of_N 34 ∧ s = "\".

Definition at_quote (s : string) : Prop :=
  match s with "" => True | String c _ => is_quote c = true end.

Definition no_quote (s : string) : bool := all_bytes (λ c, negb (is_quote c)) s.

(** What rewriteAction does, piece by piece: a literal is copied, through its
    closing quote or to the end; a maximal run of code is rewritten. *)
Inductive action_rel : string → string → Prop :=
| action_nil : action_rel "" ""
| action_literal q body rest out :
    is_quote q = true → lit_body q body → action_rel rest out →
    action_rel (String q (body +:+ String q rest)) (String q (body +:+ String q out))
| action_open q body e :
    is_quote q = true → lit_body q body → open_end q e →
    action_rel (String q (body +:+ e)) (String q (body +:+ e))
| action_code code rest out :
    code ≠ "" → no_quote code = true → at_quote rest → action_rel rest out →
    action_rel (code +:+ rest) (rewriteCode code +:+ out).

Lemma take_literal_closed q body rest :
  is_quote q = true → lit_body q body →
  take_literal q (body +:+ String q rest) = (body +:+ String q "", rest).
Proof.
  intros Hq. assert (q ≠ "\"%char) as Hqb by by intros ->.
  induction 1 as [|x s Hx Hn _ IH|x s Hd _ IH]; rewrite ?str_app_cons; simpl.
  - by rewrite bool_decide_true.
  - rewrite !bool_decide_false by done. by rewrite IH.
  - rewrite bool_decide_false by done. rewrite bool_decide_true by done.
    by rewrite IH.
Qed.

Lemma take_literal_open q body e :
  is_quote q = true → lit_body q body → open_end q e →
  take_literal q (body +:+ e) = (body +:+ e, "").
Proof.
  intros Hq Hb He. assert (q ≠ "\"%char) as Hqb by by intros ->.
  induction Hb as [|x s Hx Hn _ IH|x s Hd _ IH]; rewrite ?str_app_cons.
  - destruct He as [->|[Hd ->]]; [done|]. simpl.
    by rewrite bool_decide_false, bool_decide_true.
  - simpl. rewrite !bool_decide_false by done. by rewrite IH.
  - simpl. rewrite bool_decide_false by done. rewrite bool_decide_true by done.
    by rewrite IH.
Qed.

(** Every text after an opening quote is one of the two. *)
Lemma literal_cases q s :
  (∃ body rest, lit_body q body ∧ s = body +:+ String q rest) ∨
  (∃ body e, lit_body q body ∧ open_end q e ∧ s = body +:+ e).
Proof.
  remember (String.length s) as n eqn:Hn. revert s Hn.
  induction (lt_wf n) as [n _ IH]. intros s ->.
  destruct s as [|x s]; [right; exists "", ""; split_and!; [constructor|by left|done]|].
  destruct (decide (x = q)) as [->|Hx]; [left; by exists "", s; split; [constructor|]|].
  destruct (decide (q = ascii_of_N 34 ∧ x = "\"%char)) as [[Hq ->]|Hne].
  - destruct s as [|y s].
    { right. exists "", "\". split_and!; [constructor|by right|done]. }
    destruct (IH (String.length s) ltac:(simpl; lia) s eq_refl)
      as [(b & r & Hb & ->)|(b & e & Hb & He & ->)].
    + left. exists (String "\" (String y b)), r. split; [by constructor|done].
    + right. exists (String "\" (String y b)), e. split; [by constructor|done].
  - destruct (IH (String.length s) ltac:(simpl; lia) s eq_refl)
      as [(b & r & Hb & ->)|(b & e & Hb & He & ->)].
    + left. exists (String x b), r. split; [by constructor|done].
    + right. exists (String x b), e. split; [by constructor|done].
Qed.

Lemma take_code_spec code rest :
  no_quote code = true → at_quote rest → take_code (code +:+ rest) = (code, rest).
Proof.
  intros Hc Hr. induction code as [|c code IH].
  - destruct rest as [|c r]; [done|]. simpl in Hr. simpl. by rewrite Hr.
  - apply andb_prop in Hc as [Hc Hs]. apply negb_true_iff in Hc.
    rewrite str_app_cons. simpl. by rewrite Hc, IH.
Qed.

Lemma code_cases s : ∃ code rest, no_quote code = true ∧ at_quote rest ∧ s = code +:+ rest.
Proof.
  induction s as [|c s (code & rest & Hc & Hr & ->)]; [by exists "", ""|].
  destruct (is_quote c) eqn:Hq.
  - exists "", (String c (code +:+ rest)). done.
  - exists (String c code), rest. split_and!; [|done|done]. unfold no_quote. simpl.
    by rewrite Hq.
Qed.

Lemma action_rel_loop s o fuel :
  action_rel s o → String.length s < fuel → rewriteAction_loop fuel s = o.
Proof.
  intros Hrel. revert fuel.
  induction Hrel as [|q b r o Hq Hb _ IH|q b e Hq Hb He|code r o Hne Hc Hr _ IH];
    intros [|fuel] Hf; try (simpl in Hf; lia); try done.
  - cbn [rewriteAction_loop]. rewrite Hq, take_literal_closed by done.
    rewrite str_app_cons, str_app_assoc, str_app_cons. do 2 f_equal.
    rewrite IH; [done|]. cbn [String.length] in Hf. rewrite length_str_app in Hf. simpl in Hf.
    lia.
  - cbn [rewriteAction_loop]. rewrite Hq, take_literal_open by done.
    destruct fuel; [simpl in Hf; lia|]. simpl. by rewrite str_app_nil.
  - destruct code as [|c code]; [done|]. rewrite str_app_cons in *.
    cbn [rewriteAction_loop]. pose proof Hc as [Hq _]%andb_prop.
    apply negb_true_iff in Hq as ->. rewrite <- str_app_cons, take_code_spec by done.
    f_equal. apply IH. cbn [String.length] in Hf. rewrite length_str_app in Hf. lia.
Qed.

Lemma action_rel_total s : ∃ o, action_rel s o.
Proof.
  remember (String.length s) as n eqn:Hn. revert s Hn.
  induction (lt_wf n) as [n _ IH]. intros s ->.
  destruct s as [|q s]; [exists ""; constructor|].
  destruct (is_quote q) eqn:Hq.
  - destruct (literal_cases q s) as [(b & r & Hb & ->)|(b & e & Hb & He & ->)].
    + destruct (IH (String.length r)) with (s := r) as [o Ho]; [|done|].
      { simpl. rewrite length_str_app. simpl. lia. }
      eexists. by apply action_literal.
    + eexists. by apply action_open.
  - destruct (code_cases s) as (code & r & Hc & Hr & ->).
    destruct (IH (String.length r)) with (s := r) as [o Ho]; [|done|].
    { simpl. rewrite length_str_app. lia. }
    exists (rewriteCode (String q code) +:+ o). rewrite <- str_app_cons.
    apply action_code; [done| |done|done]. unfold no_quote in *. simpl. by rewrite Hq.
Qed.

(** *** Rewriting changes nothing but dots, and nothing the second time *)

(** [dotted s o]: [o] is [s] with dots put in. *)
Inductive dotted : string → string → Prop :=
| dotted_nil : dotted "" ""
| dotted_char c s o : dotted s o → dotted (String c s) (String c o)
| dotted_dot s o : dotted s o → dotted s (String "." o).
#[local] Hint Constructors dotted : core.

#[export] Instance dotted_refl : Reflexive dotted.
Proof. intros s. induction s; auto. Qed.
#[export] Instance dotted_trans : Transitive dotted.
Proof.
  intros r s o Hrs Hso. revert r Hrs.
  induction Hso as [|c s o Hso IH|s o Hso IH]; intros r Hrs; [done| |auto].
  inversion Hrs; subst; auto.
Qed.

Lemma dotted_app s s' o o' : dotted s o → dotted s' o' → dotted (s +:+ s') (o +:+ o').
Proof. induction 1; rewrite ?str_app_cons; auto. Qed.

Lemma rewrite_refs_dotted kw s : dotted s (rewrite_refs kw s).
Proof.
  assert (∀ t k, dotted t (rewrite_from kw k t)) as Hfrom.
  { intros t. induction t as [|c t IH]; intros k; simpl; [done|].
    destruct k as [|k]; [destruct (is_sep c); [destruct (kw t)|]|]; auto. }
  unfold rewrite_refs. destruct (kw s); auto.
Qed.

Lemma rewriteCode_dotted s : dotted s (rewriteCode s).
Proof. unfold rewriteCode. etrans; apply rewrite_refs_dotted. Qed.

Lemma dotted_nonempty s o : dotted s o → s ≠ "" → o ≠ "".
Proof. by destruct 1. Qed.

Lemma dotted_no_quote s o : dotted s o → no_quote s = true → no_quote o = true.
Proof.
  unfold no_quote. induction 1; simpl; [done| |done].
  intros [-> Hs]%andb_prop. auto.
Qed.

Lemma action_rel_dotted s o : action_rel s o → dotted s o.
Proof.
  induction 1 as [|q b r o _ _ _ IH|q b e _ _ _|code r o _ _ _ _ IH]; [done| |done|].
  - apply dotted_char, dotted_app; [done|auto].
  - apply dotted_app; [apply rewriteCode_dotted|done].
Qed.

(** After a run of code comes a literal, also in the result. *)
Lemma action_rel_at_quote s o : action_rel s o → at_quote s → at_quote o.
Proof.
  destruct 1 as [|q b r o|q b e|code r o Hne Hc Hr _]; try done.
  destruct code as [|c code]; [done|]. rewrite str_app_cons. simpl.
  apply andb_prop in Hc as [Hc _]. apply negb_true_iff in Hc. congruence.
Qed.

Lemma action_rel_idem s o : action_rel s o → action_rel o o.
Proof.
  induction 1 as [|q b r o Hq Hb _ IH|q b e Hq Hb He|code r o Hne Hc Hr Hro IH].
  - constructor.
  - by apply action_literal.
  - by apply action_open.
  - destruct (rewriteCode_correct code) as (_ & _ & Heq & _). rewrite <- Heq at 2.
    apply action_code; [| | |done].
    + by eapply dotted_nonempty; [apply rewriteCode_dotted|].
    + by eapply dotted_no_quote; [apply rewriteCode_dotted|].
    + by apply (action_rel_at_quote r).
Qed.

Lemma rewriteAction_result s o : action_rel s o → rewriteAction s = o.
Proof. intros Ho. apply action_rel_loop; [done|lia]. Qed.
Lemma rewriteAction_rel s : action_rel s (rewriteAction s).
Proof. destruct (action_rel_total s) as [o Ho]. by rewrite (rewriteAction_result s o). Qed.

(** C31: rewriteAction reads an action body as string literals and runs of code
    between them: literals are copied untouched (through the first unescaped
    closing quote, or to the end when there is none; a back-quoted literal knows
    no escapes) and each run of code is rewritten by rewriteCode; there is only
    one such reading. *)
Theorem rewriteAction_correct s o : action_rel s o ↔ rewriteAction s = o.
Proof.
  split; [apply rewriteAction_result|]. intros <-. apply rewriteAction_rel.
Qed.

(** ** Where an action ends *)

Lemma cut2_cons a b x y s :
  cut2 a b (String x (String y s)) =
  if bool_decide (x = a ∧ y = b) then Some ("", s)
  else prod_map (String x) id <$> cut2 a b (String y s).
Proof. done. Qed.

Lemma cut2_spec a b s pre post :
  cut2 a b s = Some (pre, post) → s = pre +:+ String a (String b post).
Proof.
  revert pre post. induction s as [|x s IH]; intros pre post; [done|].
  destruct s as [|y s]; [done|]. rewrite cut2_cons.
  case_bool_decide as Hxy; [intros [= <- <-]; by destruct Hxy as [-> ->]|].
  intros ([p q] & Hc & Heq)%fmap_Some. simpl in Heq. injection Heq as -> ->.
  by rewrite str_app_cons, (IH p q).
Qed.

Lemma cut2_length a b s pre post :
  cut2 a b s = Some (pre, post) → String.length post + 2 ≤ String.length s.
Proof. intros ->%cut2_spec. rewrite length_str_app. simpl. lia. Qed.

Lemma preprocess_loop_fuel n m s :
  String.length s < n → String.length s < m → preprocess_loop n s = preprocess_loop m s.
Proof.
  revert m s. induction n as [|n IH]; intros [|m] s Hn Hm; try lia. simpl.
  destruct (cut2 "{" "{" s) as [[pre rest]|] eqn:H1; [|done].
  destruct (cut2 "}" "}" rest) as [[inner post]|] eqn:H2; [|done].
  apply cut2_length in H1, H2. do 4 f_equal. apply IH; lia.
Qed.

Lemma contains_cut2 a b s :
  contains s (String a (String b "")) = false ↔ cut2 a b s = None.
Proof.
  induction s as [|x s IH]; [done|]. destruct s as [|y s].
  - simpl. by rewrite andb_false_r.
  - rewrite cut2_cons.
    change (contains (String x (String y s)) (String a (String b "")))
      with (bool_decide (a = x) && (bool_decide (b = y) && has_prefix s "")
            || contains (String y s) (String a (String b ""))).
    replace (has_prefix s "") with true by by destruct s.
    rewrite andb_true_r, orb_false_iff, IH.
    destruct (decide (x = a ∧ y = b)) as [[-> ->]|Hne].
    + rewrite !bool_decide_true by done. split; [by intros [? _]|done].
    + rewrite (bool_decide_false (x = a ∧ y = b)), fmap_None by done.
      assert (bool_decide (a = x) && bool_decide (b = y) = false) as ->; [|tauto].
      apply andb_false_iff. rewrite !bool_decide_eq_false.
      destruct (decide (a = x)), (decide (b = y)); naive_solver.
Qed.

Lemma preprocessTemplate_plain s : contains s "{{" = false → preprocessTemplate s = s.
Proof. intros Hc%contains_cut2. unfold preprocessTemplate. simpl. by rewrite Hc. Qed.

(** The loop without its fuel. *)
Lemma preprocess_unfold s :
  preprocessTemplate s =
    match cut2 "{" "{" s with
    | None => s
    | Some (pre, rest) =>
      match cut2 "}" "}" rest with
      | None => s
      | Some (inner, post) =>
        pre +:+ "{{" +:+ rewriteAction inner +:+ "}}" +:+ preprocessTemplate post
      end
    end.
Proof.
  unfold preprocessTemplate at 1. simpl.
  destruct (cut2 "{" "{" s) as [[pre rest]|] eqn:H1; [|done].
  destruct (cut2 "}" "}" rest) as [[inner post]|] eqn:H2; [|done].
  apply cut2_length in H1, H2. do 4 f_equal. apply preprocess_loop_fuel; lia.
Qed.

(** Cutting at the first pair after a text without one. *)
Lemma cut2_clean a b pre rest :
  cut2 a b (pre +:+ String a "") = None →
  cut2 a b (pre +:+ String a (String b "") +:+ rest) = Some (pre, rest).
Proof.
  change (String a (String b "") +:+ rest) with (String a (String b rest)).
  induction pre as [|x pre IH].
  - intros _. simpl. by rewrite bool_decide_true.
  - rewrite !str_app_cons. destruct pre as [|y pre].
    + change ("" +:+ String a "") with (String a "").
      change ("" +:+ String a (String b rest)) with (String a (String b rest)).
      rewrite !cut2_cons. case_bool_decide; [done|]. intros _.
      by rewrite bool_decide_true.
    + rewrite !str_app_cons, !cut2_cons. case_bool_decide; [done|].
      intros Hc%fmap_None. rewrite <- str_app_cons, IH; done.
Qed.

Lemma cut2_before a b s pre post :
  cut2 a b s = Some (pre, post) → cut2 a b (pre +:+ String a "") = None.
Proof.
  revert pre post. induction s as [|x s IH]; intros pre post; [done|].
  destruct s as [|y s]; [done|]. rewrite cut2_cons.
  case_bool_decide as Hxy; [by intros [= <- <-]|].
  intros ([p q] & Hc & Heq)%fmap_Some. simpl in Heq. injection Heq as -> ->.
  pose proof (IH _ _ Hc) as Hp. apply cut2_spec in Hc.
  rewrite str_app_cons. destruct p as [|y' p].
  - change ("" +:+ String a "") with (String a "") in *. rewrite cut2_cons.
    injection Hc as -> _. by rewrite bool_decide_false.
  - rewrite str_app_cons in *. injection Hc as <- _. rewrite cut2_cons, bool_decide_false by done.
    by rewrite Hp.
Qed.

(** Dots bring no two bytes together. *)
Lemma dotted_cut2 a b s o :
  dotted s o → a ≠ "."%char → b ≠ "."%char →
  cut2 a b (s +:+ String a "") = None → cut2 a b (o +:+ String a "") = None.
Proof.
  intros Hd Ha Hb. assert (∀ x t, cut2 a b (String x t) = None ↔
    (∀ y t', t = String y t' → ¬ (x = a ∧ y = b)) ∧ cut2 a b t = None) as Hcut.
  { intros x [|y t]; [by split; [intros _; split|]|]. rewrite cut2_cons.
    case_bool_decide as Hxy; [split; [done|intros [Hn _]; by destruct (Hn y t)]|].
    rewrite fmap_None. split; [|tauto]. intros ->. split; [|done]. by intros ?? [= <- <-]. }
  induction Hd as [|c s o Hd IH|s o _ IH]; [done| |].
  - rewrite !str_app_cons, !Hcut. intros [Hhd Hs]. split; [|auto].
    intros y t Ho. inversion Hd as [|c' s' o' Hd'|s' o' Hd']; subst; simpl in *.
    + injection Ho as <- <-. by apply (Hhd a "").
    + injection Ho as <- <-. by eapply Hhd.
    + injection Ho as <- <-. intros [_ Hy]. congruence.
  - intros Hs. rewrite str_app_cons, Hcut. split; [|auto]. intros y t _ [Hx _]. congruence.
Qed.

(** What preprocessTemplate made of a text is cut at the same places. *)
Lemma preprocess_idem_dotted s :
  preprocessTemplate (preprocessTemplate s) = preprocessTemplate s ∧
  dotted s (preprocessTemplate s).
Proof.
  induction (Nat.lt_wf_0_projected String.length s) as [s _ IH].
  assert (preprocessTemplate s = s →
          preprocessTemplate (preprocessTemplate s) = preprocessTemplate s ∧
          dotted s (preprocessTemplate s)) as Hsame by (intros Hs; by rewrite !Hs).
  pose proof (preprocess_unfold s) as Heq. revert Heq.
  destruct (cut2 "{" "{" s) as [[pre rest]|] eqn:H1; [|done].
  destruct (cut2 "}" "}" rest) as [[inner post]|] eqn:H2; [|done].
  intros Heq. destruct (IH post) as [Hidem Hdot].
  { apply cut2_length in H1, H2. lia. }
  pose proof (rewriteAction_rel inner) as Hrel. split.
  - rewrite Heq at 1. rewrite preprocess_unfold.
    rewrite cut2_clean by by eapply cut2_before.
    rewrite cut2_clean.
    2:{ eapply dotted_cut2; [by apply action_rel_dotted|done|done|by eapply cut2_before]. }
    rewrite Heq, Hidem. do 3 f_equal.
    by eapply rewriteAction_result, action_rel_idem.
  - rewrite Heq. rewrite (cut2_spec _ _ _ _ _ H1), (cut2_spec _ _ _ _ _ H2).
    apply dotted_app; [done|]. do 2 apply dotted_char.
    apply dotted_app; [by apply action_rel_dotted|]. by do 2 apply dotted_char.
Qed.

(** The literal scan of the first piece stops at the closing braces of the
    action, wherever they stand. *)
Definition brace_in_literal : string := "{{ print `}}` trigger.x }}".

(** C32: preprocessTemplate, without fuel: a text without opening braces is
    returned as it is; otherwise the text up to the first ones is copied, the
    action runs to the first closing braces after them, its body goes through
    rewriteAction and the rest of the text is treated in the same way; an action
    that is never closed is copied.  The closing braces are searched before string
    literals are recognised: braces inside a literal end the action, and the
    references after the literal are not rewritten.  Whatever the text, only dots
    are added to it, and the result is a fixed point: a text with the dots of
    text/template is left alone. *)
Theorem preprocessTemplate_correct s :
  preprocessTemplate s =
    match cut2 "{" "{" s with
    | None => s
    | Some (pre, rest) =>
      match cut2 "}" "}" rest with
      | None => s
      | Some (inner, post) =>
        pre +:+ "{{" +:+ rewriteAction inner +:+ "}}" +:+ preprocessTemplate post
      end
    end ∧
  (contains s "{{" = false → preprocessTemplate s = s) ∧
  preprocessTemplate brace_in_literal = brace_in_literal ∧
  dotted s (preprocessTemplate s) ∧
  preprocessTemplate (preprocessTemplate s) = preprocessTemplate s.
Proof.
  destruct (preprocess_idem_dotted s) as [Hidem Hdot].
  split_and!; [apply preprocess_unfold|apply preprocessTemplate_plain|by vm_compute|done|done].
Qed.

Lemma preprocessTemplate_correct_witness : preprocessTemplate "plain }} text" = "plain }} text".
Proof. apply (proj1 (proj2 (preprocessTemplate_correct "plain }} text"))). reflexivity. Defined.
