(* ===== verification/Template.v ===== *)
(** * Payload templates (pkg/engine/template.go)

    The leaves that are one json call, the traversal of payload definitions,
    rendering and the template check of the configuration.  The engine behind
    [text/template] is the class [TextTemplate]. *)
From S2P Require Import Prelude GoStrings GoValue Libs Regex Config Broker Matcher Rewrite.

(** ** Leaves that are one json call *)

(** [typedJSONRegex]; [.] is any byte but a newline. *)
Definition re_ws : re :=
  Chr (λ c, bool_decide (c ∈ [ascii_of_N 9; ascii_of_N 10; ascii_of_N 12; ascii_of_N 13;
                              " "%char])).
Definition re_dot : re := Chr (λ c, bool_decide (c ≠ ascii_of_N 10)).
Definition typed_json_re : re :=
  cats [Star re_ws; lit (bytes_of "{{"); opt (lit (bytes_of "-")); Star re_ws;
        Alt (cats [lit (bytes_of "json"); plus re_ws; plus re_dot])
            (cats [plus re_dot; lit (bytes_of "|"); Star re_ws; lit (bytes_of "json")]);
        Star re_ws; opt (lit (bytes_of "-")); lit (bytes_of "}}"); Star re_ws].
Definition typedJSON (s : string) : bool := re_match typed_json_re (bytes_of s).

(** ** Traversal of a payload

    A leaf function may keep a state [S] (the closure of ValidateTemplates
    collects errors) and may fail. *)
Definition leafFunc (S : Type) : Type := string → bool → stateR S string value.

(** [ks, _ := nk.(string)] *)
Definition as_key (v : value) : string := match v with VString s => s | _ => "" end.

(** The loop over the entries of a map, filling [out]. *)
Fixpoint entries_loop {S A} (entry : A → stateR S string (string * value)) (m : list A)
    (out : list (string * value)) : stateR S string (list (string * value)) :=
  match m with
  | [] => mret out
  | kv :: m' => e ← entry kv; entries_loop entry m' (assoc_set e.1 e.2 out)
  end.

(** The loop over the elements of a slice, filling [out[i]]. *)
Fixpoint elements_loop {S A B} (elem : A → stateR S string B) (l : list A)
    : stateR S string (list B) :=
  match l with
  | [] => mret []
  | x :: l' => y ← elem x; ys ← elements_loop elem l'; mret (y :: ys)
  end.

Section transform.
Context {S : Type} `{GoFmt} (fn : leafFunc S).

(** transformEntry, given the transformation of the entry's value. *)
Definition transformEntry_with (rec : stateR S string value) (key : string)
    : stateR S string (string * value) :=
  nk ← fn key true; nv ← rec; mret (as_key nk, nv).

Fixpoint transformPayload (v : value) : stateR S string value :=
  match v with
  | VString s => fn s false
  | VMap false m =>
    out ← entries_loop (λ kv, transformEntry_with (transformPayload kv.2) kv.1) m [];
    mret (VMap false out)
  | VIMap m =>
    out ← entries_loop (λ kv, transformEntry_with (transformPayload kv.2) (sprint kv.1)) m [];
    mret (VMap false out)
  | VSlice l => out ← elements_loop transformPayload l; mret (VSlice out)
  | _ => mret v
  end.

Definition transformEntry (key : string) (val : value) : stateR S string (string * value) :=
  transformEntry_with (transformPayload val) key.
End transform.

(** ** The template engine

    Parsing is a function of the text; execution also consumes entropy (uuid,
    random_int and the clock). *)
Class TextTemplate := {
  tmpl : Type;
  entropy : Type;
  tmpl_Parse : string → result string tmpl;
  tmpl_Execute : tmpl → value → entropy → result string string * entropy;
}.

(** The random_int function of TemplateFuncs, on 64-bit ints: [rand_N] panics
    for an argument that is not positive, which the engine reports as an error. *)
Definition random_int (rand_N : Z → Z) (min max : Z) : result string Z :=
  if bool_decide (max ≤ min)%Z then Ok min
  else
    let n := i64 (i64 (max - min) + 1) in
    if bool_decide (n ≤ 0)%Z then Err "invalid argument to N" else Ok (i64 (rand_N n + min)).

Section render.
Context `{Unicode, GoFmt, Json, TextTemplate}.

Definition parseTemplate (text : string) : result string tmpl :=
  wrap_err ("failed to parse payload template " +:+ quote text +:+ ": ")
    (tmpl_Parse (preprocessTemplate text)).

Definition executeTemplate (text : string) (data : value) : stateR entropy string string :=
  λ s,
    match parseTemplate text with
    | Err e => (Err e, s)
    | Ok t =>
      let '(r, s') := tmpl_Execute t data s in
      (wrap_err ("failed to execute payload template " +:+ quote text +:+ ": ") r, s')
    end.

(** The decoded body of the triggering message, an empty object when there is none. *)
Definition trigger_of (msg : Message) : value :=
  let decoded := if bool_decide (m_Body msg = "") then VNil
                 else (json_Unmarshal (m_Body msg)).1 in
  if is_nil decoded then VMap false [] else decoded.

(** [now] is the formatted current time. *)
Definition buildTemplateContext (now : string) (msg : Message) : value :=
  VMap false [("trigger", trigger_of msg);
              ("queue", VString (m_Queue msg));
              ("routing_key", VString (m_RoutingKey msg));
              ("headers", VMap false (map_to_list (m_Headers msg)));
              ("system", VMap false [("utc_now", VString now)])].

(** The leaf function of RenderPayload. *)
Definition render_leaf (data : value) (s : string) (isKey : bool)
    : stateR entropy string value :=
  if negb (contains s "{{") then mret (VString s) else
  out ← executeTemplate s data;
  if negb isKey && bool_decide (count2 "{" "{" s = 1) && typedJSON s then
    if negb (json_Valid out)
    then failR ("json helper in " +:+ quote s +:+ " produced invalid JSON: " +:+ out)
    else mret (VRaw out)
  else mret (VString out).

Definition RenderPayload (payloadDef : value) (now : string) (msg : Message)
    : stateR entropy string string :=
  if is_nil payloadDef then mret "{}" else
  let data := buildTemplateContext now msg in
  match payloadDef with
  | VString raw => executeTemplate raw data
  | _ =>
    rendered ← transformPayload (render_leaf data) payloadDef;
    liftR (wrap_err "failed to marshal rendered payload: " (json_Marshal rendered))
  end.

(** ** ValidateTemplates *)

Definition check_label (i : nat) (rule : Rule) : string :=
  if bool_decide (r_Name rule = "") then "rules[" +:+ itoa (Z.of_nat i) +:+ "]"
  else r_Name rule.

(** The closure [check]: it appends to [errs] and never fails. *)
Definition check_leaf (label s : string) (isKey : bool) : stateR (list string) string value :=
  λ errs,
  (Ok (VString s),
   if contains s "{{" then
     match parseTemplate s with
     | Err e => errs ++ ["rule " +:+ quote label +:+ ": " +:+ e]
     | Ok _ => errs
     end
   else errs).

Definition check_rule_templates (i : nat) (rule : Rule) (errs : list string) : list string :=
  let check := check_leaf (check_label i rule) in
  match mr_Payload (r_MockResponse rule) with
  | VNil => errs
  | VString raw => (check raw false errs).2
  | payload => (transformPayload check payload errs).2
  end.

Fixpoint validate_loop (i : nat) (rules : list Rule) (errs : list string) : list string :=
  match rules with
  | [] => errs
  | r :: rules' => validate_loop (S i) rules' (check_rule_templates i r errs)
  end.

(** errors.Join: nil for no error, the texts on lines otherwise. *)
Definition join_errors (errs : list string) : option string :=
  match errs with [] => None | _ => Some (join (String (ascii_of_N 10) "") errs) end.

Definition ValidateTemplates (cfg : Config) : option string :=
  join_errors (validate_loop 0 (c_Rules cfg) []).
End render.

(** The argument of the call may be anything without a newline, so that a longer
    pipeline that begins with the call is taken for one too. *)
Example typedJSON_examples :
  typedJSON "{{ json trigger.amount }}" = true ∧
  typedJSON " {{- trigger.amount | json -}} " = true ∧
  typedJSON "{{ trigger.amount }}" = false ∧ typedJSON "x{{json trigger.a}}" = false ∧
  typedJSON "{{ json trigger.a | printf `v%s` }}" = true ∧
  typedJSON "{{ json trigger.a }} or }}" = true.
Proof. vm_compute. repeat split. Qed.

(** ** The strings of a payload *)

Section strings.
Context `{GoFmt}.

(** Every string transformPayload visits, keys before the values below them. *)
Fixpoint payload_strings (v : value) : list string :=
  match v with
  | VString s => [s]
  | VMap false m => mjoin ((λ kv, kv.1 :: payload_strings kv.2) <$> m)
  | VIMap m => mjoin ((λ kv, sprint kv.1 :: payload_strings kv.2) <$> m)
  | VSlice l => mjoin (payload_strings <$> l)
  | _ => []
  end.
End strings.

Section check_facts.
Context `{Unicode, GoFmt, Json, TextTemplate}.

Definition check_err (label s : string) : list string :=
  if contains s "{{" then
    match parseTemplate s with
    | Err e => ["rule " +:+ quote label +:+ ": " +:+ e]
    | Ok _ => []
    end
  else [].

Definition check_errs (label : string) (l : list string) : list string :=
  mjoin (check_err label <$> l).

Lemma check_errs_app label l k :
  check_errs label (l ++ k) = check_errs label l ++ check_errs label k.
Proof. unfold check_errs. by rewrite fmap_app, join_app. Qed.

Lemma check_leaf_run label s b errs :
  check_leaf label s b errs = (Ok (VString s), errs ++ check_err label s).
Proof.
  unfold check_leaf, check_err. destruct (contains s "{{"); [|by rewrite app_nil_r].
  by destruct (parseTemplate s); rewrite ?app_nil_r.
Qed.

Lemma check_errs_nil label l :
  check_errs label l = [] ↔ ∀ s, s ∈ l → check_err label s = [].
Proof. unfold check_errs. by rewrite join_nil, Forall_fmap, Forall_forall. Qed.

(** The effect of a step of the check: it succeeds and appends texts. *)
Definition appends {A} (m : stateR (list string) string A) (more : list string) : Prop :=
  ∀ errs, ∃ a, m errs = (Ok a, errs ++ more).

Lemma appends_ret {A} (a : A) : appends (mret a) [].
Proof. intros errs. exists a. by rewrite app_nil_r. Qed.

Lemma appends_bind {A B} (m : stateR (list string) string A)
    (f : A → stateR (list string) string B) more more' :
  appends m more → (∀ a, appends (f a) more') → appends (m ≫= f) (more ++ more').
Proof.
  intros Hm Hf errs. destruct (Hm errs) as [a Ha], (Hf a (errs ++ more)) as [b Hb].
  exists b. unfold mbind, stateR_bind. by rewrite Ha, Hb, app_assoc.
Qed.

Lemma appends_entries {A} (entry : A → stateR (list string) string (string * value)) more m :
  Forall (λ kv, appends (entry kv) (more kv)) m →
  ∀ out, appends (entries_loop entry m out) (mjoin (more <$> m)).
Proof.
  induction 1 as [|kv m Hkv _ IH]; intros out; [apply appends_ret|].
  by apply appends_bind.
Qed.

Lemma appends_elements {A B} (elem : A → stateR (list string) string B) more l :
  Forall (λ x, appends (elem x) (more x)) l →
  appends (elements_loop elem l) (mjoin (more <$> l)).
Proof.
  induction 1 as [|x l Hx _ IH]; [apply appends_ret|]. simpl.
  apply appends_bind; [done|]. intros y. rewrite <- (app_nil_r (mjoin _)).
  apply appends_bind; [done|]. intros ys. apply appends_ret.
Qed.

Lemma check_errs_join {A} label (f : A → list string) l :
  check_errs label (mjoin (f <$> l)) = mjoin ((λ x, check_errs label (f x)) <$> l).
Proof. induction l as [|x l IH]; simpl; [done|].
  rewrite check_errs_app. f_equal. apply IH.
Qed.

(** The traversal never stops early, and it appends one text per string that
    does not parse. *)
Lemma transformPayload_check label v :
  appends (transformPayload (check_leaf label) v) (check_errs label (payload_strings v)).
Proof.
  assert (∀ s b, appends (check_leaf label s b) (check_err label s)) as Hleaf.
  { intros s b errs. eexists. apply check_leaf_run. }
  assert (∀ rec key l, appends rec (check_errs label l) →
    appends (transformEntry_with (check_leaf label) rec key) (check_errs label (key :: l)))
    as Hentry.
  { intros rec key l Hrec. apply appends_bind; [apply Hleaf|]. intros nk.
    rewrite <- (app_nil_r (mjoin _)). apply appends_bind; [done|]. intros nv.
    apply appends_ret. }
  induction v as [|b|k z|f|s|s|l IH|n m IH|m IH|s|t r] using value_ind_nested;
    try apply appends_ret; simpl.
  - unfold check_errs. simpl. rewrite app_nil_r. apply Hleaf.
  - rewrite check_errs_join, <- (app_nil_r (mjoin _)).
    apply appends_bind; [|intros; apply appends_ret]. by apply appends_elements.
  - destruct n; [apply appends_ret|].
    rewrite check_errs_join, <- (app_nil_r (mjoin _)).
    apply appends_bind; [|intros; apply appends_ret]. apply appends_entries.
    eapply Forall_impl; [exact IH|]. intros kv Hkv. by apply Hentry.
  - rewrite check_errs_join, <- (app_nil_r (mjoin _)).
    apply appends_bind; [|intros; apply appends_ret]. apply appends_entries.
    eapply Forall_impl; [exact IH|]. intros kv [_ Hkv]. by apply Hentry.
Qed.

Lemma check_rule_templates_run i r errs :
  check_rule_templates i r errs =
  errs ++ check_errs (check_label i r) (payload_strings (mr_Payload (r_MockResponse r))).
Proof.
  unfold check_rule_templates.
  destruct (mr_Payload (r_MockResponse r)) as [| | | | | | | | | |] eqn:Hp;
    try (edestruct transformPayload_check as [v ->]; done).
  - by rewrite app_nil_r.
  - rewrite check_leaf_run. unfold check_errs; simpl. by rewrite app_nil_r.
Qed.

Lemma validate_loop_run i rules errs :
  validate_loop i rules errs =
  errs ++ mjoin (imap (λ j r, check_errs (check_label (i + j) r)
                          (payload_strings (mr_Payload (r_MockResponse r)))) rules).
Proof.
  revert i errs. induction rules as [|r rules IH]; intros i errs; simpl.
  - by rewrite app_nil_r.
  - rewrite IH, check_rule_templates_run, <- app_assoc, Nat.add_0_r. do 3 f_equal.
    apply imap_ext. intros j x _. simpl. by rewrite Nat.add_succ_r.
Qed.
End check_facts.

(** A text the template engine accepts, after the rewriting. *)
Definition parses `{TextTemplate} (s : string) : Prop :=
  ∃ t, tmpl_Parse (preprocessTemplate s) = Ok t.

Lemma ValidateTemplates_iff `{Unicode, GoFmt, TextTemplate} cfg :
  ValidateTemplates cfg = None ↔
  ∀ r s, r ∈ c_Rules cfg → s ∈ payload_strings (mr_Payload (r_MockResponse r)) →
         contains s "{{" = true → parses s.
Proof.
  assert (∀ l, join_errors l = None ↔ l = []) as Hjoin by by intros [].
  assert (∀ label s, check_err label s = [] ↔ (contains s "{{" = true → parses s)) as Herr.
  { intros label s. unfold check_err, parses, parseTemplate.
    destruct (contains s "{{"); [|done].
    destruct (tmpl_Parse (preprocessTemplate s)); simpl; [naive_solver|].
    split; [done|]. intros Hc. by destruct (Hc eq_refl). }
  unfold ValidateTemplates. rewrite Hjoin, validate_loop_run, app_nil_l.
  change (mjoin (imap ?f ?l)) with (concat_imap f l). rewrite concat_imap_nil. split.
  - intros Hall r s Hr Hs. apply list_elem_of_lookup in Hr as [i Hi].
    apply (Herr (check_label (0 + i) r)). by eapply check_errs_nil; [apply Hall|].
  - intros Hall i r Hi. apply check_errs_nil. intros s Hs.
    apply Herr. eapply Hall; [|done]. by eapply list_elem_of_lookup_2.
Qed.

(** C23: ValidateTemplates accepts a configuration exactly when every string of
    every rule's payload, map keys and nested values included, parses as a
    template after the rewriting, if it has an action at all. *)
Theorem ValidateTemplates_correct `{Unicode, GoFmt, TextTemplate} cfg :
  ValidateTemplates cfg = None ↔
  ∀ r s, r ∈ c_Rules cfg → s ∈ payload_strings (mr_Payload (r_MockResponse r)) →
         contains s "{{" = true → parses s.
Proof. apply ValidateTemplates_iff. Qed.

(** ** What a traversal produces *)

(** The two ways a stateful computation may end. *)
Definition outcome {S E A} (m : stateR S E A) (P : A → Prop) (Q : E → Prop) : Prop :=
  ∀ s, match (m s).1 with Ok a => P a | Err e => Q e end.

Section outcome.
Context {S E : Type}.

Lemma outcome_ret {A} (a : A) (P : A → Prop) (Q : E → Prop) :
  P a → outcome (mret a : stateR S E A) P Q.
Proof. by intros HP s. Qed.

Lemma outcome_bind {A B} (m : stateR S E A) (f : A → stateR S E B) P R Q :
  outcome m P Q → (∀ a, P a → outcome (f a) R Q) → outcome (m ≫= f) R Q.
Proof.
  intros Hm Hf s. specialize (Hm s). unfold mbind, stateR_bind.
  destruct (m s) as [[a|e] s']; simpl in *; [by apply Hf|done].
Qed.

Lemma outcome_mono {A} (m : stateR S E A) (P P' : A → Prop) (Q Q' : E → Prop) :
  outcome m P Q → (∀ a, P a → P' a) → (∀ e, Q e → Q' e) → outcome m P' Q'.
Proof. intros Hm HP HQ s. specialize (Hm s). destruct (m s) as [[] ?]; simpl in *; auto. Qed.

Lemma outcome_run {A} (m : stateR S E A) P Q s r s' :
  outcome m P Q → m s = (r, s') → match r with Ok a => P a | Err e => Q e end.
Proof. intros Hm Hr. specialize (Hm s). by rewrite Hr in Hm. Qed.
End outcome.

Definition is_scalar (v : value) : bool :=
  match v with VString _ | VMap false _ | VIMap _ | VSlice _ => false | _ => true end.

(** The entries of [m], read through [key], and those of the map made of them:
    the keys are the transformed keys, each with the transformed value of an
    entry that has it (of the last one visited, when two keys become equal). *)
Definition entries_related {K} (key : K → string) (leaf : string → bool → value → Prop)
    (R : value → value → Prop) (m : list (K * value)) (out : list (string * value)) : Prop :=
  NoDup out.*1 ∧
  (∀ k' v', (k', v') ∈ out →
    ∃ k v, (k, v) ∈ m ∧ leaf (key k) true (VString k') ∧ R v v') ∧
  (∀ k v, (k, v) ∈ m → ∃ k', leaf (key k) true (VString k') ∧ k' ∈ out.*1).

Section transformed.
Context `{GoFmt} (leaf : string → bool → value → Prop).

(** The same structure, with every string replaced by a related leaf: slices
    keep their length and order, maps their entries; everything else is kept. *)
Inductive transformed : value → value → Prop :=
| tr_string s v : leaf s false v → transformed (VString s) v
| tr_slice l l' : Forall2 transformed l l' → transformed (VSlice l) (VSlice l')
| tr_map m out :
    entries_related id leaf transformed m out → transformed (VMap false m) (VMap false out)
| tr_imap m out :
    entries_related sprint leaf transformed m out → transformed (VIMap m) (VMap false out)
| tr_scalar v : is_scalar v = true → transformed v v.
End transformed.

Section transform_outcome.
Context {S : Type} `{GoFmt} (fn : leafFunc S) (leaf : string → bool → value → Prop)
  (Q : string → Prop).
Hypothesis leaf_key : ∀ s v, leaf s true v → ∃ k, v = VString k.

Lemma outcome_elements (elem : value → stateR S string value) (R : value → value → Prop) l :
  (∀ x, x ∈ l → outcome (elem x) (R x) Q) → outcome (elements_loop elem l) (Forall2 R l) Q.
Proof.
  induction l as [|x l IH]; intros Hel; [by apply outcome_ret|]. simpl.
  eapply outcome_bind; [apply Hel; by left|]. intros y Hy.
  eapply outcome_bind; [apply IH; intros; apply Hel; by right|]. intros ys Hys.
  apply outcome_ret. by constructor.
Qed.

(** [R kv e]: the entry [kv] may become [e]. *)
Lemma outcome_entries {A} (entry : A → stateR S string (string * value))
    (R : A → string * value → Prop) m out :
  (∀ kv, kv ∈ m → outcome (entry kv) (R kv) Q) → NoDup out.*1 →
  outcome (entries_loop entry m out)
    (λ out', NoDup out'.*1 ∧
      (∀ e, e ∈ out' → e ∈ out ∨ ∃ kv, kv ∈ m ∧ R kv e) ∧
      (∀ k, k ∈ out.*1 → k ∈ out'.*1) ∧
      (∀ kv, kv ∈ m → ∃ e, R kv e ∧ e.1 ∈ out'.*1)) Q.
Proof.
  revert out. induction m as [|kv m IH]; intros out Hm Hnd; simpl.
  { apply outcome_ret. split_and!; [done|by left|done|set_solver]. }
  eapply outcome_bind; [apply Hm; by left|]. intros [k v] Hkv. simpl.
  intros s. specialize (IH (assoc_set k v out)).
  destruct (entries_loop entry m (assoc_set k v out) s) as [[out'|e] s'] eqn:Hrun;
    eapply outcome_run in Hrun; try (apply IH; [set_solver|by apply assoc_set_NoDup]);
    [|done].
  destruct Hrun as (Hnd' & Hel & Hkeys & Hall). simpl. split_and!; [done| | |].
  - intros [k' v'] [Hin|(kv' & Hin & HR)]%Hel.
    + apply assoc_set_elem in Hin as [[-> ->]|Hin]; [right|by left].
      exists kv. split; [by left|done].
    + right. exists kv'. split; [by right|done].
  - intros x Hx. apply Hkeys, assoc_set_keys. by right.
  - intros kv' [->|Hin]%elem_of_cons; [|by apply Hall].
    exists (k, v). split; [done|]. apply Hkeys, assoc_set_keys. by left.
Qed.

Lemma outcome_entry rec key (R : value → Prop) :
  outcome (fn key true) (leaf key true) Q → outcome rec R Q →
  outcome (transformEntry_with fn rec key)
    (λ e, leaf key true (VString e.1) ∧ R e.2) Q.
Proof.
  intros Hk Hr. eapply outcome_bind; [exact Hk|]. intros nk Hnk.
  eapply outcome_bind; [exact Hr|]. intros nv Hnv. apply outcome_ret.
  by destruct (leaf_key key nk Hnk) as [k ->].
Qed.

Lemma outcome_map {K} (key : K → string) rec R (m : list (K * value)) :
  (∀ kv s b, kv ∈ m → s ∈ [key kv.1] → outcome (fn s b) (leaf s b) Q) →
  (∀ kv, kv ∈ m → outcome (rec kv.2) (R kv.2) Q) →
  outcome (entries_loop (λ kv, transformEntry_with fn (rec kv.2) (key kv.1)) m [])
    (entries_related key leaf R m) Q.
Proof.
  intros Hk Hrec. eapply outcome_mono; [apply (outcome_entries _
    (λ kv e, leaf (key kv.1) true (VString e.1) ∧ R kv.2 e.2)); [|constructor]| |done].
  - intros kv Hkv. apply outcome_entry; [eapply Hk; [done|by left]|by apply Hrec].
  - intros out (Hnd & Hel & _ & Hall). split_and!; [done| |].
    + intros k' v' [Hn|([k v] & Hkv & HR)]%Hel; [set_solver|]. by exists k, v.
    + intros k v Hkv. destruct (Hall _ Hkv) as ([k' v'] & [HR _] & Hk'). by exists k'.
Qed.

Lemma transformPayload_outcome v :
  (∀ s b, s ∈ payload_strings v → outcome (fn s b) (leaf s b) Q) →
  outcome (transformPayload fn v) (transformed leaf v) Q.
Proof.
  assert (∀ A (f : A → list string) x s l, x ∈ l → s ∈ f x → s ∈ mjoin (f <$> l)) as Hin.
  { intros A f x s l Hx Hs. apply list_elem_of_join. eexists. split; [done|].
    by apply list_elem_of_fmap_2. }
  induction v as [|b|k z|f|s|s|l IH|n m IH|m IH|s|t r] using value_ind_nested; intros Hfn;
    try (apply outcome_ret; by constructor); simpl in *; try rewrite Forall_forall in IH.
  - eapply outcome_mono; [apply Hfn; by left|by constructor|done].
  - eapply outcome_bind; [apply (outcome_elements _ (transformed leaf))|].
    + intros x Hx. apply IH; [done|]. intros s b Hs. by eapply Hfn, Hin.
    + intros out Hout. apply outcome_ret. by constructor.
  - destruct n; [by apply outcome_ret, tr_scalar|].
    eapply outcome_bind; [apply (outcome_map id _ (transformed leaf))|].
    + intros kv s b Hkv Hs. eapply Hfn, Hin; [done|]. set_solver.
    + intros kv Hkv. apply IH; [done|]. intros s b Hs. eapply Hfn, Hin; [done|]. by right.
    + intros out Hout. by apply outcome_ret, tr_map.
  - eapply outcome_bind; [apply (outcome_map sprint _ (transformed leaf))|].
    + intros kv s b Hkv Hs. eapply Hfn, Hin; [done|]. set_solver.
    + intros kv Hkv. apply IH; [done|]. intros s b Hs. eapply Hfn, Hin; [done|]. by right.
    + intros out Hout. by apply outcome_ret, tr_imap.
Qed.
End transform_outcome.

(** ** Rendering *)

Section render_spec.
Context `{Unicode, GoFmt, Json, TextTemplate} (data : value).

(** The text may render to [out] / the rendering may stop with the error [e]. *)
Definition renders_text (s out : string) : Prop :=
  ∃ t r r', tmpl_Parse (preprocessTemplate s) = Ok t ∧ tmpl_Execute t data r = (Ok out, r').

Inductive text_error (s : string) : string → Prop :=
| te_parse e :
    tmpl_Parse (preprocessTemplate s) = Err e →
    text_error s (("failed to parse payload template " +:+ quote s +:+ ": ") +:+ e)
| te_execute t r r' e :
    tmpl_Parse (preprocessTemplate s) = Ok t → tmpl_Execute t data r = (Err e, r') →
    text_error s (("failed to execute payload template " +:+ quote s +:+ ": ") +:+ e).

(** A leaf that is nothing but one json helper call. *)
Definition json_leaf (s : string) : bool := bool_decide (count2 "{" "{" s = 1) && typedJSON s.

(** Strings without an action stay; the others become the string they render
    to, or, for a json leaf that is no key, the JSON text itself, if it is
    valid. *)
Inductive leaf_rel (s : string) (isKey : bool) : value → Prop :=
| leaf_plain : contains s "{{" = false → leaf_rel s isKey (VString s)
| leaf_text out :
    contains s "{{" = true → isKey || negb (json_leaf s) = true → renders_text s out →
    leaf_rel s isKey (VString out)
| leaf_json out :
    contains s "{{" = true → isKey = false → json_leaf s = true → renders_text s out →
    json_Valid out = true → leaf_rel s isKey (VRaw out).

Inductive leaf_error (s : string) : string → Prop :=
| le_text e : contains s "{{" = true → text_error s e → leaf_error s e
| le_json out :
    json_leaf s = true → renders_text s out → json_Valid out = false →
    leaf_error s ("json helper in " +:+ quote s +:+ " produced invalid JSON: " +:+ out).

Lemma executeTemplate_outcome s : outcome (executeTemplate s data) (renders_text s) (text_error s).
Proof.
  intros r. unfold executeTemplate, parseTemplate.
  destruct (tmpl_Parse (preprocessTemplate s)) as [t|e] eqn:Hp; simpl; [|by constructor].
  destruct (tmpl_Execute t data r) as [[out|e] r'] eqn:He; simpl; [by exists t, r, r'|].
  by eapply te_execute.
Qed.

Lemma render_leaf_outcome s b :
  outcome (render_leaf data s b) (leaf_rel s b) (leaf_error s).
Proof.
  unfold render_leaf. destruct (contains s "{{") eqn:Hc; simpl;
    [|by apply outcome_ret, leaf_plain].
  eapply outcome_bind; [eapply outcome_mono; [apply executeTemplate_outcome|done|]|].
  { intros e He. by apply le_text. }
  intros out Hout. rewrite <- andb_assoc. fold (json_leaf s).
  destruct b, (json_leaf s) eqn:Hj; simpl;
    try (apply outcome_ret, leaf_text; by rewrite ?Hj).
  destruct (json_Valid out) eqn:Hv; simpl; [by apply outcome_ret, leaf_json|].
  intros r. by apply le_json.
Qed.

Lemma leaf_rel_key s v : leaf_rel s true v → ∃ k, v = VString k.
Proof. inversion 1; eauto; done. Qed.
End render_spec.

Section render_payload.
Context `{Unicode, GoFmt, Json, TextTemplate} (data : value).

Definition is_text (p : value) : bool := match p with VNil | VString _ => true | _ => false end.

Inductive rendered : value → string → Prop :=
| rn_nil : rendered VNil "{}"
| rn_text s out : renders_text data s out → rendered (VString s) out
| rn_tree p v body :
    is_text p = false → transformed (leaf_rel data) p v → json_Marshal v = Ok body →
    rendered p body.

Inductive render_error (p : value) : string → Prop :=
| re_text s e : p = VString s → text_error data s e → render_error p e
| re_leaf s e :
    is_text p = false → s ∈ payload_strings p → leaf_error data s e → render_error p e
| re_marshal v e :
    transformed (leaf_rel data) p v → json_Marshal v = Err e →
    render_error p ("failed to marshal rendered payload: " +:+ e).

(** The errors a payload whose templates parse can still meet. *)
Inductive run_error (p : value) : string → Prop :=
| run_execute s t r r' e :
    s ∈ payload_strings p → tmpl_Parse (preprocessTemplate s) = Ok t →
    tmpl_Execute t data r = (Err e, r') →
    run_error p (("failed to execute payload template " +:+ quote s +:+ ": ") +:+ e)
| run_json s out :
    s ∈ payload_strings p → json_leaf s = true → renders_text data s out →
    json_Valid out = false →
    run_error p ("json helper in " +:+ quote s +:+ " produced invalid JSON: " +:+ out)
| run_marshal v e :
    transformed (leaf_rel data) p v → json_Marshal v = Err e →
    run_error p ("failed to marshal rendered payload: " +:+ e).

Lemma text_error_parses p s e :
  s ∈ payload_strings p → parses s → text_error data s e → run_error p e.
Proof.
  intros Hs [t Ht] He. inversion He; [congruence|]. by eapply run_execute.
Qed.

Lemma render_error_parses p e :
  (∀ s, s ∈ payload_strings p → parses s) → render_error p e → run_error p e.
Proof.
  intros Hp [s e' -> Ht|s e' _ Hs [e'' _ Ht|out Hj Hr Hv]|v e' Hv Hm].
  - assert (s ∈ payload_strings (VString s)) as Hin by by left.
    by apply (text_error_parses _ s); [|apply Hp|].
  - by apply (text_error_parses _ s); [|apply Hp|].
  - by eapply run_json.
  - by eapply run_marshal.
Qed.
End render_payload.

Lemma RenderPayload_outcome `{Unicode, GoFmt, Json, TextTemplate} p now msg :
  outcome (RenderPayload p now msg)
    (rendered (buildTemplateContext now msg) p)
    (render_error (buildTemplateContext now msg) p).
Proof.
  set (data := buildTemplateContext now msg).
  assert (is_text p = false → outcome
    (rendered ← transformPayload (render_leaf data) p;
     liftR (wrap_err "failed to marshal rendered payload: " (json_Marshal rendered)))
    (rendered data p) (render_error data p)) as Htree.
  { intros Hp. eapply outcome_bind.
    - apply (transformPayload_outcome _ (leaf_rel data)); [apply leaf_rel_key|].
      intros s b Hs. eapply outcome_mono; [apply render_leaf_outcome|done|].
      intros e He. by eapply re_leaf.
    - intros v Hv r. simpl. destruct (json_Marshal v) eqn:Hm; simpl;
        [by eapply rn_tree|by eapply re_marshal]. }
  destruct p; try (by apply Htree).
  - by apply outcome_ret, rn_nil.
  - eapply outcome_mono; [apply executeTemplate_outcome| |].
    + intros out. apply rn_text.
    + intros e He. by eapply re_text.
Qed.

(** C17: RenderPayload, on every branch.  Without a payload the body is the empty
    object; a payload that is a string is one template and its output is the
    body; any other payload is rendered leaf by leaf into a tree of the same
    structure, in which what the message contributed is always a string or one
    valid JSON text, and that tree is marshalled.  The only errors are those of
    the templates met, of a json helper producing invalid JSON, and of
    marshalling. *)
Theorem RenderPayload_correct `{Unicode, GoFmt, Json, TextTemplate} p now msg :
  outcome (RenderPayload p now msg)
    (rendered (buildTemplateContext now msg) p)
    (render_error (buildTemplateContext now msg) p).
Proof. apply RenderPayload_outcome. Qed.

(** Once ValidateTemplates has accepted the configuration, rendering a rule's
    payload never fails because a template does not parse: what is left are
    errors of executing a template on the message at hand, invalid output of a
    json helper, and marshalling. *)
Theorem validated_templates_parse `{Unicode, GoFmt, Json, TextTemplate} cfg r now msg st e st' :
  (∀ s, contains s "{{" = false → ∃ t, tmpl_Parse s = Ok t) →
  ValidateTemplates cfg = None → r ∈ c_Rules cfg →
  RenderPayload (mr_Payload (r_MockResponse r)) now msg st = (Err e, st') →
  run_error (buildTemplateContext now msg) (mr_Payload (r_MockResponse r)) e.
Proof.
  intros Hplain Hval Hr Hrun. apply render_error_parses.
  - intros s Hs. destruct (contains s "{{") eqn:Hc.
    + by apply (proj1 (ValidateTemplates_iff cfg) Hval r s).
    + unfold parses. rewrite preprocessTemplate_plain by done.
      by apply Hplain.
  - exact (outcome_run _ _ _ _ _ _ (RenderPayload_outcome _ now msg) Hrun).
Qed.

(** A concrete engine for evaluation: a text with an action does not parse, and
    nothing can be executed. *)
Definition example_template : TextTemplate := {|
  tmpl := string;
  entropy := unit;
  tmpl_Parse s := if contains s "{{" then Err "unexpected action" else Ok s;
  tmpl_Execute t data r := (Err "cannot execute", r);
|}.

(** A configuration with one rule, whose payload is a plain text. *)
Definition example_rule : Rule :=
  {| r_Name := "r";
     r_Trigger := {| tr_Queue := "q"; tr_RoutingKey := ""; tr_JSONPathRules := [] |};
     r_MockResponse := {| mr_Exchange := "x"; mr_RoutingKey := "k"; mr_DelayMS := 5;
       mr_Headers := ∅; mr_Payload := VString "hello" |} |}.

Definition one_rule_config : Config :=
  {| c_Broker := c_Broker DefaultConfig; c_Server := c_Server DefaultConfig;
     c_Logging := c_Logging DefaultConfig; c_Spy := c_Spy DefaultConfig;
     c_Rules := [example_rule] |}.

Definition example_message : Message :=
  {| m_Queue := "q"; m_RoutingKey := "k"; m_Headers := ∅; m_Body := "{}"; m_Direction := "";
     m_Exchange := ""; m_Rule := ""; m_MessageID := "" |}.

Lemma validated_templates_parse_witness :
  @run_error example_unicode plain_fmt example_json example_template
    (@buildTemplateContext example_json "now" example_message) (VString "hello")
    (("failed to execute payload template " +:+ @quote example_unicode "hello" +:+ ": ")
       +:+ "cannot execute").
Proof.
  apply (@validated_templates_parse example_unicode plain_fmt example_json example_template
           one_rule_config example_rule "now" example_message tt _ tt).
  - intros s Hs. exists s. simpl. by rewrite Hs.
  - reflexivity.
  - by left.
  - reflexivity.
Defined.

(** ** random_int *)

(** Random_int on 64-bit ints: an empty range gives the minimum, a range
    whose size does not fit an int is an error (the wrapped size is not positive),
    and any other range gives a number inside it. *)
Theorem random_int_range rand_N min max :
  (∀ n, 0 < n → 0 ≤ rand_N n < n)%Z → int64_ok min = true → int64_ok max = true →
  match random_int rand_N min max with
  | Ok r => if bool_decide (max ≤ min)%Z then r = min else (min ≤ r ≤ max)%Z
  | Err _ => (2 ^ 63 - 1 ≤ max - min)%Z
  end ∧
  ((min < max)%Z → (2 ^ 63 - 1 ≤ max - min)%Z → ∃ e, random_int rand_N min max = Err e).
Proof.
  intros Hr Hmin Hmax. unfold int64_ok in *. apply bool_decide_eq_true in Hmin, Hmax.
  unfold random_int. case_bool_decide as Hle; [split; [done|lia]|].
  assert (max - min < 2 ^ 63 - 1 ∨ 2 ^ 63 - 1 ≤ max - min)%Z as [Hs|Hs] by lia.
  - rewrite (i64_small (max - min)), (i64_small (max - min + 1)) by lia.
    rewrite bool_decide_false by lia. specialize (Hr (max - min + 1)%Z ltac:(lia)).
    rewrite i64_small by lia. split; [lia|lia].
  - assert (i64 (i64 (max - min) + 1) = max - min + 1 - 2 ^ 64)%Z as Hw.
    { assert (max - min = 2 ^ 63 - 1 ∨ 2 ^ 63 ≤ max - min)%Z as [->|Hb] by lia; [done|].
      assert (i64 (max - min) = max - min - 2 ^ 64)%Z as ->.
      { unfold i64. rewrite <- (Z.mod_add _ (-1)) by lia. rewrite Z.mod_small by lia. lia. }
      rewrite i64_small by lia. lia. }
    rewrite Hw, bool_decide_true by lia. split; [lia|]. intros. by eexists.
Qed.

Lemma random_int_range_witness : (10 ≤ match random_int (λ _, 0) 10 20 with
                                       | Ok r => r | Err _ => 10 end ≤ 20)%Z.
Proof.
  refine (proj1 (random_int_range (λ _, 0%Z) 10 20 _ eq_refl eq_refl)). lia.
Defined.
