(* ===== verification/Render.v ===== *)
(** * Rendered payloads as their readers see them

    [RenderPayload] with the concrete JSON codec: what the consumer of a mock
    response finds when it decodes the body, and which payloads can be encoded. *)
From S2P Require Import Prelude GoStrings GoValue Libs Utf8 Decimal JsonText JsonCodec Clock Config Broker Template.
From Stdlib Require Import SpecFloat.

(** ** The helper functions

    What a template can call, by name: the engine of text/template passes the
    arguments and reports a call that does not fit as an error.  Each call sees the
    clock, a fresh UUID (of the library google/uuid) and a random number below a
    bound. *)

Record helper_env := { he_now : Z; he_uuid : string; he_rand : Z → Z }.

Definition utc_text (now : Z) : string := rfc3339 now.

Definition TemplateFuncs `{Json} (env : helper_env) (name : string) (args : list value)
    : result string value :=
  if bool_decide (name = "uuid") then
    match args with [] => Ok (VString (he_uuid env)) | _ => Err "wrong number of args for uuid" end
  else if bool_decide (name ∈ ["system_utc_now"; "utc_now"; "now"]) then
    match args with
    | [] => Ok (VString (utc_text (he_now env)))
    | _ => Err ("wrong number of args for " +:+ name)
    end
  else if bool_decide (name = "random_int") then
    match args with
    | [VInt KInt min; VInt KInt max] => VInt KInt <$> random_int (he_rand env) min max
    | _ => Err "wrong arguments for random_int"
    end
  else if bool_decide (name = "json") then
    match args with [v] => VString <$> json_Marshal v | _ => Err "wrong number of args for json" end
  else Err ("function " +:+ name +:+ " not defined").

Definition example_env : helper_env :=
  {| he_now := 1700000000000000000; he_uuid := "0"; he_rand n := (n - 1)%Z |}.
Example helper_examples :
  @TemplateFuncs (@go_json no_types) example_env "utc_now" [] = Ok (VString "2023-11-14T22:13:20Z") ∧
  @TemplateFuncs (@go_json no_types) example_env "random_int" [VInt KInt 1; VInt KInt 6]
    = Ok (VInt KInt 6) ∧
  @TemplateFuncs (@go_json no_types) example_env "json" [VSlice [VNil; VBool true]]
    = Ok (VString "[null,true]").
Proof. by vm_compute. Qed.

(** ** What can be encoded *)

Section encodable.
Context `{JsonTypes}.

(** A payload as the YAML decoder makes them, of values JSON can express: maps,
    slices, strings, finite numbers, and values of other types that encode
    themselves. *)
Fixpoint encodable (p : value) : bool :=
  match p with
  | VNil | VBool _ | VInt _ _ | VString _ => true
  | VFloat64 f => is_finite f
  | VSlice l => forallb encodable l
  | VMap false m => forallb (λ kv, encodable kv.2) m
  | VIMap m => forallb (λ kv, encodable kv.2) m
  | VOther ty repr =>
    match marshal_other ty repr with Ok text => Valid text | Err _ => false end
  | _ => false
  end.

End encodable.

(** ** The reader's view *)

Section received.
Context `{Unicode, GoFmt, JsonTypes, TextTemplate} (data : value).
#[local] Existing Instance go_json.

(** What a reader finds for a string of the payload: the rendered text as a
    string, or, for a json leaf, the JSON value the helper printed. *)
Definition received_leaf (s : string) (isKey : bool) (d : value) : Prop :=
  ∃ v, leaf_rel data s isKey v ∧ d = seen v.

(** The decoded body of a payload: the structure is the payload's. *)
Inductive received : value → value → Prop :=
| rc_string s d : received_leaf s false d → received (VString s) d
| rc_slice l l' : Forall2 received l l' → received (VSlice l) (VSlice l')
| rc_map m out :
    entries_related id received_leaf received m out → received (VMap false m) (VMap false out)
| rc_imap m out :
    entries_related sprint received_leaf received m out → received (VIMap m) (VMap false out)
| rc_scalar v : is_scalar v = true → received v (seen v).

Lemma received_leaf_string s d : received_leaf s false d →
  json_leaf s = false → ∃ t, d = VString t.
Proof. intros (v & Hv & ->) Hj. inversion Hv; subst; [by eexists..|congruence]. Qed.

(** Filling a map from distinct entries, one after the other. *)
Lemma fill_entries (l : list (string * (value * bool))) acc :
  let out := foldl (λ acc kr, assoc_set kr.1 kr.2.1 acc) acc l in
  (NoDup acc.*1 → NoDup out.*1) ∧
  (∀ k v, (k, v) ∈ out → (k, v) ∈ acc ∨ ∃ b, (k, (v, b)) ∈ l) ∧
  (∀ k, k ∈ out.*1 ↔ k ∈ acc.*1 ∨ k ∈ l.*1).
Proof.
  revert acc. induction l as [|[k0 [v0 b0]] l IH]; intros acc; cbn [foldl fst snd].
  - split_and!; [done|by left|]. intros k. simpl. set_solver.
  - destruct (IH (assoc_set k0 v0 acc)) as (Hnd & Hin & Hk). split_and!.
    + intros Ha. apply Hnd, assoc_set_NoDup, Ha.
    + intros k v [Ha|[b Hb]]%Hin; [|right; exists b; by right].
      apply assoc_set_elem in Ha as [[-> ->]|Ha]; [|by left]. right. exists b0. by left.
    + intros k. rewrite Hk, assoc_set_keys, fmap_cons, elem_of_cons. simpl. tauto.
Qed.

Lemma seen_map n m :
  ∃ out, seen (VMap n m) = VMap false out ∧ NoDup out.*1 ∧
    (∀ k' d, (k', d) ∈ out → ∃ k v, (k, v) ∈ m ∧ k' = to_valid k ∧ d = seen v) ∧
    (∀ k v, (k, v) ∈ m → to_valid k ∈ out.*1).
Proof.
  unfold seen. cbn [as_read]. rewrite sort_keyed_values, map_map. cbn [fst snd]. unfold fill.
  cbn [fst]. eexists. split; [done|].
  set (l := map _ (sort_keyed m)). destruct (fill_entries l []) as (Hnd & Hin & Hk). split_and!.
  - apply Hnd. constructor.
  - intros k' d [Ha|[b Hb]]%Hin; [set_solver|].
    apply list_elem_of_fmap in Hb as ([k v] & Heq & Hkv).
    injection Heq as -> Hd. exists k, v. rewrite sort_keyed_perm in Hkv.
    split_and!; [done|done|]. unfold seen. cbn [snd] in Hd. by rewrite <- Hd.
  - intros k v Hkv. apply Hk. right. rewrite <- sort_keyed_perm in Hkv.
    apply list_elem_of_fmap. exists (to_valid k, as_read v). split; [done|].
    by apply (list_elem_of_fmap_2 (λ x : string * value, (to_valid x.1, as_read x.2)) _ (k, v)).
Qed.

Lemma received_entries {K} (key : K → string) (m : list (K * value)) out n :
  (∀ k v d, (k, v) ∈ m → transformed (leaf_rel data) v d → received v (seen d)) →
  entries_related key (leaf_rel data) (transformed (leaf_rel data)) m out →
  ∃ out', seen (VMap n out) = VMap false out' ∧ entries_related key received_leaf received m out'.
Proof.
  intros IH (Hnd & Hin & Hcov). destruct (seen_map n out) as (out' & -> & Hnd' & Hin' & Hcov').
  exists out'. split; [done|]. split_and!; [done| |].
  - intros k' d Hd. apply Hin' in Hd as (kr & w & Hw & -> & ->).
    apply Hin in Hw as (k & v & Hkv & Hleaf & Hv). exists k, v.
    split_and!; [done| |by eapply IH]. by exists (VString kr).
  - intros k v (kr & Hleaf & Hkr)%Hcov. apply list_elem_of_fmap in Hkr as ([kr' w] & Heq & Hw).
    simpl in Heq. subst kr'. exists (to_valid kr). split; [by exists (VString kr)|].
    by eapply Hcov'.
Qed.

Lemma Forall2_image {A B C} (R : A → B → Prop) (Q : A → C → Prop) (f : B → C) l k :
  Forall (λ x, ∀ y, R x y → Q x (f y)) l → Forall2 R l k → Forall2 Q l (map f k).
Proof.
  intros Himp HF. induction HF as [|x y l k Hxy _ IH]; [constructor|].
  inversion Himp; subst. constructor; auto.
Qed.

Lemma transformed_received p v : transformed (leaf_rel data) p v → received p (seen v).
Proof.
  revert v. induction p as [|b|k z|f|s|s|l IH|n m IH|m IH|s|ty repr] using value_ind_nested;
    intros v Hv; inversion Hv; subst; try (by apply rc_scalar); try done.
  - apply rc_string. by exists v.
  - unfold seen. cbn [as_read fst]. apply rc_slice. rewrite map_map. fold seen.
    by eapply Forall2_image.
  - rewrite Forall_forall in IH.
    destruct (received_entries id m out false) as (out' & -> & ?); [|done|by apply rc_map].
    intros k v d Hkv. by apply (IH (k, v)).
  - rewrite Forall_forall in IH.
    destruct (received_entries sprint m out false) as (out' & -> & ?); [|done|by apply rc_imap].
    intros k v d Hkv. by apply (IH (k, v)).
Qed.
End received.

(** ** What transformation preserves *)

Section transformed_ind.
Context `{GoFmt} (leaf : string → bool → value → Prop) (Q : value → value → Prop).
Hypothesis Qstring : ∀ s v, leaf s false v → Q (VString s) v.
Hypothesis Qslice : ∀ l l', Forall2 Q l l' → Q (VSlice l) (VSlice l').
Hypothesis Qmap : ∀ m out,
  (∀ k' v', (k', v') ∈ out → ∃ k v, (k, v) ∈ m ∧ Q v v') → Q (VMap false m) (VMap false out).
Hypothesis Qimap : ∀ m out,
  (∀ k' v', (k', v') ∈ out → ∃ k v, (k, v) ∈ m ∧ Q v v') → Q (VIMap m) (VMap false out).
Hypothesis Qscalar : ∀ v, is_scalar v = true → Q v v.

Lemma transformed_nested p v : transformed leaf p v → Q p v.
Proof.
  revert v. induction p as [|b|k z|f|s|s|l IH|n m IH|m IH|s|ty repr] using value_ind_nested;
    intros v Hv; inversion Hv as [|? l' HF| ? out Hm| ? out Hm|]; subst; auto; try done.
  - apply Qslice. eapply Forall2_impl_in, HF. intros x y Hx. rewrite Forall_forall in IH. by apply IH.
  - apply Qmap. intros k' v' Hin. destruct Hm as (_ & Hm & _).
    apply Hm in Hin as (k & v & Hkv & _ & Hr). exists k, v. split; [done|].
    rewrite Forall_forall in IH. by apply (IH (k, v)).
  - apply Qimap. intros k' v' Hin. destruct Hm as (_ & Hm & _).
    apply Hm in Hin as (k & v & Hkv & _ & Hr). exists k, v. split; [done|].
    rewrite Forall_forall in IH. by apply (IH (k, v)).
Qed.
End transformed_ind.

Section preserved.
Context `{Unicode, GoFmt, JsonTypes, TextTemplate} (data : value).
#[local] Existing Instance go_json.

Abbreviation becomes := (transformed (leaf_rel data)).

Lemma becomes_doubles p v : becomes p v → doubles_ok p = true → doubles_ok v = true.
Proof.
  revert p v. apply (transformed_nested _ (λ p v, doubles_ok p = true → doubles_ok v = true)).
  - by intros s v [].
  - cbn [doubles_ok]. induction 1 as [|x y l l' Hxy _ IH]; [done|]. simpl.
    intros [Hx Hl]%andb_prop. by rewrite Hxy, IH.
  - intros m out Hout. cbn [doubles_ok]. rewrite !forallb_forall.
    intros Hm [k' v'] Hin%list_elem_of_In. destruct (Hout k' v' Hin) as (k & v & Hkv & Hq).
    apply Hq, (Hm (k, v)). by apply list_elem_of_In.
  - intros m out Hout. cbn [doubles_ok]. rewrite !forallb_forall.
    intros Hm [k' v'] Hin%list_elem_of_In. destruct (Hout k' v' Hin) as (k & v & Hkv & Hq).
    apply Hq. apply list_elem_of_In, Hm, andb_prop in Hkv as [_ ?]. done.
  - done.
Qed.

Lemma becomes_encodes p v : becomes p v → encodable p = true → encodes v.
Proof.
  revert p v. apply (transformed_nested _ (λ p v, encodable p = true → encodes v)).
  - intros s v Hleaf _. destruct Hleaf as [|out|out _ _ _ _ Hv]; [by eexists..|].
    exact (valid_compact "json.RawMessage" out Hv).
  - cbn [encodable]. intros l l' HF Hl. apply encodes_slice.
    induction HF as [|x y l l' Hxy _ IH]; [constructor|].
    simpl in Hl. apply andb_prop in Hl as [Hx Hl]. constructor; [by apply Hxy|by apply IH].
  - intros m out Hout Hm. cbn [encodable] in Hm. rewrite forallb_forall in Hm.
    apply encodes_map, Forall_forall. intros [k' v'] Hin.
    destruct (Hout k' v' Hin) as (k & v & Hkv & Hq).
    apply Hq, (Hm (k, v)). by apply list_elem_of_In.
  - intros m out Hout Hm. cbn [encodable] in Hm. rewrite forallb_forall in Hm.
    apply encodes_map, Forall_forall. intros [k' v'] Hin.
    destruct (Hout k' v' Hin) as (k & v & Hkv & Hq).
    apply Hq, (Hm (k, v)). by apply list_elem_of_In.
  - intros [|b|k z|f|s|s|l|[]|m|s|ty repr] Hs He; try done; cbn [encodable] in He.
    + by eexists.
    + by eexists.
    + by eexists.
    + exists (JNum (number_of_float f)). cbn [encode]. by rewrite He.
    + unfold encodes. cbn [encode]. destruct (marshal_other ty repr) as [text|]; [|done].
      by apply valid_compact.
Qed.

(** The nesting of a payload as it is written. *)
Fixpoint nesting (p : value) : nat :=
  match p with
  | VSlice l => S (max_list (map nesting l))
  | VMap _ m => S (max_list (map (λ kv, nesting kv.2) m))
  | VIMap m => S (max_list (map (λ kv, nesting kv.2) m))
  | _ => value_depth p
  end.

Lemma max_list_mono {A} (f g : A → nat) l :
  Forall (λ x, f x ≤ g x) l → max_list (map f l) ≤ max_list (map g l).
Proof. induction 1; simpl; lia. Qed.

Lemma depth_nesting v : value_depth v ≤ nesting v.
Proof.
  induction v as [|b|k z|f|s|s|l IH|n m IH|m IH|s|ty repr] using value_ind_nested; try done.
  - cbn [value_depth nesting]. by apply le_n_S, max_list_mono.
  - cbn [value_depth nesting]. by apply le_n_S, (max_list_mono (λ kv, value_depth kv.2)).
  - cbn [value_depth]. lia.
Qed.

(** The JSON texts that the json leaves of [p] may render to nest at most [k]
    deep. *)
Definition leaves_nest (p : value) (k : nat) : Prop :=
  ∀ s out, s ∈ payload_strings p → json_leaf s = true → renders_text data s out →
    text_depth out ≤ k.

Lemma becomes_depth p v k :
  becomes p v → leaves_nest p k → value_depth v ≤ k + nesting p.
Proof.
  revert p v. apply (transformed_nested _ (λ p v, leaves_nest p k → value_depth v ≤ k + nesting p)).
  - intros s v Hleaf Hk. destruct Hleaf as [|out|out _ _ Hj Hr _]; [simpl; lia..|].
    cbn [value_depth nesting]. apply (Hk s out) in Hr; [lia|by left|done].
  - intros l l' HF Hk. cbn [value_depth nesting]. rewrite Nat.add_succ_r.
    apply le_n_S, max_list_bound, Forall_forall.
    intros y Hy. apply list_elem_of_lookup in Hy as [i Hi].
    destruct (Forall2_lookup_r _ _ _ _ _ HF Hi) as (x & Hx & Hxy).
    apply list_elem_of_lookup_2 in Hx.
    pose proof (max_list_le nesting l x Hx).
    assert (leaves_nest x k) as Hx'; [|specialize (Hxy Hx'); lia].
    intros s out Hs. apply Hk. cbn [payload_strings].
    apply list_elem_of_join. exists (payload_strings x). split; [done|].
    by apply list_elem_of_fmap_2.
  - intros m out Hout Hk. cbn [value_depth nesting]. rewrite Nat.add_succ_r.
    apply le_n_S, (max_list_bound (λ kv, value_depth kv.2)), Forall_forall.
    intros [k' v'] Hin. destruct (Hout k' v' Hin) as (k0 & v & Hkv & Hq). cbn [snd].
    pose proof (max_list_le (λ kv : string * value, nesting kv.2) m (k0, v) Hkv).
    cbn [snd] in *. assert (leaves_nest v k) as Hv; [|specialize (Hq Hv); lia].
    intros s out' Hs. apply Hk. cbn [payload_strings].
    apply list_elem_of_join. exists (k0 :: payload_strings v). split; [by right|].
    by apply (list_elem_of_fmap_2 (λ kv : string * value, kv.1 :: payload_strings kv.2) _ (k0, v)).
  - intros m out Hout Hk. cbn [value_depth nesting]. rewrite Nat.add_succ_r.
    apply le_n_S, (max_list_bound (λ kv, value_depth kv.2)), Forall_forall.
    intros [k' v'] Hin. destruct (Hout k' v' Hin) as (k0 & v & Hkv & Hq). cbn [snd].
    pose proof (max_list_le (λ kv : value * value, nesting kv.2) m (k0, v) Hkv).
    cbn [snd] in *. assert (leaves_nest v k) as Hv; [|specialize (Hq Hv); lia].
    intros s out' Hs. apply Hk. cbn [payload_strings].
    apply list_elem_of_join. exists (sprint k0 :: payload_strings v). split; [by right|].
    by apply (list_elem_of_fmap_2 (λ kv : value * value, sprint kv.1 :: payload_strings kv.2) _ (k0, v)).
  - intros v _ _. pose proof (depth_nesting v). lia.
Qed.
End preserved.

(** ** Payloads that can never be encoded *)

Section stuck.
Context `{JsonTypes}.

(** A NaN or an infinity that rendering always reaches: in a slice, or in a map
    whose keys hold no template (so that no two entries can become one). *)
Fixpoint stuck (p : value) : bool :=
  match p with
  | VFloat64 f => negb (is_finite f)
  | VSlice l => existsb stuck l
  | VMap false m =>
    bool_decide (NoDup m.*1) && forallb (λ kv, negb (contains kv.1 "{{")) m &&
    existsb (λ kv, stuck kv.2) m
  | _ => false
  end.
End stuck.

Section stuck_facts.
Context `{Unicode, GoFmt, JsonTypes, TextTemplate} (data : value).
#[local] Existing Instance go_json.

Lemma leaf_plain_key s k :
  leaf_rel data s true (VString k) → contains s "{{" = false → k = s.
Proof. inversion 1; [done|congruence]. Qed.

Lemma stuck_not_encodes p v : transformed (leaf_rel data) p v → stuck p = true → ¬ encodes v.
Proof.
  revert v. induction p as [|b|k z|f|s|s|l IH|[] m IH|m IH|s|ty repr] using value_ind_nested;
    intros v Hv Hs; try done; inversion Hv as [|? l' HF| ? out Hm| |]; subst; try done.
  - intros [j Hj]. cbn [encode] in Hj. cbn [stuck] in Hs. by destruct (is_finite f).
  - intros He%encodes_slice_inv. cbn [stuck] in Hs.
    apply existsb_exists in Hs as (x & Hx%list_elem_of_In & Hsx).
    rewrite Forall_forall in IH, He. apply list_elem_of_lookup in Hx as [i Hi].
    destruct (Forall2_lookup_l _ _ _ _ _ HF Hi) as (y & Hy & Hxy).
    apply list_elem_of_lookup_2 in Hi, Hy. by apply (IH x Hi y Hxy Hsx), He.
  - intros He%encodes_map_inv. cbn [stuck] in Hs.
    apply andb_prop in Hs as [[Hnd%bool_decide_eq_true Hplain]%andb_prop Hs].
    apply existsb_exists in Hs as ([k x] & Hx%list_elem_of_In & Hsx). cbn [snd] in Hsx.
    rewrite forallb_forall in Hplain. rewrite Forall_forall in IH, He.
    destruct Hm as (_ & Hin & Hcov). unfold id in Hin, Hcov. destruct (Hcov k x Hx) as (k' & Hleaf & Hk').
    apply leaf_plain_key in Hleaf as ->;
      [|by apply list_elem_of_In, Hplain, negb_true_iff in Hx].
    apply list_elem_of_fmap in Hk' as ([k' w] & Heq & Hw). simpl in Heq. subst k'.
    destruct (Hin k w Hw) as (k0 & x0 & Hx0 & Hleaf0 & Hr).
    apply leaf_plain_key in Hleaf0 as <-;
      [|by apply list_elem_of_In, Hplain, negb_true_iff in Hx0].
    assert (x0 = x) as ->.
    { apply list_elem_of_lookup in Hx as [i Hi], Hx0 as [j Hj].
      assert (i = j) as ->; [|congruence].
      eapply NoDup_lookup; [exact Hnd|..]; rewrite list_lookup_fmap; [by rewrite Hi|by rewrite Hj]. }
    by apply (IH (k, x) Hx w Hr Hsx), (He (k, w)).
Qed.
End stuck_facts.

(** ** Properties *)

#[local] Existing Instance go_json.

(** C18: the triggering message cannot break the response or inject into it: the body
    rendered from a structured payload is valid JSON, and its reader finds the
    payload's own structure, in which a string leaf is a string holding exactly what
    its template printed, a leaf made of the json helper is the value of the JSON
    text it printed, keys are strings, and every other value is the payload's.  The
    one condition on the message is that the JSON which the json leaves splice in
    nests, together with the payload, no deeper than the 10000 levels a decoder
    reads; the payload's numbers are doubles. *)
Theorem RenderPayload_received `{Unicode, GoFmt, JsonTypes, TextTemplate} p now msg st body st' k :
  let data := buildTemplateContext now msg in
  is_text p = false → doubles_ok p = true →
  leaves_nest data p k → k + nesting p ≤ max_depth →
  RenderPayload p now msg st = (Ok body, st') →
  Valid body = true ∧ received data p (Unmarshal body).1.
Proof.
  intros data Hp Hd Hk Hdep Hrun.
  pose proof (outcome_run _ _ _ _ _ _ (RenderPayload_outcome p now msg) Hrun) as Hr.
  simpl in Hr. inversion Hr as [| |p' v b _ Hv Hm]; subst; try done.
  destruct (Unmarshal_Marshal v body) as [Hvalid Hread]; [|pose proof (becomes_depth data p v k Hv Hk); lia|done|].
  - by apply (becomes_doubles data p v).
  - split; [done|]. rewrite Hread. by apply transformed_received.
Qed.

(** C19: a payload made of what JSON can express always reaches the encoder as
    something it can encode (maps keyed by strings, whatever keys the YAML had):
    rendering it fails only for a reason that one of its own leaves gives. *)
Theorem RenderPayload_typed `{Unicode, GoFmt, JsonTypes, TextTemplate} p now msg st e st' :
  let data := buildTemplateContext now msg in
  encodable p = true → RenderPayload p now msg st = (Err e, st') →
  ∃ s, s ∈ payload_strings p ∧ (leaf_error data s e ∨ text_error data s e).
Proof.
  intros data Hp Hrun.
  pose proof (outcome_run _ _ _ _ _ _ (RenderPayload_outcome p now msg) Hrun) as Hr.
  simpl in Hr. destruct Hr as [s e -> He|s e _ Hs He|v e Hv Hm].
  - exists s. split; [by left|by right].
  - exists s. split; [done|by left].
  - destruct (becomes_encodes data p v Hv Hp) as [j Hj].
    change (json_Marshal v) with (Marshal v) in Hm. unfold Marshal in Hm. by rewrite Hj in Hm.
Qed.

(** A payload with a NaN or an infinity in it passes validation, which only
    parses templates, but can never be rendered: every matching message is
    counted and logged as an error, and no response is sent. *)
Theorem stuck_payload_never_renders `{Unicode, GoFmt, JsonTypes, TextTemplate} p now msg st :
  stuck p = true → ∃ e, (RenderPayload p now msg st).1 = Err e.
Proof.
  intros Hs. pose proof (RenderPayload_outcome p now msg st) as Hr.
  destruct (RenderPayload p now msg st) as [[body|e] st']; cbn [fst] in *; [|by eexists].
  inversion Hr as [| |p' v b _ Hv Hm]; subst; try done.
  destruct (stuck_not_encodes _ p v Hv Hs).
  change (json_Marshal v) with (Marshal v) in Hm. unfold Marshal in Hm.
  destruct (encode v) as [j|] eqn:He; [by exists j|done].
Qed.

(** The json helper on its own keeps the type of what it is given: when a leaf
    that consists of one call of it prints what the helper made of a value, the
    leaf is rendered as raw JSON, and the reader of the response finds exactly
    what it would find in any encoding of that value: a number stays a number, an
    object an object. *)
Lemma json_leaf_roundtrip `{Unicode, GoFmt, JsonTypes, TextTemplate} env v s data st t st' :
  contains s "{{" = true → json_leaf s = true →
  executeTemplate s data st = (Ok t, st') →
  TemplateFuncs env "json" [v] = Ok (VString t) →
  doubles_ok v = true → value_depth v ≤ max_depth →
  ∃ d text, render_leaf data s false st = (Ok d, st') ∧ Marshal d = Ok text ∧
    Valid text = true ∧ (Unmarshal text).1 = seen v.
Proof.
  intros Hc Hj Hrun Hf Hd Hdep. unfold TemplateFuncs in Hf. simpl in Hf.
  destruct (Marshal v) as [t'|e] eqn:Hm; [|done]. injection Hf as ->.
  destruct (Unmarshal_Marshal v t Hd Hdep Hm) as [Hv Hr].
  destruct (valid_compact "" t Hv) as [j Hcj]. exists (VRaw t), (print_json j).
  assert (encode (VRaw t) = Ok j) as He.
  { cbn [encode]. revert Hcj. unfold compact. by destruct (parse_json t). }
  assert (Marshal (VRaw t) = Ok (print_json j)) as Hraw by (unfold Marshal; by rewrite He).
  destruct (compact_faithful _ _ _ Hcj) as (_ & Hdj & _ & Hle).
  destruct (Unmarshal_Marshal (VRaw t) (print_json j)) as [Hv' Hr']; [done| |done|].
  { cbn [value_depth]. by rewrite <- Hdj. }
  split_and!; [|done|done|].
  - unfold render_leaf. rewrite Hc. cbn [negb].
    unfold mbind, stateR_bind. rewrite Hrun.
    unfold json_leaf in Hj. rewrite <- andb_assoc, Hj. simpl. by rewrite Hv.
  - rewrite Hr'. cbn [as_read]. by rewrite Hr.
Qed.

(** A template engine that prints a hostile text for every action. *)
Definition hostile : string :=
  "x" +:+ String dq "," +:+ quoted "admin" +:+ ":true}" +:+ String (byte 255) "".
Definition hostile_template : TextTemplate := {|
  tmpl := string;
  entropy := unit;
  tmpl_Parse s := Ok s;
  tmpl_Execute t data r := (Ok (if contains t "{{" then hostile else t), r);
|}.
Definition name_payload : value :=
  VMap false [("ok", VBool true); ("name", VString "hello {{trigger.name}}")].

#[local] Existing Instances example_unicode plain_fmt no_types hostile_template.

Lemma RenderPayload_received_witness :
  Valid ("{" +:+ quoted "name" +:+ ":" +:+ quoted ("x\" +:+ String dq ",\" +:+ String dq
           "admin\" +:+ String dq ":true}\ufffd") +:+ "," +:+ quoted "ok" +:+ ":true}") = true ∧
  received (buildTemplateContext "now" example_message) name_payload
    (VMap false [("name", VString ("x" +:+ String dq "," +:+ quoted "admin" +:+ ":true}" +:+
                                   replacement)); ("ok", VBool true)]).
Proof.
  refine (@RenderPayload_received example_unicode plain_fmt no_types hostile_template
    name_payload "now" example_message tt _ tt 0
    eq_refl eq_refl _ _ _).
  - intros s out Hs Hj _. exfalso. change (payload_strings name_payload) with
      ["ok"; "name"; "hello {{trigger.name}}"] in Hs.
    repeat (apply elem_of_cons in Hs as [->|Hs]; [by vm_compute in Hj|]). by apply not_elem_of_nil in Hs.
  - apply Nat.leb_le. by vm_compute.
  - by vm_compute.
Defined.

Lemma RenderPayload_typed_witness :
  ∃ s, s ∈ ["{{json trigger}}"] ∧
    (leaf_error (buildTemplateContext "now" example_message) s
       ("json helper in " +:+ quote "{{json trigger}}" +:+ " produced invalid JSON: " +:+ hostile) ∨
     text_error (buildTemplateContext "now" example_message) s
       ("json helper in " +:+ quote "{{json trigger}}" +:+ " produced invalid JSON: " +:+ hostile)).
Proof.
  apply (@RenderPayload_typed example_unicode plain_fmt no_types hostile_template (VSlice [VString "{{json trigger}}"]) "now"
    example_message tt _ tt).
  - by vm_compute.
  - by vm_compute.
Defined.

Lemma stuck_payload_never_renders_witness :
  ∃ e, (@RenderPayload example_unicode plain_fmt go_json hostile_template (VMap false [("price", VFloat64 S754_nan)]) "now" example_message tt).1 = Err e.
Proof. apply stuck_payload_never_renders. by vm_compute. Defined.
