(* ===== verification/GoTemplate.v ===== *)
(** * text/template on the templates without control structures

    The engine behind payload templates, as an instance of [TextTemplate], for the
    templates made of text and of pipelines: references to fields, the dot, plain
    literals and calls of the helper functions, with trim markers.  A template with
    anything else in it (a control structure, a variable, a comment, parentheses, a
    builtin function, an escape in a literal, a letter outside ASCII, a syntax
    error) is left to another engine, a parameter.  The wording of execution errors,
    which tells the place in the template, is a parameter too. *)
From S2P Require Import Prelude GoStrings GoValue Libs Rewrite Template Render.

(** ** The lexer inside an action *)

Inductive token :=
| KSpace
| KPipe
| KDot
| KField (name : string)
| KIdent (name : string)
| KBool (b : bool)
| KNil
| KNumber (z : Z)
| KString (s : string).

Definition newline_byte : ascii := ascii_of_N 10.
Definition quote_mark : ascii := ascii_of_N 34.

(** The space characters of templates. *)
Definition tmpl_space (c : ascii) : bool :=
  bool_decide (c ∈ [" "%char; ascii_of_N 9; ascii_of_N 13; newline_byte]).

(** A byte that ends a field, an identifier or a number, or the closing braces. *)
Definition at_terminator (s : string) : bool :=
  match s with
  | "" => true
  | String c _ =>
    tmpl_space c || bool_decide (c ∈ ["."%char; ","%char; "|"%char; ":"%char; ")"%char; "("%char])
    || has_prefix s "}}"
  end.

(** The longest prefix of bytes that satisfy [p], and the rest. *)
Fixpoint span (p : ascii → bool) (s : string) : string * string :=
  match s with
  | "" => ("", "")
  | String c s' => if p c then let '(a, b) := span p s' in (String c a, b) else ("", s)
  end.

Definition keywords : list string :=
  ["block"; "break"; "continue"; "define"; "else"; "end"; "if"; "range"; "template"; "with"].

Definition word_token (w : string) : option token :=
  if bool_decide (w ∈ keywords) then None
  else if bool_decide (w = "true") then Some (KBool true)
  else if bool_decide (w = "false") then Some (KBool false)
  else if bool_decide (w = "nil") then Some KNil
  else Some (KIdent w).

(** Decimal digits without a leading zero, in the range of int. *)
Definition number_token (sign d : string) : option token :=
  if has_prefix d "0" && negb (bool_decide (d = "0")) then None
  else KNumber <$> atoi (sign +:+ d).

(** The bytes that stand for themselves in a literal. *)
Definition literal_byte (c : ascii) : bool :=
  (32 <=? byte_val c)%N && (byte_val c <? 127)%N &&
  negb (bool_decide (c ∈ [quote_mark; "`"%char; "\"%char])).

(** The token at the head of [s], and what follows. *)
Definition next_token (s : string) : option (token * string) :=
  match s with
  | "" => None
  | String c s' =>
    if tmpl_space c then Some (KSpace, s')
    else if bool_decide (c = "|"%char) then Some (KPipe, s')
    else if bool_decide (c = "."%char) then
      if match s' with String d _ => is_digit d | "" => false end then None
      else if at_terminator s' then Some (KDot, s')
      else
        let '(w, r) := span is_word s' in
        if at_terminator r then Some (KField w, r) else None
    else if bool_decide (c = quote_mark ∨ c = "`"%char) then
      let '(l, r) := span literal_byte s' in
      match r with
      | String c' r' => if bool_decide (c' = c) then Some (KString l, r') else None
      | "" => None
      end
    else if is_digit c || bool_decide (c = "-"%char) then
      let '(sign, t) := if is_digit c then ("", s) else (String c "", s') in
      let '(d, r) := span is_digit t in
      if at_terminator r then (λ k, (k, r)) <$> number_token sign d else None
    else if is_word c then
      let '(w, r) := span is_word s in
      if at_terminator r then (λ k, (k, r)) <$> word_token w else None
    else None
  end.

(** The tokens up to the closing braces, what follows them, and whether they
    carry a trim marker. *)
Fixpoint lex_action (fuel : nat) (s : string) : option (list token * string * bool) :=
  match fuel with
  | 0 => None
  | S fuel' =>
    if has_prefix s "}}" then Some ([], drop_bytes 2 s, false)
    else if match s with String c s' => tmpl_space c && has_prefix s' "-}}" | "" => false end
    then Some ([], drop_bytes 4 s, true)
    else
      match next_token s with
      | None => None
      | Some (k, r) =>
        match lex_action fuel' r with
        | Some (ks, rest, trim) => Some (k :: ks, rest, trim)
        | None => None
        end
      end
  end.

(** ** The parser *)

Inductive operand :=
| ODot
| OField (path : list string)
| OBool (b : bool)
| ONil
| ONumber (z : Z)
| OString (s : string)
| OFunc (name : string).

(** The first stage of a pipeline: an operand on its own, or a call of a function;
    the later ones are calls, which get the value so far as their last argument. *)
Record call := { c_func : string; c_args : list operand }.
Inductive stage := Single (o : operand) | Call (c : call).
Record pipeline := { p_first : stage; p_rest : list call }.

Inductive node := NText (s : string) | NAction (p : pipeline).

(** The fields that follow directly. *)
Fixpoint take_fields (ks : list token) : list string * list token :=
  match ks with
  | KField w :: ks' => let '(ws, r) := take_fields ks' in (w :: ws, r)
  | _ => ([], ks)
  end.

Definition operand_end (ks : list token) : bool :=
  match ks with [] | KSpace :: _ | KPipe :: _ => true | _ => false end.

Definition next_operand (ks : list token) : option (operand * list token) :=
  '(o, r) ← match ks with
            | KField w :: ks' => let '(ws, r) := take_fields ks' in Some (OField (w :: ws), r)
            | KDot :: r => Some (ODot, r)
            | KBool b :: r => Some (OBool b, r)
            | KNil :: r => Some (ONil, r)
            | KNumber z :: r => Some (ONumber z, r)
            | KString s :: r => Some (OString s, r)
            | KIdent f :: r => Some (OFunc f, r)
            | _ => None
            end;
  if operand_end r then Some (o, r) else None.

(** The operands of each stage. *)
Fixpoint parse_stages (fuel : nat) (cur : list operand) (ks : list token)
    : option (list (list operand)) :=
  match fuel with
  | 0 => None
  | S fuel' =>
    match ks with
    | [] => Some [cur]
    | KSpace :: r => parse_stages fuel' cur r
    | KPipe :: r => cons cur <$> parse_stages fuel' [] r
    | _ => '(o, r) ← next_operand ks; parse_stages fuel' (cur ++ [o]) r
    end
  end.

Definition helper_names : list string :=
  ["uuid"; "system_utc_now"; "utc_now"; "random_int"; "now"; "json"].

(** The functions that are mentioned are helper functions. *)
Definition known (o : operand) : bool :=
  match o with OFunc f => bool_decide (f ∈ helper_names) | _ => true end.

Definition as_call (l : list operand) : option call :=
  match l with
  | OFunc f :: args =>
    if forallb known l then Some {| c_func := f; c_args := args |} else None
  | _ => None
  end.

(** [nil] is not a command. *)
Definition as_first (l : list operand) : option stage :=
  match l with
  | OFunc _ :: _ => Call <$> as_call l
  | [ONil] => None
  | [o] => Some (Single o)
  | _ => None
  end.

Definition parse_pipeline (ks : list token) : option pipeline :=
  stages ← parse_stages (S (length ks)) [] ks;
  match stages with
  | [] => None
  | first :: rest =>
    f ← as_first first; cs ← mapM as_call rest; Some {| p_first := f; p_rest := cs |}
  end.

Definition trim_left (s : string) : string := (span tmpl_space s).2.
Definition trim_right (s : string) : string :=
  string_of (reverse (bytes_of (trim_left (string_of (reverse (bytes_of s)))))).

(** The text before an action and what follows its opening braces, without the
    trim marker. *)
Definition left_delim (pre rest : string) : string * string :=
  match rest with
  | String "-" (String c r) => if tmpl_space c then (trim_right pre, r) else (pre, rest)
  | _ => (pre, rest)
  end.

Fixpoint parse_nodes (fuel : nat) (s : string) : option (list node) :=
  match fuel with
  | 0 => None
  | S fuel' =>
    match cut2 "{" "{" s with
    | None => Some [NText s]
    | Some (pre, rest) =>
      let '(text, inner) := left_delim pre rest in
      '(ks, post, trim) ← lex_action (S (String.length inner)) inner;
      p ← parse_pipeline ks;
      nodes ← parse_nodes fuel' (if (trim : bool) then trim_left post else post);
      Some (NText text :: NAction p :: nodes)
    end
  end.

Definition parse_template (s : string) : option (list node) := parse_nodes (S (String.length s)) s.

(** ** Execution *)

(** What a method or a field gives of a value of a type of another package ([amqp.Table],
    [time.Time]); the text of an error at a place of the template. *)
Class TemplateTypes := {
  member : value → string → option (result string value);
  locate : string → string → string;
}.

(** What the helper functions see at each of their calls. *)
Record sources := { so_env : nat → helper_env; so_calls : nat }.

(** The value of a key in a map with keys of any type. *)
Fixpoint assoc_value (name : string) (m : list (value * value)) : option value :=
  match m with
  | [] => None
  | (VString k, v) :: m' => if bool_decide (k = name) then Some v else assoc_value name m'
  | _ :: m' => assoc_value name m'
  end.

Section execute.
Context `{Unicode, GoFmt, Json, TemplateTypes}.

(** One field of a value; [None] is the invalid value, which a missing key gives. *)
Definition eval_field (v : option value) (name : string) : result string (option value) :=
  match v with
  | None => Ok None
  | Some VNil => Err ("nil pointer evaluating interface {}." +:+ name)
  | Some (VMap false m) => Ok (assoc name m)
  | Some (VIMap m) => Ok (assoc_value name m)
  | Some (VMap true m as w) =>
    match member w name with Some r => Some <$> r | None => Ok (assoc name m) end
  | Some (VOther _ _ as w) =>
    match member w name with
    | Some r => Some <$> r
    | None => Err ("can't evaluate field " +:+ name)
    end
  | Some _ => Err ("can't evaluate field " +:+ name)
  end.

Fixpoint eval_path (v : option value) (path : list string) : result string (option value) :=
  match path with
  | [] => Ok v
  | name :: path' => w ← eval_field v name; eval_path w path'
  end.

(** The number of arguments each helper function takes. *)
Definition arity (f : string) : nat :=
  if bool_decide (f = "random_int") then 2 else if bool_decide (f = "json") then 1 else 0.

(** A call of a helper function; an invalid value is passed as nil. *)
Definition call_helper (f : string) (args : list (option value)) : stateR sources string (option value) :=
  λ st,
    if bool_decide (length args = arity f) then
      (Some <$> TemplateFuncs (so_env st (so_calls st)) f (map (default VNil) args),
       {| so_env := so_env st; so_calls := S (so_calls st) |})
    else (Err ("wrong number of args for " +:+ f), st).

Definition eval_operand (data : value) (o : operand) : stateR sources string (option value) :=
  match o with
  | ODot => mret (Some data)
  | OField path => liftR (eval_path (Some data) path)
  | OBool b => mret (Some (VBool b))
  | ONil => mret (Some VNil)
  | ONumber z => mret (Some (VInt KInt z))
  | OString s => mret (Some (VString s))
  | OFunc f => call_helper f []
  end.

(** A call, with the value that the pipeline brings. *)
Definition eval_call (data : value) (c : call) (final : list (option value))
    : stateR sources string (option value) :=
  if bool_decide (length (c_args c) + length final = arity (c_func c)) then
    args ← elements_loop (eval_operand data) (c_args c);
    call_helper (c_func c) (args ++ final)
  else failR ("wrong number of args for " +:+ c_func c).

Fixpoint eval_rest (data : value) (cs : list call) (v : option value)
    : stateR sources string (option value) :=
  match cs with
  | [] => mret v
  | c :: cs' => w ← eval_call data c [v]; eval_rest data cs' w
  end.

Definition eval_pipeline (data : value) (p : pipeline) : stateR sources string (option value) :=
  v ← match p_first p with
      | Single o => eval_operand data o
      | Call c => eval_call data c []
      end;
  eval_rest data (p_rest p) v.

(** What an action prints. *)
Definition print_value (v : option value) : string :=
  match v with None | Some VNil => "<no value>" | Some v => sprint v end.

Fixpoint exec_nodes (data : value) (nodes : list node) : stateR sources string string :=
  match nodes with
  | [] => mret ""
  | NText s :: nodes' => out ← exec_nodes data nodes'; mret (s +:+ out)
  | NAction p :: nodes' =>
    v ← eval_pipeline data p; out ← exec_nodes data nodes'; mret (print_value v +:+ out)
  end.

(** The engine: what is not in the fragment is left to [other]. *)
Definition go_template (other : TextTemplate) : TextTemplate := {|
  tmpl := string * list node + @tmpl other;
  entropy := sources * @entropy other;
  tmpl_Parse s :=
    match parse_template s with
    | Some nodes => Ok (inl (s, nodes))
    | None => inr <$> @tmpl_Parse other s
    end;
  tmpl_Execute t data st :=
    match t with
    | inl (text, nodes) =>
      let '(r, so) := exec_nodes data nodes st.1 in
      (match r with Ok out => Ok out | Err e => Err (locate text e) end, (so, st.2))
    | inr t => let '(r, st2) := @tmpl_Execute other t data st.2 in (r, (st.1, st2))
    end;
|}.
End execute.

(** ** Examples *)

Definition plain_types : TemplateTypes := {| member _ _ := None; locate _ e := e |}.
Definition no_template : TextTemplate := {|
  tmpl := Empty_set; entropy := unit; tmpl_Parse _ := Err "not modelled";
  tmpl_Execute t _ _ := match t with end |}.
