(* ===== verification/Friendly.v ===== *)
(** * The friendly template syntax, from the text to the answer

    A template written as the README shows: texts with references to the triggering
    message, to its headers, to the clock, and calls of the helper functions.  Its
    text is rewritten by preprocessTemplate, parsed and executed by text/template;
    here the three steps together. *)
From S2P Require Import Prelude GoStrings GoValue Libs Regex Utf8 Decimal JsonText JsonCodec Config Broker Rewrite Template Render GoTemplate.

(** ** The syntax *)

Inductive reference :=
| RQueue
| RRoutingKey
| RTrigger (name : string) (path : list string)
| RHeader (name : string) (path : list string)
| RSystem (name : string).

(** The fields a reference goes through, from the data on. *)
Definition fields (r : reference) : list string :=
  match r with
  | RQueue => ["queue"]
  | RRoutingKey => ["routing_key"]
  | RTrigger name path => "trigger" :: name :: path
  | RHeader name path => "headers" :: name :: path
  | RSystem name => ["system"; name]
  end.

(** An action without its braces; the strings are the blanks between the words. *)
Inductive body :=
| BRef (r : reference)
| BJson (w : string) (r : reference)
| BPipe (r : reference) (w1 w2 : string)
| BFun (f : string)
| BRandom (w1 : string) (min : Z) (w2 : string) (max : Z).

(** A body with the blanks around it, and the trim markers of the braces, each with
    the blank that separates it from the rest. *)
Record tmpl_action := {
  a_trim_left : option ascii;
  a_before : string;
  a_body : body;
  a_after : string;
  a_trim_right : option ascii;
}.

(** A template: each action with the text before it, and the text at the end. *)
Record friendly := { f_parts : list (string * tmpl_action); f_tail : string }.

Definition reference_text (r : reference) : string := join "." (fields r).
(** The same with the dots of text/template. *)
Definition dotted_text (r : reference) : string := String "." (reference_text r).

Section text.
Variable ref : reference → string.

Definition body_text (b : body) : string :=
  match b with
  | BRef r => ref r
  | BJson w r => "json" +:+ w +:+ ref r
  | BPipe r w1 w2 => ref r +:+ w1 +:+ String "|" (w2 +:+ "json")
  | BFun f => f
  | BRandom w1 min w2 max => "random_int" +:+ w1 +:+ itoa min +:+ w2 +:+ itoa max
  end.

Definition left_marker (a : tmpl_action) : string :=
  match a_trim_left a with Some c => String "-" (String c "") | None => "" end.
Definition right_marker (a : tmpl_action) : string :=
  match a_trim_right a with Some c => String c "-" | None => "" end.

(** Without and with the left marker. *)
Definition marked_text (a : tmpl_action) : string :=
  a_before a +:+ body_text (a_body a) +:+ a_after a +:+ right_marker a.
Definition inner_text (a : tmpl_action) : string := left_marker a +:+ marked_text a.

Fixpoint parts_text (l : list (string * tmpl_action)) (tail : string) : string :=
  match l with
  | [] => tail
  | (text, a) :: l' => text +:+ "{{" +:+ inner_text a +:+ "}}" +:+ parts_text l' tail
  end.
End text.

(** What is written in the configuration. *)
Definition friendly_text (t : friendly) : string :=
  parts_text reference_text (f_parts t) (f_tail t).

(** ** What can be written *)

Definition blank (w : string) : bool := all_bytes tmpl_space w.

(** A name of letters, digits and underscores that does not start with a digit. *)
Definition good_name (w : string) : bool :=
  match w with
  | "" => false
  | String c _ => negb (is_digit c) && all_bytes is_word w
  end.

Definition good_reference (r : reference) : bool := forallb good_name (fields r).

Definition plain_helpers : list string := ["uuid"; "system_utc_now"; "utc_now"; "now"].

Definition good_body (b : body) : bool :=
  match b with
  | BRef r => good_reference r
  | BJson w r => negb (bool_decide (w = "")) && blank w && good_reference r
  | BPipe r w1 w2 => blank w1 && blank w2 && good_reference r
  | BFun f => bool_decide (f ∈ plain_helpers)
  | BRandom w1 min w2 max =>
    negb (bool_decide (w1 = "")) && blank w1 && negb (bool_decide (w2 = "")) && blank w2 &&
    int64_ok min && int64_ok max
  end.

(** A text in which, and at the end of which, no action opens. *)
Definition good_text (s : string) : bool := negb (contains (s +:+ "{") "{{").

Definition good_marker (m : option ascii) : bool :=
  match m with Some c => tmpl_space c | None => true end.

Definition good_action (a : tmpl_action) : bool :=
  good_marker (a_trim_left a) && good_marker (a_trim_right a) &&
  blank (a_before a) && good_body (a_body a) && blank (a_after a).

(** Its parts. *)
Lemma good_action_spec a :
  good_action a = true ↔
  good_marker (a_trim_left a) = true ∧ good_marker (a_trim_right a) = true ∧
  blank (a_before a) = true ∧ good_body (a_body a) = true ∧ blank (a_after a) = true.
Proof. unfold good_action. rewrite !andb_true_iff. tauto. Qed.

Definition good_friendly (t : friendly) : bool :=
  forallb (λ p, good_text p.1 && good_action p.2) (f_parts t) && good_text (f_tail t).

(** ** Helpers *)

Lemma all_bytes_mono (p q : ascii → bool) s :
  (∀ c, p c = true → q c = true) → all_bytes p s = true → all_bytes q s = true.
Proof.
  intros Hpq. induction s as [|c s IH]; [done|]. cbn [all_bytes].
  intros [Hc Hs]%andb_prop. by rewrite Hpq, IH.
Qed.

(** A printed integer: a sign and digits without a leading zero. *)
Lemma itoa_parts z :
  ∃ sign d, itoa z = sign +:+ d ∧ (sign = "" ∨ sign = "-") ∧ digits d = true ∧
    has_prefix d "0" && negb (bool_decide (d = "0")) = false.
Proof.
  assert (∀ z, (0 ≤ z)%Z → digits (itoa z) = true ∧
    has_prefix (itoa z) "0" && negb (bool_decide (itoa z = "0")) = false) as Hpos.
  { intros x Hx. split; [by apply digits_value_itoa|]. destruct (decide (x = 0)%Z) as [->|]; [done|].
    destruct (itoa_pos x ltac:(lia)) as (c & t & -> & Hc & _). cbn [has_prefix].
    by rewrite bool_decide_false by congruence. }
  destruct (decide (0 ≤ z)%Z).
  - exists "", (itoa z). split; [done|]. split; [by left|by apply Hpos].
  - exists "-", (itoa (- z)). split; [|split; [by right|apply Hpos; lia]].
    rewrite itoa_neg, (itoa_nonneg (- z)) by lia. done.
Qed.

(** ** Rewriting *)

Definition no_sep (s : string) : bool := all_bytes (λ c, negb (is_sep c)) s.
(** The end of the text, or a separator. *)
Definition boundary (s : string) : bool := match s with "" => true | String c _ => is_sep c end.

Section rewriting.
Context (kw : string → option nat).
Hypothesis kw_empty : kw "" = None.
Hypothesis kw_sep : ∀ c s, is_sep c = true → kw (String c s) = None.

Lemma rewrite_sep c s : is_sep c = true → rewrite_refs kw (String c s) = String c (rewrite_refs kw s).
Proof.
  intros Hc. unfold rewrite_refs at 1. rewrite kw_sep by done. simpl. rewrite Hc.
  unfold rewrite_refs. by destruct (kw s).
Qed.

Lemma rewrite_boundary s : boundary s = true → rewrite_from kw 0 s = rewrite_refs kw s.
Proof.
  unfold rewrite_refs. destruct s as [|c s]; simpl; [by rewrite kw_empty|].
  intros Hc. by rewrite kw_sep.
Qed.

Lemma rewrite_word_from n a t :
  no_sep a = true → n ≤ String.length a → boundary t = true →
  rewrite_from kw n (a +:+ t) = a +:+ rewrite_refs kw t.
Proof.
  intros Ha Hn Ht. revert n Hn. induction a as [|c a IH]; intros n Hn.
  - simpl in Hn. replace n with 0 by lia. by apply rewrite_boundary.
  - apply andb_prop in Ha as [Hc Ha]. apply negb_true_iff in Hc. rewrite !str_app_cons. simpl.
    simpl in Hn. destruct n as [|n]; rewrite ?Hc; f_equal; apply IH; (done || lia).
Qed.

(** A word that is no keyword, and one that is. *)
Lemma rewrite_word a t :
  no_sep a = true → boundary t = true → kw (a +:+ t) = None →
  rewrite_refs kw (a +:+ t) = a +:+ rewrite_refs kw t.
Proof. intros Ha Ht Hk. unfold rewrite_refs at 1. rewrite Hk. apply rewrite_word_from; [done|lia|done]. Qed.

Lemma rewrite_keyword a t n :
  no_sep a = true → boundary t = true → kw (a +:+ t) = Some n → n ≤ String.length a →
  rewrite_refs kw (a +:+ t) = String "." (a +:+ rewrite_refs kw t).
Proof. intros Ha Ht Hk Hn. unfold rewrite_refs at 1. rewrite Hk. by rewrite rewrite_word_from. Qed.

Lemma rewrite_blank w t : blank w = true → rewrite_refs kw (w +:+ t) = w +:+ rewrite_refs kw t.
Proof.
  induction w as [|c w IH]; [done|]. intros [Hc Hw]%andb_prop. rewrite !str_app_cons.
  rewrite rewrite_sep, IH; [done|done|].
  unfold tmpl_space in Hc. apply bool_decide_eq_true in Hc. unfold is_sep. apply bool_decide_eq_true.
  set_solver.
Qed.
End rewriting.

(** The names of helpers, which are no keywords. *)
Definition plain_word (f : string) : Prop := f ∈ "json" :: "random_int" :: plain_helpers.

Section body_rewriting.
Context (kw : string → option nat) (f g : reference → string).
Hypothesis kw_empty : kw "" = None.
Hypothesis kw_sep : ∀ c s, is_sep c = true → kw (String c s) = None.
Hypothesis kw_plain : ∀ a t, plain_word a → kw (a +:+ t) = None.
Hypothesis kw_minus : ∀ t, kw (String "-" t) = None.
Hypothesis kw_number : ∀ z t, kw (itoa z +:+ t) = None.
Hypothesis kw_reference : ∀ r t, good_reference r = true → boundary t = true →
  rewrite_refs kw (f r +:+ t) = g r +:+ rewrite_refs kw t.

Lemma plain_no_sep a : plain_word a → no_sep a = true.
Proof.
  unfold plain_word, plain_helpers. intros Ha.
  repeat (apply elem_of_cons in Ha as [->|Ha]; [done|]). by apply elem_of_nil in Ha.
Qed.

Lemma rewrite_plain a t :
  plain_word a → boundary t = true → rewrite_refs kw (a +:+ t) = a +:+ rewrite_refs kw t.
Proof. intros Ha Ht. apply rewrite_word; auto using plain_no_sep. Qed.

Lemma itoa_no_sep z : no_sep (itoa z) = true.
Proof.
  destruct (itoa_parts z) as (sign & d & -> & Hsign & Hd & _). unfold no_sep. rewrite all_bytes_app.
  apply andb_true_iff. split; [by destruct Hsign as [->| ->]|].
  apply digits_all in Hd. revert Hd. apply all_bytes_mono. intros c.
  destruct c as [[] [] [] [] [] [] [] []]; by vm_compute.
Qed.

Lemma rewrite_number z t :
  boundary t = true → rewrite_refs kw (itoa z +:+ t) = itoa z +:+ rewrite_refs kw t.
Proof. intros Ht. apply rewrite_word; auto using itoa_no_sep. Qed.

Lemma blank_boundary w t : blank w = true → boundary t = true → boundary (w +:+ t) = true.
Proof.
  destruct w as [|c w]; [done|]. intros [Hc _]%andb_prop _.
  unfold tmpl_space in Hc. apply bool_decide_eq_true in Hc. apply bool_decide_eq_true. set_solver.
Qed.

Lemma blank_boundary_ne w t : blank w = true → w ≠ "" → boundary (w +:+ t) = true.
Proof. intros Hw Hne. destruct w as [|c w]; [done|]. by apply (blank_boundary (String c w) ""). Qed.

Lemma rewrite_body b t :
  good_body b = true → boundary t = true →
  rewrite_refs kw (body_text f b +:+ t) = body_text g b +:+ rewrite_refs kw t.
Proof.
  intros Hb Ht. destruct b as [r|w r|r w1 w2|h|w1 lo w2 hi]; simpl in Hb; cbn [body_text].
  - by apply kw_reference.
  - apply andb_prop in Hb as [[Hne Hw]%andb_prop Hr].
    apply negb_true_iff, bool_decide_eq_false in Hne.
    rewrite !str_app_assoc, rewrite_plain, rewrite_blank, kw_reference by
      (done || by apply blank_boundary_ne || by left). done.
  - apply andb_prop in Hb as [[Hw1 Hw2]%andb_prop Hr].
    rewrite !str_app_assoc, kw_reference, rewrite_blank by (done || by apply blank_boundary).
    rewrite str_app_cons, rewrite_sep, str_app_assoc, rewrite_blank, rewrite_plain by
      (done || by left). by rewrite ?str_app_cons, ?str_app_assoc.
  - apply bool_decide_eq_true in Hb. apply rewrite_plain; [by right; right|done].
  - apply andb_prop in Hb as [[[[[H1 Hw1]%andb_prop H2]%andb_prop Hw2]%andb_prop _]%andb_prop _].
    apply negb_true_iff, bool_decide_eq_false in H1, H2.
    rewrite !str_app_assoc, rewrite_plain, rewrite_blank, rewrite_number, rewrite_blank, rewrite_number by
      (done || by apply blank_boundary_ne || by right; left). done.
Qed.

Lemma space_sep c : tmpl_space c = true → is_sep c = true.
Proof. destruct c as [[] [] [] [] [] [] [] []]; by vm_compute. Qed.

(** A trim marker on the left is a word of its own; so is one on the right. *)
Lemma rewrite_left a t :
  good_marker (a_trim_left a) = true →
  rewrite_refs kw (left_marker a +:+ t) = left_marker a +:+ rewrite_refs kw t.
Proof.
  unfold left_marker. destruct (a_trim_left a) as [c|]; [|done]. cbn [good_marker].
  intros Hc%space_sep.
  change (String "-" (String c "") +:+ t) with ("-" +:+ String c t).
  rewrite rewrite_word by (done || apply kw_minus). by rewrite rewrite_sep.
Qed.

Lemma rewrite_right a :
  good_marker (a_trim_right a) = true → rewrite_refs kw (right_marker a) = right_marker a.
Proof.
  unfold right_marker. destruct (a_trim_right a) as [c|]; intros Hc.
  - rewrite rewrite_sep by (done || by apply space_sep). unfold rewrite_refs. by rewrite kw_minus.
  - unfold rewrite_refs. by rewrite kw_empty.
Qed.

Lemma right_boundary a : good_marker (a_trim_right a) = true → boundary (right_marker a) = true.
Proof.
  unfold right_marker. destruct (a_trim_right a) as [c|]; [|done]. apply space_sep.
Qed.

Lemma rewrite_inner a :
  good_action a = true → rewrite_refs kw (inner_text f a) = inner_text g a.
Proof.
  intros (Hl & Hr & H1 & Hb & H2)%good_action_spec. unfold inner_text, marked_text.
  rewrite rewrite_left, rewrite_blank, rewrite_body, rewrite_blank, rewrite_right by
    (done || by apply blank_boundary, right_boundary). done.
Qed.
End body_rewriting.

(** A reference after the first pass, which puts the dots of the longer ones. *)
Definition half_dotted (r : reference) : string :=
  match r with RQueue | RRoutingKey => reference_text r | _ => dotted_text r end.

Lemma word_no_sep c : is_word c = true → is_sep c = false.
Proof. destruct c as [[] [] [] [] [] [] [] []]; by vm_compute. Qed.

Lemma good_name_no_sep w : good_name w = true → no_sep w = true.
Proof.
  destruct w as [|c w]; [done|]. simpl. intros [_ Hw]%andb_prop.
  change (all_bytes is_word (String c w) = true) in Hw. revert Hw.
  generalize (String c w). intros s. induction s as [|d s IH]; [done|].
  unfold no_sep in *. cbn [all_bytes]. intros [Hd Hs]%andb_prop.
  rewrite word_no_sep by done. by apply IH.
Qed.

Lemma join_no_sep l : forallb good_name l = true → no_sep (join "." l) = true.
Proof.
  induction l as [|w l IH]; [done|]. simpl. intros [Hw Hl]%andb_prop. destruct l as [|w' l].
  - by apply good_name_no_sep.
  - unfold no_sep in *. rewrite !all_bytes_app, IH by done. by rewrite good_name_no_sep.
Qed.

Lemma reference_no_sep r : good_reference r = true → no_sep (reference_text r) = true.
Proof. apply join_no_sep. Qed.

Lemma context_sep c s : is_sep c = true → context_keyword (String c s) = None.
Proof. destruct c as [[] [] [] [] [] [] [] []]; (done || by vm_compute). Qed.

Lemma bare_sep c s : is_sep c = true → bare_keyword (String c s) = None.
Proof. destruct c as [[] [] [] [] [] [] [] []]; (done || by vm_compute). Qed.

Lemma boundary_word_end t : boundary t = true → word_end t = true.
Proof.
  destruct t as [|c t]; [done|]. simpl. intros Hc. apply negb_true_iff.
  destruct (is_word c) eqn:Hw; [|done]. apply word_no_sep in Hw. congruence.
Qed.

Lemma context_plain a t : plain_word a → context_keyword (a +:+ t) = None.
Proof.
  unfold plain_word, plain_helpers. intros Ha.
  repeat (apply elem_of_cons in Ha as [->|Ha]; [done|]). by apply elem_of_nil in Ha.
Qed.

Lemma bare_plain a t : plain_word a → bare_keyword (a +:+ t) = None.
Proof.
  unfold plain_word, plain_helpers. intros Ha.
  repeat (apply elem_of_cons in Ha as [->|Ha]; [done|]). by apply elem_of_nil in Ha.
Qed.

Lemma keyword_number (kw : string → option nat) z t :
  (∀ d t', is_digit d = true ∨ d = "-"%char → kw (String d t') = None) → kw (itoa z +:+ t) = None.
Proof.
  intros Hkw. destruct (itoa_parts z) as (sign & d & -> & [->| ->] & Hd & _).
  - destruct d as [|c d]; [done|]. apply digits_all, andb_prop in Hd as [Hc _]. apply Hkw. by left.
  - apply Hkw. by right.
Qed.

Lemma context_number z t : context_keyword (itoa z +:+ t) = None.
Proof.
  apply (keyword_number context_keyword). intros c t' Hc.
  destruct c as [[] [] [] [] [] [] [] []]; (done || by destruct Hc).
Qed.

Lemma bare_number z t : bare_keyword (itoa z +:+ t) = None.
Proof.
  apply (keyword_number bare_keyword). intros c t' Hc.
  destruct c as [[] [] [] [] [] [] [] []]; (done || by destruct Hc).
Qed.

Lemma has_prefix_app pre s : has_prefix (pre +:+ s) pre = true.
Proof. apply has_prefix_spec. by exists s. Qed.

(** The three long references begin with their keyword. *)
Lemma context_long kw s n :
  (kw, n) ∈ [("trigger.", 8); ("system.", 7); ("headers.", 8)] →
  context_keyword (kw +:+ s) = Some n.
Proof.
  intros Hin. pose proof (has_prefix_app kw s) as Hp. unfold context_keyword.
  repeat (apply elem_of_cons in Hin as [[= -> ->]|Hin]; [by rewrite Hp|]).
  by apply elem_of_nil in Hin.
Qed.

Lemma context_reference r t :
  good_reference r = true → boundary t = true →
  rewrite_refs context_keyword (reference_text r +:+ t) =
  half_dotted r +:+ rewrite_refs context_keyword t.
Proof.
  intros Hr Ht. pose proof (reference_no_sep r Hr) as Hn.
  destruct r as [| |name path|name path|name]; cbn [half_dotted]; unfold dotted_text;
    rewrite ?str_app_cons.
  - by apply (rewrite_word _ eq_refl context_sep).
  - by apply (rewrite_word _ eq_refl context_sep).
  - apply (rewrite_keyword _ eq_refl context_sep _ _ 8); [done|done| |simpl; lia].
    by apply (context_long "trigger."); set_solver.
  - apply (rewrite_keyword _ eq_refl context_sep _ _ 8); [done|done| |simpl; lia].
    by apply (context_long "headers."); set_solver.
  - apply (rewrite_keyword _ eq_refl context_sep _ _ 7); [done|done| |simpl; lia].
    by apply (context_long "system."); set_solver.
Qed.

Lemma bare_reference r t :
  good_reference r = true → boundary t = true →
  rewrite_refs bare_keyword (half_dotted r +:+ t) =
  dotted_text r +:+ rewrite_refs bare_keyword t.
Proof.
  intros Hr Ht. pose proof (reference_no_sep r Hr) as Hn. pose proof (boundary_word_end t Ht) as Hw.
  destruct r as [| |name path|name path|name]; cbn [half_dotted]; unfold dotted_text.
  - rewrite str_app_cons. apply (rewrite_keyword _ eq_refl bare_sep _ _ 5); [done|done| |simpl; lia].
    unfold bare_keyword. change (reference_text RQueue) with "queue". rewrite has_prefix_app.
    change (drop_bytes 5 ("queue" +:+ t)) with t. by rewrite Hw.
  - rewrite str_app_cons. apply (rewrite_keyword _ eq_refl bare_sep _ _ 11); [done|done| |simpl; lia].
    unfold bare_keyword. change (reference_text RRoutingKey) with "routing_key".
    change (has_prefix ("routing_key" +:+ t) "queue") with false. rewrite has_prefix_app.
    change (drop_bytes 11 ("routing_key" +:+ t)) with t. by rewrite Hw.
  - by apply (rewrite_word _ eq_refl bare_sep).
  - by apply (rewrite_word _ eq_refl bare_sep).
  - by apply (rewrite_word _ eq_refl bare_sep).
Qed.

Lemma rewriteCode_inner a :
  good_action a = true → rewriteCode (inner_text reference_text a) = inner_text dotted_text a.
Proof.
  intros Ha. unfold rewriteCode.
  rewrite (rewrite_inner context_keyword reference_text half_dotted) by
    (done || apply context_sep || apply context_plain || apply context_number || apply context_reference).
  apply (rewrite_inner bare_keyword);
    (done || apply bare_sep || apply bare_plain || apply bare_number || apply bare_reference).
Qed.

(** ** Preprocessing *)

(** The bytes of an action's inside. *)
Definition inner_byte (c : ascii) : bool :=
  tmpl_space c || is_word c || bool_decide (c ∈ ["."%char; "|"%char; "-"%char]).

Lemma inner_byte_plain c :
  inner_byte c = true → negb (is_quote c) && negb (bool_decide (c = "}"%char)) = true.
Proof. destruct c as [[] [] [] [] [] [] [] []]; by vm_compute. Qed.

Lemma blank_inner w : blank w = true → all_bytes inner_byte w = true.
Proof. apply all_bytes_mono. intros c Hc. unfold inner_byte. by rewrite Hc. Qed.

Lemma join_all (p : ascii → bool) l :
  p "."%char = true → (∀ c, is_word c = true → p c = true) →
  forallb good_name l = true → all_bytes p (join "." l) = true.
Proof.
  intros Hdot Hword. assert (∀ w, good_name w = true → all_bytes p w = true) as Hname.
  { intros [|c w]; [done|]. cbn [good_name]. intros [_ Hw]%andb_prop. revert Hw.
    by apply all_bytes_mono. }
  induction l as [|w l IH]; [done|]. cbn [forallb]. intros [Hw Hl]%andb_prop. destruct l as [|w' l].
  - by apply Hname.
  - rewrite join_cons by done. rewrite !all_bytes_app, Hname, IH by done. cbn. by rewrite Hdot.
Qed.

Lemma join_inner l : forallb good_name l = true → all_bytes inner_byte (join "." l) = true.
Proof. apply join_all; [done|]. intros c Hc. unfold inner_byte. by rewrite Hc, orb_true_r. Qed.

Lemma itoa_inner z : all_bytes inner_byte (itoa z) = true.
Proof.
  destruct (itoa_parts z) as (sign & d & -> & Hsign & Hd & _). rewrite all_bytes_app.
  apply andb_true_iff. split; [by destruct Hsign as [->| ->]|].
  apply digits_all in Hd. revert Hd. apply all_bytes_mono. intros c Hc.
  unfold inner_byte, is_word. by rewrite Hc, orb_true_r.
Qed.

Section inner.
Context (f : reference → string).
Hypothesis f_inner : ∀ r, good_reference r = true → all_bytes inner_byte (f r) = true.

Lemma body_inner b : good_body b = true → all_bytes inner_byte (body_text f b) = true.
Proof.
  destruct b as [r|w r|r w1 w2|h|w1 lo w2 hi]; cbn [good_body body_text].
  - apply f_inner.
  - intros [[_ Hw]%andb_prop Hr]%andb_prop. by rewrite !all_bytes_app, (blank_inner _ Hw), f_inner.
  - intros [[Hw1 Hw2]%andb_prop Hr]%andb_prop.
    rewrite !all_bytes_app, f_inner, (blank_inner _ Hw1) by done. cbn [all_bytes].
    by rewrite all_bytes_app, (blank_inner _ Hw2).
  - intros Hh%bool_decide_eq_true. unfold plain_helpers in Hh.
    repeat (apply elem_of_cons in Hh as [->|Hh]; [done|]). by apply elem_of_nil in Hh.
  - intros [[[[[_ Hw1]%andb_prop _]%andb_prop Hw2]%andb_prop _]%andb_prop _]%andb_prop.
    by rewrite !all_bytes_app, !itoa_inner, (blank_inner _ Hw1), (blank_inner _ Hw2).
Qed.

Lemma action_inner a : good_action a = true → all_bytes inner_byte (inner_text f a) = true.
Proof.
  intros (Hl & Hr & H1 & Hb & H2)%good_action_spec. unfold inner_text, marked_text.
  rewrite !all_bytes_app, (blank_inner _ H1), (blank_inner _ H2), body_inner by done.
  apply andb_true_iff. split; [|apply andb_true_iff; split; [done|]].
  - unfold left_marker. destruct (a_trim_left a) as [c|]; [|done]. cbn [all_bytes].
    unfold inner_byte at 2. cbn [good_marker] in Hl. by rewrite Hl.
  - unfold right_marker. destruct (a_trim_right a) as [c|]; [|done]. cbn [all_bytes].
    unfold inner_byte at 1. cbn [good_marker] in Hr. by rewrite Hr.
Qed.
End inner.

Lemma reference_inner r : good_reference r = true → all_bytes inner_byte (reference_text r) = true.
Proof. apply join_inner. Qed.

Lemma dotted_inner r : good_reference r = true → all_bytes inner_byte (dotted_text r) = true.
Proof. apply join_inner. Qed.

Lemma rewriteAction_inner a :
  good_action a = true → rewriteAction (inner_text reference_text a) = inner_text dotted_text a.
Proof.
  intros Ha. rewrite <- (rewriteCode_inner a Ha).
  assert (no_quote (inner_text reference_text a) = true) as Hq.
  { generalize (action_inner _ reference_inner a Ha). apply all_bytes_mono.
    intros c Hc. by destruct (andb_prop _ _ (inner_byte_plain c Hc)). }
  destruct (inner_text reference_text a) as [|c s] eqn:Hs; [done|].
  apply action_rel_loop; [|lia].
  rewrite <- (str_app_nil (String c s)) at 1. rewrite <- (str_app_nil (rewriteCode _)).
  by apply action_code; [..|constructor].
Qed.

Lemma cut2_prefix a b s t : cut2 a b (s +:+ t) = None → cut2 a b s = None.
Proof.
  induction s as [|x s IH]; [done|]. destruct s as [|y s]; [done|].
  rewrite !str_app_cons, !cut2_cons. case_bool_decide; [done|].
  intros Hc%fmap_None. by rewrite IH.
Qed.

Lemma cut2_absent a b s :
  all_bytes (λ c, negb (bool_decide (c = a))) s = true → cut2 a b (s +:+ String a "") = None.
Proof.
  induction s as [|x s IH]; [done|]. cbn [all_bytes]. intros [Hx Hs]%andb_prop.
  apply negb_true_iff, bool_decide_eq_false in Hx. rewrite str_app_cons.
  destruct s as [|y s]; [simpl; by rewrite bool_decide_false by naive_solver|].
  rewrite str_app_cons, cut2_cons, bool_decide_false by naive_solver.
  rewrite <- str_app_cons, IH; done.
Qed.

Lemma good_text_cut s : good_text s = true → cut2 "{" "{" (s +:+ "{") = None.
Proof. unfold good_text. intros Hs%negb_true_iff. by apply contains_cut2. Qed.

Lemma action_close f a rest :
  (∀ r, good_reference r = true → all_bytes inner_byte (f r) = true) → good_action a = true →
  cut2 "}" "}" (inner_text f a +:+ "}}" +:+ rest) = Some (inner_text f a, rest).
Proof.
  intros Hf Ha. apply cut2_clean, cut2_absent. generalize (action_inner f Hf a Ha).
  apply all_bytes_mono. intros c Hc. by destruct (andb_prop _ _ (inner_byte_plain c Hc)).
Qed.

Lemma action_open_cut text rest :
  good_text text = true → cut2 "{" "{" (text +:+ "{{" +:+ rest) = Some (text, rest).
Proof. intros Ht. by apply cut2_clean, good_text_cut. Qed.

Lemma preprocess_parts l tail :
  forallb (λ p, good_text p.1 && good_action p.2) l = true → good_text tail = true →
  preprocessTemplate (parts_text reference_text l tail) = parts_text dotted_text l tail.
Proof.
  intros Hl Ht. induction l as [|[text a] l IH]; cbn [parts_text].
  - apply preprocessTemplate_plain, contains_cut2, (cut2_prefix _ _ _ "{"), good_text_cut, Ht.
  - cbn [forallb fst snd] in Hl. apply andb_prop in Hl as [[Htext Ha]%andb_prop Hl].
    rewrite preprocess_unfold, action_open_cut by done.
    rewrite action_close by (done || apply reference_inner).
    by rewrite rewriteAction_inner, IH.
Qed.

(** ** Lexing *)

(** [rest]: what follows the closing braces, and whether they have a trim marker. *)
Definition lexes (s : string) (ks : list token) (rest : string * bool) : Prop :=
  ∀ fuel, String.length s < fuel → lex_action fuel s = Some (ks, rest.1, rest.2).

Definition not_minus (s : string) : bool :=
  match s with String c _ => negb (bool_decide (c = "-"%char)) | "" => true end.

Lemma lexes_end rest : lexes ("}}" +:+ rest) [] (rest, false).
Proof. intros [|fuel] Hf; [lia|]. cbn [lex_action]. by rewrite has_prefix_app. Qed.

Lemma lexes_trim c rest :
  tmpl_space c = true → lexes (String c "-" +:+ "}}" +:+ rest) [] (rest, true).
Proof.
  intros Hc [|fuel] Hf; [lia|].
  change (String c "-" +:+ "}}" +:+ rest) with (String c ("-}}" +:+ rest)). cbn [lex_action].
  assert (has_prefix (String c ("-}}" +:+ rest)) "}}" = false) as ->.
  { destruct c as [[] [] [] [] [] [] [] []]; by vm_compute in Hc. }
  by rewrite Hc, has_prefix_app.
Qed.

Lemma lexes_token c s k r ks rest :
  c ≠ "}"%char → tmpl_space c && has_prefix s "-}}" = false →
  next_token (String c s) = Some (k, r) → String.length r ≤ String.length s →
  lexes r ks rest → lexes (String c s) (k :: ks) rest.
Proof.
  intros Hc Hm Hk Hr Hl [|fuel] Hf; [lia|]. cbn [lex_action].
  assert (has_prefix (String c s) "}}" = false) as ->.
  { simpl. rewrite bool_decide_false by congruence. done. }
  rewrite Hm, Hk, Hl; [done|]. simpl in Hf. lia.
Qed.

Definition spaces (w : string) : list token := map (λ _, KSpace) (bytes_of w).

Lemma not_minus_trim t : not_minus t = true → has_prefix t "-}}" = false.
Proof.
  destruct t as [|c t]; [done|]. simpl. intros Hc%negb_true_iff%bool_decide_eq_false.
  by rewrite bool_decide_false by congruence.
Qed.

Lemma number_trim z t : has_prefix (itoa z +:+ t) "-}}" = false.
Proof.
  destruct (itoa_parts z) as (sign & d & -> & Hsign & Hd & _).
  destruct d as [|c d]; [done|]. apply digits_all, andb_prop in Hd as [Hc _].
  assert (c ≠ "-"%char ∧ c ≠ "}"%char) as [H1 H2] by (split; by intros ->).
  destruct Hsign as [->| ->].
  - change (("" +:+ String c d) +:+ t) with (String c (d +:+ t)). cbn [has_prefix].
    by rewrite bool_decide_false by congruence.
  - change (("-" +:+ String c d) +:+ t) with (String "-" (String c (d +:+ t))). cbn [has_prefix].
    rewrite (bool_decide_false ("}"%char = c)) by congruence. by rewrite andb_false_r.
Qed.

Lemma blank_trim w t : blank w = true → has_prefix t "-}}" = false → has_prefix (w +:+ t) "-}}" = false.
Proof.
  destruct w as [|c w]; [done|]. cbn [blank all_bytes]. intros [Hc _]%andb_prop _.
  destruct c as [[] [] [] [] [] [] [] []]; by vm_compute in Hc.
Qed.

Lemma blank_not_minus w t : blank w = true → not_minus t = true → not_minus (w +:+ t) = true.
Proof.
  destruct w as [|c w]; [done|]. cbn [blank all_bytes]. intros [Hc _]%andb_prop _.
  destruct c as [[] [] [] [] [] [] [] []]; by vm_compute in Hc.
Qed.

Lemma lexes_blank w t ks rest :
  blank w = true → has_prefix t "-}}" = false → lexes t ks rest → lexes (w +:+ t) (spaces w ++ ks) rest.
Proof.
  intros Hw Ht Hl. induction w as [|c w IH]; [done|]. cbn [blank all_bytes] in Hw.
  apply andb_prop in Hw as [Hc Hw]. rewrite str_app_cons.
  change (spaces (String c w) ++ ks) with (KSpace :: spaces w ++ ks).
  apply (lexes_token _ _ _ (w +:+ t)); [|by rewrite blank_trim, andb_false_r| |done|by apply IH].
  - by intros ->.
  - unfold next_token. by rewrite Hc.
Qed.

Lemma blank_terminator w t : blank w = true → at_terminator t = true → at_terminator (w +:+ t) = true.
Proof.
  destruct w as [|c w]; [done|]. cbn [blank all_bytes]. intros [Hc _]%andb_prop _.
  rewrite str_app_cons. unfold at_terminator. by rewrite Hc.
Qed.

Lemma blank_terminator_ne w t : blank w = true → w ≠ "" → at_terminator (w +:+ t) = true.
Proof.
  destruct w as [|c w]; [done|]. cbn [blank all_bytes]. intros [Hc _]%andb_prop _.
  rewrite str_app_cons. unfold at_terminator. by rewrite Hc.
Qed.

Lemma word_byte c : is_word c = true →
  tmpl_space c = false ∧ c ≠ "|"%char ∧ c ≠ "."%char ∧ c ≠ quote_mark ∧ c ≠ "`"%char ∧
  c ≠ "-"%char ∧ c ≠ "}"%char ∧ c ∉ ["."%char; ","%char; "|"%char; ":"%char; ")"%char; "("%char].
Proof.
  intros Hc. assert (tmpl_space c = false ∧
    bool_decide (c ∈ [quote_mark; "`"; "-"; "}"; "."; ","; "|"; ":"; ")"; "("]%char) = false) as [Hs Hn].
  { destruct c as [[] [] [] [] [] [] [] []]; by vm_compute in Hc. }
  apply bool_decide_eq_false in Hn. split; [done|]. set_solver.
Qed.

Lemma word_not_terminator c s : is_word c = true → at_terminator (String c s) = false.
Proof.
  intros (Hs & _ & _ & _ & _ & _ & Hb & Hn)%word_byte. unfold at_terminator.
  rewrite Hs, bool_decide_false by done. cbn [has_prefix].
  rewrite bool_decide_false by congruence. done.
Qed.

Lemma span_word w t :
  all_bytes is_word w = true → at_terminator t = true → span is_word (w +:+ t) = (w, t).
Proof.
  intros Hw Ht. induction w as [|c w IH].
  - destruct t as [|c t]; [done|]. change ("" +:+ String c t) with (String c t). cbn [span].
    destruct (is_word c) eqn:Hc; [|done]. by rewrite word_not_terminator in Ht.
  - cbn [all_bytes] in Hw. apply andb_prop in Hw as [Hc Hw]. rewrite str_app_cons. cbn [span].
    by rewrite Hc, IH.
Qed.

Lemma next_field w t :
  good_name w = true → at_terminator t = true →
  next_token (String "." (w +:+ t)) = Some (KField w, t).
Proof.
  destruct w as [|c w]; [done|]. cbn [good_name]. intros [Hd Hw]%andb_prop Ht.
  apply negb_true_iff in Hd. pose proof Hw as [Hc _]%andb_prop.
  transitivity (if is_digit c then None
    else if at_terminator (String c (w +:+ t)) then Some (KDot, String c w +:+ t)
    else let '(w', r) := span is_word (String c w +:+ t) in
         if at_terminator r then Some (KField w', r) else None); [done|].
  by rewrite Hd, word_not_terminator, span_word, Ht.
Qed.

Lemma next_ident f t :
  plain_word f → at_terminator t = true → next_token (f +:+ t) = Some (KIdent f, t).
Proof.
  intros Hf Ht. assert (good_name f = true ∧ word_token f = Some (KIdent f)) as [Hn Hk].
  { unfold plain_word, plain_helpers in Hf.
    repeat (apply elem_of_cons in Hf as [->|Hf]; [done|]). by apply elem_of_nil in Hf. }
  destruct f as [|c f]; [done|]. cbn [good_name] in Hn. apply andb_prop in Hn as [Hd Hw].
  apply negb_true_iff in Hd. pose proof Hw as [Hc _]%andb_prop.
  pose proof (span_word _ t Hw Ht) as Hspan. rewrite str_app_cons in *.
  destruct (word_byte c Hc) as (Hs & Hb & Hdot & Hq & Hq' & Hm & _).
  unfold next_token. rewrite Hs, !bool_decide_false by naive_solver. rewrite Hd. cbn [orb].
  by rewrite Hc, Hspan, Ht, Hk.
Qed.

Lemma span_digits_terminator d t :
  all_bytes is_digit d = true → at_terminator t = true → span is_digit (d +:+ t) = (d, t).
Proof.
  intros Hd Ht. induction d as [|c d IH].
  - destruct t as [|c t]; [done|]. change ("" +:+ String c t) with (String c t). cbn [span].
    destruct (is_digit c) eqn:Hc; [|done].
    rewrite word_not_terminator in Ht; [done|]. unfold is_word. by rewrite Hc.
  - cbn [all_bytes] in Hd. apply andb_prop in Hd as [Hc Hd]. rewrite str_app_cons. cbn [span].
    by rewrite Hc, IH.
Qed.

Lemma next_number z t :
  int64_ok z = true → at_terminator t = true → next_token (itoa z +:+ t) = Some (KNumber z, t).
Proof.
  intros Hz Ht. pose proof (atoi_itoa z Hz) as Hatoi.
  destruct (itoa_parts z) as (sign & d & Heq & Hsign & Hd & Hlead). rewrite Heq in *.
  assert (number_token sign d = Some (KNumber z)) as Hk by (unfold number_token; by rewrite Hlead, Hatoi).
  apply digits_all in Hd as Ha. pose proof (span_digits_terminator d t Ha Ht) as Hspan.
  destruct d as [|c d]; [done|]. apply andb_prop in Ha as [Hc _].
  assert (is_word c = true) as Hw by (unfold is_word; by rewrite Hc).
  destruct (word_byte c Hw) as (Hs & Hb & Hdot & Hq & Hq' & _).
  destruct Hsign as [->| ->].
  - change (("" +:+ String c d) +:+ t) with (String c (d +:+ t)).
    rewrite str_app_cons in Hspan. unfold next_token. rewrite Hs, !bool_decide_false by naive_solver. rewrite Hc. cbn [orb].
    by rewrite Hspan, Ht, Hk.
  - change (("-" +:+ String c d) +:+ t) with (String "-" (String c d +:+ t)).
    transitivity (let '(d', r) := span is_digit (String c d +:+ t) in
      if at_terminator r then (λ k, (k, r)) <$> number_token "-" d' else None); [done|].
    by rewrite Hspan, Ht, Hk.
Qed.

(** The dots of a chain of fields. *)
Fixpoint dots (l : list string) : string :=
  match l with [] => "" | w :: l' => String "." (w +:+ dots l') end.

Lemma dotted_dots r : dotted_text r = dots (fields r).
Proof.
  assert (∀ l, l ≠ [] → String "." (join "." l) = dots l) as Hl.
  { induction l as [|w l IH]; [done|]. intros _. destruct l as [|w' l].
    - simpl. by rewrite str_app_nil.
    - rewrite join_cons by done.
      change (dots (w :: w' :: l)) with (String "." (w +:+ dots (w' :: l))). by rewrite <- IH. }
  apply Hl. by destruct r.
Qed.

Lemma lexes_fields l t ks rest :
  forallb good_name l = true → at_terminator t = true → lexes t ks rest →
  lexes (dots l +:+ t) (map KField l ++ ks) rest.
Proof.
  intros Hl Ht Hk. induction l as [|w l IH]; [done|]. cbn [forallb] in Hl.
  apply andb_prop in Hl as [Hw Hl]. cbn [dots map app].
  rewrite str_app_cons, str_app_assoc.
  apply (lexes_token _ _ _ (dots l +:+ t)); [done|done| | |by apply IH].
  - apply next_field; [done|]. by destruct l.
  - rewrite !length_str_app. lia.
Qed.

Lemma lexes_ident f t ks rest :
  plain_word f → at_terminator t = true → lexes t ks rest →
  lexes (f +:+ t) (KIdent f :: ks) rest.
Proof.
  intros Hf Ht Hk. pose proof (next_ident f t Hf Ht) as Hn.
  assert (∃ c f', f = String c f' ∧ c ≠ "}"%char ∧ tmpl_space c = false) as (c & f' & -> & Hc & Hs).
  { unfold plain_word, plain_helpers in Hf.
    repeat (apply elem_of_cons in Hf as [->|Hf]; [by eexists _, _|]). by apply elem_of_nil in Hf. }
  rewrite str_app_cons in *. apply (lexes_token _ _ _ t); [done|by rewrite Hs|done| |done].
  rewrite length_str_app. lia.
Qed.

Lemma lexes_number z t ks rest :
  int64_ok z = true → at_terminator t = true → lexes t ks rest →
  lexes (itoa z +:+ t) (KNumber z :: ks) rest.
Proof.
  intros Hz Ht Hk. pose proof (next_number z t Hz Ht) as Hn. pose proof (number_trim z t) as Htrim.
  destruct (itoa_parts z) as (sign & d & Heq & Hsign & Hd & _). rewrite Heq in *.
  destruct d as [|c d]; [done|]. apply digits_all, andb_prop in Hd as [Hc _].
  assert (is_word c = true) as Hw by (unfold is_word; by rewrite Hc).
  destruct (word_byte c Hw) as (Hs & _ & _ & _ & _ & _ & Hbr & _).
  destruct Hsign as [->| ->].
  - change (("" +:+ String c d) +:+ t) with (String c (d +:+ t)) in *.
    apply (lexes_token _ _ _ t); [done|by rewrite Hs|done|rewrite length_str_app; lia|done].
  - change (("-" +:+ String c d) +:+ t) with (String "-" (String c d +:+ t)) in *.
    apply (lexes_token _ _ _ t); [done|done|done|rewrite length_str_app; lia|done].
Qed.

Definition body_tokens (b : body) : list token :=
  match b with
  | BRef r => map KField (fields r)
  | BJson w r => KIdent "json" :: spaces w ++ map KField (fields r)
  | BPipe r w1 w2 => map KField (fields r) ++ spaces w1 ++ KPipe :: spaces w2 ++ [KIdent "json"]
  | BFun f => [KIdent f]
  | BRandom w1 min w2 max =>
    KIdent "random_int" :: spaces w1 ++ KNumber min :: spaces w2 ++ [KNumber max]
  end.

Lemma dots_not_minus l t : l ≠ [] → not_minus (dots l +:+ t) = true.
Proof. by destruct l. Qed.

Lemma fields_ne r : fields r ≠ [].
Proof. by destruct r. Qed.

Lemma lexes_body b t ks rest :
  good_body b = true → at_terminator t = true → lexes t ks rest →
  lexes (body_text dotted_text b +:+ t) (body_tokens b ++ ks) rest.
Proof.
  intros Hb Ht Hk. destruct b as [r|w r|r w1 w2|h|w1 lo w2 hi]; cbn [good_body] in Hb;
    cbn [body_text body_tokens]; rewrite ?dotted_dots.
  - by apply lexes_fields.
  - apply andb_prop in Hb as [[Hne Hw]%andb_prop Hr].
    apply negb_true_iff, bool_decide_eq_false in Hne.
    rewrite !str_app_assoc. cbn [app]. rewrite <- app_assoc. apply lexes_ident; [by left| |].
    + by apply blank_terminator_ne.
    + apply lexes_blank; [done|apply not_minus_trim, dots_not_minus, fields_ne|by apply lexes_fields].
  - apply andb_prop in Hb as [[Hw1 Hw2]%andb_prop Hr].
    rewrite !str_app_assoc, <- !app_assoc. apply lexes_fields; [done|by apply blank_terminator|].
    apply lexes_blank; [done|done|]. rewrite str_app_cons, str_app_assoc. cbn [app].
    apply (lexes_token _ _ _ (w2 +:+ "json" +:+ t)); [done|done|done|done|].
    rewrite <- app_assoc. apply lexes_blank; [done|done|]. cbn [app].
    by apply lexes_ident; [left|..].
  - apply bool_decide_eq_true in Hb. by apply lexes_ident; [right; right|..].
  - apply andb_prop in Hb as [[[[[H1 Hw1]%andb_prop H2]%andb_prop Hw2]%andb_prop Hlo]%andb_prop Hhi].
    apply negb_true_iff, bool_decide_eq_false in H1, H2.
    rewrite !str_app_assoc. cbn [app]. rewrite <- app_assoc. cbn [app]. rewrite <- app_assoc. cbn [app].
    apply lexes_ident; [by right; left|by apply blank_terminator_ne|].
    apply lexes_blank; [done|apply number_trim|].
    apply lexes_number; [done|by apply blank_terminator_ne|].
    apply lexes_blank; [done|apply number_trim|]. by apply lexes_number.
Qed.

Lemma body_not_minus b t : good_body b = true → not_minus (body_text dotted_text b +:+ t) = true.
Proof.
  destruct b as [r|w r|r w1 w2|h|w1 lo w2 hi]; cbn [good_body body_text]; rewrite ?dotted_dots.
  - intros _. apply dots_not_minus, fields_ne.
  - done.
  - intros _. rewrite str_app_assoc. apply dots_not_minus, fields_ne.
  - intros Hh%bool_decide_eq_true. unfold plain_helpers in Hh.
    repeat (apply elem_of_cons in Hh as [->|Hh]; [done|]). by apply elem_of_nil in Hh.
  - done.
Qed.

Definition action_tokens (a : tmpl_action) : list token :=
  spaces (a_before a) ++ body_tokens (a_body a) ++ spaces (a_after a).

(** What closes an action, and whether it trims. *)
Lemma lexes_close a rest :
  good_marker (a_trim_right a) = true →
  lexes (right_marker a +:+ "}}" +:+ rest) [] (rest, bool_decide (is_Some (a_trim_right a))).
Proof.
  unfold right_marker. destruct (a_trim_right a) as [c|]; intros Hc;
    [by apply lexes_trim|apply lexes_end].
Qed.

Lemma close_terminator a rest :
  good_marker (a_trim_right a) = true → at_terminator (right_marker a +:+ "}}" +:+ rest) = true.
Proof.
  unfold right_marker. destruct (a_trim_right a) as [c|]; intros Hc.
  - rewrite str_app_cons. unfold at_terminator. cbn [good_marker] in Hc. by rewrite Hc.
  - change (has_prefix ("}}" +:+ rest) "}}" = true). apply has_prefix_app.
Qed.

Lemma close_not_trim a rest :
  good_marker (a_trim_right a) = true → has_prefix (right_marker a +:+ "}}" +:+ rest) "-}}" = false.
Proof.
  unfold right_marker. destruct (a_trim_right a) as [c|]; [|done]. cbn [good_marker].
  destruct c as [[] [] [] [] [] [] [] []]; intros Hc; by vm_compute in Hc.
Qed.

Lemma lexes_action a rest :
  good_action a = true →
  lexes (marked_text dotted_text a +:+ "}}" +:+ rest) (action_tokens a)
    (rest, bool_decide (is_Some (a_trim_right a))).
Proof.
  intros (_ & Hr & H1 & Hb & H2)%good_action_spec. unfold marked_text, action_tokens.
  rewrite !str_app_assoc. apply lexes_blank; [done|by apply not_minus_trim, body_not_minus|].
  apply lexes_body; [done|by apply blank_terminator, close_terminator|].
  rewrite <- (app_nil_r (spaces _)).
  apply lexes_blank; [done|by apply close_not_trim|by apply lexes_close].
Qed.

(** ** Parsing *)

Definition stages (cur : list operand) (ks : list token) (out : list (list operand)) : Prop :=
  ∀ fuel, length ks < fuel → parse_stages fuel cur ks = Some out.

Lemma stages_end cur : stages cur [] [cur].
Proof. intros [|fuel] Hf; [simpl in Hf; lia|done]. Qed.

Lemma stages_spaces cur w ks out : stages cur ks out → stages cur (spaces w ++ ks) out.
Proof.
  intros Hk. induction w as [|c w IH]; [done|]. intros [|fuel] Hf; [lia|].
  apply IH. simpl in Hf. unfold spaces. lia.
Qed.

Lemma stages_pipe cur ks out : stages [] ks out → stages cur (KPipe :: ks) (cur :: out).
Proof.
  intros Hk [|fuel] Hf; [lia|]. cbn [parse_stages]. rewrite Hk; [done|]. simpl in Hf. lia.
Qed.

Lemma stages_fields cur w l ks out :
  operand_end ks = true → stages (cur ++ [OField (w :: l)]) ks out →
  stages cur (map KField (w :: l) ++ ks) out.
Proof.
  intros He Hk [|fuel] Hf; [lia|].
  assert (take_fields (map KField l ++ ks) = (l, ks)) as Ht.
  { clear -He. induction l as [|x l IH]; [by destruct ks as [|[]]|]. cbn [map app take_fields].
    by rewrite IH. }
  assert (next_operand (map KField (w :: l) ++ ks) = Some (OField (w :: l), ks)) as Hn.
  { unfold next_operand. cbn [map app]. rewrite Ht. cbn [mbind option_bind]. by rewrite He. }
  transitivity ('(o, r) ← next_operand (map KField (w :: l) ++ ks);
    parse_stages fuel (cur ++ [o]) r); [done|].
  rewrite Hn. apply Hk. rewrite length_app in Hf. simpl in Hf. lia.
Qed.

Lemma stages_ident cur f ks out :
  operand_end ks = true → stages (cur ++ [OFunc f]) ks out → stages cur (KIdent f :: ks) out.
Proof.
  intros He Hk [|fuel] Hf; [lia|].
  assert (next_operand (KIdent f :: ks) = Some (OFunc f, ks)) as Hn.
  { unfold next_operand. cbn [mbind option_bind]. by rewrite He. }
  cbn [parse_stages]. rewrite Hn. apply Hk. simpl in Hf. lia.
Qed.

Lemma stages_number cur z ks out :
  operand_end ks = true → stages (cur ++ [ONumber z]) ks out → stages cur (KNumber z :: ks) out.
Proof.
  intros He Hk [|fuel] Hf; [lia|].
  assert (next_operand (KNumber z :: ks) = Some (ONumber z, ks)) as Hn.
  { unfold next_operand. cbn [mbind option_bind]. by rewrite He. }
  cbn [parse_stages]. rewrite Hn. apply Hk. simpl in Hf. lia.
Qed.

Definition body_pipeline (b : body) : pipeline :=
  match b with
  | BRef r => {| p_first := Single (OField (fields r)); p_rest := [] |}
  | BJson _ r =>
    {| p_first := Call {| c_func := "json"; c_args := [OField (fields r)] |}; p_rest := [] |}
  | BPipe r _ _ =>
    {| p_first := Single (OField (fields r)); p_rest := [{| c_func := "json"; c_args := [] |}] |}
  | BFun f => {| p_first := Call {| c_func := f; c_args := [] |}; p_rest := [] |}
  | BRandom _ min _ max =>
    {| p_first := Call {| c_func := "random_int"; c_args := [ONumber min; ONumber max] |};
       p_rest := [] |}
  end.

Lemma spaces_operand_end w ks : operand_end ks = true → operand_end (spaces w ++ ks) = true.
Proof. by destruct w. Qed.

Lemma spaces_operand_ne w ks : negb (bool_decide (w = "")) = true → operand_end (spaces w ++ ks) = true.
Proof. destruct w as [|c w]; [by rewrite bool_decide_true|done]. Qed.

Lemma fields_cons r : ∃ w l, fields r = w :: l.
Proof. destruct r; by eexists _, _. Qed.

Lemma parse_action a :
  good_action a = true → parse_pipeline (action_tokens a) = Some (body_pipeline (a_body a)).
Proof.
  intros (_ & _ & _ & Hb & _)%good_action_spec. unfold parse_pipeline.
  assert (∀ ks out, stages [] ks out → parse_stages (S (length ks)) [] ks = Some out) as Hrun
    by (intros ks out Hk; apply Hk; lia).
  assert (∀ cur w, stages cur (spaces w) [cur]) as Hend.
  { intros cur w. rewrite <- (app_nil_r (spaces w)). apply stages_spaces, stages_end. }
  assert (∀ w, operand_end (spaces w) = true) as Hop by by intros [].
  destruct a as [ml before b after mr]. unfold action_tokens. cbn [a_body a_before a_after] in *.
  destruct b as [r|w r|r w1 w2|h|w1 lo w2 hi]; cbn [body_tokens body_pipeline].
  - destruct (fields_cons r) as (x & l & ->).
    rewrite (Hrun _ [[OField (x :: l)]]); [done|].
    by apply stages_spaces, (stages_fields []).
  - destruct (fields_cons r) as (x & l & ->). cbn [app]. rewrite <- app_assoc.
    rewrite (Hrun _ [[OFunc "json"; OField (x :: l)]]); [done|].
    apply stages_spaces, stages_ident.
    + cbn [good_body] in Hb. destruct w as [|c w]; [by rewrite bool_decide_true in Hb|done].
    + by apply stages_spaces, (stages_fields [OFunc "json"]).
  - destruct (fields_cons r) as (x & l & ->). rewrite <- !app_assoc. cbn [app]. rewrite <- app_assoc.
    rewrite (Hrun _ [[OField (x :: l)]; [OFunc "json"]]); [done|].
    apply stages_spaces, (stages_fields []); [by apply spaces_operand_end|].
    by apply stages_spaces, stages_pipe, stages_spaces, (stages_ident []).
  - cbn [app]. cbn [good_body] in Hb. apply bool_decide_eq_true in Hb.
    rewrite (Hrun _ [[OFunc h]]); [|by apply stages_spaces, (stages_ident [])].
    unfold plain_helpers in Hb.
    repeat (apply elem_of_cons in Hb as [->|Hb]; [done|]). by apply elem_of_nil in Hb.
  - cbn [good_body] in Hb.
    apply andb_prop in Hb as [[[[[H1 _]%andb_prop H2]%andb_prop _]%andb_prop _]%andb_prop _].
    cbn [app]. rewrite <- app_assoc. cbn [app]. rewrite <- app_assoc. cbn [app].
    rewrite (Hrun _ [[OFunc "random_int"; ONumber lo; ONumber hi]]); [done|].
    apply stages_spaces, stages_ident; [by apply spaces_operand_ne|].
    apply stages_spaces, (stages_number [OFunc "random_int"]); [by apply spaces_operand_ne|].
    by apply stages_spaces, (stages_number [OFunc "random_int"; ONumber lo]).
Qed.

(** The texts around actions, without what the trim markers take away: [trim] is
    whether the action before has one on its right. *)
Definition text_after (trim : bool) (text : string) : string :=
  if trim then trim_left text else text.
Definition text_shown (trim : bool) (a : tmpl_action) (text : string) : string :=
  if bool_decide (is_Some (a_trim_left a)) then trim_right (text_after trim text)
  else text_after trim text.

Fixpoint parts_nodes (trim : bool) (l : list (string * tmpl_action)) (tail : string) : list node :=
  match l with
  | [] => [NText (text_after trim tail)]
  | (text, a) :: l' =>
    NText (text_shown trim a text) :: NAction (body_pipeline (a_body a)) ::
    parts_nodes (bool_decide (is_Some (a_trim_right a))) l' tail
  end.

Lemma trim_left_suffix s : ∃ p, s = p +:+ trim_left s.
Proof.
  induction s as [|c s [p IH]]; [by exists ""|]. unfold trim_left. cbn [span].
  destruct (tmpl_space c); [|by exists ""]. exists (String c p). rewrite str_app_cons. f_equal.
  unfold trim_left in IH. by destruct (span tmpl_space s).
Qed.

Lemma trim_left_app s c t :
  tmpl_space c = false → trim_left (s +:+ String c t) = trim_left s +:+ String c t.
Proof.
  intros Hc. unfold trim_left. induction s as [|x s IH].
  - change ("" +:+ String c t) with (String c t). cbn [span]. by rewrite Hc.
  - rewrite str_app_cons. cbn [span]. destruct (tmpl_space x); [|done].
    by destruct (span tmpl_space (s +:+ String c t)), (span tmpl_space s).
Qed.

Lemma text_after_open trim text rest :
  text_after trim (text +:+ "{{" +:+ rest) = text_after trim text +:+ "{{" +:+ rest.
Proof. destruct trim; [|done]. by apply trim_left_app. Qed.

Lemma cut2_suffix a b p s : cut2 a b (p +:+ s) = None → cut2 a b s = None.
Proof.
  induction p as [|x p IH]; [done|]. rewrite str_app_cons. intros Hc. apply IH. revert Hc.
  destruct (p +:+ s) as [|y t]; [done|]. rewrite cut2_cons. case_bool_decide; [done|].
  by intros ?%fmap_None.
Qed.

Lemma good_text_after trim text : good_text text = true → good_text (text_after trim text) = true.
Proof.
  destruct trim; [|done]. unfold good_text. rewrite !negb_true_iff. unfold text_after.
  destruct (trim_left_suffix text) as [p Hp]. rewrite Hp at 1. rewrite str_app_assoc.
  intros Hc%contains_cut2. by apply contains_cut2, (cut2_suffix _ _ p).
Qed.

(** What follows the opening braces: the marker, and the action without it. *)
Lemma left_delim_action text a rest :
  good_action a = true →
  left_delim text (inner_text dotted_text a +:+ rest) =
  (if bool_decide (is_Some (a_trim_left a)) then trim_right text else text,
   marked_text dotted_text a +:+ rest).
Proof.
  intros (Hl & _ & H1 & Hb & _)%good_action_spec. unfold inner_text, left_marker.
  destruct (a_trim_left a) as [c|].
  - rewrite !str_app_cons. cbn [left_delim]. cbn [good_marker] in Hl. by rewrite Hl.
  - change ("" +:+ marked_text dotted_text a) with (marked_text dotted_text a).
    assert (not_minus (marked_text dotted_text a +:+ rest) = true) as Hm.
    { unfold marked_text. rewrite !str_app_assoc. apply blank_not_minus; [done|].
      by apply body_not_minus. }
    destruct (marked_text dotted_text a +:+ rest) as [|c s]; [done|]. simpl in Hm.
    apply negb_true_iff, bool_decide_eq_false in Hm.
    destruct c as [[] [] [] [] [] [] [] []]; done.
Qed.

Lemma parse_parts trim l tail fuel :
  forallb (λ p, good_text p.1 && good_action p.2) l = true → good_text tail = true →
  String.length (parts_text dotted_text l tail) < fuel →
  parse_nodes fuel (text_after trim (parts_text dotted_text l tail)) = Some (parts_nodes trim l tail).
Proof.
  intros Hl Ht. revert trim fuel.
  induction l as [|[text a] l IH]; intros trim [|fuel] Hf; try lia;
    cbn [parts_text parts_nodes parse_nodes] in *.
  - by rewrite (cut2_prefix _ _ _ "{") by by apply good_text_cut, good_text_after.
  - cbn [forallb fst snd] in Hl. apply andb_prop in Hl as [[Htext Ha]%andb_prop Hl].
    rewrite text_after_open, action_open_cut by by apply good_text_after.
    rewrite left_delim_action by done.
    rewrite lexes_action; [|done|lia]. cbn [mbind option_bind fst snd].
    rewrite parse_action by done. cbn [mbind option_bind].
    unfold text_after in IH. rewrite IH; [done|done|].
    rewrite !length_str_app in Hf. simpl in Hf. lia.
Qed.

(** ** What a template means *)

Section meaning.
Context `{Unicode, GoFmt, Json, TemplateTypes} (read : reference → result string (option value)).

(** The value of an action: what a reference reads, its JSON text, or what a helper
    function gives. *)
Definition body_value (b : body) : stateR sources string (option value) :=
  match b with
  | BRef r => liftR (read r)
  | BJson _ r | BPipe r _ _ => v ← liftR (read r); call_helper "json" [v]
  | BFun f => call_helper f []
  | BRandom _ min _ max => call_helper "random_int" [Some (VInt KInt min); Some (VInt KInt max)]
  end.

(** The texts, trimmed where a marker says so, with what the actions print between
    them. *)
Fixpoint render_parts (trim : bool) (l : list (string * tmpl_action)) (tail : string)
    : stateR sources string string :=
  match l with
  | [] => mret (text_after trim tail)
  | (text, a) :: l' =>
    v ← body_value (a_body a);
    out ← render_parts (bool_decide (is_Some (a_trim_right a))) l' tail;
    mret (text_shown trim a text +:+ print_value v +:+ out)
  end.

Definition render_friendly (t : friendly) : stateR sources string string :=
  render_parts false (f_parts t) (f_tail t).

Context (data : value).
Hypothesis reads : ∀ r, eval_path (Some data) (fields r) = read r.

Lemma bind_ok {S E A B} (m : stateR S E A) (f : A → stateR S E B) s a s' :
  m s = (Ok a, s') → (m ≫= f) s = f a s'.
Proof. intros Hm. unfold mbind, stateR_bind. by rewrite Hm. Qed.

Lemma eval_body b st :
  good_body b = true → eval_pipeline data (body_pipeline b) st = body_value b st.
Proof.
  intros Hb. destruct b as [r|w r|r w1 w2|h|w1 lo w2 hi]; cbn [body_pipeline body_value];
    unfold eval_pipeline, mbind, stateR_bind, liftR; cbn [p_first p_rest eval_rest eval_operand].
  - unfold liftR. rewrite reads. by destruct (read r).
  - unfold eval_call. cbn [c_args c_func length]. rewrite bool_decide_true by done.
    cbn [elements_loop eval_operand]. unfold mbind, stateR_bind, mret, stateR_ret, liftR.
    rewrite reads. destruct (read r) as [v|e]; [|done]. cbn [app].
    by destruct (call_helper "json" [v] st) as [[x|e] st'].
  - unfold liftR. rewrite reads. destruct (read r) as [v|e]; [|done].
    unfold eval_call. cbn [c_args c_func length]. rewrite bool_decide_true by done.
    cbn [elements_loop]. unfold mbind, stateR_bind, mret, stateR_ret. cbn [app].
    by destruct (call_helper "json" [v] st) as [[x|e] st'].
  - unfold eval_call. cbn [c_args c_func length].
    assert (arity h = 0) as Ha.
    { cbn [good_body] in Hb. apply bool_decide_eq_true in Hb. unfold plain_helpers in Hb.
      repeat (apply elem_of_cons in Hb as [->|Hb]; [done|]). by apply elem_of_nil in Hb. }
    rewrite Ha, bool_decide_true by done. cbn [elements_loop].
    unfold mbind, stateR_bind, mret, stateR_ret. cbn [app].
    by destruct (call_helper h [] st) as [[x|e] st'].
  - unfold eval_call. cbn [c_args c_func length]. change (arity "random_int") with 2.
    rewrite bool_decide_true by done. cbn [elements_loop eval_operand].
    unfold mbind, stateR_bind, mret, stateR_ret. cbn [app].
    by destruct (call_helper "random_int" _ st) as [[x|e] st'].
Qed.

Lemma exec_parts trim l tail st :
  forallb (λ p, good_text p.1 && good_action p.2) l = true →
  exec_nodes data (parts_nodes trim l tail) st = render_parts trim l tail st.
Proof.
  revert trim st. induction l as [|[text a] l IH]; intros trim st Hl;
    cbn [parts_nodes exec_nodes render_parts].
  - unfold mbind, stateR_bind, mret, stateR_ret. by rewrite str_app_nil.
  - cbn [forallb fst snd] in Hl.
    apply andb_prop in Hl as [[_ (_ & _ & _ & Hb & _)%good_action_spec]%andb_prop Hl].
    unfold mbind, stateR_bind, mret, stateR_ret. rewrite eval_body by done.
    destruct (body_value (a_body a) st) as [[v|e] st1]; [|done]. rewrite IH by done.
    destruct (render_parts _ l tail st1) as [[out|e] st2]; [|done]. done.
Qed.
End meaning.

(** ** What a reference reads

    In the triggering message: its decoded body, an empty object when there is none;
    a header; the time the context was built.  A missing name reads nothing. *)
Section reading.
Context `{Unicode, GoFmt, Json, TemplateTypes} (now : string) (msg : Message).

Definition read_reference (r : reference) : result string (option value) :=
  match r with
  | RQueue => Ok (Some (VString (m_Queue msg)))
  | RRoutingKey => Ok (Some (VString (m_RoutingKey msg)))
  | RTrigger name path => eval_path (Some (trigger_of msg)) (name :: path)
  | RHeader name path => eval_path (m_Headers msg !! name) path
  | RSystem name => Ok (if bool_decide (name = "utc_now") then Some (VString now) else None)
  end.

Lemma assoc_headers (m : gmap string value) name : assoc name (map_to_list m) = m !! name.
Proof.
  pose proof (NoDup_fst_map_to_list m) as Hnd.
  destruct (assoc name (map_to_list m)) as [v|] eqn:Ha.
  - symmetry. apply elem_of_map_to_list. by apply assoc_elem.
  - symmetry. apply eq_None_not_Some. intros [v Hv%elem_of_map_to_list].
    revert Ha Hv. clear Hnd. induction (map_to_list m) as [|[k x] l IH]; [by intros _ ?%elem_of_nil|].
    cbn [assoc]. case_bool_decide; [done|]. intros Ha [[= -> ->]|Hv]%elem_of_cons; [done|by apply IH].
Qed.

Lemma context_reads r :
  eval_path (Some (buildTemplateContext now msg)) (fields r) = read_reference r.
Proof.
  unfold buildTemplateContext. destruct r as [| |name path|name path|name]; [done|done|..].
  - done.
  - cbn -[assoc map_to_list]. by rewrite <- assoc_headers.
  - cbn. by case_bool_decide as Hn; case_bool_decide.
Qed.
End reading.

Section engine.
Context `{Unicode, GoFmt, Json, TemplateTypes} (other : TextTemplate).
#[local] Instance engine : TextTemplate := go_template other.

Lemma friendly_parses t :
  good_friendly t = true →
  tmpl_Parse (preprocessTemplate (friendly_text t)) =
    Ok (inl (preprocessTemplate (friendly_text t), parts_nodes false (f_parts t) (f_tail t))).
Proof.
  intros [Hl Ht]%andb_prop. unfold friendly_text. rewrite preprocess_parts by done.
  cbn [engine go_template tmpl_Parse]. unfold parse_template.
  pose proof (parse_parts false _ _ (S (String.length (parts_text dotted_text (f_parts t) (f_tail t))))
    Hl Ht ltac:(lia)) as Hp.
  cbn [text_after] in Hp. by rewrite Hp.
Qed.

(** Executed on the context of a message. *)
Lemma friendly_executes t now msg so rest :
  good_friendly t = true →
  executeTemplate (friendly_text t) (buildTemplateContext now msg) (so, rest) =
  let '(r, so') := render_friendly (read_reference now msg) t so in
  (wrap_err ("failed to execute payload template " +:+ quote (friendly_text t) +:+ ": ")
     match r with
     | Ok out => Ok out
     | Err e => Err (locate (preprocessTemplate (friendly_text t)) e)
     end, (so', rest)).
Proof.
  intros Hg. unfold executeTemplate, parseTemplate. rewrite friendly_parses by done.
  apply andb_prop in Hg as [Hl _]. cbn [wrap_err engine go_template tmpl_Execute fst snd].
  rewrite (exec_parts (read_reference now msg)) by (done || apply context_reads).
  unfold render_friendly.
  by destruct (render_parts _ false (f_parts t) (f_tail t) so) as [[out|e] so'].
Qed.
End engine.

(** ** The json helper on a part of the message *)

Definition not_newline (c : ascii) : bool := bool_decide (c ≠ ascii_of_N 10).

(** The reference of an action that is one call of the json helper; with a newline
    before the bar the leaf is not taken for one. *)
Definition json_reference (a : tmpl_action) : option reference :=
  match a_body a with
  | BJson _ r => Some r
  | BPipe r w1 _ => if all_bytes not_newline w1 then Some r else None
  | _ => None
  end.

(** A leaf that is nothing but an action. *)
Definition leaf_text (a : tmpl_action) : string := friendly_text {| f_parts := [("", a)]; f_tail := "" |}.

Lemma bytes_of_app s t : bytes_of (s +:+ t) = bytes_of s ++ bytes_of t.
Proof. induction s as [|c s IH]; [done|]. rewrite str_app_cons. unfold bytes_of in *. simpl. by rewrite IH. Qed.

Lemma all_bytes_Forall p s : all_bytes p s = true → Forall (λ c, p c = true) (bytes_of s).
Proof. induction s as [|c s IH]; [constructor|]. cbn. intros [Hc Hs]%andb_prop. constructor; [done|by apply IH]. Qed.

Lemma count2_absent a b s :
  all_bytes (λ c, negb (bool_decide (c = a))) s = true → count2 a b s = 0.
Proof.
  induction s as [|x s IH]; [done|]. cbn [all_bytes]. intros [Hx Hs]%andb_prop.
  apply negb_true_iff, bool_decide_eq_false in Hx.
  destruct s as [|y s]; [done|]. cbn [count2]. rewrite bool_decide_false by naive_solver. by apply IH.
Qed.

Lemma reference_no_newline r : good_reference r = true → all_bytes not_newline (reference_text r) = true.
Proof.
  intros Hr. assert (all_bytes (λ c, is_word c || bool_decide (c = "."%char)) (reference_text r) = true) as Hw.
  { apply join_all; [done|by intros c ->|done]. }
  revert Hw. apply all_bytes_mono. intros c. destruct c as [[] [] [] [] [] [] [] []]; by vm_compute.
Qed.

Lemma blank_ws w :
  blank w = true →
  Forall (λ c, bool_decide (c ∈ [ascii_of_N 9; ascii_of_N 10; ascii_of_N 12; ascii_of_N 13; " "%char]) = true)
    (bytes_of w).
Proof.
  intros Hw. apply (all_bytes_Forall (λ c, bool_decide (c ∈ _))). revert Hw. apply all_bytes_mono.
  intros c. destruct c as [[] [] [] [] [] [] [] []]; by vm_compute.
Qed.

Lemma reference_ne r : bytes_of (reference_text r) ≠ [].
Proof. by destruct r. Qed.

Lemma typed_body a r :
  good_body (a_body a) = true → json_reference a = Some r →
  lang (Alt (cats [lit (bytes_of "json"); plus re_ws; plus re_dot])
            (cats [plus re_dot; lit (bytes_of "|"); Star re_ws; lit (bytes_of "json")]))
    (bytes_of (body_text reference_text (a_body a))).
Proof.
  unfold json_reference. destruct (a_body a) as [r'|w r'|r' w1 w2|f|w1 lo w2 hi]; cbn [good_body body_text]; try done.
  - intros [[Hne Hw]%andb_prop Hr]%andb_prop [= ->]. apply lang_alt_l.
    rewrite !bytes_of_app, <- (app_nil_r (bytes_of (reference_text r))).
    repeat apply lang_cats; [apply lang_lit| | |apply lang_cats_nil].
    + apply lang_chars_plus; [by destruct w|by apply blank_ws].
    + apply lang_chars_plus; [apply reference_ne|].
      by apply (all_bytes_Forall not_newline), reference_no_newline.
  - intros [[Hw1 Hw2]%andb_prop Hr]%andb_prop. destruct (all_bytes not_newline w1) eqn:Hn; [|done].
    intros [= ->]. apply lang_alt_r.
    assert (bytes_of (reference_text r +:+ w1 +:+ String "|" (w2 +:+ "json")) =
      bytes_of (reference_text r +:+ w1) ++ bytes_of "|" ++ bytes_of w2 ++ bytes_of "json" ++ []) as ->.
    { rewrite !bytes_of_app, <- app_assoc. do 2 f_equal. exact (f_equal (cons _) (bytes_of_app w2 "json")). }
    repeat apply lang_cats; [|apply lang_lit|by apply lang_chars, blank_ws|apply lang_lit|apply lang_cats_nil].
    apply lang_chars_plus.
    + rewrite bytes_of_app. intros [Hnil _]%app_nil. by destruct (reference_ne r).
    + apply (all_bytes_Forall not_newline). by rewrite all_bytes_app, reference_no_newline.
Qed.

Lemma contains_app pre s : contains (pre +:+ s) pre = true.
Proof. pose proof (has_prefix_app pre s) as Hp. by destruct (pre +:+ s); cbn [contains]; rewrite Hp. Qed.

(** The blank next to a marker. *)
Definition marker_blank (m : option ascii) : string :=
  match m with Some c => String c "" | None => "" end.
Definition marker_minus (m : option ascii) : string :=
  match m with Some _ => "-" | None => "" end.

Lemma blank_marker m : good_marker m = true → blank (marker_blank m) = true.
Proof. destruct m as [c|]; [|done]. cbn. intros Hc. by rewrite Hc. Qed.

Lemma lang_marker (m : option ascii) :
  lang (opt (lit (bytes_of "-"))) (bytes_of (marker_minus m)).
Proof. destruct m; [apply lang_alt_l, lang_lit|apply lang_opt_none]. Qed.

Lemma typed_leaf a r :
  good_action a = true → json_reference a = Some r → json_leaf (leaf_text a) = true.
Proof.
  intros Ha Hr. pose proof (action_inner _ reference_inner a Ha) as Hi.
  unfold leaf_text, friendly_text. cbn [f_parts f_tail parts_text].
  unfold json_leaf. apply andb_true_iff. split.
  - apply bool_decide_eq_true. change (S (count2 "{" "{" (inner_text reference_text a +:+ "}}" +:+ "")) = 1).
    f_equal. apply count2_absent. rewrite all_bytes_app.
    apply andb_true_iff. split; [|done]. revert Hi. apply all_bytes_mono.
    intros c. destruct c as [[] [] [] [] [] [] [] []]; by vm_compute.
  - unfold typedJSON. apply re_match_spec. apply good_action_spec in Ha as (Hl & Hm & H1 & Hb & H2).
    assert (bytes_of ("" +:+ "{{" +:+ inner_text reference_text a +:+ "}}" +:+ "") =
      [] ++ bytes_of "{{" ++ bytes_of (marker_minus (a_trim_left a)) ++
      bytes_of (marker_blank (a_trim_left a) +:+ a_before a) ++
      bytes_of (body_text reference_text (a_body a)) ++
      bytes_of (a_after a +:+ marker_blank (a_trim_right a)) ++
      bytes_of (marker_minus (a_trim_right a)) ++
      bytes_of "}}" ++ [] ++ []) as ->.
    { unfold inner_text, marked_text, left_marker, right_marker, marker_blank, marker_minus.
      destruct (a_trim_left a), (a_trim_right a); rewrite !bytes_of_app, <- !app_assoc; done. }
    repeat apply lang_cats; try apply lang_lit; try apply lang_cats_nil;
      try (apply lang_chars, blank_ws; unfold blank; rewrite all_bytes_app;
           apply andb_true_iff; split; [|]; by try apply blank_marker).
    + constructor.
    + apply lang_marker.
    + by apply (typed_body a r).
    + apply lang_marker.
    + constructor.
Qed.

(** ** What the reader of the response gets *)

Section reader.
Context `{GoFmt, JsonTypes, TemplateTypes}.
#[local] Existing Instance go_json.

(** A part of a decoded value, or nil where it has none. *)
Definition part_of (n : nat) (w : option value) : Prop :=
  json_value (default VNil w) = true ∧ value_depth (default VNil w) ≤ n.

Lemma eval_field_part n v name w : part_of n v → eval_field v name = Ok w → part_of n w.
Proof.
  intros [Hv Hn]. destruct v as [v|]; [|by intros [= <-]].
  destruct v as [|b|k z|f|s|s|l|[] m|m|s|ty repr]; try done. cbn [eval_field]. intros [= <-].
  destruct (assoc name m) as [x|] eqn:Hx; [|split; [done|simpl; lia]]. apply assoc_elem in Hx.
  cbn [default] in *. apply json_value_map in Hv as [_ Hm]. rewrite Forall_forall in Hm.
  split; [apply (Hm (name, x) Hx)|]. cbn [value_depth] in Hn.
  pose proof (max_list_le (λ kv : string * value, value_depth kv.2) m (name, x) Hx). simpl in *. lia.
Qed.

Lemma eval_path_part n v path w : part_of n v → eval_path v path = Ok w → part_of n w.
Proof.
  revert v. induction path as [|name path IH]; intros v Hv; cbn [eval_path]; [by intros [= <-]|].
  unfold mbind, result_bind. destruct (eval_field v name) as [x|e] eqn:Hx; [|done].
  apply IH. by apply (eval_field_part n v name).
Qed.

Lemma trigger_part msg : part_of max_depth (Some (trigger_of msg)).
Proof.
  pose proof max_depth_pos. unfold trigger_of, part_of.
  case_bool_decide; [split; [done|cbn; lia]|]. cbn [json_Unmarshal go_json]. cbv zeta.
  pose proof (Unmarshal_json_value (m_Body msg)). pose proof (Unmarshal_depth (m_Body msg)).
  pose proof (text_depth_le (m_Body msg)).
  destruct (is_nil _); [split; [done|cbn; lia]|]. unfold default, id. simpl. split; [done|lia].
Qed.
Lemma json_helper env v t : Marshal v = Ok t → TemplateFuncs env "json" [v] = Ok (VString t).
Proof. intros Hm. unfold TemplateFuncs. simpl. by rewrite Hm. Qed.

(** A json action on a reference with that value prints its encoding. *)
Lemma json_prints a r now msg v t so :
  json_reference a = Some r → read_reference now msg r = Ok v → Marshal (default VNil v) = Ok t →
  body_value (read_reference now msg) (a_body a) so =
    (Ok (Some (VString t)), {| so_env := so_env so; so_calls := S (so_calls so) |}).
Proof.
  intros Hr Hv Hm. assert ((v ← liftR (read_reference now msg r); call_helper "json" [v]) so =
    (Ok (Some (VString t)), {| so_env := so_env so; so_calls := S (so_calls so) |})) as Hcall.
  { unfold mbind, stateR_bind, liftR. rewrite Hv. unfold call_helper. cbn [length map].
    change (arity "json") with 1. rewrite bool_decide_true by done. by rewrite (json_helper _ _ t). }
  unfold json_reference in Hr. destruct (a_body a) as [r'|w r'|r' w1 w2|f|w1 lo w2 hi]; try done.
  - by injection Hr as ->.
  - destruct (all_bytes not_newline w1); [|done]. by injection Hr as ->.
Qed.
End reader.

(** ** Properties *)

(** C16: A template of the friendly syntax means what its text says: as the payload of a
    rule, rewritten, parsed and executed on a message, it gives its texts, without
    the blanks that trim markers take away, with the values of the actions between
    them, each reference reading what it names of the message; or an error at the
    first reference or call that fails.  It always parses. *)
Theorem friendly_renders `{Unicode, GoFmt, Json, TemplateTypes} other (t : friendly) now msg so rest :
  good_friendly t = true →
  let _ := go_template other in
  RenderPayload (VString (friendly_text t)) now msg (so, rest) =
  let '(r, so') := render_friendly (read_reference now msg) t so in
  (wrap_err ("failed to execute payload template " +:+ quote (friendly_text t) +:+ ": ")
     match r with
     | Ok out => Ok out
     | Err e => Err (locate (preprocessTemplate (friendly_text t)) e)
     end, (so', rest)).
Proof. intros Ht T. by apply friendly_executes. Qed.

#[local] Existing Instance go_json.

(** C33: The json helper on a part of the message hands it on as it is: a leaf that is one
    call of it on a reference to the message's body, written as a call or after a
    bar, with trim markers or without, is rendered as raw JSON, and the reader of the response finds there the
    part itself, up to the order in which its objects list their fields: a number is
    the same number, not its digits, a missing part is null. *)
Theorem json_reference_kept `{Unicode, GoFmt, JsonTypes, TemplateTypes} other a name path now msg w so rest :
  let _ := go_template other in
  good_action a = true → json_reference a = Some (RTrigger name path) →
  eval_path (Some (trigger_of msg)) (name :: path) = Ok w →
  ∃ d text st', render_leaf (buildTemplateContext now msg) (leaf_text a) false (so, rest) = (Ok d, st') ∧
    Marshal d = Ok text ∧ Valid text = true ∧ reordered (default VNil w) (Unmarshal text).1.
Proof.
  intros T Ha Hr Hw. destruct (eval_path_part _ _ _ _ (trigger_part msg) Hw) as [Hv Hd].
  destruct (json_value_encodes (default VNil w) Hv) as [j Hj].
  set (t := print_json j). assert (Marshal (default VNil w) = Ok t) as Hm by (unfold Marshal; by rewrite Hj).
  set (so' := {| so_env := so_env so; so_calls := S (so_calls so) |}).
  assert (executeTemplate (leaf_text a) (buildTemplateContext now msg) (so, rest) = (Ok t, (so', rest)))
    as Hrun.
  { unfold leaf_text. etrans; [apply (friendly_executes other)|].
    { unfold good_friendly. cbn [forallb f_parts f_tail fst snd]. by rewrite Ha. }
    unfold render_friendly. cbn [f_parts f_tail render_parts].
    unfold mbind, stateR_bind, mret, stateR_ret. rewrite (json_prints a _ _ _ w t so Hr Hw Hm).
    cbn [print_value sprint]. unfold text_shown, text_after.
    assert (trim_left "" = "" ∧ trim_right "" = "") as [Htl Htr] by done.
    rewrite Htl, Htr. by destruct (bool_decide _), (bool_decide _); rewrite ?str_app_nil. }
  destruct (@json_leaf_roundtrip _ _ _ T (so_env so (so_calls so)) (default VNil w) (leaf_text a)
    (buildTemplateContext now msg) (so, rest) t (so', rest)) as (d & text & Hl & Htext & Hval & Hu);
    [exact (contains_app "{{" _)|by apply (typed_leaf a _ Ha Hr)|done|by apply json_helper|by apply json_value_doubles|done|].
  exists d, text, (so', rest). split_and!; [done..|]. rewrite Hu. by apply json_value_seen.
Qed.

(** ** Witnesses *)

#[local] Existing Instances example_unicode plain_fmt no_types plain_types.

Definition order_message : Message :=
  {| m_Queue := "orders"; m_RoutingKey := "new"; m_Headers := {["tenant" := VString "acme"]};
     m_Body := "{" +:+ quoted "id" +:+ ":7," +:+ quoted "total" +:+ ":{" +:+ quoted "sum" +:+ ":9.50," +:+
               quoted "cur" +:+ ":" +:+ quoted "EUR" +:+ "}}";
     m_Direction := ""; m_Exchange := ""; m_Rule := ""; m_MessageID := "" |}.

Definition plain_action (b : body) : tmpl_action :=
  {| a_trim_left := None; a_before := " "; a_body := b; a_after := " "; a_trim_right := None |}.
Definition trimmed_action (b : body) : tmpl_action :=
  {| a_trim_left := Some " "%char; a_before := ""; a_body := b; a_after := "";
     a_trim_right := Some " "%char |}.

(** [#{{ trigger.id }} of {{ headers.tenant }} from {{- queue -}} : {{ trigger.total | json }} ({{ uuid }} {{ random_int 1 6 }})] *)
Definition greeting : friendly :=
  {| f_parts := [("#", plain_action (BRef (RTrigger "id" [])));
                 (" of ", plain_action (BRef (RHeader "tenant" [])));
                 (" from ", trimmed_action (BRef RQueue));
                 (" : ", plain_action (BPipe (RTrigger "total" []) " " " "));
                 (" (", plain_action (BFun "uuid"));
                 (" ", plain_action (BRandom " " 1 " " 6))];
     f_tail := ")" |}.

Definition example_sources : sources := {| so_env _ := example_env; so_calls := 0 |}.

Lemma friendly_renders_witness :
  friendly_text greeting = "#{{ trigger.id }} of {{ headers.tenant }} from {{- queue -}} : " +:+
                           "{{ trigger.total | json }} ({{ uuid }} {{ random_int 1 6 }})" ∧
  (@RenderPayload example_unicode plain_fmt go_json (go_template no_template)
     (VString (friendly_text greeting)) "now" order_message (example_sources, tt)).1 =
  Ok ("#7 of acme fromorders: {" +:+ quoted "cur" +:+ ":" +:+ quoted "EUR" +:+ "," +:+
      quoted "sum" +:+ ":9.5} (0 6)").
Proof. split; [by vm_compute|]. rewrite (friendly_renders no_template greeting); by vm_compute. Defined.

Lemma json_reference_kept_witness :
  ∃ d text st',
    @render_leaf example_unicode go_json (go_template no_template) (buildTemplateContext "now" order_message)
      "{{ trigger.total | json }}" false (example_sources, tt) = (Ok d, st') ∧
    Marshal d = Ok text ∧ Valid text = true ∧
    reordered (VMap false [("sum", VFloat64 (dbl 95 (-1))); ("cur", VString "EUR")]) (Unmarshal text).1.
Proof.
  apply (json_reference_kept no_template (plain_action (BPipe (RTrigger "total" []) " " " ")) "total" []
    "now" order_message (Some (VMap false [("sum", VFloat64 (dbl 95 (-1))); ("cur", VString "EUR")]))
    example_sources tt); by vm_compute.
Defined.
