(* ===== verification/MapOrder.v ===== *)
(** * The order of map iteration

    Go visits the entries of a map in an order of its own, another one each time.
    A payload is a list of entries here, in the order of the visit; the response
    does not depend on it, as long as no two keys of a map become one and the
    templates give what they give whatever was called before. *)
From S2P Require Import Prelude GoStrings GoValue Libs Utf8 Decimal JsonText JsonCodec Clock Config Broker Template Render GoTemplate Friendly.

(** Both fail, or both succeed with related results. *)
Definition alike {E A} (R : A → A → Prop) (r r' : result E A) : Prop :=
  match r, r' with Ok x, Ok y => R x y | Err _, Err _ => True | _, _ => False end.

Lemma alike_fmap {E A B} (R : A → A → Prop) (Q : B → B → Prop) (f : A → B) (r r' : result E A) :
  alike R r r' → (∀ x y, r = Ok x → R x y → Q (f x) (f y)) → alike Q (f <$> r) (f <$> r').
Proof. intros Hr HQ. destruct r, r'; simpl in *; auto. Qed.

(** ** Sequences of results *)

Lemma seqR_alike {E A} (R : A → A → Prop) (l l' : list (result E A)) :
  Forall2 (alike R) l l' → alike (Forall2 R) (seqR l) (seqR l').
Proof.
  induction 1 as [|x y l l' Hxy _ IH]; [constructor|]. cbn [seqR]. unfold mbind, result_bind.
  destruct x, y; try done. destruct (seqR l), (seqR l'); try done. by constructor.
Qed.

Lemma seqR_perm {E A} (l l' : list (result E A)) :
  l ≡ₚ l' → alike (≡ₚ) (seqR l) (seqR l').
Proof.
  induction 1 as [|x l l' _ IH|x y l|l1 l2 l3 _ IH1 _ IH2]; cbn [seqR]; unfold mbind, result_bind.
  - constructor.
  - destruct x; [|done]. destruct (seqR l), (seqR l'); try done. by constructor.
  - destruct x, y; try done. destruct (seqR l); [|done]. simpl. apply perm_swap.
  - destruct (seqR l1), (seqR l2), (seqR l3); try done. simpl in *. by etrans.
Qed.

(** ** Encoding *)

Lemma sort_keyed_unique {A} (l k : list (string * A)) :
  NoDup l.*1 → l ≡ₚ k → sort_keyed l = sort_keyed k.
Proof.
  intros Hnd Hp. assert (∀ l : list (string * A), StronglySorted key_le (sort_keyed l)) as Hs.
  { intros l'. apply Sorted_StronglySorted; [intros x y z; unfold key_le; by etrans|].
    apply Sorted_merge_sort. intros x y. unfold key_le. apply total, _. }
  apply (StronglySorted_unique_strong key_le); [|apply Hs..|by rewrite !sort_keyed_perm].
  intros x y Hx Hy Hxy Hyx. rewrite sort_keyed_perm in Hx. rewrite sort_keyed_perm, <- Hp in Hy.
  apply list_elem_of_lookup in Hx as [i Hi]. apply list_elem_of_lookup in Hy as [j Hj].
  assert (i = j) as ->; [|congruence].
  apply (NoDup_lookup l.*1 i j x.1 Hnd); rewrite list_lookup_fmap; [by rewrite Hi|rewrite Hj].
  simpl. f_equal. by apply (anti_symm String.le).
Qed.

Lemma encode_reordered `{JsonTypes} v v' : reordered v v' → encode v = encode v'.
Proof.
  revert v'. induction v as [|b|k z|f|s|s|l IH|n m IH|m IH|s|ty repr] using value_ind_nested;
    intros v' Hv; inversion Hv as [|? l' HF|? ? q m' Hnd Hp HF|]; subst; try done.
  - cbn [encode]. f_equal. f_equal. apply (Forall2_map_eq _ _ (λ x y, encode x = encode y)); [done|].
    eapply Forall2_impl_in, HF. rewrite Forall_forall in IH. intros x y Hx. by apply IH.
  - cbn [encode]. f_equal. f_equal. f_equal.
    assert (map (λ kv, (kv.1, encode kv.2)) q = map (λ kv, (kv.1, encode kv.2)) m') as <-.
    { apply (Forall2_map_eq _ _ (λ x y, (x.1, encode x.2) = (y.1, encode y.2))); [done|].
      eapply Forall2_impl_in, HF. rewrite Forall_forall in IH.
      intros x y Hx [-> Hxy]. rewrite <- Hp in Hx. f_equal. by apply (IH x). }
    apply sort_keyed_unique; [|by apply Permutation_map].
    rewrite <- list_fmap_compose. exact Hnd.
Qed.

(** ** A traversal whose leaves keep no state *)

(** The first computation gives, whatever its state, what the second one gives. *)
Definition sim {S A} (m : stateR S string A) (m' : stateR unit string A) : Prop :=
  ∀ st, (m st).1 = (m' tt).1.

Lemma sim_ret {S A} (x : A) : sim (mret x : stateR S string A) (mret x).
Proof. by intros st. Qed.

Lemma sim_bind {S A B} (m : stateR S string A) m' (f : A → stateR S string B) f' :
  sim m m' → (∀ x, sim (f x) (f' x)) → sim (m ≫= f) (m' ≫= f').
Proof.
  intros Hm Hf st. specialize (Hm st). unfold mbind, stateR_bind.
  destruct (m st) as [[x|e] st1], (m' tt) as [[x'|e'] []]; simpl in *; [|congruence..].
  injection Hm as <-. apply Hf.
Qed.

Lemma sim_elements {S A B} (elem : A → stateR S string B) elem' l :
  (∀ x, x ∈ l → sim (elem x) (elem' x)) → sim (elements_loop elem l) (elements_loop elem' l).
Proof.
  intros Hl. induction l as [|x l IH]; [apply sim_ret|]. apply sim_bind; [by apply Hl; left|].
  intros y. apply sim_bind; [apply IH; intros z Hz; apply Hl; by right|]. intros ys. apply sim_ret.
Qed.

Lemma sim_entries {S A} (entry : A → stateR S string (string * value)) entry' m out :
  (∀ x, x ∈ m → sim (entry x) (entry' x)) → sim (entries_loop entry m out) (entries_loop entry' m out).
Proof.
  intros Hm. revert out. induction m as [|x m IH]; intros out; [apply sim_ret|].
  apply sim_bind; [by apply Hm; left|]. intros e. apply IH. intros z Hz. apply Hm. by right.
Qed.

Lemma payload_entry_strings `{GoFmt} {K} (key : K → string) (m : list (K * value)) x s :
  x ∈ m → s ∈ key x.1 :: payload_strings x.2 →
  s ∈ mjoin ((λ kv, key kv.1 :: payload_strings kv.2) <$> m).
Proof.
  intros Hx Hs. apply list_elem_of_join. exists (key x.1 :: payload_strings x.2). split; [done|].
  by apply (list_elem_of_fmap_2 (λ kv : K * value, key kv.1 :: payload_strings kv.2)).
Qed.

Section sim.
Context {S : Type} `{GoFmt} (fn : leafFunc S) (fn' : leafFunc unit).

Lemma sim_entry rec rec' key :
  sim (fn key true) (fn' key true) → sim rec rec' →
  sim (transformEntry_with fn rec key) (transformEntry_with fn' rec' key).
Proof.
  intros Hk Hr. apply sim_bind; [done|]. intros nk. apply sim_bind; [done|]. intros nv. apply sim_ret.
Qed.

Lemma sim_payload p :
  (∀ s b, s ∈ payload_strings p → sim (fn s b) (fn' s b)) →
  sim (transformPayload fn p) (transformPayload fn' p).
Proof.
  induction p as [|b|k z|f|s|s|l IH|[] m IH|m IH|s|ty repr] using value_ind_nested; intros Hp;
    try apply sim_ret; try (by apply Hp; left); rewrite Forall_forall in IH;
    apply sim_bind; try (intros; apply sim_ret).
  - apply sim_elements. intros x Hx. apply IH; [done|]. intros s b Hs. apply Hp. simpl.
    apply list_elem_of_join. exists (payload_strings x). split; [done|]. by apply list_elem_of_fmap_2.
  - apply sim_entries. intros x Hx. pose proof (λ s, payload_entry_strings id m x s Hx) as Hin.
    apply sim_entry; [apply Hp, Hin; by left|]. apply IH; [done|].
    intros s b Hs. apply Hp, Hin. by right.
  - apply sim_entries. intros x Hx. pose proof (λ s, payload_entry_strings sprint m x s Hx) as Hin.
    apply sim_entry; [apply Hp, Hin; by left|]. apply IH; [done|].
    intros s b Hs. apply Hp, Hin. by right.
Qed.
End sim.

Section pure.
Context `{GoFmt} (fn : leafFunc unit).

Definition pure (p : value) : result string value := (transformPayload fn p tt).1.

(** What a key becomes. *)
Definition key_text (s : string) : option string :=
  match (fn s true tt).1 with Ok v => Some (as_key v) | Err _ => None end.

(** In no map two keys become one. *)
Fixpoint keys_apart (p : value) : bool :=
  match p with
  | VSlice l => forallb keys_apart l
  | VMap false m => bool_decide (NoDup (omap key_text (map fst m))) && forallb (λ kv, keys_apart kv.2) m
  | VIMap m =>
    bool_decide (NoDup (omap key_text (map (λ kv, sprint kv.1) m))) &&
    forallb (λ kv, keys_apart kv.2) m
  | _ => true
  end.

(** An entry, and the map made of entries. *)
Definition pure_entry (key : string) (r : result string value) : result string (string * value) :=
  nk ← (fn key true tt).1; nv ← r; Ok (as_key nk, nv).
Definition collect (es : list (string * value)) : list (string * value) :=
  foldl (λ acc e, assoc_set e.1 e.2 acc) [] es.

Lemma elements_pure {A B} (elem : A → stateR unit string B) l :
  (elements_loop elem l tt).1 = seqR (map (λ x, (elem x tt).1) l).
Proof.
  induction l as [|x l IH]; [done|]. cbn [elements_loop map seqR].
  unfold mbind, stateR_bind, result_bind. destruct (elem x tt) as [[y|e] []]; [|done]. cbn [fst].
  rewrite <- IH. by destruct (elements_loop elem l tt) as [[ys|e] []].
Qed.

Lemma entries_pure {A} (entry : A → stateR unit string (string * value)) m out :
  (entries_loop entry m out tt).1 =
  (λ es, foldl (λ acc e, assoc_set e.1 e.2 acc) out es) <$> seqR (map (λ x, (entry x tt).1) m).
Proof.
  revert out. induction m as [|x m IH]; intros out; [done|]. cbn [entries_loop map seqR].
  unfold mbind, stateR_bind, result_bind. destruct (entry x tt) as [[e|err] []]; [|done]. cbn [fst].
  rewrite IH. by destruct (seqR _).
Qed.

Lemma bind_fst {A B} (m : stateR unit string A) (f : A → stateR unit string B) :
  ((m ≫= f) tt).1 = x ← (m tt).1; (f x tt).1.
Proof. unfold mbind, stateR_bind, result_bind. by destruct (m tt) as [[x|e] []]. Qed.

Lemma pure_slice l : pure (VSlice l) = VSlice <$> seqR (map pure l).
Proof. unfold pure. cbn [transformPayload]. rewrite bind_fst, elements_pure. by destruct (seqR _). Qed.

Lemma entry_pure key rec :
  (transformEntry_with fn rec key tt).1 = pure_entry key (rec tt).1.
Proof.
  unfold transformEntry_with, pure_entry, mbind, stateR_bind, result_bind.
  destruct (fn key true tt) as [[nk|e] []]; [|done]. by destruct (rec tt) as [[nv|e] []].
Qed.

Lemma pure_entries {K} (key : K → string) (m : list (K * value)) :
  ((out ← entries_loop (λ kv, transformEntry_with fn (transformPayload fn kv.2) (key kv.1)) m [];
    mret (VMap false out)) tt).1 =
  (λ es, VMap false (collect es)) <$> seqR (map (λ kv, pure_entry (key kv.1) (pure kv.2)) m).
Proof.
  rewrite bind_fst, entries_pure. assert (map (λ x, (transformEntry_with fn (transformPayload fn x.2)
    (key x.1) tt).1) m = map (λ kv, pure_entry (key kv.1) (pure kv.2)) m) as ->.
  { apply map_ext. intros x. apply entry_pure. }
  unfold collect. by destruct (seqR _).
Qed.

Lemma pure_map m :
  pure (VMap false m) =
  (λ es, VMap false (collect es)) <$> seqR (map (λ kv, pure_entry kv.1 (pure kv.2)) m).
Proof. apply (pure_entries id). Qed.

Lemma pure_imap m :
  pure (VIMap m) =
  (λ es, VMap false (collect es)) <$> seqR (map (λ kv, pure_entry (sprint kv.1) (pure kv.2)) m).
Proof. apply (pure_entries sprint). Qed.

(** The keys of the entries are what the keys become. *)
Lemma entries_keys {K} (key : K → string) (m : list (K * value)) es :
  seqR (map (λ kv, pure_entry (key kv.1) (pure kv.2)) m) = Ok es →
  omap key_text (map (λ kv, key kv.1) m) = es.*1.
Proof.
  intros Hes. apply (seqR_map (λ kv : K * value, pure_entry (key kv.1) (pure kv.2))) in Hes.
  induction Hes as [|x e m es Hx _ IH]; [done|]. unfold pure_entry, mbind, result_bind in Hx.
  cbn [map omap list_omap fmap list_fmap]. unfold key_text at 1.
  destruct (fn (key x.1) true tt) as [[nk|err] []]; [|done]. cbn [fst] in *.
  destruct (pure x.2); [|done]. injection Hx as <-. by rewrite <- IH.
Qed.

Lemma entries_reordered {K} (key : K → string) (m q m' : list (K * value)) :
  NoDup (omap key_text (map (λ kv, key kv.1) m)) → m ≡ₚ q →
  Forall2 (λ x y, x.1 = y.1 ∧ alike reordered (pure x.2) (pure y.2)) q m' →
  alike reordered
    ((λ es, VMap false (collect es)) <$> seqR (map (λ kv, pure_entry (key kv.1) (pure kv.2)) m))
    ((λ es, VMap false (collect es)) <$> seqR (map (λ kv, pure_entry (key kv.1) (pure kv.2)) m')).
Proof.
  intros Hnd Hp HF. set (entry := λ kv : K * value, pure_entry (key kv.1) (pure kv.2)).
  pose proof (seqR_perm _ _ (Permutation_map entry Hp)) as H1.
  assert (alike (Forall2 (λ e e', e.1 = e'.1 ∧ reordered e.2 e'.2)) (seqR (map entry q))
    (seqR (map entry m'))) as H2.
  { apply seqR_alike. clear -HF. induction HF as [|x y q m' [Hk Hxy] _ IH]; [constructor|].
    constructor; [|done]. subst entry. cbn beta. rewrite Hk. unfold pure_entry, mbind, result_bind.
    destruct (fn (key y.1) true tt) as [[nk|e] []]; [|done]. cbn [fst].
    destruct (pure x.2), (pure y.2); done. }
  pose proof (entries_keys key m) as Hkeys. fold entry in Hkeys.
  destruct (seqR (map entry m)) as [es|], (seqR (map entry q)) as [eq|]; try done;
    destruct (seqR (map entry m')) as [es'|]; try done. simpl in *.
  rewrite (Hkeys es eq_refl) in Hnd.
  assert (es'.*1 = eq.*1) as Hsame.
  { clear -H2. induction H2 as [|x y eq es' [Hk _] _ IH]; [done|]. rewrite !fmap_cons. by rewrite Hk, IH. }
  assert (∀ l : list (string * value), NoDup l.*1 → collect l = l) as Hcollect.
  { intros l Hl. etrans; [exact (assoc_set_distinct id l [] Hl)|]. simpl.
    rewrite <- (map_id l) at 2. apply map_ext. by intros []. }
  rewrite !Hcollect; [by apply (ro_map _ _ eq)| |done]. by rewrite Hsame, <- H1.
Qed.

Lemma pure_reordered p p' :
  reordered p p' → keys_apart p = true → alike reordered (pure p) (pure p').
Proof.
  assert (∀ p, alike reordered (pure p) (pure p)) as Hrefl.
  { intros q. destruct (pure q); [apply ro_refl|done]. }
  revert p'. induction p as [|b|k z|f|s|s|l IH|n m IH|m IH|s|ty repr] using value_ind_nested;
    intros p' Hp Hd; inversion Hp as [|? l' HF|? ? q m' Hnd Hq HF|? q m' Hnd Hq HF]; subst;
    try apply Hrefl; rewrite Forall_forall in IH.
  - rewrite !pure_slice. cbn [keys_apart] in Hd. rewrite forallb_Forall', Forall_forall in Hd.
    apply alike_fmap with (R := Forall2 reordered); [|by constructor].
    apply seqR_alike. apply Forall2_fmap. eapply Forall2_impl_in, HF. auto.
  - destruct n; [exact Hp|]. cbn [keys_apart] in Hd. apply andb_prop in Hd as [Hk Hd].
    rewrite !pure_map. apply bool_decide_eq_true in Hk. rewrite forallb_Forall', Forall_forall in Hd.
    apply (entries_reordered id _ q); [done..|]. eapply Forall2_impl_in, HF.
    intros x y Hx [Hxy Hr]. rewrite <- Hq in Hx. split; [done|]. apply (IH x); auto.
  - cbn [keys_apart] in Hd. apply andb_prop in Hd as [Hk Hd].
    rewrite !pure_imap. apply bool_decide_eq_true in Hk. rewrite forallb_Forall', Forall_forall in Hd.
    apply (entries_reordered sprint _ q); [done..|]. eapply Forall2_impl_in, HF.
    intros x y Hx [Hxy Hr]. rewrite <- Hq in Hx. split; [done|]. apply (IH x); auto.
Qed.
End pure.

(** ** Rendering *)

Lemma reordered_strings `{GoFmt} p p' s :
  reordered p p' → s ∈ payload_strings p' → s ∈ payload_strings p.
Proof.
  assert (∀ K (key : K → string) (m q m' : list (K * value)), m ≡ₚ q →
    Forall2 (λ x y, x.1 = y.1 ∧ (s ∈ payload_strings y.2 → s ∈ payload_strings x.2)) q m' →
    s ∈ mjoin ((λ kv, key kv.1 :: payload_strings kv.2) <$> m') →
    s ∈ mjoin ((λ kv, key kv.1 :: payload_strings kv.2) <$> m)) as Hmap.
  { intros K key m q m' Hq HF (l & Hs & (y & -> & Hy)%list_elem_of_fmap)%list_elem_of_join.
    apply list_elem_of_lookup in Hy as [i Hi].
    destruct (Forall2_lookup_r _ _ _ _ _ HF Hi) as (x & Hx & Hk & Hxy).
    apply list_elem_of_lookup_2 in Hx. rewrite <- Hq in Hx. apply (payload_entry_strings key m x s Hx).
    rewrite Hk. apply elem_of_cons in Hs as [->|Hs]; [by left|right; by apply Hxy]. }
  revert p'. induction p as [|b|k z|f|t|t|l IH|n m IH|m IH|t|ty repr] using value_ind_nested;
    intros p' Hp; inversion Hp as [|? l' HF|? ? q m' Hnd Hq HF|? q m' Hnd Hq HF]; subst;
    try done; rewrite Forall_forall in IH.
  - cbn [payload_strings]. intros (k & Hs & (y & -> & Hy)%list_elem_of_fmap)%list_elem_of_join.
    apply list_elem_of_lookup in Hy as [i Hi].
    destruct (Forall2_lookup_r _ _ _ _ _ HF Hi) as (x & Hx & Hxy). apply list_elem_of_lookup_2 in Hx.
    apply list_elem_of_join. exists (payload_strings x). split; [by eapply IH|].
    by apply list_elem_of_fmap_2.
  - destruct n; [done|]. apply (Hmap _ id m q); [done|]. eapply Forall2_impl_in, HF.
    intros x y Hx [Hk Hxy]. rewrite <- Hq in Hx. split; [done|]. by apply (IH x).
  - apply (Hmap _ sprint m q); [done|]. eapply Forall2_impl_in, HF.
    intros x y Hx [Hk Hxy]. rewrite <- Hq in Hx. split; [done|]. by apply (IH x).
Qed.

Section order.
Context `{Unicode, GoFmt, Json, TextTemplate} (data : value).

(** A template whose result does not depend on what was drawn before. *)
Definition steady (s : string) : Prop :=
  ∀ st st', (executeTemplate s data st).1 = (executeTemplate s data st').1.

(** The leaves as they are rendered at [st]. *)
Definition leaf_at (st : entropy) : leafFunc unit := λ s isKey u, ((render_leaf data s isKey st).1, u).

Lemma leaf_steady st s isKey : steady s → sim (render_leaf data s isKey) (leaf_at st s isKey).
Proof.
  intros Hs st'. unfold leaf_at, render_leaf. cbn [fst]. destruct (contains s "{{"); [|done]. cbn [negb].
  unfold mbind, stateR_bind. specialize (Hs st' st).
  destruct (executeTemplate s data st') as [[out|e] st1], (executeTemplate s data st) as [[out'|e'] st2];
    cbn [fst] in *; try congruence.
  injection Hs as ->. destruct (negb isKey && _ && _); [|done]. by destruct (json_Valid out').
Qed.
End order.

#[local] Existing Instance go_json.

Lemma RenderPayload_pure `{Unicode, GoFmt, JsonTypes, TextTemplate} p now msg st st' :
  let data := buildTemplateContext now msg in
  is_text p = false → (∀ s, s ∈ payload_strings p → steady data s) →
  (RenderPayload p now msg st').1 =
  v ← pure (leaf_at data st) p; wrap_err "failed to marshal rendered payload: " (Marshal v).
Proof.
  intros data Hp Hs.
  pose proof (sim_payload (render_leaf data) (leaf_at data st) p
    (λ s b Hin, leaf_steady data st s b (Hs s Hin)) st') as Hsim.
  assert ((RenderPayload p now msg st').1 =
    ((rendered ← transformPayload (render_leaf data) p;
      liftR (wrap_err "failed to marshal rendered payload: " (Marshal rendered))) st').1) as ->.
  { unfold RenderPayload. by destruct p. }
  unfold pure. rewrite <- Hsim. unfold mbind, stateR_bind, result_bind.
  by destruct (transformPayload (render_leaf data) p st') as [[v|e] st1].
Qed.

(** A template of the friendly syntax that calls no helper but json draws nothing. *)
Definition draws (b : body) : bool := match b with BFun _ | BRandom _ _ _ _ => true | _ => false end.

Section steady.
Context `{Unicode, GoFmt, Json, TemplateTypes}.

Lemma body_steady read b so so' :
  draws b = false → (body_value read b so).1 = (body_value read b so').1.
Proof.
  destruct b as [r|w r|r w1 w2|h|w1 lo w2 hi]; try done; intros _; cbn [body_value];
    unfold mbind, stateR_bind, liftR; destruct (read r) as [v|e]; try done;
    unfold call_helper; by case_bool_decide.
Qed.

Lemma parts_steady read trim l tail so so' :
  forallb (λ p, negb (draws (a_body p.2))) l = true →
  (render_parts read trim l tail so).1 = (render_parts read trim l tail so').1.
Proof.
  revert trim so so'. induction l as [|[text a] l IH]; intros trim so so' Hl; [done|].
  cbn [forallb snd] in Hl. apply andb_prop in Hl as [Ha Hl]. apply negb_true_iff in Ha.
  cbn [render_parts]. unfold mbind, stateR_bind.
  pose proof (body_steady read (a_body a) so so' Ha) as Hb.
  destruct (body_value read (a_body a) so) as [[v|e] so1], (body_value read (a_body a) so') as [[v'|e'] so2];
    cbn [fst] in *; try congruence.
  injection Hb as ->.
  specialize (IH (bool_decide (is_Some (a_trim_right a))) so1 so2 Hl).
  destruct (render_parts read _ l tail so1) as [[o|e] so3], (render_parts read _ l tail so2) as [[o'|e'] so4];
    cbn [fst] in *; try congruence.
  by injection IH as ->.
Qed.

Lemma friendly_steady other t now msg :
  let _ := go_template other in
  good_friendly t = true → forallb (λ p, negb (draws (a_body p.2))) (f_parts t) = true →
  steady (buildTemplateContext now msg) (friendly_text t).
Proof.
  intros T Hg Hd [so rest] [so' rest'].
  etrans; [exact (f_equal fst (friendly_executes other t now msg so rest Hg))|].
  etrans; [|symmetry; exact (f_equal fst (friendly_executes other t now msg so' rest' Hg))].
  pose proof (parts_steady (read_reference now msg) false (f_parts t) (f_tail t) so so' Hd) as Hp.
  unfold render_friendly. destruct (render_parts _ _ _ _ so) as [r1 s1], (render_parts _ _ _ _ so') as [r2 s2].
  cbn [fst] in Hp. by subst r2.
Qed.
End steady.

(** ** Properties *)

(** C20: The order in which Go visits the entries of a payload's maps does not matter,
    nor what was drawn before: two renderings of one payload both fail or give the
    same bytes, as long as its templates do not draw anything themselves and no two
    keys of a map become one. *)
Theorem response_order_free `{Unicode, GoFmt, JsonTypes, TextTemplate} p p' now msg st st' :
  let data := buildTemplateContext now msg in
  reordered p p' → (∀ s, s ∈ payload_strings p → steady data s) →
  keys_apart (leaf_at data st) p = true →
  alike eq (RenderPayload p now msg st).1 (RenderPayload p' now msg st').1.
Proof.
  intros data Hp Hs Hk. destruct (is_text p) eqn:Ht.
  - destruct p; try done; inversion Hp; subst; [done|].
    change (alike eq (executeTemplate s data st).1 (executeTemplate s data st').1).
    rewrite (Hs s ltac:(by left) st' st). by destruct (executeTemplate s data st).1.
  - assert (is_text p' = false) as Ht' by by destruct Hp.
    rewrite (RenderPayload_pure p now msg st) by done.
    rewrite (RenderPayload_pure p' now msg st); [|done|].
    2:{ intros s Hin. apply Hs. by eapply reordered_strings. }
    pose proof (pure_reordered (leaf_at data st) p p' Hp Hk) as Ha.
    unfold mbind, result_bind. fold data.
    destruct (pure (leaf_at data st) p) as [v|e], (pure (leaf_at data st) p') as [v'|e']; try done.
    simpl in Ha. unfold Marshal. rewrite (encode_reordered v v' Ha). by destruct (encode v').
Qed.

(** ** Witness *)

#[local] Existing Instances example_unicode plain_fmt no_types plain_types.

Definition receipt (first second : string * value) : value :=
  VMap false [("ok", VBool true); first; second].
Definition receipt_id : string * value := ("id", VString "{{ trigger.id }}").
Definition receipt_sum : string * value := ("sum", VSlice [VString "{{ trigger.total | json }}"]).

(** A text, and a text that is an action. *)
Definition text_only (s : string) : friendly := {| f_parts := []; f_tail := s |}.
Definition action_only (b : body) : friendly := {| f_parts := [("", plain_action b)]; f_tail := "" |}.

Lemma response_order_free_witness :
  let T := go_template no_template in
  alike eq (RenderPayload (receipt receipt_id receipt_sum) "now" order_message (example_sources, tt)).1
    (RenderPayload (receipt receipt_sum receipt_id) "now" order_message (example_sources, tt)).1.
Proof.
  intros T. apply response_order_free.
  - apply (ro_map false _ [("ok", VBool true); receipt_sum; receipt_id]).
    + apply (bool_decide_unpack _). by vm_compute.
    + apply perm_skip, perm_swap.
    + repeat (constructor; [split; [done|apply ro_refl]|]). constructor.
  - intros s Hs. change (s ∈ ["ok"; "id"; "{{ trigger.id }}"; "sum"; "{{ trigger.total | json }}"]) in Hs.
    assert (∀ t, good_friendly t && forallb (λ p, negb (draws (a_body p.2))) (f_parts t) = true →
      steady (buildTemplateContext "now" order_message) (friendly_text t)) as Ht.
    { intros t [Hg Hd]%andb_prop. by apply friendly_steady. }
    repeat (apply elem_of_cons in Hs as [->|Hs];
      [first [apply (Ht (text_only _)); by vm_compute
             |apply (Ht (action_only (BRef (RTrigger "id" [])))); by vm_compute
             |apply (Ht (action_only (BPipe (RTrigger "total" []) " " " "))); by vm_compute]|]).
    by apply elem_of_nil in Hs.
  - by vm_compute.
Defined.

(** When two keys become one, the order shows: the entry visited last wins. *)
Definition clash (first second : string * value) : value := VMap false [first; second].
Definition clash_a : string * value := ("{{ queue }}", VInt KInt 1).
Definition clash_b : string * value := ("orders", VInt KInt 2).

Example clash_shows :
  let T := go_template no_template in
  (RenderPayload (clash clash_a clash_b) "now" order_message (example_sources, tt)).1
    = Ok ("{" +:+ quoted "orders" +:+ ":2}") ∧
  (RenderPayload (clash clash_b clash_a) "now" order_message (example_sources, tt)).1
    = Ok ("{" +:+ quoted "orders" +:+ ":1}").
Proof. by vm_compute. Qed.
