(* ===== verification/Engine.v ===== *)
(** * The engine (pkg/engine/engine.go)

    The Engine struct and its methods, each as a function of the engine's state.
    Goroutines a method starts are among its results; how they interleave is the
    subject of [EngineSystem]. *)
From S2P Require Import Prelude GoStrings GoValue Libs Config Broker Validate Ring Matcher Template.

(** ** Data *)

(** The SpyRecorder interface: [Record] at a time. *)
Class SpyRecorder (R : Type) := { spy_Record : Z → Message → R → R }.

#[export] Instance ring_recorder `{Json} : SpyRecorder RingBuffer :=
  { spy_Record := ring_Record }.
(** A recorder that keeps every message, in order. *)
#[export] Instance log_recorder : SpyRecorder (list Message) :=
  { spy_Record _ m l := l ++ [m] }.

Record RuleStat := {
  st_Name : string;
  st_Queue : string;
  st_RoutingKey : string;
  st_ResponseExchange : string;
  st_ResponseRoutingKey : string;
  st_DelayMS : Z;
  st_Matches : Z;
}.

Record ruleState := { rs_rule : Rule; rs_matches : Z }.

(** Rule states are shared by pointer between the engine's rule slice and the
    snapshots taken of it.  They live in a store; a pointer is an index. *)
Abbreviation store := (list ruleState).

Definition incMatches (p : nat) (h : store) : store :=
  alter (λ rs, {| rs_rule := rs_rule rs; rs_matches := i64 (rs_matches rs + 1) |}) p h.

Definition getMatches (p : nat) (h : store) : Z :=
  match h !! p with Some rs => rs_matches rs | None => 0 end.

(** Allocates one state per rule; the pointers are the fresh cells. *)
Definition newRuleStates (rules : list Rule) (h : store) : list nat * store :=
  (seq (length h) (length rules), h ++ map (λ r, {| rs_rule := r; rs_matches := 0 |}) rules).

(** The goroutines the engine starts. *)
Inductive goroutine :=
| GoProcessLoop
| GoDispatch (r : Rule) (payload : string).

(** The one message channel of the engine, and its capacity. *)
Definition msgChan : nat := 0.
Definition msgChan_cap : nat := 100.

Record Engine (D R : Type) := {
  e_cfg : Config;
  e_driver : D;
  e_spy : option R;
  e_buf : list Message;
  e_cancelled : bool;
  e_wg : nat;
  e_running : bool;
  e_stopped : bool;
  e_subscribed : gset string;
  e_rules : list nat;
  e_store : store;
}.
Arguments e_cfg {D R} _. Arguments e_driver {D R} _. Arguments e_spy {D R} _.
Arguments e_buf {D R} _. Arguments e_cancelled {D R} _. Arguments e_wg {D R} _.
Arguments e_running {D R} _. Arguments e_stopped {D R} _. Arguments e_subscribed {D R} _.
Arguments e_rules {D R} _. Arguments e_store {D R} _.

Section setters.
Context {D R : Type}.
Implicit Types e : Engine D R.

Definition set_driver (d : D) e : Engine D R :=
  {| e_cfg := e_cfg e; e_driver := d; e_spy := e_spy e; e_buf := e_buf e;
     e_cancelled := e_cancelled e; e_wg := e_wg e; e_running := e_running e;
     e_stopped := e_stopped e; e_subscribed := e_subscribed e; e_rules := e_rules e;
     e_store := e_store e |}.
Definition set_spy (s : option R) e : Engine D R :=
  {| e_cfg := e_cfg e; e_driver := e_driver e; e_spy := s; e_buf := e_buf e;
     e_cancelled := e_cancelled e; e_wg := e_wg e; e_running := e_running e;
     e_stopped := e_stopped e; e_subscribed := e_subscribed e; e_rules := e_rules e;
     e_store := e_store e |}.
Definition set_buf (b : list Message) e : Engine D R :=
  {| e_cfg := e_cfg e; e_driver := e_driver e; e_spy := e_spy e; e_buf := b;
     e_cancelled := e_cancelled e; e_wg := e_wg e; e_running := e_running e;
     e_stopped := e_stopped e; e_subscribed := e_subscribed e; e_rules := e_rules e;
     e_store := e_store e |}.
Definition set_wg (n : nat) e : Engine D R :=
  {| e_cfg := e_cfg e; e_driver := e_driver e; e_spy := e_spy e; e_buf := e_buf e;
     e_cancelled := e_cancelled e; e_wg := n; e_running := e_running e;
     e_stopped := e_stopped e; e_subscribed := e_subscribed e; e_rules := e_rules e;
     e_store := e_store e |}.
Definition set_running (b : bool) e : Engine D R :=
  {| e_cfg := e_cfg e; e_driver := e_driver e; e_spy := e_spy e; e_buf := e_buf e;
     e_cancelled := e_cancelled e; e_wg := e_wg e; e_running := b;
     e_stopped := e_stopped e; e_subscribed := e_subscribed e; e_rules := e_rules e;
     e_store := e_store e |}.
Definition subscribe_to (q : string) e : Engine D R :=
  {| e_cfg := e_cfg e; e_driver := e_driver e; e_spy := e_spy e; e_buf := e_buf e;
     e_cancelled := e_cancelled e; e_wg := e_wg e; e_running := e_running e;
     e_stopped := e_stopped e; e_subscribed := {[q]} ∪ e_subscribed e;
     e_rules := e_rules e; e_store := e_store e |}.
Definition set_store (h : store) e : Engine D R :=
  {| e_cfg := e_cfg e; e_driver := e_driver e; e_spy := e_spy e; e_buf := e_buf e;
     e_cancelled := e_cancelled e; e_wg := e_wg e; e_running := e_running e;
     e_stopped := e_stopped e; e_subscribed := e_subscribed e; e_rules := e_rules e;
     e_store := h |}.
Definition load_rules (rules : list Rule) e : Engine D R :=
  let '(ptrs, h) := newRuleStates rules (e_store e) in
  {| e_cfg := e_cfg e; e_driver := e_driver e; e_spy := e_spy e; e_buf := e_buf e;
     e_cancelled := e_cancelled e; e_wg := e_wg e; e_running := e_running e;
     e_stopped := e_stopped e; e_subscribed := e_subscribed e; e_rules := ptrs;
     e_store := h |}.
Definition set_cfg (c : Config) e : Engine D R :=
  {| e_cfg := c; e_driver := e_driver e; e_spy := e_spy e; e_buf := e_buf e;
     e_cancelled := e_cancelled e; e_wg := e_wg e; e_running := e_running e;
     e_stopped := e_stopped e; e_subscribed := e_subscribed e; e_rules := e_rules e;
     e_store := e_store e |}.
(** [e.stopped = true; e.running = false], then [e.cancel()]. *)
Definition set_stopped e : Engine D R :=
  {| e_cfg := e_cfg e; e_driver := e_driver e; e_spy := e_spy e; e_buf := e_buf e;
     e_cancelled := true; e_wg := e_wg e; e_running := false;
     e_stopped := true; e_subscribed := e_subscribed e; e_rules := e_rules e;
     e_store := e_store e |}.
End setters.

(** ** Queues *)

Definition queue_set (c : Config) : gset string :=
  list_to_set (filter (.≠ "") (map (λ r, tr_Queue (r_Trigger r)) (c_Rules c) ++ sp_Queues (c_Spy c))).

(** The order of sort.Strings: by bytes. *)
Definition desiredQueues (c : Config) : list string :=
  merge_sort String.le (elements (queue_set c)).

Section engine.
Context `{Unicode, GoFmt, Gjson, Json, TextTemplate} {D R : Type}
  `{Driver D, SpyRecorder R}.
Implicit Types e : Engine D R.

Definition NewEngine (cfg : Config) (driver : D) (spyRecorder : option R) : Engine D R :=
  let '(ptrs, h) := newRuleStates (c_Rules cfg) [] in
  {| e_cfg := cfg; e_driver := driver; e_spy := spyRecorder; e_buf := [];
     e_cancelled := false; e_wg := 0; e_running := false; e_stopped := false;
     e_subscribed := ∅; e_rules := ptrs; e_store := h |}.

(** ** Start and Reload *)

Definition declare (t : Declarations) e : option string * Engine D R :=
  let '(err, d) := DeclareTopology t (e_driver e) in
  (match err with
   | Some x => Some ("failed to declare broker topology: " +:+ x)
   | None => None
   end, set_driver d e).

Definition consume (q : string) e : option string * Engine D R :=
  let '(err, d) := StartConsuming q msgChan (e_driver e) in
  match err with
  | Some x => (Some ("failed to consume from queue " +:+ quote q +:+ ": " +:+ x), set_driver d e)
  | None => (None, subscribe_to q (set_driver d e))
  end.

(** The loop of Start; [skip] is the [continue] of Reload's loop. *)
Fixpoint consume_all (skip : bool) (qs : list string) e : option string * Engine D R :=
  match qs with
  | [] => (None, e)
  | q :: qs' =>
    if skip && bool_decide (q ∈ e_subscribed e) then consume_all skip qs' e
    else
      match consume q e with
      | (Some err, e') => (Some err, e')
      | (None, e') => consume_all skip qs' e'
      end
  end.

Definition Start e : option string * list goroutine * Engine D R :=
  if e_stopped e then (Some "engine has been stopped", [], e)
  else if e_running e then (None, [], e)
  else
    match declare (bc_Declarations (c_Broker (e_cfg e))) e with
    | (Some err, e1) => (Some err, [], e1)
    | (None, e1) =>
      match consume_all false (desiredQueues (e_cfg e1)) e1 with
      | (Some err, e2) => (Some err, [], e2)
      | (None, e2) => (None, [GoProcessLoop], set_wg (S (e_wg e2)) (set_running true e2))
      end
    end.

Definition Reload (cfg : Config) e : option string * Engine D R :=
  if e_stopped e || negb (e_running e) then (Some "engine is not running", e)
  else
    match declare (bc_Declarations (c_Broker cfg)) e with
    | (Some err, e1) => (Some err, e1)
    | (None, e1) =>
      match consume_all true (desiredQueues cfg) e1 with
      | (Some err, e2) => (Some err, e2)
      | (None, e2) => (None, set_cfg cfg (load_rules (c_Rules cfg) e2))
      end
    end.

Definition snapshotRules e : list nat := e_rules e.

Definition rule_stat (h : store) (p : nat) : option RuleStat :=
  rs ← h !! p;
  Some {| st_Name := r_Name (rs_rule rs);
          st_Queue := tr_Queue (r_Trigger (rs_rule rs));
          st_RoutingKey := tr_RoutingKey (r_Trigger (rs_rule rs));
          st_ResponseExchange := mr_Exchange (r_MockResponse (rs_rule rs));
          st_ResponseRoutingKey := mr_RoutingKey (r_MockResponse (rs_rule rs));
          st_DelayMS := mr_DelayMS (r_MockResponse (rs_rule rs));
          st_Matches := getMatches p h |}.

Definition RuleStats e : list RuleStat := omap (rule_stat (e_store e)) (snapshotRules e).

(** ** Messages *)

Definition record (now : Z) (msg : Message) e : Engine D R :=
  set_spy (spy_Record now msg <$> e_spy e) e.

(** [msg.Direction = DirectionReceived] unless the driver set one. *)
Definition incoming (msg : Message) : Message :=
  if bool_decide (m_Direction msg = "") then set_Direction DirectionReceived msg else msg.

(** The loop guard: [origin, ok := msg.Headers[OriginHeader]; ok && origin != nil]. *)
Definition from_chitchat (msg : Message) : bool :=
  match m_Headers msg !! OriginHeader with
  | Some origin => negb (is_nil origin)
  | None => false
  end.

(** One round of the loop over the snapshot. [utc] is the time the template
    context shows. *)
Definition handleRule (utc : string) (msg : Message) (p : nat) (r : entropy) e
    : list goroutine * entropy * Engine D R :=
  match e_store e !! p with
  | None => ([], r, e)
  | Some rs =>
    if negb (MatchesRule (rs_rule rs) msg) then ([], r, e)
    else
      let e1 := set_store (incMatches p (e_store e)) e in
      match RenderPayload (mr_Payload (r_MockResponse (rs_rule rs))) utc msg r with
      | (Err _, r') => ([], r', e1)
      | (Ok payload, r') => ([GoDispatch (rs_rule rs) payload], r', set_wg (S (e_wg e1)) e1)
      end
  end.

Fixpoint handleRules (utc : nat → string) (msg : Message) (ps : list nat) (r : entropy) e
    : list goroutine * entropy * Engine D R :=
  match ps with
  | [] => ([], r, e)
  | p :: ps' =>
    let '(g, r1, e1) := handleRule (utc p) msg p r e in
    let '(gs, r2, e2) := handleRules utc msg ps' r1 e1 in
    (g ++ gs, r2, e2)
  end.

Definition handleMessage (now : Z) (utc : nat → string) (msg : Message) (r : entropy) e
    : list goroutine * entropy * Engine D R :=
  let msg := incoming msg in
  let e1 := record now msg e in
  if from_chitchat msg then ([], r, e1)
  else handleRules utc msg (snapshotRules e1) r e1.

(** ** dispatch

    It waits first if there is a delay ([time.Duration] is an int64 of
    nanoseconds), and gives up if the engine is cancelled meanwhile; then it
    publishes, and on success records. *)

Definition delay_ns (r : Rule) : Z := i64 (i64 (mr_DelayMS (r_MockResponse r)) * 1000000).
Definition delayed (r : Rule) : bool := bool_decide (0 < mr_DelayMS (r_MockResponse r))%Z.

Definition response_headers (r : Rule) : headers :=
  <[OriginHeader := VString (r_Name r)]> (mr_Headers (r_MockResponse r)).

Definition published_record (r : Rule) (payload : string) : Message :=
  {| m_Queue := ""; m_RoutingKey := mr_RoutingKey (r_MockResponse r);
     m_Headers := response_headers r; m_Body := payload; m_Direction := DirectionPublished;
     m_Exchange := mr_Exchange (r_MockResponse r); m_Rule := r_Name r; m_MessageID := "" |}.

Definition dispatch_publish (r : Rule) (payload : string) e : option string * Engine D R :=
  let '(err, d) := Publish (mr_Exchange (r_MockResponse r)) (mr_RoutingKey (r_MockResponse r))
                     payload (response_headers r) (e_driver e) in
  (err, set_driver d e).

(** [cancelled]: whether the context ends the delay. *)
Definition dispatch (now : Z) (cancelled : bool) (r : Rule) (payload : string) e : Engine D R :=
  if delayed r && cancelled then e
  else
    match dispatch_publish r payload e with
    | (Some _, e1) => e1
    | (None, e1) => record now (published_record r payload) e1
    end.

(** ** Stop *)

(** Up to the wait: whether the caller goes on, and the new state. *)
Definition stop_begin e : bool * Engine D R :=
  if e_stopped e then (false, e) else (true, set_stopped e).

Definition stop_wait_error (ctx_err : string) : string :=
  "timed out waiting for engine workers to stop: " +:+ ctx_err.

(** After the wait, which ended with [wait_err]. *)
Definition stop_finish (wait_err : option string) e : option string * Engine D R :=
  let '(close_err, d) := Close (e_driver e) in
  (join_errors (option_list wait_err ++ option_list close_err), set_driver d e).
End engine.

(** ** The queues to consume *)

Lemma elem_of_queue_set c q :
  q ∈ queue_set c ↔
  q ≠ "" ∧ ((∃ r, r ∈ c_Rules c ∧ tr_Queue (r_Trigger r) = q) ∨ q ∈ sp_Queues (c_Spy c)).
Proof.
  unfold queue_set. rewrite elem_of_list_to_set, list_elem_of_filter, elem_of_app.
  rewrite list_elem_of_In, in_map_iff. setoid_rewrite <- list_elem_of_In. naive_solver.
Qed.

Lemma elem_of_desiredQueues c q : q ∈ desiredQueues c ↔ q ∈ queue_set c.
Proof. unfold desiredQueues. by rewrite merge_sort_Permutation, elem_of_elements. Qed.

Lemma desiredQueues_NoDup c : NoDup (desiredQueues c).
Proof. unfold desiredQueues. rewrite merge_sort_Permutation. apply NoDup_elements. Qed.

(** DesiredQueues lists, in the order of their bytes and once each, exactly
    the named trigger queues of the rules and the named spy queues. *)
Theorem desiredQueues_correct c :
  Sorted String.le (desiredQueues c) ∧ NoDup (desiredQueues c) ∧
  ∀ q, q ∈ desiredQueues c ↔
    q ≠ "" ∧ ((∃ r, r ∈ c_Rules c ∧ tr_Queue (r_Trigger r) = q) ∨ q ∈ sp_Queues (c_Spy c)).
Proof.
  split_and!; [apply Sorted_merge_sort, _|apply desiredQueues_NoDup|].
  intros q. by rewrite elem_of_desiredQueues, elem_of_queue_set.
Qed.

(** ** Well-formed engines *)

(** The rule pointers are distinct and in the store. *)
Record engine_wf {D R} (e : Engine D R) : Prop := {
  wf_NoDup : NoDup (e_rules e);
  wf_range p : p ∈ e_rules e → p < length (e_store e);
}.

(** The rule states the engine's slice points to, in order. *)
Definition loaded {D R} (e : Engine D R) : list ruleState :=
  omap (λ p, e_store e !! p) (e_rules e).

(** What attaching to the broker may change. *)
Definition reattach {D R} (d : D) (s : gset string) (e : Engine D R) : Engine D R :=
  {| e_cfg := e_cfg e; e_driver := d; e_spy := e_spy e; e_buf := e_buf e;
     e_cancelled := e_cancelled e; e_wg := e_wg e; e_running := e_running e;
     e_stopped := e_stopped e; e_subscribed := s; e_rules := e_rules e;
     e_store := e_store e |}.

Lemma lookup_new_states (rules : list Rule) h i r :
  rules !! i = Some r →
  (newRuleStates rules h).2 !! (length h + i) = Some {| rs_rule := r; rs_matches := 0 |}.
Proof.
  intros Hr. unfold newRuleStates. cbn [snd]. rewrite lookup_app_r by lia. replace (length h + i - length h) with i by lia.
  change (map ?f ?l) with (f <$> l). by rewrite list_lookup_fmap, Hr.
Qed.

Lemma omap_lookup_seq {A} (h l : list A) :
  omap (λ p, (h ++ l) !! p) (seq (length h) (length l)) = l.
Proof.
  revert h. induction l as [|x l IH]; intros h; [done|].
  assert ((h ++ x :: l) !! length h = Some x) as Hx by by apply list_lookup_middle.
  specialize (IH (h ++ [x])). rewrite length_app, <- app_assoc in IH.
  cbn [length] in *. rewrite Nat.add_1_r in IH. cbn [seq omap list_omap].
  rewrite Hx. f_equal. exact IH.
Qed.

Lemma loaded_new_states (rules : list Rule) h :
  omap (λ p, (newRuleStates rules h).2 !! p) (newRuleStates rules h).1
  = map (λ r, {| rs_rule := r; rs_matches := 0 |}) rules.
Proof.
  unfold newRuleStates. cbn [fst snd].
  rewrite <- (length_map (λ r, {| rs_rule := r; rs_matches := 0 |}) rules).
  apply omap_lookup_seq.
Qed.

(** ** Attaching to the broker *)

Section attach.
Context `{Unicode} {D R : Type} `{Driver D}.
Implicit Types e : Engine D R.

(** The driver after subscribing to [qs], whatever the results. *)
Definition attached (qs : list string) (d : D) : D :=
  foldl (λ d q, (StartConsuming q msgChan d).2) d qs.

(** The queues of [qs] the loop does not skip. *)
Definition new_queues (skip : bool) (qs : list string) (s : gset string) : list string :=
  if skip then filter (.∉ s) qs else qs.

Lemma new_queues_cons skip q qs s :
  new_queues skip (q :: qs) s =
  if skip && bool_decide (q ∈ s) then new_queues skip qs s else q :: new_queues skip qs s.
Proof.
  destruct skip; [|done]. simpl. case_bool_decide.
  - rewrite filter_cons_False by tauto. done.
  - by rewrite filter_cons_True by done.
Qed.

Lemma new_queues_add skip q qs s :
  q ∉ qs → new_queues skip qs ({[q]} ∪ s) = new_queues skip qs s.
Proof. intros Hq. destruct skip; [|done]. simpl. apply filter_agree. set_solver. Qed.

(** The subscriptions that [qs] makes: all of them, or those before the first
    that the driver refuses. *)
Definition consume_outcome (skip : bool) (qs : list string) e
    (res : option string * Engine D R) : Prop :=
  let new := new_queues skip qs (e_subscribed e) in
  match res.1 with
  | None => res.2 = reattach (attached new (e_driver e))
                      (e_subscribed e ∪ list_to_set new) e
  | Some err => ∃ before q after x,
      new = before ++ q :: after ∧
      res.2 = reattach (attached (before ++ [q]) (e_driver e))
                (e_subscribed e ∪ list_to_set before) e ∧
      (StartConsuming q msgChan (attached before (e_driver e))).1 = Some x ∧
      err = "failed to consume from queue " +:+ quote q +:+ ": " +:+ x
  end.

Lemma reattach_self e : reattach (e_driver e) (e_subscribed e) e = e.
Proof. by destruct e. Qed.

Lemma consume_all_outcome skip qs e :
  NoDup qs → consume_outcome skip qs e (consume_all skip qs e).
Proof.
  revert e. induction qs as [|q qs IH]; intros e Hnd; unfold consume_outcome; cbn [consume_all].
  { destruct skip; simpl; by rewrite union_empty_r_L, reattach_self. }
  apply NoDup_cons in Hnd as [Hq Hnd]. rewrite new_queues_cons.
  destruct (skip && bool_decide (q ∈ e_subscribed e)); [by apply IH|].
  unfold consume. destruct (StartConsuming q msgChan (e_driver e)) as [[x|] d] eqn:Hs; simpl.
  - exists [], q, (new_queues skip qs (e_subscribed e)), x.
    simpl. by rewrite Hs, union_empty_r_L.
  - set (e1 := subscribe_to q (set_driver d e)).
    specialize (IH e1 Hnd). unfold consume_outcome in IH. cbn [e_subscribed e1] in IH.
    assert (d = (StartConsuming q msgChan (e_driver e)).2) as Hd by by rewrite Hs.
    change (e_subscribed e1) with ({[q]} ∪ e_subscribed e) in IH.
    change (e_driver e1) with d in IH. rewrite new_queues_add in IH by done.
    destruct (consume_all skip qs e1) as [[err|] e'] eqn:Hc; simpl in *.
    + destruct IH as (before & q' & after & x & -> & -> & Hx & ->).
      exists (q :: before), q', after, x. simpl. rewrite <- Hd. split_and!; [done| |done|done].
      unfold reattach; simpl. f_equal. set_solver.
    + rewrite IH. simpl. rewrite <- Hd. unfold reattach; simpl. f_equal. set_solver.
Qed.
End attach.

Section start_reload.
Context `{Unicode} {D R : Type} `{Driver D}.
Implicit Types e : Engine D R.

Lemma declare_run t e :
  declare t e =
  (match (DeclareTopology t (e_driver e)).1 with
   | Some x => Some ("failed to declare broker topology: " +:+ x) | None => None end,
   reattach (DeclareTopology t (e_driver e)).2 (e_subscribed e) e).
Proof. unfold declare. by destruct (DeclareTopology t (e_driver e)) as [[x|] d]. Qed.

(** A failed attempt to attach leaves everything but the driver and the set of
    subscriptions alone, and no subscription is lost or invented. *)
Definition attach_failed (wanted : list string) e (e' : Engine D R) : Prop :=
  ∃ d s, e' = reattach d s e ∧ e_subscribed e ⊆ s ∧
         s ⊆ e_subscribed e ∪ list_to_set wanted.

(** Declaring the topology and subscribing, as Start and Reload do first. *)
Lemma attach_run skip t qs e :
  NoDup qs →
  match (match declare t e with
         | (Some err, e1) => (Some err, e1)
         | (None, e1) => consume_all skip qs e1
         end) with
  | (Some err, e') => attach_failed qs e e'
  | (None, e') =>
    (DeclareTopology t (e_driver e)).1 = None ∧
    e' = reattach (attached (new_queues skip qs (e_subscribed e))
                     (DeclareTopology t (e_driver e)).2)
           (e_subscribed e ∪ list_to_set qs) e
  end.
Proof.
  intros Hnd. rewrite declare_run. destruct (DeclareTopology t (e_driver e)) as [[x|] d]; simpl.
  { exists d, (e_subscribed e). set_solver. }
  pose proof (consume_all_outcome skip qs (reattach d (e_subscribed e) e) Hnd) as Hc.
  unfold consume_outcome in Hc. simpl in Hc.
  assert (∀ x, x ∈ new_queues skip qs (e_subscribed e) → x ∈ qs) as Hnew.
  { intros y. destruct skip; simpl; [|done]. rewrite list_elem_of_filter. tauto. }
  destruct (consume_all skip qs _) as [[err|] e'] eqn:Hrun; simpl in *.
  - destruct Hc as (before & q & after & y & Hb & -> & _).
    eexists _, _. split; [reflexivity|]. split; [set_solver|].
    intros z. rewrite !elem_of_union, !elem_of_list_to_set. intros [|Hz]; [by left|right].
    apply Hnew. rewrite Hb. apply elem_of_app. by left.
  - split; [done|]. rewrite Hc. unfold reattach; simpl. f_equal.
    apply set_eq. intros z. rewrite !elem_of_union, !elem_of_list_to_set. split.
    + naive_solver.
    + intros [|Hz]; [by left|]. destruct (decide (z ∈ e_subscribed e)); [by left|right].
      destruct skip; simpl; [|done]. by apply list_elem_of_filter.
Qed.
End start_reload.

Lemma Start_run `{Unicode} {D R} `{Driver D} (e : Engine D R) :
  let t := bc_Declarations (c_Broker (e_cfg e)) in
  let qs := desiredQueues (e_cfg e) in
  if e_stopped e then Start e = (Some "engine has been stopped", [], e)
  else if e_running e then Start e = (None, [], e)
  else match Start e with
       | (None, gs, e') =>
         gs = [GoProcessLoop] ∧ (DeclareTopology t (e_driver e)).1 = None ∧
         e' = set_wg (S (e_wg e)) (set_running true
                (reattach (attached qs (DeclareTopology t (e_driver e)).2)
                   (e_subscribed e ∪ list_to_set qs) e))
       | (Some _, gs, e') => gs = [] ∧ attach_failed qs e e'
       end.
Proof.
  intros t qs. unfold Start. destruct (e_stopped e); [done|]. destruct (e_running e); [done|].
  pose proof (attach_run false t qs e (desiredQueues_NoDup _)) as Ha.
  pose proof (declare_run t e) as Hd. fold t.
  destruct (declare t e) as [[err|] e1]; [done|].
  assert (e_cfg e1 = e_cfg e) as ->.
  { by injection Hd as _ ->. }
  fold qs. destruct (consume_all false qs e1) as [[err|] e2]; [done|].
  by destruct Ha as [? ->].
Qed.

(** Start, on every branch: a stopped engine refuses, a running one does
    nothing; otherwise the configured topology is declared and every wanted queue
    is subscribed, in order.  On success there is one processing goroutine, counted
    in the wait group, and every wanted queue is subscribed; on failure no
    goroutine was started, the engine is not running, and nothing changed but the
    driver and the record of the subscriptions already made. *)
Theorem Start_correct `{Unicode} {D R} `{Driver D} (e : Engine D R) :
  let t := bc_Declarations (c_Broker (e_cfg e)) in
  let qs := desiredQueues (e_cfg e) in
  if e_stopped e then Start e = (Some "engine has been stopped", [], e)
  else if e_running e then Start e = (None, [], e)
  else match Start e with
       | (None, gs, e') =>
         gs = [GoProcessLoop] ∧ (DeclareTopology t (e_driver e)).1 = None ∧
         e' = set_wg (S (e_wg e)) (set_running true
                (reattach (attached qs (DeclareTopology t (e_driver e)).2)
                   (e_subscribed e ∪ list_to_set qs) e))
       | (Some _, gs, e') => gs = [] ∧ attach_failed qs e e'
       end.
Proof. apply Start_run. Qed.

(** The snapshot of a rule that never matched. *)
Definition fresh_stat (r : Rule) : RuleStat :=
  {| st_Name := r_Name r; st_Queue := tr_Queue (r_Trigger r);
     st_RoutingKey := tr_RoutingKey (r_Trigger r);
     st_ResponseExchange := mr_Exchange (r_MockResponse r);
     st_ResponseRoutingKey := mr_RoutingKey (r_MockResponse r);
     st_DelayMS := mr_DelayMS (r_MockResponse r); st_Matches := 0 |}.

Lemma RuleStats_loaded {D R} (e : Engine D R) :
  RuleStats e = map (λ rs,
    {| st_Name := r_Name (rs_rule rs); st_Queue := tr_Queue (r_Trigger (rs_rule rs));
       st_RoutingKey := tr_RoutingKey (r_Trigger (rs_rule rs));
       st_ResponseExchange := mr_Exchange (r_MockResponse (rs_rule rs));
       st_ResponseRoutingKey := mr_RoutingKey (r_MockResponse (rs_rule rs));
       st_DelayMS := mr_DelayMS (r_MockResponse (rs_rule rs));
       st_Matches := rs_matches rs |}) (loaded e).
Proof.
  unfold RuleStats, loaded, snapshotRules. induction (e_rules e) as [|p ps IH]; [done|].
  cbn [omap list_omap]. unfold rule_stat at 1, getMatches.
  destruct (e_store e !! p); simpl; by rewrite IH.
Qed.

Lemma RuleStats_installed {D R} cfg (e : Engine D R) :
  RuleStats (set_cfg cfg (load_rules (c_Rules cfg) e)) = map fresh_stat (c_Rules cfg).
Proof.
  rewrite RuleStats_loaded. unfold loaded. simpl.
  pose proof (loaded_new_states (c_Rules cfg) (e_store e)) as Hl.
  unfold newRuleStates in Hl. cbn [fst snd] in Hl. by rewrite Hl, map_map.
Qed.

Lemma Reload_run `{Unicode} {D R} `{Driver D} (cfg : Config) (e : Engine D R) :
  let t := bc_Declarations (c_Broker cfg) in
  let qs := desiredQueues cfg in
  if e_stopped e || negb (e_running e)
  then Reload cfg e = (Some "engine is not running", e)
  else match Reload cfg e with
       | (Some _, e') => attach_failed qs e e'
       | (None, e') =>
         e_cfg e' = cfg ∧ RuleStats e' = map fresh_stat (c_Rules cfg) ∧
         e_store e `prefix_of` e_store e' ∧
         (∀ p, p ∈ e_rules e' → length (e_store e) ≤ p) ∧
         e_subscribed e' = e_subscribed e ∪ list_to_set qs ∧
         e_driver e' = attached (filter (.∉ e_subscribed e) qs)
                         (DeclareTopology t (e_driver e)).2 ∧
         e_running e' = true ∧ e_wg e' = e_wg e ∧ e_spy e' = e_spy e
       end.
Proof.
  intros t qs. unfold Reload. fold t qs.
  destruct (e_stopped e || negb (e_running e)) eqn:Hrun; [done|].
  apply orb_false_iff in Hrun as [_ Hrun%negb_false_iff].
  pose proof (attach_run true t qs e (desiredQueues_NoDup _)) as Ha.
  destruct (declare t e) as [[err|] e1]; [done|].
  destruct (consume_all true qs e1) as [[err|] e2]; [done|].
  destruct Ha as [_ ->]. split_and!; try done; simpl.
  - apply RuleStats_installed.
  - by eexists.
  - intros p Hp. apply elem_of_seq in Hp. lia.
Qed.

(** C29: Reload is all or nothing for the rules: it is refused unless the engine
    runs; if declaring the topology or a subscription fails, the configuration, the
    rules and their counters stay as they were; on success the engine has the
    new configuration, one rule state per rule in order, each never matched, all
    in cells no earlier snapshot points to, and it has subscribed exactly to the
    wanted queues it was not subscribed to, keeping the others. *)
Theorem Reload_correct `{Unicode} {D R} `{Driver D} (cfg : Config) (e : Engine D R) :
  let t := bc_Declarations (c_Broker cfg) in
  let qs := desiredQueues cfg in
  if e_stopped e || negb (e_running e)
  then Reload cfg e = (Some "engine is not running", e)
  else match Reload cfg e with
       | (Some _, e') => attach_failed qs e e'
       | (None, e') =>
         e_cfg e' = cfg ∧ RuleStats e' = map fresh_stat (c_Rules cfg) ∧
         e_store e `prefix_of` e_store e' ∧
         (∀ p, p ∈ e_rules e' → length (e_store e) ≤ p) ∧
         e_subscribed e' = e_subscribed e ∪ list_to_set qs ∧
         e_driver e' = attached (filter (.∉ e_subscribed e) qs)
                         (DeclareTopology t (e_driver e)).2 ∧
         e_running e' = true ∧ e_wg e' = e_wg e ∧ e_spy e' = e_spy e
       end.
Proof. apply Reload_run. Qed.

(** ** Handling a message *)

Definition inc_state (rs : ruleState) : ruleState :=
  {| rs_rule := rs_rule rs; rs_matches := i64 (rs_matches rs + 1) |}.

Section handle.
Context `{Unicode, GoFmt, Gjson, Json, TextTemplate}.

(** Each state of [ps] whose rule matches, counted once more. *)
Definition bump (msg : Message) (ps : list nat) (h : store) : store :=
  imap (λ p rs, if bool_decide (p ∈ ps) && MatchesRule (rs_rule rs) msg
                then inc_state rs else rs) h.

Definition matching (msg : Message) (l : list ruleState) : list ruleState :=
  filter (λ rs, MatchesRule (rs_rule rs) msg = true) l.

(** [o] is what rendering the rule's payload may give. *)
Definition render_result (msg : Message) (rs : ruleState) (o : option string) : Prop :=
  let p := mr_Payload (r_MockResponse (rs_rule rs)) in
  ∃ now, match o with
         | Some body => rendered (buildTemplateContext now msg) p body
         | None => ∃ err, render_error (buildTemplateContext now msg) p err
         end.

(** One goroutine per rule whose payload could be rendered. *)
Definition dispatches (ms : list ruleState) (outs : list (option string)) : list goroutine :=
  omap (λ x, GoDispatch (rs_rule x.1) <$> x.2) (zip ms outs).

Lemma bump_lookup msg ps h p :
  bump msg ps h !! p =
  (λ rs, if bool_decide (p ∈ ps) && MatchesRule (rs_rule rs) msg
         then inc_state rs else rs) <$> h !! p.
Proof. unfold bump. by rewrite list_lookup_imap. Qed.

(** The counters of the states [ps] afterwards. *)
Lemma bump_omap msg ps h :
  omap (λ p, bump msg ps h !! p) ps =
  map (λ rs, if MatchesRule (rs_rule rs) msg then inc_state rs else rs) (omap (λ p, h !! p) ps).
Proof.
  assert (∀ qs, qs ⊆ ps → omap (λ p, bump msg ps h !! p) qs =
    map (λ rs, if MatchesRule (rs_rule rs) msg then inc_state rs else rs) (omap (λ p, h !! p) qs))
    as Hqs; [|by apply Hqs].
  intros qs. induction qs as [|q qs IH]; intros Hsub; [done|]. cbn [omap list_omap].
  rewrite bump_lookup, bool_decide_true by (apply Hsub; by left).
  rewrite IH by (intros x Hx; apply Hsub; by right). by destruct (h !! q).
Qed.

Lemma bump_nil msg h : bump msg [] h = h.
Proof.
  apply list_eq. intros p. rewrite bump_lookup. rewrite bool_decide_false by set_solver.
  by destruct (h !! p).
Qed.

Lemma bump_skip msg p ps h rs :
  h !! p = Some rs → MatchesRule (rs_rule rs) msg = false →
  bump msg (p :: ps) h = bump msg ps h.
Proof.
  intros Hp Hm. apply list_eq. intros i. rewrite !bump_lookup.
  destruct (decide (i = p)) as [->|Hi].
  - rewrite Hp. simpl. by rewrite Hm, !andb_false_r.
  - by rewrite (bool_decide_ext (i ∈ p :: ps) (i ∈ ps)) by set_solver.
Qed.

Lemma bump_inc msg p ps h rs :
  p ∉ ps → h !! p = Some rs → MatchesRule (rs_rule rs) msg = true →
  bump msg (p :: ps) h = bump msg ps (incMatches p h).
Proof.
  intros Hps Hp Hm. apply list_eq. intros i. rewrite !bump_lookup. unfold incMatches.
  destruct (decide (i = p)) as [->|Hi].
  - rewrite list_lookup_alter_eq, Hp. simpl.
    rewrite (bool_decide_true (p ∈ p :: ps)) by by left.
    by rewrite (bool_decide_false (p ∈ ps)), Hm.
  - rewrite list_lookup_alter_ne by done.
    by rewrite (bool_decide_ext (i ∈ p :: ps) (i ∈ ps)) by set_solver.
Qed.

(** Counting changes no rule. *)
Lemma omap_incMatches (p : nat) (ps : list nat) h :
  p ∉ ps →
  (omap (λ i, incMatches p h !! i) ps : list ruleState) = omap (λ i, h !! i) ps.
Proof.
  intros Hp. induction ps as [|i ps IH]; [done|]. cbn [omap list_omap].
  unfold incMatches at 1. rewrite list_lookup_alter_ne by set_solver.
  rewrite IH by set_solver. done.
Qed.

Context {D R : Type} `{Driver D, SpyRecorder R}.
Implicit Types e : Engine D R.

Lemma handleRules_run utc msg ps r e gs r' e' :
  NoDup ps → (∀ p, p ∈ ps → p < length (e_store e)) →
  handleRules utc msg ps r e = (gs, r', e') →
  ∃ outs,
    let ms := matching msg (omap (λ p, e_store e !! p) ps) in
    Forall2 (render_result msg) ms outs ∧ gs = dispatches ms outs ∧
    e' = set_wg (e_wg e + length gs) (set_store (bump msg ps (e_store e)) e).
Proof.
  revert r e gs. induction ps as [|p ps IH]; intros r e gs Hnd Hlt; cbn [handleRules].
  { intros [= <- <- <-]. exists []. split_and!; [constructor|done|].
    rewrite bump_nil, Nat.add_0_r. by destruct e. }
  apply NoDup_cons in Hnd as [Hp Hnd].
  destruct (lookup_lt_is_Some_2 (e_store e) p) as [rs Hrs]; [apply Hlt; by left|].
  cbn [omap list_omap]. rewrite Hrs. unfold handleRule. rewrite Hrs.
  destruct (MatchesRule (rs_rule rs) msg) eqn:Hm; simpl.
  - destruct (RenderPayload (mr_Payload (r_MockResponse (rs_rule rs))) (utc p) msg r)
      as [[body|err] r1] eqn:Hr;
      (destruct (handleRules utc msg ps r1 _) as [[gs2 r2] e2] eqn:Hrest);
      intros [= <- <- <-]; apply IH in Hrest as (outs & Houts & -> & ->); try done;
      try (intros i Hi; simpl; unfold incMatches; rewrite length_alter; apply Hlt; by right);
      cbn [e_store e_wg set_wg set_store] in *; rewrite omap_incMatches in Houts |- * by done;
      pose proof (outcome_run _ _ _ _ _ _ (RenderPayload_outcome _ (utc p) msg) Hr) as Hres;
      unfold matching; rewrite filter_cons_True by done.
    + exists (Some body :: outs). split_and!.
      * constructor; [by exists (utc p)|done].
      * done.
      * simpl. rewrite (bump_inc msg p ps _ rs), Nat.add_succ_r by done. done.
    + exists (None :: outs). split_and!.
      * constructor; [exists (utc p); by exists err|done].
      * done.
      * simpl. by rewrite (bump_inc msg p ps _ rs) by done.
  - destruct (handleRules utc msg ps r e) as [[gs2 r2] e2] eqn:Hrest.
    intros [= <- <- <-]. apply IH in Hrest as (outs & Houts & -> & ->); [|done|].
    2:{ intros i Hi. apply Hlt. by right. }
    exists outs. unfold matching in *. rewrite filter_cons_False by (by rewrite Hm).
    split_and!; [done|done|]. by rewrite (bump_skip msg p ps _ rs).
Qed.
End handle.

Lemma from_chitchat_incoming msg : from_chitchat (incoming msg) = from_chitchat msg.
Proof. unfold incoming. by case_bool_decide. Qed.

(** C2: handleMessage records the message first, exactly once.  A message that
    carries the origin header goes no further: no rule is evaluated, no counter
    moves, nothing is started.  For any other message the rules of the snapshot
    that match are counted once each, no other counter moves, and exactly those
    whose payload renders start one dispatch each, in rule order, all of them
    counted in the wait group. *)
Theorem handleMessage_correct `{Unicode, GoFmt, Gjson, Json, TextTemplate} {D R}
    `{Driver D, SpyRecorder R} (e e' : Engine D R) now utc msg r gs r' :
  engine_wf e →
  handleMessage now utc msg r e = (gs, r', e') →
  if from_chitchat msg then gs = [] ∧ r' = r ∧ e' = record now (incoming msg) e
  else
    let ms := matching (incoming msg) (loaded e) in
    ∃ outs, Forall2 (render_result (incoming msg)) ms outs ∧ gs = dispatches ms outs ∧
      e' = set_wg (e_wg e + length gs)
             (set_store (bump (incoming msg) (e_rules e) (e_store e))
                (record now (incoming msg) e)).
Proof.
  intros [Hnd Hlt]. unfold handleMessage. rewrite from_chitchat_incoming.
  destruct (from_chitchat msg); [by intros [= <- <- <-]|].
  intros Hrun. by apply handleRules_run in Hrun.
Qed.

(** Rendering that echoes the text of the template. *)
Definition echo_template : TextTemplate := {|
  tmpl := string;
  entropy := unit;
  tmpl_Parse s := if contains s "{{" then Err "unexpected action" else Ok s;
  tmpl_Execute t data r := (Ok t, r);
|}.

Definition example_engine : Engine MockDriver (list Message) :=
  NewEngine one_rule_config NewMockDriver (Some []).

(** A message on the queue of the example's rule. *)
Definition trigger_message : Message :=
  {| m_Queue := "q"; m_RoutingKey := "any"; m_Headers := ∅; m_Body := "{}"; m_Direction := "";
     m_Exchange := ""; m_Rule := ""; m_MessageID := "" |}.

Lemma example_engine_wf : engine_wf example_engine.
Proof.
  split; [repeat constructor; set_solver|].
  intros p Hp. apply list_elem_of_singleton in Hp as ->. simpl. lia.
Qed.

Lemma handleMessage_correct_witness :
  ∃ outs, @dispatches (matching (H1 := example_gjson) (H := example_unicode) (H0 := plain_fmt)
                        (incoming trigger_message) (loaded example_engine)) outs
          = [GoDispatch example_rule "hello"].
Proof.
  pose proof (@handleMessage_correct example_unicode plain_fmt example_gjson example_json
    echo_template MockDriver (list Message) _ _ example_engine
    (set_wg 1 (set_store [ {| rs_rule := example_rule; rs_matches := 1 |} ]
      (record 0 (incoming trigger_message) example_engine)))
    0 (λ _, "now") trigger_message tt [GoDispatch example_rule "hello"] tt
    example_engine_wf eq_refl) as (outs & _ & Hgs & _).
  by exists outs.
Defined.

(** ** Dispatching a response *)

Definition response_message (r : Rule) (payload : string) : PublishedMessage :=
  {| p_Exchange := mr_Exchange (r_MockResponse r);
     p_RoutingKey := mr_RoutingKey (r_MockResponse r);
     p_Body := payload; p_Headers := response_headers r |}.

Lemma response_stamped r msg : m_Headers msg = response_headers r → from_chitchat msg = true.
Proof. intros Hh. unfold from_chitchat, response_headers in *. by rewrite Hh, lookup_insert_eq. Qed.

Lemma dispatch_publish_run {D R} `{DriverSpec D} r payload (e : Engine D R) :
  let '(err, e') := dispatch_publish r payload e in
  e' = set_driver (e_driver e') e ∧
  published (e_driver e') =
    published (e_driver e) ++ match err with None => [response_message r payload] | _ => [] end.
Proof.
  unfold dispatch_publish.
  pose proof (published_publish (mr_Exchange (r_MockResponse r)) (mr_RoutingKey (r_MockResponse r))
    payload (response_headers r) (e_driver e)) as Hp.
  destruct (Publish _ _ _ _ _) as [err d]. simpl in *. split; [done|].
  rewrite Hp. by destruct err.
Qed.

(** C30: dispatch either gives up (only when the rule has a delay and the engine
    is cancelled during it) and does nothing, or publishes once: the broker gets
    the response with the configured headers and the origin header, and the spy
    records it when, and only when, the broker accepted it.  The configured
    headers are otherwise unchanged, and a message that comes back with the
    published ones is stopped by the loop guard. *)
Theorem dispatch_correct {D R} `{DriverSpec D, SpyRecorder R} now cancelled r payload
    (e : Engine D R) :
  (if delayed r && cancelled then dispatch now cancelled r payload e = e
   else
     let e' := dispatch now cancelled r payload e in
     match (dispatch_publish r payload e).1 with
     | None =>
       published (e_driver e') = published (e_driver e) ++ [response_message r payload] ∧
       e_spy e' = spy_Record now (published_record r payload) <$> e_spy e
     | Some _ => published (e_driver e') = published (e_driver e) ∧ e_spy e' = e_spy e
     end) ∧
  (∀ k, k ≠ OriginHeader → response_headers r !! k = mr_Headers (r_MockResponse r) !! k) ∧
  (∀ msg, m_Headers msg = response_headers r → from_chitchat msg = true).
Proof.
  split_and!; [| |apply response_stamped].
  - unfold dispatch. destruct (delayed r && cancelled); [done|].
    pose proof (dispatch_publish_run r payload e) as Hp. cbv zeta.
    destruct (dispatch_publish r payload e) as [[err|] e1]; destruct Hp as [-> Hp]; simpl in *.
    + by rewrite Hp, app_nil_r.
    + by rewrite Hp.
  - intros k Hk. unfold response_headers. by apply lookup_insert_ne.
Qed.

(** The delay a rule asks for is the delay it gets, in nanoseconds, unless
    it exceeds the range of a duration (some 292 years): the product then wraps,
    and one millisecond more than the largest representable delay is negative, so
    the response is not delayed at all. *)
Theorem delay_exact r :
  let ms := mr_DelayMS (r_MockResponse r) in
  (0 ≤ ms)%Z →
  (ms ≤ 9223372036854 → delay_ns r = ms * 1000000)%Z ∧
  (ms = 9223372036855 → delay_ns r < 0)%Z.
Proof.
  intros ms Hd. unfold delay_ns. fold ms. split.
  - intros Hle. rewrite (i64_small ms) by lia. by rewrite i64_small by lia.
  - intros ->. by vm_compute.
Qed.

Lemma delay_exact_witness : delay_ns example_rule = 5000000%Z.
Proof. apply (delay_exact example_rule); by vm_compute. Defined.

(** ** Preservation of well-formedness *)

Section preserved.
Context `{Unicode} {D R : Type} `{Driver D}.
Implicit Types e : Engine D R.

Lemma new_states_wf (rules : list Rule) h :
  NoDup (newRuleStates rules h).1 ∧
  ∀ p, p ∈ (newRuleStates rules h).1 → p < length (newRuleStates rules h).2.
Proof.
  simpl. split; [apply NoDup_seq|]. intros p Hp%elem_of_seq.
  rewrite length_app, length_map. lia.
Qed.

Lemma NewEngine_wf cfg (d : D) (s : option R) : engine_wf (NewEngine cfg d s).
Proof. destruct (new_states_wf (c_Rules cfg) []) as [? ?]. by split. Qed.

Lemma Start_wf e : engine_wf e → engine_wf (Start e).2.
Proof.
  intros [Hnd Hlt]. pose proof (declare_run (bc_Declarations (c_Broker (e_cfg e))) e) as Hd.
  pose proof (attach_run false (bc_Declarations (c_Broker (e_cfg e))) (desiredQueues (e_cfg e))
    e (desiredQueues_NoDup _)) as Ha.
  unfold Start. destruct (e_stopped e); [done|]. destruct (e_running e); [done|].
  destruct (declare _ e) as [[err|] e1].
  - destruct Ha as (d & s & -> & _). by split.
  - assert (e_cfg e1 = e_cfg e) as -> by by injection Hd as _ ->.
    destruct (consume_all false _ e1) as [[err|] e2].
    + destruct Ha as (d & s & -> & _). by split.
    + destruct Ha as (_ & ->). by split.
Qed.

Lemma Reload_wf cfg e : engine_wf e → engine_wf (Reload cfg e).2.
Proof.
  intros [Hnd Hlt].
  pose proof (attach_run true (bc_Declarations (c_Broker cfg)) (desiredQueues cfg) e
    (desiredQueues_NoDup _)) as Ha.
  unfold Reload. destruct (e_stopped e || negb (e_running e)); [done|].
  destruct (declare _ e) as [[err|] e1].
  - destruct Ha as (d & s & -> & _). by split.
  - destruct (consume_all true _ e1) as [[err|] e2].
    + destruct Ha as (d & s & -> & _). by split.
    + destruct Ha as (_ & ->). destruct (new_states_wf (c_Rules cfg) (e_store e)). by split.
Qed.
End preserved.

(** ** The shape of Start and Reload for clients that follow the engine *)

Section shape.
Context `{Unicode} {D R : Type} `{DriverSpec D}.
Implicit Types e : Engine D R.

(** Only the driver, without publishing, and the subscriptions may differ. *)
Definition reattached e (e' : Engine D R) : Prop :=
  ∃ d s, e' = reattach d s e ∧ published d = published (e_driver e).

Lemma reattached_refl e : reattached e e.
Proof. exists (e_driver e), (e_subscribed e). by rewrite reattach_self. Qed.

Lemma declare_reattached t e : reattached e (declare t e).2.
Proof.
  rewrite declare_run. eexists _, _. split; [reflexivity|]. apply published_declare.
Qed.

Lemma reattached_trans e1 e2 e3 : reattached e1 e2 → reattached e2 e3 → reattached e1 e3.
Proof.
  intros (d & s & -> & Hd) (d' & s' & -> & Hd'). exists d', s'. split; [done|].
  by rewrite Hd'.
Qed.

Lemma consume_reattached q e : reattached e (consume q e).2.
Proof.
  unfold consume. pose proof (published_consume q msgChan (e_driver e)) as Hp.
  destruct (StartConsuming q msgChan (e_driver e)) as [[x|] d]; simpl in *.
  - by exists d, (e_subscribed e).
  - by eexists d, _.
Qed.

Lemma consume_all_reattached skip qs e : reattached e (consume_all skip qs e).2.
Proof.
  revert e. induction qs as [|q qs IH]; intros e; [apply reattached_refl|]. cbn [consume_all].
  destruct (skip && _); [apply IH|]. pose proof (consume_reattached q e) as Hq.
  destruct (consume q e) as [[x|] e']; [done|]. by eapply reattached_trans.
Qed.

Lemma Start_shape e err gs e' :
  Start e = (err, gs, e') →
  (gs = [] ∧ reattached e e') ∨
  (gs = [GoProcessLoop] ∧ e_stopped e = false ∧ e_running e = false ∧
   ∃ e1, reattached e e1 ∧ e' = set_wg (S (e_wg e)) (set_running true e1)).
Proof.
  unfold Start. destruct (e_stopped e); [intros [= <- <- <-]; left; by split; [|apply reattached_refl]|].
  destruct (e_running e); [intros [= <- <- <-]; left; by split; [|apply reattached_refl]|].
  pose proof (declare_reattached (bc_Declarations (c_Broker (e_cfg e))) e) as Hr1.
  destruct (declare _ e) as [[x|] e1]; [intros [= <- <- <-]; by left|]. simpl in Hr1.
  pose proof (consume_all_reattached false (desiredQueues (e_cfg e1)) e1) as Hr2.
  destruct (consume_all _ _ e1) as [[x|] e2]; simpl in Hr2;
    assert (reattached e e2) as Hr3 by (by eapply reattached_trans); intros [= <- <- <-].
  - by left.
  - right. split_and!; [done..|]. exists e2. split; [done|].
    by destruct Hr3 as (d & s & -> & _).
Qed.

Lemma Reload_shape cfg e err e' :
  Reload cfg e = (err, e') →
  ∃ e1, reattached e e1 ∧
    (e' = e1 ∨ e' = set_cfg cfg (load_rules (c_Rules cfg) e1)).
Proof.
  unfold Reload. destruct (_ || _); [intros [= <- <-]; exists e; split; [apply reattached_refl|by left]|].
  pose proof (declare_reattached (bc_Declarations (c_Broker cfg)) e) as Hr1.
  destruct (declare _ e) as [[x|] e1]; [intros [= <- <-]; eexists; split; [done|by left]|].
  simpl in Hr1. pose proof (consume_all_reattached true (desiredQueues cfg) e1) as Hr2.
  destruct (consume_all _ _ e1) as [[x|] e2]; simpl in Hr2;
    assert (reattached e e2) as Hr3 by (by eapply reattached_trans); intros [= <- <-];
    exists e2; (split; [done|]); [by left|by right].
Qed.
End shape.
