(* ===== verification/EngineSystem.v ===== *)
(** * The running engine (pkg/engine/engine.go)

    The goroutines of the engine as a small-step relation: the processing loop,
    the dispatches, the callers of Start, Reload and Stop, the driver's delivery
    into the message channel and the clock.  A step is one critical section,
    channel operation or library call of the code.  Start and Reload hold the
    engine's mutex throughout, which keeps Stop and each other out, but not the
    workers and the deliveries: between the calls of the driver they make,
    everything else goes on. *)
From S2P Require Import Prelude GoStrings GoValue Libs Config Broker Validate Ring Matcher Template Engine.

(** ** States *)

(** Where processLoop is: not started, in its select, in handleMessage after the
    message was recorded, in the loop over a snapshot, or returned. *)
Inductive loop_pc :=
| LNone
| LSelect
| LGuard (msg : Message)
| LRules (msg : Message) (rest : list nat)
| LExit.

(** Where a dispatch is: at its start, in the select on its timer, about to
    publish, about to record. *)
Inductive task_pc :=
| TStart
| TWait (deadline : Z)
| TReady
| TRecord.

(** [t_born] is the time the dispatch was started at. *)
Record task := { t_rule : Rule; t_payload : string; t_pc : task_pc; t_born : Z }.

Definition at_pc (pc : task_pc) (t : task) : task :=
  {| t_rule := t_rule t; t_payload := t_payload t; t_pc := pc; t_born := t_born t |}.

(** A call of Start or Reload that has declared the topology and holds the mutex:
    the queues it has not looked at yet. *)
Inductive held_call :=
| CStart (rest : list string)
| CReload (cfg : Config) (rest : list string).

(** The mutex, and the call of Stop that closes the engine: nobody holds the mutex
    and Stop was not called, a Start or Reload holds it, Stop waits for the workers,
    or Stop returned, with its result and whether the workers were drained. *)
Inductive stop_pc :=
| SIdle
| SHeld (c : held_call)
| SWaiting
| SClosed (res : option string) (drained : bool).

(** What happened so far: the messages delivered to the channel, those handled
    with the size of the snapshot they were checked against, and the number of
    times the driver was closed. *)
Record history := {
  h_delivered : list Message;
  h_handled : list (Message * nat);
  h_closes : nat;
}.

Definition no_history : history := {| h_delivered := []; h_handled := []; h_closes := 0 |}.
Definition add_delivered (m : Message) (h : history) : history :=
  {| h_delivered := h_delivered h ++ [m]; h_handled := h_handled h; h_closes := h_closes h |}.
Definition add_handled (m : Message) (n : nat) (h : history) : history :=
  {| h_delivered := h_delivered h; h_handled := h_handled h ++ [(m, n)]; h_closes := h_closes h |}.
Definition add_close (h : history) : history :=
  {| h_delivered := h_delivered h; h_handled := h_handled h; h_closes := S (h_closes h) |}.

Record sys (D R : Type) := Sys {
  s_eng : Engine D R;
  s_loop : loop_pc;
  s_tasks : list task;
  s_stop : stop_pc;
  s_now : Z;
  s_hist : history;
}.
Arguments Sys {D R}. Arguments s_eng {D R}. Arguments s_loop {D R}. Arguments s_tasks {D R}.
Arguments s_stop {D R}. Arguments s_now {D R}. Arguments s_hist {D R}.

Definition spawn (now : Z) (gs : list goroutine) : list task :=
  omap (λ g, match g with
             | GoDispatch r payload =>
               Some {| t_rule := r; t_payload := payload; t_pc := TStart; t_born := now |}
             | GoProcessLoop => None
             end) gs.

(** wg.Done *)
Definition wg_done {D R} (e : Engine D R) : Engine D R := set_wg (pred (e_wg e)) e.

(** ** Steps *)

Section steps.
Context `{Unicode, GoFmt, Gjson, Json, TextTemplate} {D R : Type}
  `{Driver D, SpyRecorder R}.
Implicit Types (e : Engine D R) (s : sys D R).

(** The loop and the dispatches.  Go chooses freely among the ready cases of the
    loop's select, so it can receive after the cancellation too. *)
Inductive worker_step : sys D R → sys D R → Prop :=
| w_receive e m buf ts sp now h :
    e_buf e = m :: buf →
    worker_step (Sys e LSelect ts sp now h)
      (Sys (record now (incoming m) (set_buf buf e)) (LGuard (incoming m)) ts sp now h)
| w_exit e ts sp now h :
    e_cancelled e = true →
    worker_step (Sys e LSelect ts sp now h) (Sys (wg_done e) LExit ts sp now h)
| w_skip e m ts sp now h :
    from_chitchat m = true →
    worker_step (Sys e (LGuard m) ts sp now h)
                (Sys e LSelect ts sp now (add_handled m 0 h))
| w_snapshot e m ts sp now h :
    from_chitchat m = false →
    worker_step (Sys e (LGuard m) ts sp now h)
                (Sys e (LRules m (snapshotRules e)) ts sp now
                   (add_handled m (length (snapshotRules e)) h))
| w_rule e m p ps utc r gs r' e' ts sp now h :
    handleRule utc m p r e = (gs, r', e') →
    worker_step (Sys e (LRules m (p :: ps)) ts sp now h)
                (Sys e' (LRules m ps) (ts ++ spawn now gs) sp now h)
| w_rules_done e m ts sp now h :
    worker_step (Sys e (LRules m []) ts sp now h) (Sys e LSelect ts sp now h)
| w_begin e l ts1 t ts2 sp now h :
    t_pc t = TStart →
    worker_step (Sys e l (ts1 ++ t :: ts2) sp now h)
      (Sys e l (ts1 ++ at_pc (if delayed (t_rule t) then TWait (now + delay_ns (t_rule t))
                              else TReady) t :: ts2) sp now h)
| w_fire e l ts1 t ts2 d sp now h :
    t_pc t = TWait d → (d ≤ now)%Z →
    worker_step (Sys e l (ts1 ++ t :: ts2) sp now h)
                (Sys e l (ts1 ++ at_pc TReady t :: ts2) sp now h)
| w_cancel e l ts1 t ts2 d sp now h :
    t_pc t = TWait d → e_cancelled e = true →
    worker_step (Sys e l (ts1 ++ t :: ts2) sp now h) (Sys (wg_done e) l (ts1 ++ ts2) sp now h)
| w_publish e e' l ts1 t ts2 sp now h :
    t_pc t = TReady → dispatch_publish (t_rule t) (t_payload t) e = (None, e') →
    worker_step (Sys e l (ts1 ++ t :: ts2) sp now h)
                (Sys e' l (ts1 ++ at_pc TRecord t :: ts2) sp now h)
| w_refused e e' err l ts1 t ts2 sp now h :
    t_pc t = TReady → dispatch_publish (t_rule t) (t_payload t) e = (Some err, e') →
    worker_step (Sys e l (ts1 ++ t :: ts2) sp now h) (Sys (wg_done e') l (ts1 ++ ts2) sp now h)
| w_record e l ts1 t ts2 sp now h :
    t_pc t = TRecord →
    worker_step (Sys e l (ts1 ++ t :: ts2) sp now h)
      (Sys (wg_done (record now (published_record (t_rule t) (t_payload t)) e)) l (ts1 ++ ts2)
         sp now h).

(** A call that goes on after the driver's answer, or returns its error. *)
Definition held (err : option string) (c : held_call) : stop_pc :=
  match err with Some _ => SIdle | None => SHeld c end.

(** Everything else. A call of Start or Reload that the flags refuse does nothing
    and is no step. A driver leaves the direction of a message it delivers
    empty (the mock driver) or sets it to received (the RabbitMQ driver). *)
Inductive env_step : sys D R → sys D R → Prop :=
| v_deliver e m l ts sp now h :
    length (e_buf e) < msgChan_cap → m_Queue m ∈ e_subscribed e →
    m_Direction m ≠ DirectionPublished →
    env_step (Sys e l ts sp now h)
             (Sys (set_buf (e_buf e ++ [m]) e) l ts sp now (add_delivered m h))
| v_start e e' err l ts now h :
    e_stopped e = false → e_running e = false →
    declare (bc_Declarations (c_Broker (e_cfg e))) e = (err, e') →
    env_step (Sys e l ts SIdle now h)
             (Sys e' l ts (held err (CStart (desiredQueues (e_cfg e')))) now h)
| v_start_consume q qs e e' err l ts now h :
    consume q e = (err, e') →
    env_step (Sys e l ts (SHeld (CStart (q :: qs))) now h)
             (Sys e' l ts (held err (CStart qs)) now h)
| v_started e l ts now h :
    env_step (Sys e l ts (SHeld (CStart [])) now h)
             (Sys (set_wg (S (e_wg e)) (set_running true e)) LSelect ts SIdle now h)
| v_reload cfg e e' err l ts now h :
    e_stopped e || negb (e_running e) = false →
    declare (bc_Declarations (c_Broker cfg)) e = (err, e') →
    env_step (Sys e l ts SIdle now h)
             (Sys e' l ts (held err (CReload cfg (desiredQueues cfg))) now h)
| v_reload_skip cfg q qs e l ts now h :
    q ∈ e_subscribed e →
    env_step (Sys e l ts (SHeld (CReload cfg (q :: qs))) now h)
             (Sys e l ts (SHeld (CReload cfg qs)) now h)
| v_reload_consume cfg q qs e e' err l ts now h :
    q ∉ e_subscribed e → consume q e = (err, e') →
    env_step (Sys e l ts (SHeld (CReload cfg (q :: qs))) now h)
             (Sys e' l ts (held err (CReload cfg qs)) now h)
| v_reloaded cfg e l ts now h :
    env_step (Sys e l ts (SHeld (CReload cfg [])) now h)
             (Sys (set_cfg cfg (load_rules (c_Rules cfg) e)) l ts SIdle now h)
| v_stop e e' l ts now h :
    stop_begin e = (true, e') →
    env_step (Sys e l ts SIdle now h) (Sys e' l ts SWaiting now h)
| v_drained e e' res l ts now h :
    e_wg e = 0 → stop_finish None e = (res, e') →
    env_step (Sys e l ts SWaiting now h) (Sys e' l ts (SClosed res true) now (add_close h))
| v_timeout ctx_err e e' res l ts now h :
    stop_finish (Some (stop_wait_error ctx_err)) e = (res, e') →
    env_step (Sys e l ts SWaiting now h) (Sys e' l ts (SClosed res false) now (add_close h))
| v_tick e l ts sp now now' h :
    (now ≤ now')%Z → env_step (Sys e l ts sp now h) (Sys e l ts sp now' h).

Inductive step (s s' : sys D R) : Prop :=
| step_worker : worker_step s s' → step s s'
| step_env : env_step s s' → step s s'.

(** The states of an engine made with the driver [d0] and the recorder [spy0]. *)
Inductive reachable (d0 : D) (spy0 : option R) : sys D R → Prop :=
| reach_new cfg now :
    reachable d0 spy0 (Sys (NewEngine cfg d0 spy0) LNone [] SIdle now no_history)
| reach_step s s' : reachable d0 spy0 s → step s s' → reachable d0 spy0 s'.
End steps.

Lemma reachable_run `{Unicode, GoFmt, Gjson, Json, TextTemplate} {D R}
    `{Driver D, SpyRecorder R} (d0 : D) (spy0 : option R) s s' :
  reachable d0 spy0 s → rtc step s s' → reachable d0 spy0 s'.
Proof. intros Hr. induction 1 as [s|s s1 s' Hs _ IH]; [done|]. by eapply IH, reach_step. Qed.

(** ** Accounting *)

Definition live (l : loop_pc) : nat := match l with LNone | LExit => 0 | _ => 1 end.

(** Stop has begun. *)
Definition stopping (sp : stop_pc) : bool :=
  match sp with SIdle | SHeld _ => false | _ => true end.

(** A Start in progress found the engine not running, a Reload found it running. *)
Definition held_ok (sp : stop_pc) (running : bool) : Prop :=
  match sp with
  | SHeld (CStart _) => running = false
  | SHeld (CReload _ _) => running = true
  | _ => True
  end.

Definition is_closed (sp : stop_pc) : nat := match sp with SClosed _ _ => 1 | _ => 0 end.

Section invariant.
Context `{Unicode, GoFmt, Gjson, Json, TextTemplate} {D R : Type}
  `{DriverSpec D, SpyRecorder R}.
Implicit Types (e : Engine D R) (s : sys D R).

Lemma handleRule_shape utc m p r e gs r' e' :
  handleRule utc m p r e = (gs, r', e') →
  ∃ h, length h = length (e_store e) ∧
    e' = set_wg (e_wg e + length gs) (set_store h e) ∧
    (gs = [] ∨ ∃ rs body, gs = [GoDispatch (rs_rule rs) body]).
Proof.
  unfold handleRule. assert (e = set_wg (e_wg e + 0) (set_store (e_store e) e)) as He.
  { rewrite Nat.add_0_r. by destruct e. }
  destruct (e_store e !! p) as [rs|];
    [|intros [= <- <- <-]; exists (e_store e); by split_and!; [|exact He|left]].
  destruct (negb _); [intros [= <- <- <-]; exists (e_store e); by split_and!; [|exact He|left]|].
  destruct (RenderPayload _ _ _ _) as [[body|err] r1]; intros [= <- <- <-];
    exists (incMatches p (e_store e)); (split; [apply length_alter|]).
  - split; [|by right; eexists _, _]. simpl. by rewrite Nat.add_1_r.
  - split; [|by left]. simpl. by rewrite Nat.add_0_r.
Qed.

Lemma length_spawn now gs :
  (gs = [] ∨ ∃ rs body, gs = [GoDispatch (rs_rule rs) body]) →
  length (spawn now gs) = length gs.
Proof. by intros [->|(rs & body & ->)]. Qed.

(** Rule pointers the loop still has to visit. *)
Definition rest_ok (l : loop_pc) (n : nat) : Prop :=
  match l with LRules m ps => from_chitchat m = false ∧ ∀ p, p ∈ ps → p < n | _ => True end.

Record inv (s : sys D R) : Prop := {
  inv_wf : engine_wf (s_eng s);
  inv_wg : e_wg (s_eng s) = live (s_loop s) + length (s_tasks s);
  inv_rest : rest_ok (s_loop s) (length (e_store (s_eng s)));
  inv_cancelled : e_cancelled (s_eng s) = e_stopped (s_eng s);
  inv_stopped : e_stopped (s_eng s) = stopping (s_stop s);
  inv_held : held_ok (s_stop s) (e_running (s_eng s));
  inv_running : e_running (s_eng s) = true ↔ s_loop s ≠ LNone ∧ e_stopped (s_eng s) = false;
  inv_none : s_loop s = LNone → s_tasks s = [];
  inv_exit : s_loop s = LExit → e_stopped (s_eng s) = true;
  inv_drained res : s_stop s = SClosed res true → live (s_loop s) = 0 ∧ s_tasks s = [];
  inv_closes : h_closes (s_hist s) = is_closed (s_stop s);
}.

(** What every step of a worker leaves alone in the engine. *)
Record same_flags e e' : Prop := {
  sf_rules : e_rules e' = e_rules e;
  sf_store : length (e_store e') = length (e_store e);
  sf_cancelled : e_cancelled e' = e_cancelled e;
  sf_stopped : e_stopped e' = e_stopped e;
  sf_running : e_running e' = e_running e;
}.

Lemma inv_workers e e' l l' ts ts' sp now now' h h' :
  inv (Sys e l ts sp now h) → same_flags e e' →
  e_wg e' + (live l + length ts) = e_wg e + (live l' + length ts') →
  rest_ok l' (length (e_store e)) →
  (live l = 0 → ts = [] → l' = l ∧ ts' = []) →
  (l' = LNone → l = LNone) → (l' = LExit → l = LExit ∨ e_cancelled e = true) →
  h_closes h' = h_closes h →
  inv (Sys e' l' ts' sp now' h').
Proof.
  intros [[Hnd Hlt] Hwg Hrest Hcan Hstop Hheld Hrun Hnone Hexit Hdr Hcl]
    [Hr Hs Hc Hst Hru] Hn Hok Hidle HLN HLE Hh; simpl in *.
  split; simpl; rewrite ?Hr, ?Hs, ?Hc, ?Hst, ?Hru, ?Hh; try done.
  - split; rewrite ?Hr, ?Hs; done.
  - lia.
  - rewrite Hrun. split; [|naive_solver]. intros [Hl Hstd]. split; [naive_solver|done].
  - intros ->. apply Hidle; [by rewrite (HLN eq_refl)|by apply Hnone, HLN].
  - intros ->. destruct (HLE eq_refl) as [->|Hc']; [by apply Hexit|congruence].
  - intros res Hsp. destruct (Hdr res Hsp) as [Hl Hts].
    destruct (Hidle Hl Hts) as [-> ->]. done.
Qed.

Lemma same_flags_refl e : same_flags e e.
Proof. by split. Qed.

Lemma no_tasks_middle {A} (l k : list A) x (P : Prop) : l ++ x :: k = [] → P.
Proof. by destruct l. Qed.

Lemma worker_inv s s' : inv s → worker_step s s' → inv s'.
Proof.
  intros Hinv Hstep. pose proof (inv_wg _ Hinv) as Hwg. pose proof (inv_rest _ Hinv) as Hrest.
  pose proof (inv_wf _ Hinv) as [_ Hlt].
  destruct Hstep; simpl in *; rewrite ?length_app in Hwg; simpl in Hwg;
    try match goal with
      | Hd : dispatch_publish ?r ?p ?e = _ |- _ =>
        pose proof (dispatch_publish_run r p e) as Hpub; rewrite Hd in Hpub;
        destruct Hpub as [-> _]
      | Hh : handleRule _ _ _ _ _ = _ |- _ =>
        apply handleRule_shape in Hh as (hp & Hlen & -> & Hgs)
      end;
    (eapply inv_workers; [exact Hinv|..]);
    try (intros _; apply no_tasks_middle); try done; try (by split); try (by destruct l);
    simpl; rewrite ?length_app; simpl; try rewrite length_spawn by done;
    try lia; try (by right); try (by left).
  destruct Hrest as [Hm Hps]. split; [done|]. intros q Hq. apply Hps. by right.
Qed.

Lemma reattached_fields e e1 :
  reattached e e1 → same_flags e e1 ∧ e_wg e1 = e_wg e ∧ e_store e1 = e_store e.
Proof. by intros (d & s & -> & _). Qed.

Lemma not_running_none (l : loop_pc) :
  (false = true ↔ l ≠ LNone ∧ false = false) → l = LNone.
Proof. intros Hrun. destruct l; try done; assert (false = true) by (by apply Hrun); done. Qed.

(** A call of the driver by Start or Reload. *)
Lemma inv_attach e e1 l ts sp sp' now h :
  inv (Sys e l ts sp now h) → reattached e e1 → stopping sp = false → stopping sp' = false →
  held_ok sp' (e_running e) → inv (Sys e1 l ts sp' now h).
Proof.
  intros Hinv Hr Hsp Hsp' Hok. apply reattached_fields in Hr as (Hf & Hwg & Hstore).
  assert (inv (Sys e1 l ts sp now h)) as Hinv1.
  { eapply inv_workers; [exact Hinv|done|simpl; lia| |done|done|by left|done].
    exact (inv_rest _ Hinv). }
  destruct Hinv1 as [Hwf Hwg' Hrest Hcan Hstop Hheld Hrun Hnone Hexit Hdr Hcl]; simpl in *.
  split; simpl; try done.
  - by rewrite Hstop, Hsp, Hsp'.
  - by rewrite (sf_running _ _ Hf).
  - by intros res ->.
  - rewrite Hcl. by destruct sp, sp'.
Qed.

Lemma held_running e err c :
  held_ok (SHeld c) (e_running e) → held_ok (held err c) (e_running e).
Proof. by destruct err. Qed.

Lemma stopping_held err c : stopping (held err c) = false.
Proof. by destruct err. Qed.

Lemma env_inv s s' : inv s → env_step s s' → inv s'.
Proof.
  intros Hinv Hstep. pose proof (inv_held _ Hinv) as Hheld0.
  destruct Hstep as [e m l ts sp now h _ _ Hm|e e' err l ts now h Hst Hru Hd
    |q qs e e' err l ts now h Hc|e l ts now h|cfg e e' err l ts now h Hg Hd
    |cfg q qs e l ts now h Hq|cfg q qs e e' err l ts now h Hq Hc|cfg e l ts now h
    |e e' l ts now h Hs|e e' res l ts now h Hw Hs|ctx_err e e' res l ts now h Hs
    |e l ts sp now now' h Hle].
  - eapply inv_workers; [exact Hinv|..]; try done; [|by left]. exact (inv_rest _ Hinv).
  - pose proof (declare_reattached (bc_Declarations (c_Broker (e_cfg e))) e) as Hr. rewrite Hd in Hr.
    eapply inv_attach; [exact Hinv|exact Hr|done|apply stopping_held|by apply held_running].
  - pose proof (consume_reattached q e) as Hr. rewrite Hc in Hr.
    eapply inv_attach; [exact Hinv|exact Hr|done|apply stopping_held|by apply held_running].
  - destruct Hinv as [[Hnd Hlt] Hwg' Hrest Hcan Hstop Hheld Hrun Hnone Hexit Hdr Hcl]; simpl in *.
    rewrite Hheld, Hstop in Hrun. apply not_running_none in Hrun as ->.
    split; simpl; try done. by rewrite Hwg'.
  - pose proof (declare_reattached (bc_Declarations (c_Broker cfg)) e) as Hr. rewrite Hd in Hr.
    apply orb_false_iff in Hg as [_ Hru%negb_false_iff].
    eapply inv_attach; [exact Hinv|exact Hr|done|apply stopping_held|by apply held_running].
  - by eapply inv_attach; [exact Hinv|apply reattached_refl|..].
  - pose proof (consume_reattached q e) as Hr. rewrite Hc in Hr.
    eapply inv_attach; [exact Hinv|exact Hr|done|apply stopping_held|by apply held_running].
  - destruct Hinv as [_ Hwg' Hrest Hcan Hstop Hheld Hrun Hnone Hexit Hdr Hcl]; simpl in *.
    destruct (new_states_wf (c_Rules cfg) (e_store e)).
    split; simpl; try done; try (by split).
    destruct l; simpl in *; try done. destruct Hrest as [Hm Hps]. split; [done|].
    intros p Hp. rewrite length_app. specialize (Hps p Hp). lia.
  - unfold stop_begin in Hs. destruct (e_stopped e) eqn:Hst; [done|]. injection Hs as <-.
    destruct Hinv as [[Hnd Hlt] Hwg' Hrest Hcan Hstop Hheld Hrun Hnone Hexit Hdr Hcl]; simpl in *.
    split; simpl; try done. by split; [|intros [_ ?]].
  - unfold stop_finish in Hs. destruct (Close (e_driver e)) as [ce d]. injection Hs as <- <-.
    destruct Hinv as [[Hnd Hlt] Hwg' Hrest Hcan Hstop Hheld Hrun Hnone Hexit Hdr Hcl]; simpl in *.
    split; simpl; try done; try (by rewrite Hcl).
    intros res' [= <-]. rewrite Hw in Hwg'. destruct ts; simpl in *; [|lia]. split; [lia|done].
  - unfold stop_finish in Hs. destruct (Close (e_driver e)) as [ce d]. injection Hs as <- <-.
    destruct Hinv as [[Hnd Hlt] Hwg' Hrest Hcan Hstop Hheld Hrun Hnone Hexit Hdr Hcl]; simpl in *.
    split; simpl; try done; try (by rewrite Hcl).
  - destruct Hinv as [[Hnd Hlt] Hwg' Hrest Hcan Hstop Hheld Hrun Hnone Hexit Hdr Hcl]; simpl in *.
    by split.
Qed.

Lemma reachable_inv d0 spy0 s : reachable d0 spy0 s → inv s.
Proof.
  induction 1 as [cfg now|s s' _ IH [Hs|Hs]].
  - split; simpl; try done; [apply NewEngine_wf|naive_solver].
  - by eapply worker_inv.
  - by eapply env_inv.
Qed.
End invariant.

(** Opens the step of a worker, with what it does to the driver or the store. *)
Ltac open_step Hstep :=
  destruct Hstep; simpl in *;
  try match goal with
      | Hd : dispatch_publish ?r ?p ?e = _ |- _ =>
        pose proof (dispatch_publish_run r p e) as Hpub; rewrite Hd in Hpub;
        destruct Hpub as [-> Hpub]; simpl in *; try rewrite Hpub
      | Hh : handleRule _ _ _ _ _ = _ |- _ =>
        apply handleRule_shape in Hh as (hp & Hlen & -> & Hgs); simpl in *
      end.

(** ** What has happened so far *)

(** The rule evaluations the messages of others asked for. *)
Definition budget (h : history) : nat :=
  sum_list_with snd (filter (λ x, from_chitchat x.1 = false) (h_handled h)).

Definition in_guard (l : loop_pc) : list Message := match l with LGuard m => [m] | _ => [] end.
Definition rest_len (l : loop_pc) : nat := match l with LRules _ ps => length ps | _ => 0 end.

(** Dispatches that have not published yet. *)
Definition unpublished (t : task) : nat := match t_pc t with TRecord => 0 | _ => 1 end.
Definition pending (ts : list task) : nat := sum_list_with unpublished ts.

(** A dispatch of a rule with a delay does not get past its timer early, and its
    timer is not set for later than the delay from now. *)
Definition timely (now : Z) (t : task) : Prop :=
  (t_born t ≤ now)%Z ∧
  match t_pc t with
  | TStart => True
  | TWait d => (t_born t + delay_ns (t_rule t) ≤ d ≤ now + delay_ns (t_rule t))%Z
  | _ => delayed (t_rule t) = true → (t_born t + delay_ns (t_rule t) ≤ now)%Z
  end.

Lemma pending_app ts1 ts2 : pending (ts1 ++ ts2) = pending ts1 + pending ts2.
Proof. apply sum_list_with_app. Qed.

Lemma pending_middle ts1 t ts2 :
  pending (ts1 ++ t :: ts2) = pending ts1 + unpublished t + pending ts2.
Proof. rewrite pending_app. unfold pending. simpl. lia. Qed.

Lemma budget_app h m n :
  budget (add_handled m n h) = budget h + (if from_chitchat m then 0 else n).
Proof.
  unfold budget, add_handled. cbn [h_handled]. rewrite filter_app, sum_list_with_app.
  f_equal. destruct (from_chitchat m) eqn:Hm.
  - by rewrite filter_cons_False, filter_nil by (simpl; by rewrite Hm).
  - rewrite filter_cons_True, filter_nil by done. simpl. lia.
Qed.

Section trace.
Context `{Unicode, GoFmt, Gjson, Json, TextTemplate} {D R : Type}
  `{DriverSpec D, SpyRecorder R} (d0 : D).
Implicit Types (e : Engine D R) (s : sys D R).

Definition fifo s : Prop :=
  map fst (h_handled (s_hist s)) ++ in_guard (s_loop s) ++ map incoming (e_buf (s_eng s)) =
  map incoming (h_delivered (s_hist s)).

Definition within_budget s : Prop :=
  length (published (e_driver (s_eng s))) + pending (s_tasks s) + rest_len (s_loop s) ≤
  length (published d0) + budget (s_hist s).

Definition all_stamped s : Prop :=
  ∃ new, published (e_driver (s_eng s)) =
         published d0 ++ map (λ x, response_message x.1 x.2) new.

Definition all_timely s : Prop := Forall (timely (s_now s)) (s_tasks s).

Record traced (s : sys D R) : Prop := {
  tr_fifo : fifo s;
  tr_budget : within_budget s;
  tr_stamped : all_stamped s;
  tr_timely : all_timely s;
}.

Lemma timely_mono now now' t : (now ≤ now')%Z → timely now t → timely now' t.
Proof.
  intros Hle [Hb Ht]. split; [lia|].
  destruct (t_pc t); [done|lia|intros Hd; specialize (Ht Hd); lia..].
Qed.

Lemma spawn_timely now gs : Forall (timely now) (spawn now gs).
Proof.
  apply Forall_forall. intros t (g & _ & Hg)%list_elem_of_omap. destruct g; simplify_eq/=.
  split; simpl; [lia|done].
Qed.

Lemma pending_spawn now gs : pending (spawn now gs) = length (spawn now gs).
Proof.
  unfold pending, spawn. induction gs as [|[] gs IH]; simpl; [done|exact IH|]. f_equal. exact IH.
Qed.

Lemma worker_fifo s s' : fifo s → worker_step s s' → fifo s'.
Proof.
  unfold fifo. intros Hf Hstep.
  open_step Hstep; try done; try by rewrite map_app, <- app_assoc.
  select (e_buf _ = _) (fun Hb => by rewrite Hb in Hf).
Qed.

Lemma worker_budget s s' : within_budget s → worker_step s s' → within_budget s'.
Proof.
  unfold within_budget. intros Hb Hstep.
  open_step Hstep;
    rewrite ?budget_app, ?pending_middle, ?pending_app, ?length_app in *;
    try match goal with Hpc : t_pc _ = _ |- _ => unfold unpublished in *; rewrite Hpc in Hb end;
    try match goal with Hm : from_chitchat _ = _ |- _ => rewrite Hm end;
    simpl; try lia.
  - rewrite pending_spawn, length_spawn by done.
    destruct Hgs as [->|(rs & body & ->)]; simpl; lia.
  - destruct (delayed (t_rule t)); simpl; lia.
Qed.

Lemma worker_stamped s s' : all_stamped s → worker_step s s' → all_stamped s'.
Proof.
  unfold all_stamped. intros [new Hnew] Hstep.
  open_step Hstep; try (by exists new).
  - exists (new ++ [(t_rule t, t_payload t)]). by rewrite Hnew, map_app, <- app_assoc.
  - exists new. by rewrite app_nil_r.
Qed.

Lemma worker_timely s s' : all_timely s → worker_step s s' → all_timely s'.
Proof.
  unfold all_timely. intros Ht Hstep. open_step Hstep; try done;
    try (apply Forall_app in Ht as [Ht1 [[Hb Ht] Ht2]%Forall_cons]);
    try match goal with Hpc : t_pc _ = _ |- _ => rewrite Hpc in Ht end;
    try (by apply Forall_app); try (apply Forall_app; split; [done|]).
  - apply spawn_timely.
  - constructor; [|done]. split; [done|]. simpl.
    destruct (delayed (t_rule t)) eqn:Hd; simpl; [lia|congruence].
  - constructor; [|done]. split; [done|]. simpl. intros _. lia.
  - constructor; [|done]. by split.
Qed.

Lemma worker_traced s s' : traced s → worker_step s s' → traced s'.
Proof.
  intros [Hf Hb Hs Ht] Hstep.
  split; eauto using worker_fifo, worker_budget, worker_stamped, worker_timely.
Qed.

Lemma reattached_traced e e1 l ts sp now h :
  reattached e e1 → traced (Sys e l ts sp now h) → traced (Sys e1 l ts sp now h).
Proof.
  intros (d & q & -> & Hd) [Hf Hb Hs Ht].
  split; [exact Hf| | |exact Ht]; unfold within_budget, all_stamped in *; simpl in *;
    by rewrite Hd.
Qed.

Lemma closed_traced e d l ts sp sp' now h :
  published d = published (e_driver e) → traced (Sys e l ts sp now h) →
  traced (Sys (set_driver d e) l ts sp' now (add_close h)).
Proof.
  intros Hd [Hf Hb Hs Ht].
  split; [exact Hf| | |exact Ht]; unfold within_budget, all_stamped in *; simpl in *;
    by rewrite Hd.
Qed.

(** The control of the engine does not matter to what has happened. *)
Lemma traced_control e l ts sp sp' now h :
  traced (Sys e l ts sp now h) → traced (Sys e l ts sp' now h).
Proof. by intros [Hf Hb Hs Ht]. Qed.

Lemma env_traced s s' : inv s → traced s → env_step s s' → traced s'.
Proof.
  intros Hinv Htr Hstep.
  destruct Hstep as [e m l ts sp now h _ _ Hm|e e' err l ts now h Hst Hru Hd
    |q qs e e' err l ts now h Hc|e l ts now h|cfg e e' err l ts now h Hg Hd
    |cfg q qs e l ts now h Hq|cfg q qs e e' err l ts now h Hq Hc|cfg e l ts now h
    |e e' l ts now h Hs|e e' res l ts now h Hw Hs|ctx_err e e' res l ts now h Hs
    |e l ts sp now now' h Hle].
  - destruct Htr as [Hf Hb Hs Ht]. split; [|exact Hb|exact Hs|exact Ht].
    unfold fifo in *. simpl in *. by rewrite !map_app, <- Hf, <- !app_assoc.
  - pose proof (declare_reattached (bc_Declarations (c_Broker (e_cfg e))) e) as Hr. rewrite Hd in Hr.
    by eapply reattached_traced, traced_control.
  - pose proof (consume_reattached q e) as Hr. rewrite Hc in Hr.
    by eapply reattached_traced, traced_control.
  - destruct Htr as [Hf Hb Hs Ht]. pose proof (inv_running _ Hinv) as Hrun.
    pose proof (inv_held _ Hinv) as Hheld. pose proof (inv_stopped _ Hinv) as Hst. simpl in *.
    rewrite Hheld, Hst in Hrun. apply not_running_none in Hrun as ->. by split.
  - pose proof (declare_reattached (bc_Declarations (c_Broker cfg)) e) as Hr. rewrite Hd in Hr.
    by eapply reattached_traced, traced_control.
  - by eapply traced_control.
  - pose proof (consume_reattached q e) as Hr. rewrite Hc in Hr.
    by eapply reattached_traced, traced_control.
  - destruct Htr as [Hf Hb Hs Ht]. by split.
  - unfold stop_begin in Hs. destruct (e_stopped e); [done|]. injection Hs as <-.
    destruct Htr as [Hf Hb Hs Ht]. by split.
  - unfold stop_finish in Hs. pose proof (published_close (e_driver e)) as Hp.
    destruct (Close (e_driver e)) as [ce d]. injection Hs as <- <-.
    by eapply closed_traced.
  - unfold stop_finish in Hs. pose proof (published_close (e_driver e)) as Hp.
    destruct (Close (e_driver e)) as [ce d]. injection Hs as <- <-.
    by eapply closed_traced.
  - destruct Htr as [Hf Hb Hs Ht]. split; [exact Hf|exact Hb|exact Hs|].
    unfold all_timely in *. simpl in *. eapply Forall_impl; [exact Ht|].
    intros t. by apply timely_mono.
Qed.

Lemma reachable_traced spy0 s : reachable d0 spy0 s → traced s.
Proof.
  induction 1 as [cfg now|s s' Hr IH [Hs|Hs]].
  - split; [done| | |constructor].
    + unfold within_budget. simpl. lia.
    + exists []. simpl. by rewrite app_nil_r.
  - by eapply worker_traced.
  - eapply env_traced; [by eapply reachable_inv|done|done].
Qed.
End trace.

(** ** What the spy has seen *)

Definition as_published (m : Message) : PublishedMessage :=
  {| p_Exchange := m_Exchange m; p_RoutingKey := m_RoutingKey m; p_Body := m_Body m;
     p_Headers := m_Headers m |}.

Definition response_of (t : task) : PublishedMessage :=
  response_message (t_rule t) (t_payload t).

(** Between the publication and its record. *)
Definition recording (t : task) : bool := match t_pc t with TRecord => true | _ => false end.

Definition records_published (m : Message) : Prop := m_Direction m = DirectionPublished.
#[export] Instance records_published_dec m : Decision (records_published m).
Proof. unfold records_published. apply _. Defined.

(** What the dispatches have published and not recorded yet. *)
Definition in_flight (ts : list task) : list PublishedMessage :=
  map response_of (filter (λ t, recording t = true) ts).

Lemma in_flight_app ts1 ts2 : in_flight (ts1 ++ ts2) = in_flight ts1 ++ in_flight ts2.
Proof. unfold in_flight. by rewrite filter_app, map_app. Qed.

Lemma in_flight_cons t ts :
  in_flight (t :: ts) = (if recording t then [response_of t] else []) ++ in_flight ts.
Proof.
  unfold in_flight. destruct (recording t) eqn:Ht.
  - by rewrite filter_cons_True.
  - by rewrite filter_cons_False by (by rewrite Ht).
Qed.

Lemma in_flight_spawn now gs : in_flight (spawn now gs) = [].
Proof.
  unfold in_flight. rewrite filter_none; [done|].
  intros t (g & _ & Hg)%list_elem_of_omap. destruct g; by simplify_eq/=.
Qed.

(** The messages the spy recorded as published, and the others. *)
Definition pub_log (log : list Message) : list PublishedMessage :=
  map as_published (filter records_published log).
Definition recv_log (log : list Message) : list Message :=
  filter (λ m, ¬ records_published m) log.

Lemma log_publish log r payload :
  pub_log (log ++ [published_record r payload]) = pub_log log ++ [response_message r payload] ∧
  recv_log (log ++ [published_record r payload]) = recv_log log.
Proof.
  unfold pub_log, recv_log. rewrite !filter_app, filter_cons_True, map_app by done.
  split; [done|]. rewrite filter_cons_False by (intros Hn; by apply Hn). apply app_nil_r.
Qed.

Lemma log_receive log m :
  m_Direction m ≠ DirectionPublished →
  pub_log (log ++ [incoming m]) = pub_log log ∧
  recv_log (log ++ [incoming m]) = recv_log log ++ [incoming m].
Proof.
  intros Hm. assert (¬ records_published (incoming m)) as Hn.
  { unfold incoming, records_published. by case_bool_decide. }
  unfold pub_log, recv_log. rewrite !filter_app, (filter_cons_False records_published) by done.
  by rewrite (filter_cons_True (λ m, ¬ records_published m)), app_nil_r.
Qed.

Section spied.
Context `{Unicode, GoFmt, Gjson, Json, TextTemplate} {D : Type} `{DriverSpec D} (d0 : D).
Implicit Types (e : Engine D (list Message)) (s : sys D (list Message)).

(** With a spy that keeps everything: its records of publications, with those
    about to be made, are what was published; its other records are the messages
    handled, in order. *)
Record conserved s (log : list Message) : Prop := {
  co_spy : e_spy (s_eng s) = Some log;
  co_published : published (e_driver (s_eng s)) ≡ₚ
                   published d0 ++ pub_log log ++ in_flight (s_tasks s);
  co_received : recv_log log = map fst (h_handled (s_hist s)) ++ in_guard (s_loop s);
  co_incoming : Forall (λ m, m_Direction m ≠ DirectionPublished) (e_buf (s_eng s));
}.

Lemma worker_conserved s s' log :
  conserved s log → worker_step s s' → ∃ log', conserved s' log'.
Proof.
  intros [Hspy Hp Hrec Hdir] Hstep.
  open_step Hstep; rewrite ?in_flight_app, ?in_flight_cons in Hp;
    try match goal with Hpc : t_pc _ = _ |- _ =>
      unfold recording in Hp at 1; rewrite Hpc in Hp; simpl in Hp end.
  all: try (exists log; split; simpl;
    rewrite ?map_app, ?in_flight_app, ?in_flight_cons, ?in_flight_spawn, ?app_nil_r in *;
    simpl in *; rewrite ?app_nil_r in *; try done; fail).
  - select (e_buf _ = _) (fun Hbuf => rewrite Hbuf in Hdir).
    apply Forall_cons in Hdir as [Hm Hdir]. destruct (log_receive log m Hm) as [Hl1 Hl2].
    exists (log ++ [incoming m]). split; simpl; [by rewrite Hspy|by rewrite Hl1| |done].
    by rewrite Hl2, Hrec, app_nil_r.
  - exists log. split; simpl; try done. rewrite in_flight_app, in_flight_cons.
    by destruct (delayed (t_rule t)).
  - exists log. split; simpl; try done. rewrite in_flight_app, in_flight_cons, Hpub, Hp.
    fold (response_of t). simpl. solve_Permutation.
  - exists log. split; simpl; try done. by rewrite in_flight_app, Hpub, app_nil_r.
  - exists (log ++ [published_record (t_rule t) (t_payload t)]).
    destruct (log_publish log (t_rule t) (t_payload t)) as [Hl1 Hl2].
    split; simpl; [by rewrite Hspy| |by rewrite Hl2|done].
    rewrite Hl1, in_flight_app, Hp. fold (response_of t). solve_Permutation.
Qed.

Lemma reattached_conserved e e1 l ts sp now h log :
  reattached e e1 → conserved (Sys e l ts sp now h) log → conserved (Sys e1 l ts sp now h) log.
Proof. intros (d & q & -> & Hd) [Hspy Hp Hrec Hdir]. split; simpl in *; try done. by rewrite Hd. Qed.

Lemma conserved_control e l ts sp sp' now h log :
  conserved (Sys e l ts sp now h) log → conserved (Sys e l ts sp' now h) log.
Proof. by intros [Hspy Hp Hrec Hdir]. Qed.

Lemma env_conserved s s' log : inv s → conserved s log → env_step s s' → ∃ log', conserved s' log'.
Proof.
  intros Hinv Htr Hstep. exists log.
  destruct Hstep as [e m l ts sp now h _ _ Hm|e e' err l ts now h Hst Hru Hd
    |q qs e e' err l ts now h Hc|e l ts now h|cfg e e' err l ts now h Hg Hd
    |cfg q qs e l ts now h Hq|cfg q qs e e' err l ts now h Hq Hc|cfg e l ts now h
    |e e' l ts now h Hs|e e' res l ts now h Hw Hs|ctx_err e e' res l ts now h Hs
    |e l ts sp now now' h Hle].
  - destruct Htr as [Hspy Hp Hrec Hdir]. split; simpl in *; try done.
    apply Forall_app. by split; [|constructor].
  - pose proof (declare_reattached (bc_Declarations (c_Broker (e_cfg e))) e) as Hr. rewrite Hd in Hr.
    by eapply reattached_conserved, conserved_control.
  - pose proof (consume_reattached q e) as Hr. rewrite Hc in Hr.
    by eapply reattached_conserved, conserved_control.
  - destruct Htr as [Hspy Hp Hrec Hdir]. pose proof (inv_running _ Hinv) as Hrun.
    pose proof (inv_held _ Hinv) as Hheld. pose proof (inv_stopped _ Hinv) as Hst. simpl in *.
    rewrite Hheld, Hst in Hrun. apply not_running_none in Hrun as ->. by split.
  - pose proof (declare_reattached (bc_Declarations (c_Broker cfg)) e) as Hr. rewrite Hd in Hr.
    by eapply reattached_conserved, conserved_control.
  - by eapply conserved_control.
  - pose proof (consume_reattached q e) as Hr. rewrite Hc in Hr.
    by eapply reattached_conserved, conserved_control.
  - destruct Htr as [Hspy Hp Hrec Hdir]. by split.
  - unfold stop_begin in Hs. destruct (e_stopped e); [done|]. injection Hs as <-.
    destruct Htr as [Hspy Hp Hrec Hdir]. by split.
  - unfold stop_finish in Hs. pose proof (published_close (e_driver e)) as Hpc.
    destruct (Close (e_driver e)) as [ce d]. injection Hs as <- <-.
    destruct Htr as [Hspy Hp Hrec Hdir]. split; simpl in *; try done. by rewrite Hpc.
  - unfold stop_finish in Hs. pose proof (published_close (e_driver e)) as Hpc.
    destruct (Close (e_driver e)) as [ce d]. injection Hs as <- <-.
    destruct Htr as [Hspy Hp Hrec Hdir]. split; simpl in *; try done. by rewrite Hpc.
  - destruct Htr as [Hspy Hp Hrec Hdir]. by split.
Qed.

Lemma reachable_conserved s : reachable d0 (Some []) s → ∃ log, conserved s log.
Proof.
  induction 1 as [cfg now|s s' Hr [log IH] [Hs|Hs]].
  - exists []. split; try done. simpl. by rewrite app_nil_r.
  - by eapply worker_conserved.
  - eapply env_conserved; [by eapply reachable_inv|done|done].
Qed.
End spied.

(** ** After a drained Stop *)

Section quiet.
Context `{Unicode, GoFmt, Gjson, Json, TextTemplate} {D R : Type}
  `{DriverSpec D, SpyRecorder R}.
Implicit Types (e : Engine D R) (s : sys D R).

(** Nothing runs and nothing can be started. *)
Record quiet s : Prop := {
  qu_loop : live (s_loop s) = 0;
  qu_tasks : s_tasks s = [];
  qu_stopped : e_stopped (s_eng s) = true;
  qu_closed : is_closed (s_stop s) = 1;
}.

Definition same_effects s s' : Prop :=
  e_driver (s_eng s') = e_driver (s_eng s) ∧ e_spy (s_eng s') = e_spy (s_eng s) ∧
  e_store (s_eng s') = e_store (s_eng s) ∧ h_closes (s_hist s') = h_closes (s_hist s).

Lemma quiet_step s s' : quiet s → step s s' → quiet s' ∧ same_effects s s'.
Proof.
  intros [Hl Ht Hst Hcl] [Hs|Hs]; destruct Hs; simpl in *; try done;
    by eapply no_tasks_middle.
Qed.

Lemma quiet_run s s' : rtc step s s' → quiet s → quiet s' ∧ same_effects s s'.
Proof.
  induction 1 as [s|s s1 s' Hs _ IH]; intros Hq; [done|].
  apply quiet_step in Hs as [Hq1 (E1 & E2 & E3 & E4)]; [|done].
  destruct (IH Hq1) as [Hq' (F1 & F2 & F3 & F4)]. split; [done|].
  split_and!; congruence.
Qed.

Lemma drained_quiet s res : inv s → s_stop s = SClosed res true → quiet s.
Proof.
  intros Hinv Hs. destruct (inv_drained _ Hinv res Hs) as [Hl Ht].
  split; [done|done| |by rewrite Hs]. by rewrite (inv_stopped _ Hinv), Hs.
Qed.
End quiet.

(** ** Draining *)

Section draining.
Context `{Unicode, GoFmt, Gjson, Json, TextTemplate} {D R : Type}
  `{DriverSpec D, SpyRecorder R}.
Implicit Types (e : Engine D R) (s : sys D R).

Definition loop_weight e (l : loop_pc) : nat :=
  match l with
  | LNone | LExit => 0
  | LSelect => 1
  | LRules _ ps => 2 + 5 * length ps
  | LGuard _ => 3 + 5 * length (e_rules e)
  end.

Definition pc_weight (pc : task_pc) : nat :=
  match pc with TStart => 4 | TWait _ => 3 | TReady => 2 | TRecord => 1 end.
Definition tasks_weight (ts : list task) : nat := sum_list_with (pc_weight ∘ t_pc) ts.

(** An upper bound of the worker steps to come: a message that waits is worth all
    that its handling can bring. *)
Definition work s : nat :=
  loop_weight (s_eng s) (s_loop s) + tasks_weight (s_tasks s) +
  (3 + 5 * length (e_rules (s_eng s))) * length (e_buf (s_eng s)).

Lemma tasks_weight_app ts1 ts2 :
  tasks_weight (ts1 ++ ts2) = tasks_weight ts1 + tasks_weight ts2.
Proof. apply sum_list_with_app. Qed.

Lemma tasks_weight_cons t ts : tasks_weight (t :: ts) = pc_weight (t_pc t) + tasks_weight ts.
Proof. done. Qed.

Lemma tasks_weight_spawn now gs : tasks_weight (spawn now gs) = 4 * length (spawn now gs).
Proof.
  induction gs as [|[|r p] gs IH]; [done|exact IH|].
  change (4 + tasks_weight (spawn now gs) = 4 * S (length (spawn now gs))). lia.
Qed.

Lemma worker_decreases s s' : worker_step s s' → work s' < work s.
Proof.
  unfold work. intros Hstep.
  open_step Hstep; rewrite ?tasks_weight_app, ?tasks_weight_cons; simpl;
    try match goal with Hpc : t_pc _ = _ |- _ => rewrite ?Hpc; simpl end;
    try (unfold snapshotRules; lia).
  - select (e_buf _ = _) (fun Hb => rewrite Hb). simpl. lia.
  - rewrite tasks_weight_spawn, length_spawn by done.
    destruct Hgs as [->|(rs & body & ->)]; simpl; lia.
  - destruct (delayed (t_rule t)); simpl; lia.
  - destruct l; simpl; lia.
  - destruct l; simpl; lia.
  - destruct l; simpl; lia.
  - destruct l; simpl; lia.
Qed.

Lemma workers_terminate s : sn worker_step s.
Proof. apply (sn_decreasing _ work), worker_decreases. Qed.

(** No worker is ever stuck after the cancellation. *)
Lemma worker_progress s (r : entropy) :
  e_cancelled (s_eng s) = true → live (s_loop s) + length (s_tasks s) ≠ 0 →
  ∃ s', worker_step s s'.
Proof.
  destruct s as [e l ts sp now h]. simpl. intros Hc Hlive.
  destruct ts as [|t ts].
  - destruct l as [| |m|m [|p ps]|]; simpl in *; try lia.
    + eexists. by apply w_exit.
    + destruct (from_chitchat m) eqn:Hm; eexists; [by apply w_skip|by apply w_snapshot].
    + eexists. by apply w_rules_done.
    + destruct (handleRule "" m p r e) as [[gs r'] e'] eqn:Hr. eexists. by eapply w_rule.
  - destruct (t_pc t) as [|d| |] eqn:Hpc.
    + eexists. by apply (w_begin e l [] t ts).
    + eexists. by eapply (w_cancel e l [] t ts).
    + destruct (dispatch_publish (t_rule t) (t_payload t) e) as [[err|] e'] eqn:Hp;
        eexists; [by eapply (w_refused e e' err l [] t ts)|by eapply (w_publish e e' l [] t ts)].
    + eexists. by apply (w_record e l [] t ts).
Qed.

Lemma worker_cancelled s s' :
  worker_step s s' → e_cancelled (s_eng s') = e_cancelled (s_eng s).
Proof. intros Hstep. by open_step Hstep. Qed.

Lemma workers_inv s s' : rtc worker_step s s' → inv s → inv s' ∧
  e_cancelled (s_eng s') = e_cancelled (s_eng s).
Proof.
  induction 1 as [s|s s1 s' Hs _ IH]; intros Hinv; [done|].
  destruct IH as [Hinv' Hc]; [by eapply worker_inv|]. split; [done|].
  rewrite Hc. by apply worker_cancelled.
Qed.
End draining.

(** ** The steps compute the methods *)

Section handler.
Context `{Unicode, GoFmt, Gjson, Json, TextTemplate} {D R : Type}
  `{Driver D, SpyRecorder R}.
Implicit Types (e : Engine D R).

Lemma start_queues qs e l ts now h err e' :
  consume_all false qs e = (err, e') →
  rtc step (Sys e l ts (SHeld (CStart qs)) now h) (Sys e' l ts (held err (CStart [])) now h).
Proof.
  revert e. induction qs as [|q qs IH]; intros e; [by intros [= <- <-]|]. cbn [consume_all andb].
  destruct (consume q e) as [[x|] e1] eqn:Hc; intros Hrest.
  - injection Hrest as <- <-. by apply rtc_once, step_env, (v_start_consume q qs e e1 (Some x)).
  - eapply rtc_l; [by apply step_env, (v_start_consume q qs e e1 None)|]. by apply IH.
Qed.

Lemma reload_queues cfg qs e l ts now h err e' :
  consume_all true qs e = (err, e') →
  rtc step (Sys e l ts (SHeld (CReload cfg qs)) now h)
           (Sys e' l ts (held err (CReload cfg [])) now h).
Proof.
  revert e. induction qs as [|q qs IH]; intros e; [by intros [= <- <-]|]. cbn [consume_all andb].
  case_bool_decide as Hq; [|destruct (consume q e) as [[x|] e1] eqn:Hc]; intros Hrest.
  - eapply rtc_l; [by apply step_env, v_reload_skip|]. by apply IH.
  - injection Hrest as <- <-.
    by apply rtc_once, step_env, (v_reload_consume cfg q qs e e1 (Some x)).
  - eapply rtc_l; [by apply step_env, (v_reload_consume cfg q qs e e1 None)|]. by apply IH.
Qed.

(** A call of Start on an engine that was not stopped, when nothing interferes. *)
Lemma Start_runs e l ts now h err gs e' :
  e_stopped e = false → Start e = (err, gs, e') →
  rtc step (Sys e l ts SIdle now h)
           (Sys e' (match gs with [] => l | _ => LSelect end) ts SIdle now h).
Proof.
  intros Hst. unfold Start. rewrite Hst. destruct (e_running e) eqn:Hru; [by intros [= <- <- <-]|].
  destruct (declare _ e) as [derr e1] eqn:Hd.
  assert (step (Sys e l ts SIdle now h)
    (Sys e1 l ts (held derr (CStart (desiredQueues (e_cfg e1)))) now h)) as Hdecl
    by (by apply step_env, v_start).
  destruct derr as [x|]; [intros [= <- <- <-]; by apply rtc_once|].
  destruct (consume_all _ _ e1) as [cerr e2] eqn:Hc.
  apply (start_queues _ _ l ts now h) in Hc.
  destruct cerr as [x|]; intros [= <- <- <-]; (eapply rtc_l; [exact Hdecl|]); [done|].
  etrans; [exact Hc|]. by apply rtc_once, step_env, v_started.
Qed.

(** A call of Reload, in any state in which the mutex is free. *)
Lemma Reload_runs cfg e l ts now h err e' :
  Reload cfg e = (err, e') → rtc step (Sys e l ts SIdle now h) (Sys e' l ts SIdle now h).
Proof.
  unfold Reload. destruct (e_stopped e || negb (e_running e)) eqn:Hg; [by intros [= <- <-]|].
  destruct (declare _ e) as [derr e1] eqn:Hd.
  assert (step (Sys e l ts SIdle now h)
    (Sys e1 l ts (held derr (CReload cfg (desiredQueues cfg))) now h)) as Hdecl
    by (by apply step_env, v_reload).
  destruct derr as [x|]; [intros [= <- <-]; by apply rtc_once|].
  destruct (consume_all _ _ e1) as [cerr e2] eqn:Hc.
  apply (reload_queues cfg _ _ l ts now h) in Hc.
  destruct cerr as [x|]; intros [= <- <-]; (eapply rtc_l; [exact Hdecl|]); [done|].
  etrans; [exact Hc|]. by apply rtc_once, step_env, v_reloaded.
Qed.

Lemma step_worker_rtc (s s' : sys D R) : rtc worker_step s s' → rtc step s s'.
Proof. induction 1 as [|s s1 s' Hs _ IH]; [done|]. econstructor; [by apply step_worker|done]. Qed.

Lemma rules_run utc m ps r e gs r' e' ts sp now h :
  handleRules utc m ps r e = (gs, r', e') →
  rtc worker_step (Sys e (LRules m ps) ts sp now h)
    (Sys e' LSelect (ts ++ spawn now gs) sp now h).
Proof.
  revert r e gs ts. induction ps as [|p ps IH]; intros r e gs ts; cbn [handleRules].
  - intros [= <- <- <-]. rewrite app_nil_r. apply rtc_once, w_rules_done.
  - destruct (handleRule (utc p) m p r e) as [[g1 r1] e1] eqn:H1'.
    destruct (handleRules utc m ps r1 e1) as [[g2 r2] e2] eqn:H2'.
    intros [= <- <- <-]. econstructor; [by eapply w_rule|].
    unfold spawn. rewrite omap_app, app_assoc. by eapply IH.
Qed.

(** Rules that do not match are passed over. *)
Lemma unmatched_run e m ps ts sp now h :
  (∀ p rs, p ∈ ps → e_store e !! p = Some rs → MatchesRule (rs_rule rs) m = false) →
  entropy → rtc step (Sys e (LRules m ps) ts sp now h) (Sys e LSelect ts sp now h).
Proof.
  intros Hno r. induction ps as [|p ps IH].
  - by apply rtc_once, step_worker, w_rules_done.
  - eapply rtc_l; [|apply IH; intros q rs Hq; apply Hno; by right].
    assert (handleRule "" m p r e = ([], r, e)) as Hr.
    { unfold handleRule. destruct (e_store e !! p) as [rs|] eqn:Hp; [|done].
      by rewrite (Hno p rs) by (done || by left). }
    rewrite <- (app_nil_r ts) at 2. by apply step_worker, (w_rule e m p ps "" r [] r e).
Qed.
End handler.

(** ** A run

    An engine on the mock driver with the one rule of [one_rule_config]: it is
    started, a message triggers the rule, and after the rule's delay of five
    milliseconds the response is published. *)

#[local] Existing Instances example_unicode plain_fmt example_gjson example_json echo_template.

Definition run_received : Engine MockDriver (list Message) :=
  record 0 (incoming trigger_message) (set_buf [] (Start example_engine).2).
Definition run_matched : Engine MockDriver (list Message) :=
  (handleRule "now" (incoming trigger_message) 0 tt run_received).2.
Definition run_published : Engine MockDriver (list Message) :=
  (dispatch_publish example_rule "hello" run_matched).2.

Definition run_state : sys MockDriver (list Message) :=
  Sys run_published LSelect
    [{| t_rule := example_rule; t_payload := "hello"; t_pc := TRecord; t_born := 0 |}]
    SIdle 5000000
    {| h_delivered := [trigger_message]; h_handled := [(incoming trigger_message, 1)];
       h_closes := 0 |}.

Lemma run_reachable : reachable NewMockDriver (Some []) run_state.
Proof.
  set (t pc := {| t_rule := example_rule; t_payload := "hello"; t_pc := pc; t_born := 0 |}).
  set (h1 := {| h_delivered := [trigger_message]; h_handled := []; h_closes := 0 |}).
  set (h2 := {| h_delivered := [trigger_message];
                h_handled := [(incoming trigger_message, 1)]; h_closes := 0 |}).
  apply (reach_step _ _ (Sys run_matched LSelect [t TReady] SIdle 5000000 h2)).
  2:{ apply step_worker, (w_publish _ _ _ [] (t TReady) []); reflexivity. }
  apply (reach_step _ _ (Sys run_matched LSelect [t (TWait 5000000)] SIdle 5000000 h2)).
  2:{ by apply step_worker, (w_fire _ _ [] (t (TWait 5000000)) [] 5000000). }
  apply (reach_step _ _ (Sys run_matched LSelect [t (TWait 5000000)] SIdle 0 h2)).
  2:{ by apply step_env, v_tick. }
  apply (reach_step _ _ (Sys run_matched LSelect [t TStart] SIdle 0 h2)).
  2:{ by apply step_worker, (w_begin _ _ [] (t TStart) []). }
  apply (reach_step _ _
    (Sys run_matched (LRules (incoming trigger_message) []) [t TStart] SIdle 0 h2)).
  2:{ apply step_worker, w_rules_done. }
  apply (reach_step _ _
    (Sys run_received (LRules (incoming trigger_message) [0]) [] SIdle 0 h2)).
  2:{ apply step_worker. exact (w_rule run_received (incoming trigger_message) 0 [] "now"
        (tt : entropy) [GoDispatch example_rule "hello"] (tt : entropy) run_matched []
        SIdle 0 h2 eq_refl). }
  apply (reach_step _ _ (Sys run_received (LGuard (incoming trigger_message)) [] SIdle 0 h1)).
  2:{ by apply step_worker, w_snapshot. }
  apply (reach_step _ _
    (Sys (set_buf [trigger_message] (Start example_engine).2) LSelect [] SIdle 0 h1)).
  2:{ by apply step_worker,
        (w_receive (set_buf [trigger_message] (Start example_engine).2) trigger_message []). }
  apply (reach_step _ _ (Sys (Start example_engine).2 LSelect [] SIdle 0 no_history)).
  2:{ refine (step_env _ _ (v_deliver (Start example_engine).2 trigger_message LSelect []
        SIdle 0 no_history _ _ _)); [by apply (bool_decide_unpack _)| |done].
      by apply (bool_decide_unpack _). }
  apply (reachable_run _ _ (Sys example_engine LNone [] SIdle 0 no_history)); [apply reach_new|].
  by apply (Start_runs example_engine LNone [] 0 no_history None [GoProcessLoop]).
Qed.

(** The same run, where Stop has been called. *)
Definition run_stopping : sys MockDriver (list Message) :=
  Sys (set_stopped run_published) LSelect (s_tasks run_state) SWaiting 5000000 (s_hist run_state).

Lemma run_stopping_reachable : reachable NewMockDriver (Some []) run_stopping.
Proof.
  apply (reach_step _ _ run_state); [apply run_reachable|].
  by apply step_env, (v_stop run_published).
Qed.

(** ** Properties *)

(** C1: the loop guard breaks feedback.  In every reachable state the messages
    published by the engine are at most the rules checked for messages that do not
    carry the origin header: a message of chitchat's own that comes back never
    causes another.  Each published message is the response of some rule with the
    origin header, so that it is recognised when it comes back, and the messages
    were handled in the order they were delivered. *)
Theorem no_feedback `{Unicode, GoFmt, Gjson, Json, TextTemplate} {D R}
    `{DriverSpec D, SpyRecorder R} (d0 : D) (spy0 : option R) s :
  reachable d0 spy0 s →
  (∃ new, published (e_driver (s_eng s)) = published d0 ++ map (uncurry response_message) new ∧
     length new ≤ budget (s_hist s) ∧
     ∀ r payload msg, (r, payload) ∈ new →
       m_Headers msg = p_Headers (response_message r payload) → from_chitchat msg = true) ∧
  map fst (h_handled (s_hist s)) `prefix_of` map incoming (h_delivered (s_hist s)).
Proof.
  intros Hr. destruct (reachable_traced d0 spy0 s Hr) as [Hf Hb [new Hnew] _]. split.
  - exists new. unfold within_budget in Hb. rewrite Hnew, length_app, length_map in Hb.
    split_and!; [|lia|].
    + rewrite Hnew. f_equal. apply map_ext. by intros [].
    + intros r payload msg _. apply response_stamped.
  - unfold fifo in Hf. rewrite <- Hf. by eexists.
Qed.

Lemma no_feedback_witness :
  budget (s_hist run_state) = 1 ∧ length (published (e_driver (s_eng run_state))) = 1 ∧
  ∃ new, published (e_driver (s_eng run_state)) = map (uncurry response_message) new ∧
    length new ≤ budget (s_hist run_state).
Proof.
  split; [reflexivity|]. split; [reflexivity|].
  destruct (no_feedback NewMockDriver (Some []) run_state run_reachable) as [(new & Hn & Hl & _) _].
  by exists new.
Defined.

(** C3: the wait group counts exactly the goroutines that are running: it never
    goes negative, and Stop's wait ends exactly when the loop has returned and
    every dispatch is over.  The driver is closed at most once, by Stop.  Once Stop
    has returned after draining, nothing that can happen afterwards publishes a
    message, records one, counts a match or closes the driver again. *)
Theorem stop_is_final `{Unicode, GoFmt, Gjson, Json, TextTemplate} {D R}
    `{DriverSpec D, SpyRecorder R} (d0 : D) (spy0 : option R) s :
  reachable d0 spy0 s →
  e_wg (s_eng s) = live (s_loop s) + length (s_tasks s) ∧
  h_closes (s_hist s) = is_closed (s_stop s) ∧
  (∀ res s', s_stop s = SClosed res true → rtc step s s' →
     live (s_loop s') = 0 ∧ s_tasks s' = [] ∧ same_effects s s').
Proof.
  intros Hinv%reachable_inv. split_and!; [apply Hinv|apply Hinv|].
  intros res s' Hs Hrun. pose proof (drained_quiet s res Hinv Hs) as Hq.
  by destruct (quiet_run s s' Hrun Hq) as [[? ? _ _] ?].
Qed.

Lemma stop_is_final_witness : e_wg (s_eng run_state) = 2.
Proof. exact (proj1 (stop_is_final NewMockDriver (Some []) run_state run_reachable)). Defined.

(** C4: Stop can always drain the workers, whatever they were doing: after the
    cancellation every schedule of the loop and the dispatches ends, however many
    of the messages in the channel the loop still takes, as long as the driver
    delivers no more; and where none of them can go on the loop has returned, every
    dispatch is over, and the wait group is at zero, so that the waiting Stop can
    return without its timeout. *)
Theorem stop_drains `{Unicode, GoFmt, Gjson, Json, TextTemplate} {D R}
    `{DriverSpec D, SpyRecorder R} (d0 : D) (spy0 : option R) s (r : entropy) :
  reachable d0 spy0 s → s_stop s = SWaiting →
  sn worker_step s ∧
  ∀ s', rtc worker_step s s' → nf worker_step s' →
    live (s_loop s') = 0 ∧ s_tasks s' = [] ∧ e_wg (s_eng s') = 0.
Proof.
  intros Hinv%reachable_inv Hs. split; [apply workers_terminate|]. intros s' Hrun Hnf.
  destruct (workers_inv s s' Hrun Hinv) as [Hinv' Hc].
  assert (e_cancelled (s_eng s) = true) as Hcan.
  { by rewrite (inv_cancelled _ Hinv), (inv_stopped _ Hinv), Hs. }
  destruct (decide (live (s_loop s') + length (s_tasks s') = 0)) as [Hz|Hnz].
  - rewrite (inv_wg _ Hinv'). destruct (s_tasks s'); simpl in *; [|lia]. split_and!; lia || done.
  - destruct Hnf. destruct (worker_progress s' r) as [s'' Hs'']; [congruence|done|].
    by exists s''.
Qed.

Lemma stop_drains_witness :
  sn worker_step run_stopping ∧
  ∀ s', rtc worker_step run_stopping s' → nf worker_step s' →
    live (s_loop s') = 0 ∧ s_tasks s' = [] ∧ e_wg (s_eng s') = 0.
Proof.
  exact (stop_drains NewMockDriver (Some []) run_stopping (tt : entropy)
           run_stopping_reachable eq_refl).
Defined.

(** C5: with a spy that keeps everything, what was published is, up to order,
    what the spy recorded as published and what is about to be recorded; the
    spy's other records are the messages handled, in order.  When the workers are
    drained the records and the publications agree exactly. *)
Theorem spy_conservation `{Unicode, GoFmt, Gjson, Json, TextTemplate} {D}
    `{DriverSpec D} (d0 : D) s :
  reachable d0 (Some []) s →
  ∃ log, e_spy (s_eng s) = Some log ∧
    published (e_driver (s_eng s)) ≡ₚ published d0 ++ pub_log log ++ in_flight (s_tasks s) ∧
    recv_log log = map fst (h_handled (s_hist s)) ++ in_guard (s_loop s) ∧
    (s_tasks s = [] → published (e_driver (s_eng s)) ≡ₚ published d0 ++ pub_log log).
Proof.
  intros Hr. destruct (reachable_conserved d0 s Hr) as [log [Hspy Hp Hrec _]].
  exists log. split_and!; [done..|]. intros Ht. by rewrite Hp, Ht, app_nil_r.
Qed.

Lemma spy_conservation_witness :
  ∃ log, e_spy (s_eng run_state) = Some log ∧
    published (e_driver (s_eng run_state)) ≡ₚ [] ++ pub_log log ++ in_flight (s_tasks run_state).
Proof.
  destruct (spy_conservation NewMockDriver run_state run_reachable) as (log & Hs & Hp & _).
  by exists log.
Defined.

(** What an engine with freshly installed rules counts. *)
Lemma handleMessage_counts `{Unicode, GoFmt, Gjson, Json, TextTemplate} {D R}
    `{Driver D, SpyRecorder R} cfg (e : Engine D R) now utc msg buf r gs r' e' :
  from_chitchat msg = false →
  let e1 := set_buf buf (set_cfg cfg (load_rules (c_Rules cfg) e)) in
  handleMessage now utc msg r e1 = (gs, r', e') →
  (∃ store wg, e' = set_wg wg (set_store store (record now (incoming msg) e1))) ∧
  map st_Matches (RuleStats e') =
    map (λ rule, if MatchesRule rule (incoming msg) then 1%Z else 0%Z) (c_Rules cfg).
Proof.
  intros Hg e1. unfold handleMessage. rewrite from_chitchat_incoming, Hg.
  destruct (new_states_wf (c_Rules cfg) (e_store e)) as [Hnd Hlt].
  intros (outs & _ & _ & ->)%handleRules_run; [|done..]. split; [by eexists _, _|].
  pose proof (bump_omap (incoming msg) (newRuleStates (c_Rules cfg) (e_store e)).1
                (newRuleStates (c_Rules cfg) (e_store e)).2) as Hb.
  rewrite loaded_new_states in Hb. rewrite RuleStats_loaded. unfold loaded.
  cbn [set_wg set_store e_store e_rules record set_spy]. simpl in Hb |- *.
  rewrite Hb, !map_map. apply map_ext. intros rule. simpl.
  by destruct (MatchesRule rule (incoming msg)).
Qed.

(** The processing loop runs handleMessage: from its select with a message
    in the channel the small steps lead to the state handleMessage computes, with
    the dispatches it started, when nothing else happens in between. *)
Theorem loop_runs_handleMessage `{Unicode, GoFmt, Gjson, Json, TextTemplate} {D R}
    `{Driver D, SpyRecorder R} (e : Engine D R) msg buf ts sp now h utc r gs r' e' :
  e_buf e = msg :: buf →
  handleMessage now utc msg r (set_buf buf e) = (gs, r', e') →
  ∃ n, rtc step (Sys e LSelect ts sp now h)
         (Sys e' LSelect (ts ++ spawn now gs) sp now (add_handled (incoming msg) n h)).
Proof.
  intros Hbuf. unfold handleMessage. set (e1 := record now (incoming msg) (set_buf buf e)).
  destruct (from_chitchat (incoming msg)) eqn:Hg.
  - intros [= <- <- <-]. exists 0. rewrite app_nil_r.
    econstructor; [by apply step_worker, w_receive|].
    apply step_worker_rtc, rtc_once. by apply w_skip.
  - intros Hrules. exists (length (snapshotRules e1)).
    econstructor; [by apply step_worker, w_receive|]. apply step_worker_rtc.
    econstructor; [by apply w_snapshot|]. by eapply rules_run.
Qed.

(** C37: the window of a reload.  Between the subscription to the queues of the new
    file and the installation of its rules, the loop checks what these queues
    deliver against the old rules.  A message that none of them matches can be taken
    and recorded, and the reload completed, without anything published or started,
    and with every counter of the new rules at zero, also of those that match the
    message.  From the same state, had the installation come first, each new rule
    that matches would have counted the message once. *)
Theorem reload_window `{Unicode, GoFmt, Gjson, Json, TextTemplate} {D R}
    `{Driver D, SpyRecorder R} cfg (e : Engine D R) msg buf ts now h (r : entropy) :
  e_buf e = msg :: buf → from_chitchat msg = false →
  (∀ rs, rs ∈ loaded e → MatchesRule (rs_rule rs) (incoming msg) = false) →
  let window := Sys e LSelect ts (SHeld (CReload cfg [])) now h in
  let recorded e' := e_spy e' = spy_Record now (incoming msg) <$> e_spy e in
  (∃ e' n,
     rtc step window (Sys e' LSelect ts SIdle now (add_handled (incoming msg) n h)) ∧
     e_buf e' = buf ∧ e_driver e' = e_driver e ∧ recorded e' ∧ e_cfg e' = cfg ∧
     RuleStats e' = map fresh_stat (c_Rules cfg)) ∧
  (∃ e' gs n,
     rtc step window
       (Sys e' LSelect (ts ++ spawn now gs) SIdle now (add_handled (incoming msg) n h)) ∧
     e_buf e' = buf ∧ recorded e' ∧ e_cfg e' = cfg ∧
     map st_Matches (RuleStats e') =
       map (λ rule, if MatchesRule rule (incoming msg) then 1%Z else 0%Z) (c_Rules cfg)).
Proof.
  intros Hbuf Hg Hno window recorded. split.
  - set (e1 := record now (incoming msg) (set_buf buf e)).
    exists (set_cfg cfg (load_rules (c_Rules cfg) e1)), (length (snapshotRules e1)).
    split_and!; [|done..|apply RuleStats_installed].
    eapply rtc_l; [by apply step_worker, w_receive|].
    eapply rtc_l; [apply step_worker, w_snapshot; by rewrite from_chitchat_incoming|].
    etrans; [apply (unmatched_run e1); [|exact r]|by apply rtc_once, step_env, v_reloaded].
    intros p rs Hp Hrs. apply Hno. unfold loaded. apply list_elem_of_omap. by exists p.
  - set (e1 := set_cfg cfg (load_rules (c_Rules cfg) e)).
    destruct (handleMessage now (λ _, "") msg r (set_buf buf e1)) as [[gs r'] e'] eqn:Hm.
    destruct (loop_runs_handleMessage e1 msg buf ts SIdle now h (λ _, "") r gs r' e' Hbuf Hm)
      as [n Hrun].
    exists e', gs, n. split; [eapply rtc_l; [by apply step_env, v_reloaded|done]|].
    by destruct (handleMessage_counts cfg e now (λ _, "") msg buf r gs r' e' Hg Hm)
      as [(st & wg & ->) Hcounts].
Qed.

(** An engine without rules, in the middle of a reload of the one rule: it has
    subscribed to the rule's queue, and a message has arrived there. *)
Definition idle_engine : Engine MockDriver (list Message) :=
  (Start (NewEngine DefaultConfig NewMockDriver (Some []))).2.
Definition window_engine : Engine MockDriver (list Message) :=
  set_buf [trigger_message]
    (consume_all true (desiredQueues one_rule_config)
       (declare (bc_Declarations (c_Broker one_rule_config)) idle_engine).2).2.

Lemma window_reachable :
  reachable NewMockDriver (Some [])
    (Sys window_engine LSelect [] (SHeld (CReload one_rule_config [])) 0
       (add_delivered trigger_message no_history)).
Proof.
  eapply reach_step;
    [|apply step_env, (v_deliver (set_buf [] window_engine) trigger_message LSelect [] _ 0 no_history);
      [by apply (bool_decide_unpack _)|by apply (bool_decide_unpack _)|done]].
  eapply reachable_run; [|apply (reload_queues one_rule_config (desiredQueues one_rule_config)
    (declare (bc_Declarations (c_Broker one_rule_config)) idle_engine).2 LSelect [] 0 no_history None);
    reflexivity].
  eapply reach_step; [|apply step_env, (v_reload one_rule_config idle_engine _ None LSelect []);
    reflexivity].
  eapply reachable_run; [apply (reach_new _ _ DefaultConfig 0)|].
  by apply (Start_runs (NewEngine DefaultConfig NewMockDriver (Some [])) LNone [] 0 no_history None
              [GoProcessLoop]).
Qed.

Lemma reload_window_witness :
  let window := Sys window_engine LSelect [] (SHeld (CReload one_rule_config [])) 0
                  (add_delivered trigger_message no_history) in
  let handled n := add_handled (incoming trigger_message) n
                     (add_delivered trigger_message no_history) in
  (∃ e' n, rtc step window (Sys e' LSelect [] SIdle 0 (handled n)) ∧
     e_driver e' = e_driver window_engine ∧ e_spy e' = Some [incoming trigger_message] ∧
     RuleStats e' = [fresh_stat example_rule]) ∧
  ∃ e' gs n, rtc step window (Sys e' LSelect (spawn 0 gs) SIdle 0 (handled n)) ∧
     map st_Matches (RuleStats e') = [1%Z].
Proof.
  destruct (@reload_window example_unicode plain_fmt example_gjson example_json echo_template
    MockDriver (list Message) _ _ one_rule_config window_engine trigger_message [] [] 0
    (add_delivered trigger_message no_history) tt)
    as [(e' & n & Hrun & _ & Hd & Hspy & _ & Hst) (e2 & gs & n2 & Hrun2 & _ & _ & _ & Hst2)].
  - reflexivity.
  - reflexivity.
  - intros rs Hrs. by apply not_elem_of_nil in Hrs.
  - split; [exists e', n; split_and!; [exact Hrun|exact Hd|exact Hspy|exact Hst]|].
    exists e2, gs, n2. split; [exact Hrun2|exact Hst2].
Defined.

Lemma loop_runs_handleMessage_witness :
  ∃ n, rtc step
    (Sys (set_buf [trigger_message] (Start example_engine).2) LSelect [] SIdle 0 no_history)
    (Sys run_matched LSelect ([] ++ spawn 0 [GoDispatch example_rule "hello"]) SIdle 0
       (add_handled (incoming trigger_message) n no_history)).
Proof.
  apply (@loop_runs_handleMessage example_unicode plain_fmt example_gjson example_json
    echo_template MockDriver (list Message) _ _
    (set_buf [trigger_message] (Start example_engine).2) trigger_message [] [] SIdle 0
    no_history (λ _, "now") tt [GoDispatch example_rule "hello"] tt run_matched).
  - reflexivity.
  - vm_compute. reflexivity.
Defined.
