(* ===== verification/Progress.v ===== *)
(** * Nothing gets stuck and nothing is early (pkg/engine/engine.go)

    What the goroutines of a running engine do when they are left alone: every
    schedule of them ends, and it ends only where every message has been handled and
    every dispatch waits for a timer that has not fired.  No fairness is assumed. *)
From S2P Require Import Prelude GoStrings GoValue Libs Config Broker Validate Ring Matcher Template Engine EngineSystem.

Section progress.
Context `{Unicode, GoFmt, Gjson, Json, TextTemplate} {D R : Type}
  `{DriverSpec D, SpyRecorder R}.
Implicit Types (e : Engine D R) (s : sys D R).

(** The rules, the messages that wait and the clock, which they do not change. *)
Definition same_load s s' : Prop :=
  length (e_rules (s_eng s')) = length (e_rules (s_eng s)) ∧
  e_cancelled (s_eng s') = e_cancelled (s_eng s) ∧
  s_now s' = s_now s ∧ h_delivered (s_hist s') = h_delivered (s_hist s).

#[export] Instance same_load_preorder : PreOrder same_load.
Proof.
  split; [by intros ?|]. intros ??? (?&?&?&?) (?&?&?&?). repeat split; congruence.
Qed.

Lemma worker_load s s' : worker_step s s' → same_load s s'.
Proof. intros Hstep. by open_step Hstep. Qed.

Lemma workers_reachable d0 spy0 s s' :
  reachable d0 spy0 s → rtc worker_step s s' → reachable d0 spy0 s'.
Proof. intros Hr Hs. by eapply reachable_run, step_worker_rtc. Qed.

(** ** Where it ends *)

(** A dispatch can go on, or waits for its timer. *)
Lemma task_progress s t :
  t ∈ s_tasks s →
  (∃ d, t_pc t = TWait d ∧ (s_now s < d)%Z ∧ e_cancelled (s_eng s) = false) ∨
  ∃ s', worker_step s s'.
Proof.
  destruct s as [e l ts sp now h]. simpl. intros (ts1 & ts2 & ->)%list_elem_of_split.
  destruct (t_pc t) as [|d| |] eqn:Hpc.
  - right. eexists. by apply w_begin.
  - destruct (decide (d ≤ now)%Z) as [Hd|Hd]; [right; eexists; by eapply w_fire|].
    destruct (e_cancelled e) eqn:Hc; [right; eexists; by eapply w_cancel|].
    left. exists d. split_and!; [done|lia|done].
  - right. destruct (dispatch_publish (t_rule t) (t_payload t) e) as [[err|] e'] eqn:Hp;
      eexists; [by eapply w_refused|by eapply w_publish].
  - right. eexists. by apply w_record.
Qed.

(** The loop can go on, or it waits for messages. *)
Lemma loop_progress s (r : entropy) :
  live (s_loop s) = 1 →
  s_loop s = LSelect ∧ e_buf (s_eng s) = [] ∧ e_cancelled (s_eng s) = false ∨
  ∃ s', worker_step s s'.
Proof.
  destruct s as [e l ts sp now h]. simpl.
  destruct l as [| |m|m [|p ps]|]; simpl; try done; intros _.
  - destruct (e_buf e) as [|m buf] eqn:Hb; [|right; eexists; by apply w_receive].
    destruct (e_cancelled e) eqn:Hc; [right; eexists; by apply w_exit|by left].
  - right. destruct (from_chitchat m) eqn:Hm; eexists; [by apply w_skip|by apply w_snapshot].
  - right. eexists. by apply w_rules_done.
  - right. destruct (handleRule "" m p r e) as [[gs r'] e'] eqn:Hr. eexists. by eapply w_rule.
Qed.

(** The loop only ends when it is cancelled. *)
Lemma worker_live s s' :
  worker_step s s' → e_cancelled (s_eng s) = false → live (s_loop s') = live (s_loop s).
Proof.
  intros Hstep Hc. open_step Hstep; congruence.
Qed.

Lemma workers_run s s' :
  rtc worker_step s s' → e_cancelled (s_eng s) = false →
  same_load s s' ∧ live (s_loop s') = live (s_loop s).
Proof.
  induction 1 as [s|s s1 s' Hs _ IH]; intros Hc; [done|].
  pose proof (worker_load s s1 Hs) as Hl. pose proof Hl as (_ & Hc1 & _).
  destruct IH as [Hl' Hlive]; [congruence|]. split; [by etrans|].
  rewrite Hlive. by apply worker_live.
Qed.

(** ** In time *)

(** No dispatch gets past its delay early. *)
Lemma never_early d0 spy0 s t :
  let ms := mr_DelayMS (r_MockResponse (t_rule t)) in
  reachable d0 spy0 s → t ∈ s_tasks s → t_pc t = TReady ∨ t_pc t = TRecord →
  (0 ≤ ms ≤ 9223372036854)%Z → (t_born t + ms * 1000000 ≤ s_now s)%Z.
Proof.
  intros ms Hr Ht Hpc Hms. pose proof (tr_timely _ _ (reachable_traced d0 spy0 s Hr)) as Htime.
  unfold all_timely in Htime. rewrite Forall_forall in Htime.
  destruct (Htime t Ht) as [Hborn Hpc'].
  destruct (delay_exact (t_rule t) (proj1 Hms)) as [Hns _].
  fold ms in Hns. specialize (Hns (proj2 Hms)). rewrite <- Hns.
  assert (delayed (t_rule t) = true → (t_born t + delay_ns (t_rule t) ≤ s_now s)%Z) as Hd
    by (destruct Hpc as [Hpc|Hpc]; by rewrite Hpc in Hpc').
  unfold delayed in Hd. fold ms in Hd. case_bool_decide; [by apply Hd|].
  lia.
Qed.

(** A timer is set for the delay from now at most. *)
Lemma timer_soon d0 spy0 s t d :
  reachable d0 spy0 s → t ∈ s_tasks s → t_pc t = TWait d →
  (d ≤ s_now s + delay_ns (t_rule t))%Z.
Proof.
  intros Hr Ht Hpc. pose proof (tr_timely _ _ (reachable_traced d0 spy0 s Hr)) as Htime.
  unfold all_timely in Htime. rewrite Forall_forall in Htime.
  destruct (Htime t Ht) as [_ Hd]. rewrite Hpc in Hd. lia.
Qed.

(** Where nobody can go on, everything delivered has been handled and only timers are
    left. *)
Lemma workers_end d0 spy0 s (r : entropy) :
  reachable d0 spy0 s → live (s_loop s) = 1 → e_cancelled (s_eng s) = false → nf worker_step s →
  s_loop s = LSelect ∧ e_buf (s_eng s) = [] ∧
  map fst (h_handled (s_hist s)) = map incoming (h_delivered (s_hist s)) ∧
  ∀ t, t ∈ s_tasks s → ∃ d, t_pc t = TWait d ∧ (s_now s < d)%Z.
Proof.
  intros Hr Hlive Hc Hnf.
  destruct (loop_progress s r Hlive) as [(Hl & Hb & _)|Hs]; [|by destruct Hnf].
  pose proof (tr_fifo _ _ (reachable_traced d0 spy0 s Hr)) as Hf. unfold fifo in Hf.
  rewrite Hl, Hb, !app_nil_r in Hf. split_and!; [done..|]. intros t Ht.
  destruct (task_progress s t Ht) as [(d & Hpc & Hd & _)|[s' Hs']]; [by exists d|].
  destruct Hnf. by exists s'.
Qed.
End progress.

(** C40: The responses come, and come in time.  A dispatch that is about to publish,
    or has, was started at least the rule's milliseconds earlier, as long as they fit
    into a duration (some 292 years).  And while the engine runs nothing gets stuck:
    left alone, every schedule of its goroutines ends, and where none of them can go
    on, every message delivered so far has been handled, in order, and each
    dispatch that is left waits for its timer, which is set for the rule's delay
    from now at the latest: all the others have published or were refused. *)
Theorem responses_on_time `{Unicode, GoFmt, Gjson, Json, TextTemplate} {D R}
    `{DriverSpec D, SpyRecorder R} (d0 : D) (spy0 : option R) s (r : entropy) :
  reachable d0 spy0 s →
  (∀ t, let ms := mr_DelayMS (r_MockResponse (t_rule t)) in
     t ∈ s_tasks s → t_pc t = TReady ∨ t_pc t = TRecord →
     (0 ≤ ms ≤ 9223372036854)%Z → (t_born t + ms * 1000000 ≤ s_now s)%Z) ∧
  (live (s_loop s) = 1 → e_cancelled (s_eng s) = false →
   sn worker_step s ∧
   ∀ s', rtc worker_step s s' → nf worker_step s' →
     s_loop s' = LSelect ∧ e_buf (s_eng s') = [] ∧
     map fst (h_handled (s_hist s')) = map incoming (h_delivered (s_hist s)) ∧
     ∀ t, t ∈ s_tasks s' → ∃ d, t_pc t = TWait d ∧
       (s_now s < d ≤ s_now s + delay_ns (t_rule t))%Z).
Proof.
  intros Hr. split; [intros t ms; by apply (never_early d0 spy0)|].
  intros Hlive Hc. split; [apply workers_terminate|]. intros s' Hrun Hnf.
  destruct (workers_run s s' Hrun Hc) as [(_ & Hc' & Hnow & Hdel) Hlive'].
  pose proof (workers_reachable d0 spy0 s s' Hr Hrun) as Hr'.
  destruct (workers_end d0 spy0 s' r Hr') as (Hl & Hb & Hh & Ht); [congruence..|done|].
  split_and!; [done|done|congruence|]. intros t Hin. destruct (Ht t Hin) as (d & Hpc & Hd).
  exists d. split; [done|]. rewrite <- Hnow. split; [done|]. by apply (timer_soon d0 spy0).
Qed.

#[local] Existing Instances example_unicode plain_fmt example_gjson example_json echo_template.

Lemma responses_on_time_witness :
  sn worker_step run_state ∧ live (s_loop run_state) = 1 ∧ (0 + 5 * 1000000 ≤ 5000000)%Z.
Proof.
  destruct (responses_on_time NewMockDriver (Some []) run_state (tt : @entropy echo_template) run_reachable)
    as [Hearly Hends].
  split_and!; [by apply Hends|done|].
  refine (Hearly {| t_rule := example_rule; t_payload := "hello"; t_pc := TRecord; t_born := 0 |}
            _ (or_intror eq_refl) _); [by left|by vm_compute].
Defined.
