(* ===== verification/EngineSpy.v ===== *)
(** * The engine and its recorder (pkg/engine/engine.go)

    The engine only writes to its SpyRecorder.  So what it does with one recorder
    it can do with any other: a run over a recorder [R1] embeds into a run over a
    recorder [R2], for every relation between the two that recording preserves. *)
From S2P Require Import Prelude GoStrings GoValue Libs Config Broker Validate Ring Matcher Template Engine EngineSystem.

Section respy.
Context {D R1 R2 : Type}.

(** The engine with another recorder, and the system with that engine. *)
Definition respy (sp : option R2) (e : Engine D R1) : Engine D R2 :=
  {| e_cfg := e_cfg e; e_driver := e_driver e; e_spy := sp; e_buf := e_buf e;
     e_cancelled := e_cancelled e; e_wg := e_wg e; e_running := e_running e;
     e_stopped := e_stopped e; e_subscribed := e_subscribed e; e_rules := e_rules e;
     e_store := e_store e |}.

Definition resys (sp : option R2) (s : sys D R1) : sys D R2 :=
  Sys (respy sp (s_eng s)) (s_loop s) (s_tasks s) (s_stop s) (s_now s) (s_hist s).
End respy.

(** ** The operations do not look at the recorder *)

Section operations.
Context `{Unicode, GoFmt, Gjson, Json, TextTemplate} {D R1 R2 : Type}
  `{Driver D, SpyRecorder R1, SpyRecorder R2} (sp : option R2).
Implicit Types e : Engine D R1.

Lemma handleRule_respy utc m p r e :
  handleRule utc m p r (respy sp e) =
  let '(gs, r', e') := handleRule utc m p r e in (gs, r', respy sp e').
Proof.
  unfold handleRule. simpl. destruct (e_store e !! p) as [rs|]; [|done].
  destruct (negb _); [done|]. by destruct (RenderPayload _ _ _ _) as [[|] ?].
Qed.

Lemma dispatch_publish_respy r payload e :
  dispatch_publish r payload (respy sp e) =
  let '(err, e') := dispatch_publish r payload e in (err, respy sp e').
Proof. unfold dispatch_publish. simpl. by destruct (Publish _ _ _ _ _). Qed.

Lemma declare_respy t e :
  declare t (respy sp e) = let '(err, e') := declare t e in (err, respy sp e').
Proof. unfold declare. simpl. by destruct (DeclareTopology _ _). Qed.

Lemma consume_respy q e :
  consume q (respy sp e) = let '(err, e') := consume q e in (err, respy sp e').
Proof. unfold consume. simpl. by destruct (StartConsuming _ _ _) as [[|] ?]. Qed.

Lemma consume_all_respy skip qs e :
  consume_all skip qs (respy sp e) = let '(err, e') := consume_all skip qs e in (err, respy sp e').
Proof.
  revert e. induction qs as [|q qs IH]; intros e; [done|]. cbn [consume_all].
  change (e_subscribed (respy sp e)) with (e_subscribed e).
  destruct (skip && _); [apply IH|]. rewrite consume_respy.
  by destruct (consume q e) as [[err|] e']; [|apply IH].
Qed.

Lemma Start_respy e :
  Start (respy sp e) = let '(err, gs, e') := Start e in (err, gs, respy sp e').
Proof.
  unfold Start. change (e_stopped (respy sp e)) with (e_stopped e).
  change (e_running (respy sp e)) with (e_running e). change (e_cfg (respy sp e)) with (e_cfg e).
  destruct (e_stopped e), (e_running e); try done. rewrite declare_respy.
  destruct (declare _ e) as [[err|] e1]; [done|]. rewrite consume_all_respy.
  change (e_cfg (respy sp e1)) with (e_cfg e1).
  by destruct (consume_all false (desiredQueues (e_cfg e1)) e1) as [[err|] e2].
Qed.

Lemma Reload_respy cfg e :
  Reload cfg (respy sp e) = let '(err, e') := Reload cfg e in (err, respy sp e').
Proof.
  unfold Reload. change (e_stopped (respy sp e)) with (e_stopped e).
  change (e_running (respy sp e)) with (e_running e).
  destruct (_ || _); [done|]. rewrite declare_respy.
  destruct (declare _ e) as [[err|] e1]; [done|]. rewrite consume_all_respy.
  by destruct (consume_all true (desiredQueues cfg) e1) as [[err|] e2].
Qed.

Lemma stop_begin_respy e :
  stop_begin (respy sp e) = let '(b, e') := stop_begin e in (b, respy sp e').
Proof. unfold stop_begin. simpl. by destruct (e_stopped e). Qed.

Lemma stop_finish_respy w e :
  stop_finish w (respy sp e) = let '(err, e') := stop_finish w e in (err, respy sp e').
Proof. unfold stop_finish. simpl. by destruct (Close _). Qed.
End operations.

(** ** Embedding of runs *)

Section embedding.
Context `{Unicode, GoFmt, Gjson, Json, TextTemplate} {D R1 R2 : Type}
  `{DriverSpec D, SpyRecorder R1, SpyRecorder R2} (rel : R1 → R2 → Prop).
Context (rel_record : ∀ now m r1 r2, rel r1 r2 → rel (spy_Record now m r1) (spy_Record now m r2)).
Implicit Types (s : sys D R1).

(** The two recorders are both missing or related. *)
Definition spies (e : Engine D R1) (sp : option R2) : Prop := option_Forall2 rel (e_spy e) sp.

Lemma spies_record now m e sp :
  spies e sp → spies (record now m e) (spy_Record now m <$> sp).
Proof. unfold spies. simpl. destruct 1; constructor; auto. Qed.

(** Steps that leave the recorder alone. *)
Lemma handleRule_spy utc m p r (e : Engine D R1) gs r' e' :
  handleRule utc m p r e = (gs, r', e') → e_spy e' = e_spy e.
Proof. intros Hr. by destruct (handleRule_shape utc m p r e gs r' e' Hr) as (h & _ & -> & _). Qed.

Lemma dispatch_publish_spy r payload (e : Engine D R1) err e' :
  dispatch_publish r payload e = (err, e') → e_spy e' = e_spy e.
Proof. unfold dispatch_publish. destruct (Publish _ _ _ _ _). by intros [= <- <-]. Qed.

Lemma reattached_spy (e e' : Engine D R1) : reattached e e' → e_spy e' = e_spy e.
Proof. by intros (d & q & -> & _). Qed.

Lemma declare_spy t (e : Engine D R1) err e' : declare t e = (err, e') → e_spy e' = e_spy e.
Proof.
  intros Hd. apply reattached_spy. pose proof (declare_reattached t e) as Hr. by rewrite Hd in Hr.
Qed.

Lemma consume_spy q (e : Engine D R1) err e' : consume q e = (err, e') → e_spy e' = e_spy e.
Proof.
  intros Hd. apply reattached_spy. pose proof (consume_reattached q e) as Hr. by rewrite Hd in Hr.
Qed.

Lemma Start_spy (e : Engine D R1) err gs e' : Start e = (err, gs, e') → e_spy e' = e_spy e.
Proof.
  by intros [[-> Hr%reattached_spy]|(-> & _ & _ & e1 & Hr%reattached_spy & ->)]%Start_shape.
Qed.

Lemma Reload_spy cfg (e : Engine D R1) err e' : Reload cfg e = (err, e') → e_spy e' = e_spy e.
Proof. by intros (e1 & Hr%reattached_spy & [->| ->])%Reload_shape. Qed.

Lemma stop_begin_spy (e : Engine D R1) b e' : stop_begin e = (b, e') → e_spy e' = e_spy e.
Proof. unfold stop_begin. by destruct (e_stopped e); intros [= <- <-]. Qed.

Lemma stop_finish_spy w (e : Engine D R1) err e' :
  stop_finish w e = (err, e') → e_spy e' = e_spy e.
Proof. unfold stop_finish. destruct (Close _). by intros [= <- <-]. Qed.

Lemma spies_same (e e' : Engine D R1) sp : e_spy e' = e_spy e → spies e sp → spies e' sp.
Proof. unfold spies. by intros ->. Qed.

Ltac respy lem :=
  rewrite lem; match goal with E : _ = (_, _) |- _ => by rewrite E end.

(** Every step over the first recorder is a step over the second. *)
Lemma worker_embeds s s' r2 :
  worker_step s s' → spies (s_eng s) (Some r2) →
  ∃ r2', worker_step (resys (Some r2) s) (resys (Some r2') s') ∧ spies (s_eng s') (Some r2').
Proof.
  intros Hs Hsp. destruct Hs; unfold resys; cbn [s_eng s_loop s_tasks s_stop s_now s_hist] in *;
    try (exists r2; split; [by econstructor|done]).
  - eexists. split; [by apply (w_receive (respy (Some r2) e))|].
    by apply (spies_record now _ (set_buf buf e) (Some r2)).
  - exists r2. split; [by apply (w_snapshot (respy (Some r2) e))|done].
  - exists r2. split; [|by apply (spies_same e); [eapply handleRule_spy; eassumption|]].
    eapply w_rule. respy @handleRule_respy.
  - exists r2. split; [|by apply (spies_same e); [eapply dispatch_publish_spy; eassumption|]].
    apply (w_publish (respy (Some r2) e) (respy (Some r2) e')); [done|]. respy @dispatch_publish_respy.
  - exists r2. split; [|by apply (spies_same e); [apply (dispatch_publish_spy (t_rule t) (t_payload t) e (Some err) e')|]].
    apply (w_refused (respy (Some r2) e) (respy (Some r2) e') err); [done|]. respy @dispatch_publish_respy.
  - eexists. split; [by apply (w_record (respy (Some r2) e))|]. by apply (spies_record now _ e (Some r2)).
Qed.

Lemma env_embeds s s' sp :
  env_step s s' → spies (s_eng s) sp → env_step (resys sp s) (resys sp s') ∧ spies (s_eng s') sp.
Proof.
  intros Hs Hsp. destruct Hs as [e m l ts sp0 now h Hlen Hq Hm|e e' err l ts now h Hst Hru Hd
    |q qs e e' err l ts now h Hc|e l ts now h|cfg e e' err l ts now h Hg Hd
    |cfg q qs e l ts now h Hq|cfg q qs e e' err l ts now h Hq Hc|cfg e l ts now h
    |e e' l ts now h Hs|e e' res l ts now h Hw Hs|ctx_err e e' res l ts now h Hs
    |e l ts sp0 now now' h Hle]; unfold resys; cbn [s_eng s_loop s_tasks s_stop s_now s_hist] in *.
  - split; [by apply (v_deliver (respy sp e))|done].
  - split; [|by apply (spies_same e); [eapply declare_spy; eassumption|]].
    apply (v_start (respy sp e) (respy sp e') err); [done|done|].
    change (e_cfg (respy sp e)) with (e_cfg e). respy @declare_respy.
  - split; [|by apply (spies_same e); [eapply consume_spy; eassumption|]].
    apply (v_start_consume q qs (respy sp e) (respy sp e') err). respy @consume_respy.
  - split; [by apply (v_started (respy sp e))|done].
  - split; [|by apply (spies_same e); [eapply declare_spy; eassumption|]].
    apply (v_reload cfg (respy sp e) (respy sp e') err); [done|]. respy @declare_respy.
  - split; [by apply (v_reload_skip cfg q qs (respy sp e))|done].
  - split; [|by apply (spies_same e); [eapply consume_spy; eassumption|]].
    apply (v_reload_consume cfg q qs (respy sp e) (respy sp e') err); [done|].
    respy @consume_respy.
  - split; [by apply (v_reloaded cfg (respy sp e))|done].
  - split; [|by apply (spies_same e); [eapply stop_begin_spy; eassumption|]].
    apply (v_stop (respy sp e) (respy sp e')). respy @stop_begin_respy.
  - split; [|by apply (spies_same e); [eapply stop_finish_spy; eassumption|]].
    apply (v_drained (respy sp e) (respy sp e')); [done|]. respy @stop_finish_respy.
  - split; [|by apply (spies_same e); [eapply stop_finish_spy; eassumption|]].
    apply (v_timeout ctx_err (respy sp e) (respy sp e')). respy @stop_finish_respy.
  - split; [by apply v_tick|done].
Qed.

Lemma step_embeds s s' r2 :
  step s s' → spies (s_eng s) (Some r2) →
  ∃ r2', step (resys (Some r2) s) (resys (Some r2') s') ∧ spies (s_eng s') (Some r2').
Proof.
  intros [Hs|Hs] Hsp.
  - destruct (worker_embeds s s' r2 Hs Hsp) as (r2' & ? & ?). exists r2'. by split; [apply step_worker|].
  - destruct (env_embeds s s' (Some r2) Hs Hsp). exists r2. by split; [apply step_env|].
Qed.
End embedding.
