(* ===== verification/Logger.v ===== *)
(** * Logging setup (pkg/logger/logger.go)

    The logger InitLogger makes and installs as the default one, and which records
    it writes.  The text of a written record is [log/slog]'s and is not modelled. *)
From S2P Require Import Prelude GoStrings Config Validate.

Inductive slog_Level := LevelDebug | LevelInfo | LevelWarn | LevelError.
Inductive slog_Handler := TextHandler | JSONHandler.

(** [slog.Level]'s integers, and the test every handler makes first. *)
Definition level_value (l : slog_Level) : Z :=
  match l with LevelDebug => -4 | LevelInfo => 0 | LevelWarn => 4 | LevelError => 8 end.

(** [*slog.Logger]: a handler with its options and its writer. *)
Record slog_Logger (W : Type) := {
  lo_Level : slog_Level;
  lo_Handler : slog_Handler;
  lo_out : W;
}.
Arguments lo_Level {W}. Arguments lo_Handler {W}. Arguments lo_out {W}.

Definition Enabled {W} (l : slog_Logger W) (level : slog_Level) : bool :=
  bool_decide (level_value (lo_Level l) ≤ level_value level)%Z.

Section logger.
Context `{Unicode}.

(** [strings.ToLower(strings.TrimSpace(s))] *)
Definition normalized (s : string) : string := to_lower (trim_space s).

Definition log_level (levelStr : string) : slog_Level :=
  let l := normalized levelStr in
  if bool_decide (l = "debug") then LevelDebug
  else if bool_decide (l = "warn" ∨ l = "warning") then LevelWarn
  else if bool_decide (l = "error") then LevelError
  else LevelInfo.

Definition log_handler (formatStr : string) : slog_Handler :=
  if bool_decide (normalized formatStr = "json") then JSONHandler else TextHandler.

(** The writers are those of a type [W], [stdout] is os.Stdout and [out] may be nil.
    The state is the default logger of the process: slog.SetDefault replaces it. *)
Definition InitLogger {W} (stdout : W) (levelStr formatStr : string) (out : option W)
    (default_logger : slog_Logger W) : slog_Logger W * slog_Logger W :=
  let logger := {| lo_Level := log_level levelStr; lo_Handler := log_handler formatStr;
                   lo_out := default stdout out |} in
  (logger, logger).
End logger.

(** The names the documentation gives to levels and formats. *)
Inductive level_name : string → slog_Level → Prop :=
| name_debug : level_name "debug" LevelDebug
| name_info : level_name "info" LevelInfo
| name_warn : level_name "warn" LevelWarn
| name_warning : level_name "warning" LevelWarn
| name_error : level_name "error" LevelError.
Inductive format_name : string → slog_Handler → Prop :=
| name_text : format_name "text" TextHandler
| name_json : format_name "json" JSONHandler.

(** The logging settings Validate accepts are exactly those InitLogger
    understands: it accepts a level and a format if and only if they are, up to
    case and surrounding space, the names of the level and the handler that
    InitLogger then uses, so that its fallbacks are never taken silently. *)
Theorem logging_validated `{Unicode} {W} (l : LogConfig) (stdout : W) (out : option W)
    (default_logger : slog_Logger W) :
  let '(logger, default_logger') :=
    InitLogger stdout (lc_Level l) (lc_Format l) out default_logger in
  default_logger' = logger ∧
  (check_logging l = [] ↔
   level_name (normalized (lc_Level l)) (lo_Level logger) ∧
   format_name (normalized (lc_Format l)) (lo_Handler logger)).
Proof.
  split; [done|]. unfold check_logging, log_level, log_handler; simpl.
  fold (normalized (lc_Level l)) (normalized (lc_Format l)).
  rewrite app_nil.
  assert (∀ (P : Prop) `{Decision P} (x : string), (if bool_decide P then [] else [x]) = [] ↔ P)
    as Hif by (intros P ? x; case_bool_decide; naive_solver).
  rewrite !Hif. unfold validLogLevels, validLogFormats. rewrite !elem_of_cons.
  generalize (normalized (lc_Level l)) (normalized (lc_Format l)). intros s f. split.
  - intros [Hs Hf]. split.
    + destruct Hs as [->|[->|[->|[->|[->|Hn]]]]]; [constructor..|by apply elem_of_nil in Hn].
    + destruct Hf as [->|[->|Hn]]; [constructor..|by apply elem_of_nil in Hn].
  - intros [Hs Hf]. split; [inversion Hs; naive_solver|inversion Hf; naive_solver].
Qed.

(** What a level lets through: errors always, and everything at the debug level; a
    record that a level lets through is let through by every lower one. *)
Lemma Enabled_monotone {W} (l l' : slog_Logger W) level :
  (level_value (lo_Level l') ≤ level_value (lo_Level l))%Z →
  Enabled l level = true → Enabled l' level = true.
Proof. unfold Enabled. rewrite !bool_decide_eq_true. lia. Qed.

(** The levels by their documented names: the records of each level and above are
    written, whatever else the configuration holds; a level that Validate refuses
    would be read as info. *)
Lemma level_writes `{Unicode} {W} (stdout : W) levelStr formatStr out d level name lv :
  level_name name lv → normalized levelStr = name →
  Enabled (InitLogger stdout levelStr formatStr out d).1 level =
  bool_decide (level_value lv ≤ level_value level)%Z.
Proof.
  intros Hn Hs. unfold Enabled, InitLogger, log_level; simpl. rewrite Hs.
  by destruct Hn.
Qed.
