(* ===== verification/Main.v ===== *)
(** * The command (cmd/chitchat/main.go)

    The build information and the version text; loading and checking the
    configuration; the validate command; hot reload; and runChitchat up to the
    running engine, with what it logs.  What follows, requests, signals and the
    shutdown, is the subject of [Process].  Splitting the command line into flags
    is the library cobra's and is not modelled. *)
From S2P Require Import Prelude GoStrings GoValue Libs Decimal JsonText JsonCodec NetURL Config Validate Broker Rabbit Ring SpyServer SpyHttp Matcher Template Engine Logger.

(** ** Version *)

Definition DefaultVersion : string := "0.1.0-dev".

(** The package variables that describe the build; the linker may have set them. *)
Record version_info := { Version : string; GitCommit : string; BuildTime : string }.

(** What the runtime knows of the build. *)
Record build_info := { bi_Version : string; bi_Settings : list (string * string) }.

Definition set_Version (x : string) (v : version_info) : version_info :=
  {| Version := x; GitCommit := GitCommit v; BuildTime := BuildTime v |}.
Definition set_GitCommit (x : string) (v : version_info) : version_info :=
  {| Version := Version v; GitCommit := x; BuildTime := BuildTime v |}.
Definition set_BuildTime (x : string) (v : version_info) : version_info :=
  {| Version := Version v; GitCommit := GitCommit v; BuildTime := x |}.

Definition short_revision (value : string) : string :=
  if bool_decide (7 < String.length value) then str_take 7 value else value.

Definition use_setting (v : version_info) (s : string * string) : version_info :=
  let v := if bool_decide (s.1 = "vcs.revision" ∧ GitCommit v = "")
           then set_GitCommit (short_revision s.2) v else v in
  if bool_decide (s.1 = "vcs.time" ∧ BuildTime v = "") then set_BuildTime s.2 v else v.

(** [info] is what [debug.ReadBuildInfo] finds. *)
Definition init (info : option build_info) (v : version_info) : version_info :=
  if bool_decide (Version v = "" ∨ Version v = DefaultVersion) then
    match info with
    | None => v
    | Some bi =>
      let v := if bool_decide (bi_Version bi ≠ "" ∧ bi_Version bi ≠ "(devel)")
               then set_Version (bi_Version bi) v else v in
      foldl use_setting v (bi_Settings bi)
    end
  else v.

(** The line the version command prints. *)
Definition version_line (v : version_info) : string :=
  if bool_decide (GitCommit v ≠ "" ∧ BuildTime v ≠ "") then
    "chitchat version " +:+ Version v +:+ " (commit: " +:+ GitCommit v +:+ ", built: " +:+
    BuildTime v +:+ ")"
  else if bool_decide (GitCommit v ≠ "") then
    "chitchat version " +:+ Version v +:+ " (commit: " +:+ GitCommit v +:+ ")"
  else "chitchat version " +:+ Version v.

(** ** Configuration *)

(** The package variables the flags set, and what they are without flags. *)
Record flags := {
  configPath : string;
  portFlag : Z;
  amqpURL : string;
  logLevel : string;
  logFormat : string;
}.

Definition default_flags : flags :=
  {| configPath := "chitchat-rules.yaml"; portFlag := 0; amqpURL := ""; logLevel := "";
     logFormat := "" |}.

(** [net.Listen]: the port bound, or an error. *)
Class Net := { net_Listen : string → result string Z }.

(** A record given to the logger. *)
Record log_record := {
  lg_level : slog_Level;
  lg_msg : string;
  lg_attrs : list (string * value);
}.

Section main.
Context `{Unicode, GoFmt, TextTemplate, NetURL, Yaml}.

Definition override_format (f : flags) (c : Config) : Config :=
  if bool_decide (logFormat f ≠ "") then set_Format (logFormat f) c else c.

(** The file is read at each call: [fs] is the file system at that moment. *)
Definition loadConfig (fs : Files) (f : flags) : result string Config :=
  cfg ← wrap_err "failed to load configuration: " (LoadConfig (configPath f));
  mret (override_format f (ApplyOverrides cfg (amqpURL f) (portFlag f) (logLevel f))).

Definition checkConfig (cfg : Config) : list string * option string :=
  (Warnings cfg,
   join_errors (option_list (ValidationError_Error <$> Validate cfg) ++
                option_list (ValidateTemplates cfg))).

(** What it prints to stderr and stdout, and its error. *)
Definition runValidate (fs : Files) (f : flags) : list string * list string * option string :=
  match loadConfig fs f with
  | Err e => ([], [], Some e)
  | Ok cfg =>
    let '(warnings, err) := checkConfig cfg in
    (map (λ w, "warning: " +:+ w) warnings,
     match err with
     | Some _ => []
     | None => [configPath f +:+ " is valid (" +:+ itoa (len (c_Rules cfg)) +:+ " rules, " +:+
                itoa (len (sp_Queues (c_Spy cfg))) +:+ " spy queues, " +:+
                itoa (len warnings) +:+ " warnings)"]
     end, err)
  end.

(** ** The commands

    What a command does once its flags are set: it runs the server, or it prints,
    to stdout and stderr, and returns an error or not. *)

Inductive command := CmdRoot | CmdStart | CmdValidate | CmdVersion.

Inductive invocation :=
| RunChitchat
| Printed (out errOut : list string) (err : option string).

Definition run_command (v : version_info) (fs : Files) (f : flags) (c : command) : invocation :=
  match c with
  | CmdRoot | CmdStart => RunChitchat
  | CmdValidate => let '(errOut, out, err) := runValidate fs f in Printed out errOut err
  | CmdVersion => Printed [version_line v] [] None
  end.

(** The status of the process when the command returned. *)
Definition exit_status (err : option string) : Z := match err with Some _ => 1 | None => 0 end.

(** ** Hot reload *)

Definition connectBroker {D} `{Driver D} (d : D) (cfg : Config) : option string * D :=
  Connect (bc_URL (c_Broker cfg)) d.

Record reload_result := {
  rr_rules : Z;
  rr_spy_queues : Z;
  rr_warnings : list string;
}.

Definition url_warning : string :=
  "broker.url changed in config but cannot be applied by a reload; restart chitchat to use it".
Definition server_warning : string :=
  "server.host/port changed in config but cannot be applied by a reload; restart chitchat to use it".

Definition warn (msg : string) : log_record :=
  {| lg_level := LevelWarn; lg_msg := msg; lg_attrs := [] |}.
Definition config_warning (w : string) : log_record :=
  {| lg_level := LevelWarn; lg_msg := "config warning"; lg_attrs := [("detail", VString w)] |}.

Definition unapplied_warnings (current next : Config) : list log_record :=
  (if bool_decide (bc_URL (c_Broker next) ≠ bc_URL (c_Broker current))
   then [warn url_warning] else [])
  ++ (if bool_decide (sc_Port (c_Server next) ≠ sc_Port (c_Server current) ∨
                      sc_Host (c_Server next) ≠ sc_Host (c_Server current))
      then [warn server_warning] else []).

(** The part of reloadConfig before the engine's Reload: the file with the warnings
    about it or an error, and what is logged. *)
Definition reload_check (fs : Files) (f : flags) (current : Config)
    : result string (Config * list string) * list log_record :=
  match loadConfig fs f with
  | Err e => (Err e, [])
  | Ok next =>
    match checkConfig next with
    | (_, Some e) => (Err e, [])
    | (warnings, None) =>
      (Ok (next, warnings), map config_warning warnings ++ unapplied_warnings current next)
    end
  end.

Definition reload_summary (next : Config) (warnings : list string) : reload_result :=
  {| rr_rules := len (c_Rules next); rr_spy_queues := len (sp_Queues (c_Spy next));
     rr_warnings := warnings |}.

(** Its result, what it logs, and the engine. *)
Definition reloadConfig {D R} `{Driver D} (fs : Files) (f : flags) (eng : Engine D R)
    (current : Config) : result string reload_result * list log_record * Engine D R :=
  match reload_check fs f current with
  | (Err e, logged) => (Err e, logged, eng)
  | (Ok (next, warnings), logged) =>
    match Reload next eng with
    | (Some e, eng') => (Err e, logged, eng')
    | (None, eng') => (Ok (reload_summary next warnings), logged, eng')
    end
  end.

(** The function given to SetReloader: [fs'] is the file system when it reads the
    file for the second time, to replace [current]. *)
Definition reloader {D R} `{Driver D} (fs fs' : Files) (f : flags) (eng : Engine D R)
    (current : Config)
    : result string reload_result * list log_record * Engine D R * Config :=
  match reloadConfig fs f eng current with
  | (Err e, logged, eng') => (Err e, logged, eng', current)
  | (Ok res, logged, eng') =>
    (Ok res, logged, eng', match loadConfig fs' f with Ok next => next | Err _ => current end)
  end.

(** The JSON of the answers: the result of a reload is a map, whose warnings are
    the slice that dedupe makes, which is never nil; a RuleStat is a struct. *)
Definition enc_reload_result (r : reload_result) : encoded :=
  encode_object
    [("rules", enc_int (rr_rules r)); ("spy_queues", enc_int (rr_spy_queues r));
     ("warnings", Ok (JArr (map (λ w, JStr (escape w)) (rr_warnings r))))].

Definition stat_fields (st : RuleStat) : list (result string (string * json)) :=
  [field "name" (enc_string (st_Name st)); field "queue" (enc_string (st_Queue st))] ++
  str_field_opt "routing_key" (st_RoutingKey st) ++
  [field "response_exchange" (enc_string (st_ResponseExchange st));
   field "response_routing_key" (enc_string (st_ResponseRoutingKey st));
   field "delay_ms" (enc_int (st_DelayMS st)); field "matches" (enc_int (st_Matches st))].

Definition enc_stats (l : list RuleStat) : encoded :=
  JArr <$> seqR (map (λ st, JObj <$> seqR (stat_fields st)) l).

(** ** Startup *)

Definition startup_record (v : version_info) (f : flags) (cfg : Config) : log_record :=
  {| lg_level := LevelInfo; lg_msg := "initializing chitchat engine";
     lg_attrs := [("version", VString (Version v)); ("config", VString (configPath f));
                  ("broker_url", VString (SanitizeURL (bc_URL (c_Broker cfg))));
                  ("spy_port", VInt KInt (sc_Port (c_Server cfg)));
                  ("log_level", VString (lc_Level (c_Logging cfg)))] |}.

(** What runChitchat logs before it uses the network. *)
Definition startup_log (v : version_info) (f : flags) (cfg : Config) : list log_record :=
  let '(warnings, err) := checkConfig cfg in
  map config_warning warnings ++
  match err with Some _ => [] | None => [startup_record v f cfg] end.

(** The driver, the spy server and the engine if they were made, and the goroutines
    the engine has started. *)
Record launch (W D : Type) := {
  la_driver : D;
  la_server : option (Server W);
  la_engine : option (Engine D RingBuffer);
  la_goroutines : list goroutine;
}.

Definition la_set_server {W D} (s : Server W) (la : launch W D) : launch W D :=
  {| la_driver := la_driver W D la; la_server := Some s; la_engine := la_engine W D la;
     la_goroutines := la_goroutines W D la |}.
Definition la_set_driver {W D} (d : D) (la : launch W D) : launch W D :=
  {| la_driver := d; la_server := la_server W D la; la_engine := la_engine W D la;
     la_goroutines := la_goroutines W D la |}.

(** The engine holds the driver. *)
Definition la_set_engine {W D} (eng : Engine D RingBuffer) (la : launch W D) : launch W D :=
  {| la_driver := e_driver eng; la_server := la_server W D la; la_engine := Some eng;
     la_goroutines := la_goroutines W D la |}.
Definition la_spawn {W D} (gs : list goroutine) (la : launch W D) : launch W D :=
  {| la_driver := la_driver W D la; la_server := la_server W D la; la_engine := la_engine W D la;
     la_goroutines := la_goroutines W D la ++ gs |}.

(** runChitchat up to the started engine. *)
Definition startup {W D} `{Net, Driver D} (fs : Files) (f : flags) (driver : D)
    : option string * launch W D :=
  let la := {| la_driver := driver; la_server := None; la_engine := None;
               la_goroutines := [] |} in
  match loadConfig fs f with
  | Err e => (Some e, la)
  | Ok cfg =>
    match checkConfig cfg with
    | (_, Some e) => (Some e, la)
    | (_, None) =>
      let ringBuffer := NewRingBuffer (sc_RingBufferSize (c_Server cfg)) in
      let spyServer := WithHost (sc_Host (c_Server cfg))
                         (NewServer (sc_Port (c_Server cfg)) (Some BufShared)) in
      match server_Start net_Listen spyServer with
      | Err e => (Some ("failed to start spy server: " +:+ e), la_set_server spyServer la)
      | Ok listening =>
        let la := la_set_server listening la in
        match connectBroker driver cfg with
        | (Some e, d) =>
          (Some ("failed to connect to rabbitmq: " +:+ e),
           la_set_server (server_Stop None listening).2 (la_set_driver d la))
        | (None, d) =>
          let '(err, gs, eng) := Start (NewEngine cfg d (Some ringBuffer)) in
          let la := la_spawn gs (la_set_engine eng la) in
          match err with
          | Some e =>
            let eng' := (stop_finish None (stop_begin eng).2).2 in
            (Some ("failed to start engine: " +:+ e),
             la_set_server (server_Stop None listening).2 (la_set_engine eng' la))
          | None => (None, la)
          end
        end
      end
    end
  end.
End main.

(** ** Properties *)

Section facts.
Context `{Unicode, GoFmt, TextTemplate, NetURL, Yaml}.

(** The configuration passes every check. *)
Definition accepted (cfg : Config) : Prop := Validate cfg = None ∧ ValidateTemplates cfg = None.

Lemma checkConfig_accepted cfg : (checkConfig cfg).2 = None ↔ accepted cfg.
Proof.
  unfold checkConfig, accepted; simpl.
  by destruct (Validate cfg), (ValidateTemplates cfg); simpl; naive_solver.
Qed.

Lemma unapplied_self c : unapplied_warnings c c = [].
Proof. unfold unapplied_warnings. by rewrite !bool_decide_false by naive_solver. Qed.
End facts.

(** The validate command and startup agree, and a bad configuration touches
    nothing: validate succeeds exactly when the file loads and passes every check;
    when it fails, startup fails with the same error, before the spy server is made
    and before the driver is used. *)
Theorem validate_predicts_startup `{Unicode, GoFmt, TextTemplate, NetURL, Yaml, Net}
    {W D} `{Driver D} (fs : Files) (f : flags) (d : D) :
  ((runValidate fs f).2 = None ↔ ∃ cfg, loadConfig fs f = Ok cfg ∧ accepted cfg) ∧
  (∀ e, (runValidate fs f).2 = Some e →
     startup (W := W) fs f d =
     (Some e, {| la_driver := d; la_server := None; la_engine := None; la_goroutines := [] |})).
Proof.
  unfold runValidate, startup. destruct (loadConfig fs f) as [cfg|e].
  2:{ simpl. split; [split; [done|by intros (? & ? & _)]|by intros e' [= ->]]. }
  pose proof (checkConfig_accepted cfg) as Hc.
  destruct (checkConfig cfg) as [ws [e|]]; simpl in *.
  - split; [split; [done|]|by intros e' [= ->]].
    intros (cfg' & [= <-] & Ha). by apply Hc in Ha.
  - split; [|done]. split; [|done]. intros _. exists cfg. split; [done|]. by apply Hc.
Qed.

(** C36: startup either leaves a running engine behind a listening spy server, for
    a configuration that passed every check, with one processing goroutine and
    every wanted queue subscribed; or it fails, and then nothing listens and the
    engine has started no goroutine.  After a failure the driver is closed if an
    engine was made, which is then stopped and waits for nobody; otherwise the
    driver was never used, or it is as its own failed Connect left it, and that was
    tried for a configuration that passed every check only. *)
Theorem startup_correct `{Unicode, GoFmt, TextTemplate, NetURL, Yaml, Net}
    {W D} `{DriverSpec D} (fs : Files) (f : flags) (d : D) :
  match startup (W := W) fs f d with
  | (None, p) => ∃ cfg eng s,
      loadConfig fs f = Ok cfg ∧ accepted cfg ∧ la_server W D p = Some s ∧
      s_listening s = true ∧ s_buffer s = BufShared ∧
      la_engine W D p = Some eng ∧ la_goroutines W D p = [GoProcessLoop] ∧
      e_running eng = true ∧ e_stopped eng = false ∧ e_wg eng = 1 ∧ e_cfg eng = cfg ∧
      e_subscribed eng = list_to_set (desiredQueues cfg) ∧ la_driver W D p = e_driver eng
  | (Some _, p) =>
      (∀ s, la_server W D p = Some s → s_listening s = false) ∧ la_goroutines W D p = [] ∧
      match la_engine W D p with
      | Some eng =>
        e_stopped eng = true ∧ e_running eng = false ∧ e_wg eng = 0 ∧
        la_driver W D p = e_driver eng ∧ Close (la_driver W D p) = (None, la_driver W D p)
      | None =>
        la_driver W D p = d ∨
        ∃ cfg e, loadConfig fs f = Ok cfg ∧ accepted cfg ∧
          connectBroker d cfg = (Some e, la_driver W D p)
      end
  end.
Proof.
  unfold startup. destruct (loadConfig fs f) as [cfg|e]; [|by split_and!; [..|left]].
  pose proof (checkConfig_accepted cfg) as Hacc.
  destruct (checkConfig cfg) as [ws [e|]]; [by split_and!; [..|left]|].
  destruct (server_Start net_Listen _) as [s|e] eqn:Hsrv;
    [|by split_and!; [intros s [= <-]|..|left]].
  assert (s_listening s = true ∧ s_buffer s = BufShared) as [Hl Hb].
  { unfold server_Start in Hsrv. destruct (net_Listen _); [by injection Hsrv as <-|done]. }
  destruct (connectBroker d cfg) as [[e|] d1] eqn:Hconn.
  { split_and!; [by intros s' [= <-]|done|]. right. exists cfg, e. split_and!; [done|by apply Hacc|done]. }
  pose proof (Start_run (NewEngine cfg d1
    (Some (NewRingBuffer (sc_RingBufferSize (c_Server cfg)))))) as Hs.
  cbv zeta in Hs. simpl e_stopped in Hs. simpl e_running in Hs.
  destruct (Start _) as [[[e|] gs] eng].
  - destruct Hs as [-> (d2 & q & -> & _)]. simpl.
    unfold stop_finish. pose proof (close_again d2) as Hc. simpl.
    destruct (Close d2) as [ce d3] eqn:Hclose; simpl in *.
    by split_and!; [intros s' [= <-]|..].
  - destruct Hs as (-> & _ & ->). eexists cfg, _, s.
    split_and!; try done; [by apply Hacc|]. simpl. by rewrite union_empty_l_L.
Qed.

Lemma reloadConfig_outcome `{Unicode, GoFmt, TextTemplate, NetURL, Yaml} {D R}
    `{Driver D} (fs : Files) (f : flags) (eng : Engine D R) current :
  match reloadConfig fs f eng current with
  | (Ok res, _, eng') => ∃ next,
      loadConfig fs f = Ok next ∧ accepted next ∧ e_cfg eng' = next ∧
      RuleStats eng' = map fresh_stat (c_Rules next) ∧
      res = {| rr_rules := len (c_Rules next); rr_spy_queues := len (sp_Queues (c_Spy next));
               rr_warnings := Warnings next |}
  | (Err _, _, eng') =>
      e_cfg eng' = e_cfg eng ∧ RuleStats eng' = RuleStats eng ∧ e_spy eng' = e_spy eng ∧
      ((∀ next, loadConfig fs f = Ok next → ¬ accepted next) → eng' = eng)
  end.
Proof.
  unfold reloadConfig, reload_check. destruct (loadConfig fs f) as [next|e]; [|done].
  pose proof (checkConfig_accepted next) as Hacc.
  assert ((checkConfig next).1 = Warnings next) as Hw by done.
  destruct (checkConfig next) as [ws [e|]]; cbn [fst snd] in *; [done|]. subst ws.
  pose proof (Reload_run next eng) as Hr. cbv zeta in Hr.
  destruct (Reload next eng) as [[e|] eng'].
  - assert (e_cfg eng' = e_cfg eng ∧ RuleStats eng' = RuleStats eng ∧ e_spy eng' = e_spy eng)
      as (? & ? & ?).
    { destruct (e_stopped eng || negb (e_running eng)); [by injection Hr as -> ->|].
      by destruct Hr as (d & q & -> & _). }
    split_and!; try done. intros Hno. destruct (Hno next); [done|]. by apply Hacc.
  - destruct (e_stopped eng || negb (e_running eng)); [done|].
    destruct Hr as (Hcfg & Hstats & _). exists next. split_and!; [done| |done|done|done].
    by apply Hacc.
Qed.

(** Hot reload is transactional: a file that does not load or does not pass
    every check leaves the engine exactly as it was; if the engine refuses or
    cannot attach, its configuration, rules and counters stay; and success means
    that the engine runs with the file's configuration, which passed every check,
    with one unmatched rule state per rule.  The answer reports the counts and
    warnings of that configuration. *)
Theorem reloadConfig_correct `{Unicode, GoFmt, TextTemplate, NetURL, Yaml} {D R}
    `{Driver D} (fs : Files) (f : flags) (eng : Engine D R) current :
  match reloadConfig fs f eng current with
  | (Ok res, _, eng') => ∃ next,
      loadConfig fs f = Ok next ∧ accepted next ∧ e_cfg eng' = next ∧
      RuleStats eng' = map fresh_stat (c_Rules next) ∧
      res = {| rr_rules := len (c_Rules next); rr_spy_queues := len (sp_Queues (c_Spy next));
               rr_warnings := Warnings next |}
  | (Err _, _, eng') =>
      e_cfg eng' = e_cfg eng ∧ RuleStats eng' = RuleStats eng ∧ e_spy eng' = e_spy eng ∧
      ((∀ next, loadConfig fs f = Ok next → ¬ accepted next) → eng' = eng)
  end.
Proof. apply reloadConfig_outcome. Qed.

(** The records of a reload that name a setting it could not apply. *)
Definition flagged (r : log_record) : Prop := lg_msg r = url_warning ∨ lg_msg r = server_warning.
#[export] Instance flagged_dec r : Decision (flagged r).
Proof. unfold flagged. apply _. Defined.

Lemma flagged_reload ws current next :
  filter flagged (map config_warning ws ++ unapplied_warnings current next)
  = unapplied_warnings current next.
Proof.
  rewrite filter_app. assert (filter flagged (map config_warning ws) = []) as ->.
  { induction ws as [|w ws IH]; [done|]. cbn [map]. rewrite filter_cons_False, IH; [done|].
    by intros [?|?]. }
  unfold unapplied_warnings. by repeat case_bool_decide.
Qed.

(** The comparison that warns about settings a reload cannot apply forgets:
    after a successful reload the configuration just read becomes the one to
    compare with, so reloading the same file again flags nothing, although the
    broker URL and the address of the running process are still those it started
    with. *)
Theorem second_reload_silent `{Unicode, GoFmt, TextTemplate, NetURL, Yaml} {D R}
    `{Driver D} (fs : Files) (f : flags) (eng eng' eng2 : Engine D R) current current' res logged :
  reloader fs fs f eng current = (Ok res, logged, eng', current') →
  (∃ next, loadConfig fs f = Ok next ∧
           filter flagged logged = unapplied_warnings current next) ∧
  filter flagged (reloader fs fs f eng2 current').1.1.2 = [].
Proof.
  unfold reloader, reloadConfig, reload_check. destruct (loadConfig fs f) as [next|e]; [|done].
  destruct (checkConfig next) as [ws [e|]]; [done|].
  destruct (Reload next eng) as [[e|] eng1]; [done|]. intros [= <- <- <- <-].
  split; [exists next; by rewrite flagged_reload|].
  destruct (Reload next eng2) as [[e|] eng3]; cbn [fst snd]; by rewrite flagged_reload, unapplied_self.
Qed.

#[local] Existing Instances example_unicode plain_fmt echo_template example_url example_yaml.

(** A file that moves the spy server to port 9000. *)
Definition port_9000_file : Files := {| read_file path := Ok "port: 9000" |}.
Definition started_engine : Engine MockDriver (list Message) :=
  (Start (NewEngine DefaultConfig NewMockDriver (Some []))).2.

Definition example_reload (eng : Engine MockDriver (list Message)) (current : Config) :=
  reloader port_9000_file port_9000_file default_flags eng current.

Lemma second_reload_silent_witness :
  filter flagged (example_reload started_engine DefaultConfig).1.1.2 = [warn server_warning] ∧
  filter flagged (example_reload (example_reload started_engine DefaultConfig).1.2
     (example_reload started_engine DefaultConfig).2).1.1.2 = [].
Proof.
  split; [by vm_compute|].
  destruct (example_reload started_engine DefaultConfig) as [[[r logged] eng'] current'] eqn:Hr.
  destruct r as [res|e]; [|by vm_compute in Hr].
  by apply (second_reload_silent port_9000_file default_flags started_engine eng' eng')
    in Hr as [_ ?].
Defined.

(** ** What is logged and printed *)

(** The password of the broker never reaches the startup log: two
    configurations that differ only in the password of the broker's URL, which
    both pass the checks, make chitchat log the same records before it connects. *)
Theorem startup_log_hides_password `{Unicode, GoFmt, TextTemplate, NetURL}
    v f cfg raw u u' i i' :
  url_Parse (bc_URL (c_Broker cfg)) = Ok u → url_Parse raw = Ok u' →
  url_User u = Some i → url_User u' = Some i' → ui_Username i = ui_Username i' →
  url_Scheme u = url_Scheme u' → url_rest u = url_rest u' →
  accepted cfg → accepted (set_URL raw cfg) →
  startup_log v f cfg = startup_log v f (set_URL raw cfg).
Proof.
  intros Hu Hu' Hi Hi' Hn Hs Hr Ha Ha'. apply checkConfig_accepted in Ha, Ha'.
  unfold startup_log. destruct (checkConfig cfg) as [ws err] eqn:Hc.
  destruct (checkConfig (set_URL raw cfg)) as [ws' err'] eqn:Hc'. simpl in Ha, Ha'. subst.
  assert (ws' = ws) as ->.
  { unfold checkConfig in Hc, Hc'. injection Hc as <- _. by injection Hc' as <- _. }
  unfold startup_record. cbn -[SanitizeURL]. do 6 f_equal.
  unfold SanitizeURL. rewrite Hu, Hu', Hi, Hi'. unfold set_User. by rewrite Hn, Hs, Hr.
Qed.

(** The first value recorded under a key that is not empty. *)
Definition first_setting (key : string) (l : list (string * string)) : option string :=
  snd <$> List.find (λ s, bool_decide (s.1 = key ∧ s.2 ≠ "")) l.

Lemma short_revision_empty s : short_revision s = "" ↔ s = "".
Proof. unfold short_revision. case_bool_decide; [|done]. by destruct s. Qed.

Lemma use_setting_fields v s :
  Version (use_setting v s) = Version v ∧
  GitCommit (use_setting v s) =
    (if bool_decide (s.1 = "vcs.revision" ∧ GitCommit v = "") then short_revision s.2
     else GitCommit v) ∧
  BuildTime (use_setting v s) =
    (if bool_decide (s.1 = "vcs.time" ∧ BuildTime v = "") then s.2 else BuildTime v).
Proof.
  unfold use_setting. destruct (decide (s.1 = "vcs.revision" ∧ GitCommit v = "")) as [Hr|Hr].
  - rewrite (bool_decide_true _ Hr). simpl. by case_bool_decide.
  - rewrite (bool_decide_false _ Hr). by case_bool_decide.
Qed.

Lemma first_setting_cons key s l :
  first_setting key (s :: l) =
  if bool_decide (s.1 = key ∧ s.2 ≠ "") then Some s.2 else first_setting key l.
Proof. unfold first_setting. simpl. by case_bool_decide. Qed.

Lemma use_settings l v :
  let v' := foldl use_setting v l in
  Version v' = Version v ∧
  GitCommit v' = (if bool_decide (GitCommit v = "") then
                    default "" (short_revision <$> first_setting "vcs.revision" l)
                  else GitCommit v) ∧
  BuildTime v' = (if bool_decide (BuildTime v = "") then default "" (first_setting "vcs.time" l)
                  else BuildTime v).
Proof.
  revert v. induction l as [|s l IH]; intros v; cbn [foldl].
  { by repeat case_bool_decide. }
  destruct (IH (use_setting v s)) as (-> & -> & ->).
  destruct (use_setting_fields v s) as (-> & -> & ->). rewrite !first_setting_cons.
  assert (short_revision "" = "") as Hs by done. pose proof (short_revision_empty s.2) as He.
  split_and!; [done| |].
  - repeat case_bool_decide; naive_solver.
  - repeat case_bool_decide; naive_solver.
Qed.

(** The build information only fills in what is missing: a version set by the
    linker is kept, with everything else; otherwise the module's version is used
    unless it is empty or a development build's, a revision and a time that were
    set are kept, and else the first ones the build recorded are used, the revision
    cut to seven bytes. *)
Theorem init_correct info v :
  let v' := init info v in
  let found key := first_setting key (default [] (bi_Settings <$> info)) in
  (Version v ≠ "" ∧ Version v ≠ DefaultVersion → v' = v) ∧
  (Version v = "" ∨ Version v = DefaultVersion →
     Version v' = match info with
                  | Some bi => if bool_decide (bi_Version bi ∈ [""; "(devel)"]) then Version v
                               else bi_Version bi
                  | None => Version v
                  end ∧
     GitCommit v' = (if bool_decide (GitCommit v = "") then
                       default "" (short_revision <$> found "vcs.revision") else GitCommit v) ∧
     BuildTime v' = (if bool_decide (BuildTime v = "") then default "" (found "vcs.time")
                     else BuildTime v)).
Proof.
  cbv zeta. unfold init. split.
  { intros [H1 H2]. by rewrite bool_decide_false by naive_solver. }
  intros Hv. rewrite (bool_decide_true _ Hv). destruct info as [bi|]; cbn [fmap option_fmap option_map default].
  2:{ by repeat case_bool_decide. }
  destruct (use_settings (bi_Settings bi)
    (if bool_decide (bi_Version bi ≠ "" ∧ bi_Version bi ≠ "(devel)")
     then set_Version (bi_Version bi) v else v)) as (-> & -> & ->).
  destruct (decide (bi_Version bi ∈ [""; "(devel)"])) as [Hin|Hin].
  - rewrite (bool_decide_true _ Hin), bool_decide_false by set_solver. done.
  - rewrite (bool_decide_false _ Hin), bool_decide_true by set_solver. done.
Qed.

#[local] Existing Instance password_url.

Lemma startup_log_hides_password_witness :
  startup_log {| Version := "1.0"; GitCommit := ""; BuildTime := "" |} default_flags
    (set_URL "secret" DefaultConfig) =
  startup_log {| Version := "1.0"; GitCommit := ""; BuildTime := "" |} default_flags
    (set_URL "s3cret" DefaultConfig).
Proof.
  apply (startup_log_hides_password (H2 := password_url) _ _ (set_URL "secret" DefaultConfig) "s3cret"
    {| url_Scheme := "amqp"; url_rest := "host";
       url_User := Some {| ui_Username := "guest"; ui_Password := Some "secret" |} |}
    {| url_Scheme := "amqp"; url_rest := "host";
       url_User := Some {| ui_Username := "guest"; ui_Password := Some "s3cret" |} |}
    {| ui_Username := "guest"; ui_Password := Some "secret" |}
    {| ui_Username := "guest"; ui_Password := Some "s3cret" |});
    by vm_compute.
Defined.
