(* ===== verification/CommandLine.v ===== *)
(** * The command line (cmd/chitchat/main.go, func main)

    The commands and the flags main declares, and main itself.  How arguments are
    split and what help looks like is the library cobra, the class [Cobra]; what
    runChitchat returns in the end is an argument, since it runs until a signal
    ([Process]). *)
From S2P Require Import Prelude GoStrings GoValue Libs NetURL Config Validate Broker Rewrite Template Engine Main.

(** ** Declarations *)

(** [cobra.Command], the fields main sets; [cmd_runs] stands for Run or RunE. *)
Record Command := {
  Use : string;
  Short : string;
  Long : string;
  cmd_Version : string;
  SilenceUsage : bool;
  cmd_runs : command;
}.

Definition rootCmd (v : version_info) : Command :=
  {| Use := "chitchat";
     Short := "Declarative RabbitMQ Mocking & Spying Engine for CI/CD pipelines";
     Long := "chitchat is a lightweight, declarative message queue mocking and spying server
designed for automated CI/CD pipelines and AI coding agents.

Declaratively mock message queues, match on JSON payloads with JSONPath,
dynamically generate template responses, and spy on captured traffic via REST.";
     cmd_Version := Version v; SilenceUsage := true; cmd_runs := CmdRoot |}.

Definition startCmd : Command :=
  {| Use := "start";
     Short := "Start the chitchat mock broker engine and REST spy server";
     Long := "Starts the chitchat engine, connects to the configured broker, declares
exchanges/queues, listens for triggers, and exposes the HTTP spy server.";
     cmd_Version := ""; SilenceUsage := false; cmd_runs := CmdStart |}.

Definition validateCmd : Command :=
  {| Use := "validate";
     Short := "Validate a chitchat rules configuration file without connecting to a broker";
     Long := "Parses the configuration (rejecting unknown keys), checks it for errors and
verifies payload templates. Warnings are printed to stderr. Exits with a non-zero
status if the configuration is invalid, so it can gate CI pipelines.";
     cmd_Version := ""; SilenceUsage := false; cmd_runs := CmdValidate |}.

Definition versionCmd : Command :=
  {| Use := "version"; Short := "Print the version of chitchat"; Long := "";
     cmd_Version := ""; SilenceUsage := false; cmd_runs := CmdVersion |}.

(** A package variable with the value registration gives it: StringVarP, IntVarP. *)
Inductive flag_var :=
| StringVar (set : string → flags → flags) (value : string)
| IntVar (set : Z → flags → flags) (value : Z).

Record Flag := { fl_Name : string; fl_Shorthand : string; fl_Var : flag_var; fl_Usage : string }.

Definition set_configPath (x : string) (f : flags) : flags :=
  {| configPath := x; portFlag := portFlag f; amqpURL := amqpURL f; logLevel := logLevel f;
     logFormat := logFormat f |}.
Definition set_portFlag (x : Z) (f : flags) : flags :=
  {| configPath := configPath f; portFlag := x; amqpURL := amqpURL f; logLevel := logLevel f;
     logFormat := logFormat f |}.
Definition set_amqpURL (x : string) (f : flags) : flags :=
  {| configPath := configPath f; portFlag := portFlag f; amqpURL := x; logLevel := logLevel f;
     logFormat := logFormat f |}.
Definition set_logLevel (x : string) (f : flags) : flags :=
  {| configPath := configPath f; portFlag := portFlag f; amqpURL := amqpURL f; logLevel := x;
     logFormat := logFormat f |}.
Definition set_logFormat (x : string) (f : flags) : flags :=
  {| configPath := configPath f; portFlag := portFlag f; amqpURL := amqpURL f;
     logLevel := logLevel f; logFormat := x |}.

Definition persistent_flags : list Flag :=
  [{| fl_Name := "config"; fl_Shorthand := "c";
      fl_Var := StringVar set_configPath "chitchat-rules.yaml";
      fl_Usage := "Path to rules configuration YAML file" |};
   {| fl_Name := "port"; fl_Shorthand := "p"; fl_Var := IntVar set_portFlag 0;
      fl_Usage := "Port for the HTTP Spy server (overrides config)" |};
   {| fl_Name := "amqp-url"; fl_Shorthand := "u"; fl_Var := StringVar set_amqpURL "";
      fl_Usage := "AMQP broker connection URL (overrides config)" |};
   {| fl_Name := "log-level"; fl_Shorthand := "l"; fl_Var := StringVar set_logLevel "";
      fl_Usage := "Logging level (debug, info, warn, error)" |};
   {| fl_Name := "log-format"; fl_Shorthand := ""; fl_Var := StringVar set_logFormat "";
      fl_Usage := "Logging output format (text, json)" |}].

(** Registering a flag assigns its default; before it the variables are zero. *)
Definition register (f : flags) (fl : Flag) : flags :=
  match fl_Var fl with StringVar set value => set value f | IntVar set value => set value f end.

Definition zero_flags : flags :=
  {| configPath := ""; portFlag := 0; amqpURL := ""; logLevel := ""; logFormat := "" |}.

Definition registered_flags : flags := foldl register zero_flags persistent_flags.

(** ** The library *)

(** A flag given on the command line; cobra has read its value by the variable's
    type and refuses one that does not read. *)
Inductive given :=
| GivenString (name value : string)
| GivenInt (name : string) (value : Z).

Record application := {
  app_root : Command;
  app_flags : list Flag;
  app_commands : list Command;
}.

(** A command with its flags in the order given; something the library answers
    itself (help, version, completion); or arguments it refuses. *)
Inductive parsed :=
| Invoked (c : Command) (l : list given)
| Handled (out : string)
| Misused (err : string).

Class Cobra := {
  cobra_parse : application → list string → parsed;
  cobra_report : application → string → list string;
}.

Definition find_flag (name : string) : option Flag :=
  List.find (λ fl, bool_decide (fl_Name fl = name)) persistent_flags.

Definition set_flag (f : flags) (g : given) : flags :=
  match g with
  | GivenString name value =>
    match fl_Var <$> find_flag name with Some (StringVar set _) => set value f | _ => f end
  | GivenInt name value =>
    match fl_Var <$> find_flag name with Some (IntVar set _) => set value f | _ => f end
  end.

(** The package variables when the command runs. *)
Definition flags_of (l : list given) : flags := foldl set_flag registered_flags l.

(** ** main *)

(** The exit status and what is printed to stdout and stderr, log records aside. *)
Record exit := { ex_status : Z; ex_out : list string; ex_err : list string }.

Section main.
Context `{Unicode, GoFmt, TextTemplate, NetURL, Yaml, Cobra}.
Context (v : version_info) (fs : Files).

Definition application_of : application :=
  {| app_root := rootCmd v; app_flags := persistent_flags;
     app_commands := [startCmd; validateCmd; versionCmd] |}.

(** [rootCmd.Execute()]: its error, and what is printed; [run] is what runChitchat
    returns with the given flags. *)
Definition Execute (run : flags → option string) (args : list string)
    : option string * list string * list string :=
  match cobra_parse application_of args with
  | Misused e => (Some e, [], cobra_report application_of e)
  | Handled out => (None, [out], [])
  | Invoked c l =>
    let f := flags_of l in
    let '(out, errOut, err) :=
      match run_command v fs f (cmd_runs c) with
      | RunChitchat => ([], [], run f)
      | Printed out errOut err => (out, errOut, err)
      end in
    (err, out, errOut ++ match err with Some e => cobra_report application_of e | None => [] end)
  end.

Definition main (run : flags → option string) (args : list string) : exit :=
  let '(err, out, errOut) := Execute run args in
  {| ex_status := exit_status err; ex_out := out; ex_err := errOut |}.
End main.

(** ** What the command line does *)

Lemma registered_default : registered_flags = default_flags.
Proof. reflexivity. Qed.

(** Each flag sets its own variable, and the last of several wins. *)
Lemma flags_of_snoc l g : flags_of (l ++ [g]) = set_flag (flags_of l) g.
Proof. unfold flags_of. by rewrite foldl_app. Qed.

Lemma flag_names_distinct :
  NoDup (fl_Name <$> persistent_flags) ∧
  NoDup (filter (λ s, s ≠ "") (fl_Shorthand <$> persistent_flags)).
Proof. split; by apply (bool_decide_unpack _). Qed.

Definition given_name (g : given) : string :=
  match g with GivenString name _ | GivenInt name _ => name end.

Lemma find_flag_cases name fl :
  find_flag name = Some fl → name ∈ ["config"; "port"; "amqp-url"; "log-level"; "log-format"].
Proof.
  unfold find_flag. simpl.
  repeat (case_bool_decide; [subst; intros _; repeat (by left) || right|]). done.
Qed.

(** Setting a flag twice is setting it once, and flags of different names do not
    touch each other. *)
Lemma set_flag_commute f g g' :
  given_name g ≠ given_name g' → set_flag (set_flag f g) g' = set_flag (set_flag f g') g.
Proof.
  assert (∀ name, find_flag name = None ∨
    name ∈ ["config"; "port"; "amqp-url"; "log-level"; "log-format"]) as Hcases.
  { intros name. destruct (find_flag name) as [fl|] eqn:Hf; [right|by left].
    by eapply find_flag_cases. }
  destruct g as [n x|n x], g' as [n' x'|n' x']; simpl; intros Hne;
    (destruct (Hcases n) as [Hn|Hn]; [by rewrite Hn|]);
    (destruct (Hcases n') as [Hn'|Hn']; [by rewrite Hn'|]);
    rewrite !elem_of_cons, !elem_of_nil in Hn, Hn';
    destruct_or?; subst; done.
Qed.

Section main_facts.
Context `{Unicode, GoFmt, TextTemplate, NetURL, Yaml, Net, Cobra}.

(** What main does with arguments that name a command: start and no command run the
    server, with the exit status that tells its error; version prints one line and
    reads nothing; validate ends with 0 exactly when the file named by the flags is
    accepted, and when it ends with 1 starting with the same flags fails as well,
    before it touches anything.  Nothing but 0 and 1 is returned. *)
Theorem main_correct {W D} `{Driver D} v fs run (driver : D) args c l :
  cobra_parse (application_of v) args = Invoked c l →
  let f := flags_of l in
  let x := main v fs run args in
  (cmd_runs c ∈ [CmdRoot; CmdStart] →
     ex_status x = exit_status (run f) ∧ ex_out x = []) ∧
  (cmd_runs c = CmdVersion → x = {| ex_status := 0; ex_out := [version_line v]; ex_err := [] |}) ∧
  (cmd_runs c = CmdValidate →
     (ex_status x = 0%Z ∨ ex_status x = 1%Z) ∧
     (ex_status x = 0%Z ↔ ∃ cfg, loadConfig fs f = Ok cfg ∧ accepted cfg) ∧
     (ex_status x = 1%Z → ∃ e,
        startup (W := W) fs f driver =
        (Some e, {| la_driver := driver; la_server := None; la_engine := None;
                    la_goroutines := [] |}))).
Proof.
  intros Hparse. cbv zeta. unfold main, Execute. rewrite Hparse. split_and!.
  - rewrite !elem_of_cons, elem_of_nil. intros [->|[->|[]]]; simpl; done.
  - intros ->. done.
  - intros ->. destruct (validate_predicts_startup (W := W) fs (flags_of l) driver) as [Hok Herr].
    cbn [run_command]. destruct (runValidate fs (flags_of l)) as [[errOut out] err]; simpl in *.
    rewrite <- Hok. destruct err as [e|]; simpl.
    + split_and!; [by right|done|]. intros _. exists e. by apply Herr.
    + split_and!; [by left|done|done].
Qed.
(** The flags win over the file, which they cannot change otherwise: a flag that is
    not given (or given empty, or a port that is not positive) leaves the file's
    setting. *)
Theorem flags_override fs f cfg :
  loadConfig fs f = Ok cfg →
  ∃ file, LoadConfig (configPath f) = Ok file ∧ same_topology file cfg ∧
    bc_URL (c_Broker cfg) =
      (if bool_decide (amqpURL f ≠ "") then amqpURL f else bc_URL (c_Broker file)) ∧
    sc_Port (c_Server cfg) =
      (if bool_decide (0 < portFlag f)%Z then portFlag f else sc_Port (c_Server file)) ∧
    lc_Level (c_Logging cfg) =
      (if bool_decide (logLevel f ≠ "") then logLevel f else lc_Level (c_Logging file)) ∧
    lc_Format (c_Logging cfg) =
      (if bool_decide (logFormat f ≠ "") then logFormat f else lc_Format (c_Logging file)).
Proof.
  unfold loadConfig. destruct (LoadConfig (configPath f)) as [file|e]; [|done].
  simpl. intros [= <-]. exists file. split; [done|].
  unfold override_format. rewrite ApplyOverrides_settings.
  case_bool_decide; repeat split; done.
Qed.
End main_facts.

(** ** A parser for evaluation

    Flags are [--name value]; a word without dashes is a command. *)
Fixpoint example_parse (app : application) (c : Command) (l : list given) (args : list string)
    : parsed :=
  match args with
  | [] => Invoked c l
  | a :: rest =>
    if has_prefix a "--" then
      let name := drop_bytes 2 a in
      match fl_Var <$> List.find (λ fl, bool_decide (fl_Name fl = name)) (app_flags app), rest with
      | Some (StringVar _ _), x :: rest' => example_parse app c (l ++ [GivenString name x]) rest'
      | Some (IntVar _ _), x :: rest' =>
        match atoi x with
        | Some n => example_parse app c (l ++ [GivenInt name n]) rest'
        | None => Misused ("invalid argument " +:+ x)
        end
      | None, _ => Misused ("unknown flag: " +:+ a)
      | _, [] => Misused ("flag needs an argument: " +:+ a)
      end
    else match List.find (λ c', bool_decide (Use c' = a)) (app_commands app) with
         | Some c' => example_parse app c' l rest
         | None => Misused ("unknown command " +:+ a)
         end
  end.

#[local] Instance example_cobra : Cobra := {|
  cobra_parse app args := example_parse app (app_root app) [] args;
  cobra_report _ e := ["Error: " +:+ e];
|}.
#[local] Existing Instances example_unicode plain_fmt echo_template example_url example_yaml.

Definition example_main (args : list string) : exit :=
  main {| Version := "1.0"; GitCommit := ""; BuildTime := "" |} port_9000_file
    (λ f, if bool_decide (portFlag f = 1%Z) then Some "failed to start" else None) args.

Example main_examples :
  example_main ["version"] =
    {| ex_status := 0; ex_out := ["chitchat version 1.0"]; ex_err := [] |} ∧
  ex_status (example_main []) = 0%Z ∧
  ex_status (example_main ["--port"; "2"; "start"; "--port"; "1"]) = 1%Z ∧
  ex_status (example_main ["validate"]) = 0%Z ∧
  ex_status (example_main ["validate"; "--port"; "70000"]) = 1%Z ∧
  ex_status (example_main ["validate"; "--log-level"; "loud"]) = 1%Z ∧
  example_main ["stop"] =
    {| ex_status := 1; ex_out := []; ex_err := ["Error: unknown command stop"] |}.
Proof. vm_compute. repeat split. Qed.
