(* ===== verification/Reloading.v ===== *)
(** * Hot reload in the running process (cmd/chitchat/main.go, runChitchat)

    What the hooks of the spy server share with the main program, the hooks, and
    the function given to SetReloader as it runs: one reload at a time, under
    [reloadMu], one step per reading of the file and per call of the driver, so that
    the workers, the other requests, the signals and the shutdown come in between. *)
From S2P Require Import Prelude GoStrings GoValue Libs JsonText JsonCodec NetURL Config Validate Broker Ring SpyServer SpyHttp Matcher Template Engine EngineSystem EngineSpy Logger Main.

(** ** What the hooks share *)

(** The engine and its goroutines; the variable [current]; how often the
    configuration file was read; what was logged. *)
Record world (D : Type) := World {
  w_sys : sys D RingBuffer;
  w_current : Config;
  w_reads : nat;
  w_log : list log_record;
}.
Arguments World {D}. Arguments w_sys {D}. Arguments w_current {D}. Arguments w_reads {D}.
Arguments w_log {D}.

Definition set_eng {D R} (e : Engine D R) (s : sys D R) : sys D R :=
  Sys e (s_loop s) (s_tasks s) (s_stop s) (s_now s) (s_hist s).
Definition set_sys {D} (s : sys D RingBuffer) (w : world D) : world D :=
  World s (w_current w) (w_reads w) (w_log w).

Definition w_eng {D} (w : world D) : Engine D RingBuffer := s_eng (w_sys w).

(** The server and the engine hold the same ring buffer. *)
Definition engine_buffer {D} (w : world D) : RingBuffer :=
  default (NewRingBuffer 0) (e_spy (w_eng w)).
Definition set_engine_buffer {D} (rb : RingBuffer) (w : world D) : world D :=
  set_sys (set_eng (set_spy ((λ _, rb) <$> e_spy (w_eng w)) (w_eng w)) (w_sys w)) w.

#[export] Instance world_buffer {D} : SharedBuffer (world D).
Proof.
  refine {| get_buffer := engine_buffer; set_buffer := set_engine_buffer;
            has_buffer w := is_Some (e_spy (w_eng w)) |}.
  - intros rb w [x Hx]. unfold engine_buffer, set_engine_buffer. simpl. by rewrite Hx.
  - intros [[[] ? ? ? ? ?] ? ? ?]. unfold set_engine_buffer, engine_buffer, set_sys, set_eng, set_spy.
    simpl. repeat f_equal. by destruct e_spy.
Defined.

(** ** The hooks *)

Section hooks.
Context `{Unicode, GoFmt, TextTemplate, NetURL, Yaml} {D : Type} `{Driver D}.

(** [func() interface{} { return eng.RuleStats() }] *)
Definition rules_provider (w : world D) : encoded := enc_stats (RuleStats (w_eng w)).

(** The function given to SetReloader, under [reloadMu].  [disk n] is the file
    system at the n-th reading of the configuration file. *)
Definition reload_hook (disk : nat → Files) (f : flags) (w : world D)
    : result string encoded * world D :=
  match reloader (disk (w_reads w)) (disk (S (w_reads w))) f (w_eng w) (w_current w) with
  | (Err e, logged, eng, current) =>
    (Err e, World (set_eng eng (w_sys w)) current (S (w_reads w)) (w_log w ++ logged))
  | (Ok res, logged, eng, current) =>
    (Ok (enc_reload_result res),
     World (set_eng eng (w_sys w)) current (S (S (w_reads w))) (w_log w ++ logged))
  end.
End hooks.

(** ** A reload in progress *)

(** Where the reload that holds [reloadMu] is: nobody holds it; in the call
    [eng.Reload(next)], from before it asks for the engine's mutex; after that call
    returned nil.  The file's warnings go into the answer. *)
Inductive reload_pc :=
| RIdle
| RCall (next : Config) (warnings : list string)
| RDone (next : Config) (warnings : list string).

(** The engine's mutex is not held by a Start or a Reload. *)
Definition unheld (sp : stop_pc) : Prop := match sp with SHeld _ => False | _ => True end.

Section reload.
Context `{Unicode, GoFmt, TextTemplate, NetURL, Yaml} {D : Type} `{Driver D}.
Context (f : flags) (disk : nat → Files).
Implicit Types (s : sys D RingBuffer) (w : world D).

(** One step of the call [eng.Reload(next)]: what it returns, once it returns. *)
Inductive reload_call (next : Config) : sys D RingBuffer → option (option string) →
    sys D RingBuffer → Prop :=
| rc_refused e l ts sp now h :
    unheld sp → e_stopped e || negb (e_running e) = true →
    reload_call next (Sys e l ts sp now h) (Some (Some "engine is not running"))
                     (Sys e l ts sp now h)
| rc_declare e e' err l ts now h :
    e_stopped e || negb (e_running e) = false →
    declare (bc_Declarations (c_Broker next)) e = (err, e') →
    reload_call next (Sys e l ts SIdle now h) (Some <$> err)
                     (Sys e' l ts (held err (CReload next (desiredQueues next))) now h)
| rc_skip q qs e l ts now h :
    q ∈ e_subscribed e →
    reload_call next (Sys e l ts (SHeld (CReload next (q :: qs))) now h) None
                     (Sys e l ts (SHeld (CReload next qs)) now h)
| rc_consume q qs e e' err l ts now h :
    q ∉ e_subscribed e → consume q e = (err, e') →
    reload_call next (Sys e l ts (SHeld (CReload next (q :: qs))) now h) (Some <$> err)
                     (Sys e' l ts (held err (CReload next qs)) now h)
| rc_installed e l ts now h :
    reload_call next (Sys e l ts (SHeld (CReload next [])) now h) (Some None)
                     (Sys (set_cfg next (load_rules (c_Rules next) e)) l ts SIdle now h).

(** One step of the function given to SetReloader: what it returns, once it returns. *)
Inductive reload_step : reload_pc → world D → option (result string encoded) →
    reload_pc → world D → Prop :=
| rl_rejected w e logged :
    reload_check (disk (w_reads w)) f (w_current w) = (Err e, logged) →
    reload_step RIdle w (Some (Err e)) RIdle
      (World (w_sys w) (w_current w) (S (w_reads w)) (w_log w ++ logged))
| rl_checked w next warnings logged :
    reload_check (disk (w_reads w)) f (w_current w) = (Ok (next, warnings), logged) →
    reload_step RIdle w None (RCall next warnings)
      (World (w_sys w) (w_current w) (S (w_reads w)) (w_log w ++ logged))
| rl_call next warnings w s' :
    reload_call next (w_sys w) None s' →
    reload_step (RCall next warnings) w None (RCall next warnings) (set_sys s' w)
| rl_failed next warnings w e s' :
    reload_call next (w_sys w) (Some (Some e)) s' →
    reload_step (RCall next warnings) w (Some (Err e)) RIdle (set_sys s' w)
| rl_installed next warnings w s' :
    reload_call next (w_sys w) (Some None) s' →
    reload_step (RCall next warnings) w None (RDone next warnings) (set_sys s' w)
| rl_read next warnings w :
    reload_step (RDone next warnings) w
      (Some (Ok (enc_reload_result (reload_summary next warnings)))) RIdle
      (World (w_sys w)
         (match loadConfig (disk (w_reads w)) f with Ok cfg => cfg | Err _ => w_current w end)
         (S (w_reads w)) (w_log w)).

(** A reload without anything in between, to its answer. *)
Inductive reload_run : reload_pc → world D → result string encoded → world D → Prop :=
| run_last rl w out w' :
    reload_step rl w (Some out) RIdle w' → reload_run rl w out w'
| run_more rl w rl1 w1 out w' :
    reload_step rl w None rl1 w1 → reload_run rl1 w1 out w' → reload_run rl w out w'.
End reload.

(** ** What the steps do *)

Section reload_facts.
Context `{Unicode, GoFmt, TextTemplate, NetURL, Yaml} {D : Type} `{DriverSpec D}.
Context (f : flags) (disk : nat → Files).
Implicit Types (s : sys D RingBuffer) (w : world D).

Lemma set_eng_self s : set_eng (s_eng s) s = s.
Proof. by destruct s. Qed.

(** A step of the call is a step of the engine, or the engine refuses. *)
Lemma reload_call_env `{Gjson, Json} next s out s' :
  reload_call next s out s' → env_step s s' ∨ s' = s.
Proof.
  destruct 1; [by right|left..].
  - by apply v_reload.
  - by apply v_reload_skip.
  - by apply v_reload_consume.
  - apply v_reloaded.
Qed.

Definition active_rules {R} (e : Engine D R) : list Rule := map rs_rule (loaded e).

(** The rule's line in the answer of the rules endpoint, but for the counter. *)
Definition unmatched (st : RuleStat) : RuleStat :=
  {| st_Name := st_Name st; st_Queue := st_Queue st; st_RoutingKey := st_RoutingKey st;
     st_ResponseExchange := st_ResponseExchange st;
     st_ResponseRoutingKey := st_ResponseRoutingKey st;
     st_DelayMS := st_DelayMS st; st_Matches := 0 |}.

Lemma unmatched_stats {R} (e : Engine D R) :
  map unmatched (RuleStats e) = map fresh_stat (active_rules e).
Proof. unfold active_rules. by rewrite RuleStats_loaded, !map_map. Qed.

Definition same_rules {R} (e e' : Engine D R) : Prop :=
  e_cfg e' = e_cfg e ∧ active_rules e' = active_rules e.

Lemma active_installed {R} cfg (e : Engine D R) :
  active_rules (set_cfg cfg (load_rules (c_Rules cfg) e)) = c_Rules cfg.
Proof.
  unfold active_rules, loaded. simpl. pose proof (loaded_new_states (c_Rules cfg) (e_store e)) as Hl.
  unfold newRuleStates in Hl. cbn [fst snd] in Hl. rewrite Hl, map_map. by rewrite map_id.
Qed.

(** Only the last step of a call that succeeds changes what the engine runs with. *)
Lemma reload_call_effect next s out s' :
  reload_call next s out s' →
  if decide (out = Some None)
  then e_cfg (s_eng s') = next ∧ active_rules (s_eng s') = c_Rules next ∧
       RuleStats (s_eng s') = map fresh_stat (c_Rules next)
  else e_cfg (s_eng s') = e_cfg (s_eng s) ∧ RuleStats (s_eng s') = RuleStats (s_eng s).
Proof.
  assert (∀ e e' : Engine D RingBuffer, reattached e e' →
    e_cfg e' = e_cfg e ∧ RuleStats e' = RuleStats e) as Hre by (by intros e e' (d & q & -> & _)).
  destruct 1 as [|e e' [x|] l ts now h Hg Hd| |q qs e e' [x|] l ts now h Hq Hc|e l ts now h];
    simpl; try done.
  1,2: pose proof (declare_reattached (bc_Declarations (c_Broker next)) e) as Hr;
    rewrite Hd in Hr; by apply Hre.
  1,2: pose proof (consume_reattached q e) as Hr; rewrite Hc in Hr; by apply Hre.
  split_and!; [done|apply active_installed|apply RuleStats_installed].
Qed.

(** Who holds the engine's mutex after a step. *)
Lemma reload_call_held next s out s' :
  reload_call next s out s' →
  stopping (s_stop s') = stopping (s_stop s) ∧ (stopping (s_stop s) = true → s' = s) ∧
  match out with
  | Some _ => unheld (s_stop s')
  | None => ∃ rest, s_stop s' = SHeld (CReload next rest)
  end.
Proof.
  destruct 1 as [|? ? [x|]| |? ? ? ? [x|]|]; simpl; split_and!; eauto; done.
Qed.

(** Nobody holds the engine's mutex but the reload in progress. *)
Definition held_by (rl : reload_pc) s : Prop :=
  ∀ c, s_stop s = SHeld c → ∃ next warnings rest, rl = RCall next warnings ∧ c = CReload next rest.

(** And a Stop that has begun has set its flag. *)
Definition mutex_ok (rl : reload_pc) s : Prop :=
  held_by rl s ∧ (stopping (s_stop s) = true → e_stopped (s_eng s) = true).

Lemma held_by_unheld rl s : unheld (s_stop s) → held_by rl s.
Proof. unfold held_by. intros Hu c Hc. by rewrite Hc in Hu. Qed.

Lemma unheld_by rl s : held_by rl s → (∀ next warnings, rl ≠ RCall next warnings) → unheld (s_stop s).
Proof.
  intros Hm Hne. destruct (s_stop s) as [|c| |] eqn:Hs; [done| |done|done].
  destruct (Hm c Hs) as (next & ws & rest & -> & _). by destruct (Hne next ws).
Qed.

Lemma reload_step_held rl w out rl' w' :
  reload_step f disk rl w out rl' w' → held_by rl (w_sys w) →
  held_by rl' (w_sys w') ∧ stopping (s_stop (w_sys w')) = stopping (s_stop (w_sys w)) ∧
  (stopping (s_stop (w_sys w)) = true → w_sys w' = w_sys w).
Proof.
  intros Hs Hm. destruct Hs as [| |next ws w s' Hc|next ws w e s' Hc|next ws w s' Hc|]; simpl;
    try (split; [by apply held_by_unheld, (unheld_by _ _ Hm)|done]).
  all: destruct (reload_call_held _ _ _ _ Hc) as (-> & Hsame & Hh); (split; [|done]);
    try by apply held_by_unheld.
  destruct Hh as [rest Hh]. intros c Hc'. rewrite Hh in Hc'. injection Hc' as <-. by eexists _, _, _.
Qed.

(** A step works on the engine as the call of Reload does, or leaves it alone. *)
Lemma reload_step_sys rl w out rl' w' :
  reload_step f disk rl w out rl' w' →
  w_sys w' = w_sys w ∨ ∃ next o, reload_call next (w_sys w) o (w_sys w').
Proof. destruct 1; [by left|by left|right; eauto..|by left]. Qed.

(** ** What the workers leave alone *)

Lemma counted_same (p : nat) (ps : list nat) (h : store) :
  map rs_rule (omap (λ i, incMatches p h !! i) ps) = map rs_rule (omap (λ i, h !! i) ps).
Proof.
  unfold incMatches. induction ps as [|q ps IH]; [done|]. cbn [omap list_omap].
  destruct (decide (q = p)) as [->|Hne].
  - rewrite list_lookup_alter_eq. destruct (h !! p); simpl; by rewrite IH.
  - rewrite list_lookup_alter_ne by done. destruct (h !! q); simpl; by rewrite IH.
Qed.

Lemma handleRule_same `{Gjson, Json} {R} utc m p r (e : Engine D R) gs r' e' :
  handleRule utc m p r e = (gs, r', e') → same_rules e e'.
Proof.
  unfold handleRule. destruct (e_store e !! p) as [rs|]; [|by intros [= <- <- <-]].
  destruct (negb _); [by intros [= <- <- <-]|].
  destruct (RenderPayload _ _ _ _) as [[body|err] r1]; intros [= <- <- <-];
    (split; [done|apply counted_same]).
Qed.

Lemma worker_same `{Gjson, Json} s s' : worker_step s s' → same_rules (s_eng s) (s_eng s').
Proof.
  destruct 1; simpl; try done; try by eapply handleRule_same.
  all: match goal with
       | Hd : dispatch_publish ?r ?p ?e = _ |- _ =>
         pose proof (dispatch_publish_run r p e) as Hpub; rewrite Hd in Hpub;
         destruct Hpub as [-> _]; done
       end.
Qed.

(** The file as it was when it was last read. *)
Definition last_read (next : Config) w : Prop :=
  ∃ n, w_reads w = S n ∧ loadConfig (disk n) f = Ok next.

(** The file that was last read has been checked; once it is installed the engine
    runs with it. *)
Definition reload_ok (rl : reload_pc) w : Prop :=
  match rl with
  | RIdle => True
  | RCall next warnings => last_read next w ∧ accepted next ∧ warnings = Warnings next
  | RDone next warnings => last_read next w ∧ accepted next ∧ warnings = Warnings next ∧
      e_cfg (w_eng w) = next ∧ active_rules (w_eng w) = c_Rules next
  end.

Lemma reload_ok_same rl w w' :
  same_rules (w_eng w) (w_eng w') → w_reads w' = w_reads w → reload_ok rl w → reload_ok rl w'.
Proof.
  intros [Hc Hr] Hn. unfold reload_ok, last_read. rewrite Hc, Hr, Hn. done.
Qed.

Lemma reload_check_ok fs current next warnings logged :
  reload_check fs f current = (Ok (next, warnings), logged) →
  loadConfig fs f = Ok next ∧ accepted next ∧ warnings = Warnings next.
Proof.
  unfold reload_check. destruct (loadConfig fs f) as [cfg|e]; [|done].
  pose proof (checkConfig_accepted cfg) as Hacc. assert ((checkConfig cfg).1 = Warnings cfg) as Hw by done.
  destruct (checkConfig cfg) as [ws [e|]]; [done|]. intros [= <- <- _]. simpl in *.
  split_and!; [done|by apply Hacc|done].
Qed.

Lemma reload_step_ok rl w out rl' w' :
  reload_step f disk rl w out rl' w' → reload_ok rl w → reload_ok rl' w'.
Proof.
  destruct 1 as [|w next ws logged Hc| | |next ws w s' Hc|]; try done.
  - intros _. apply reload_check_ok in Hc as (? & ? & ?). split; [by exists (w_reads w)|done].
  - intros (? & ? & ?). by destruct (reload_call_effect _ _ _ _ Hc) as (? & ? & _).
Qed.

(** What each step of a reload does to the configuration and the rules shown. *)
Lemma reload_step_rules rl w out rl' w' :
  reload_step f disk rl w out rl' w' → reload_ok rl w →
  (e_cfg (w_eng w') = e_cfg (w_eng w) ∧ rules_provider w' = rules_provider w ∨
   ∃ next ws, rl' = RDone next ws ∧ last_read next w ∧ accepted next ∧ e_cfg (w_eng w') = next ∧
     rules_provider w' = enc_stats (map fresh_stat (c_Rules next))) ∧
  (∀ summary, out = Some (Ok summary) → ∃ next stats, last_read next w ∧ accepted next ∧
     summary = enc_reload_result (reload_summary next (Warnings next)) ∧
     e_cfg (w_eng w') = next ∧ rules_provider w' = enc_stats stats ∧
     map unmatched stats = map fresh_stat (c_Rules next)) ∧
  (∀ e, out = Some (Err e) → rules_provider w' = rules_provider w).
Proof.
  intros Hs Hok. unfold rules_provider, w_eng in *.
  destruct Hs as [| |next ws w s' Hc|next ws w e s' Hc|next ws w s' Hc|next ws w]; simpl in *;
    try (apply reload_call_effect in Hc; simpl in Hc); split_and!; try done; eauto.
  - left. by destruct Hc as [-> ->].
  - left. by destruct Hc as [-> ->].
  - intros e' [= <-]. by destruct Hc as [_ ->].
  - right. destruct Hc as (? & _ & ->), Hok as (? & ? & _). by exists next, ws.
  - intros summary [= <-]. destruct Hok as (? & ? & -> & ? & Ha). exists next, (RuleStats (s_eng (w_sys w))).
    split_and!; try done. unfold w_eng in Ha. by rewrite unmatched_stats, Ha.
Qed.

(** ** A reload without interference *)

Abbreviation run := (reload_run f disk).

Definition call_answer next warnings (err : option string) : result string encoded :=
  match err with
  | Some e => Err e
  | None => Ok (enc_reload_result (reload_summary next warnings))
  end.

(** The world after a call of Reload that returned [err]. *)
Definition after_call (err : option string) s w : world D :=
  match err with
  | Some _ => set_sys s w
  | None => World s
      (match loadConfig (disk (w_reads w)) f with Ok cfg => cfg | Err _ => w_current w end)
      (S (w_reads w)) (w_log w)
  end.

Lemma run_installed next warnings w s' :
  reload_call next (w_sys w) (Some None) s' →
  run (RCall next warnings) w (call_answer next warnings None) (after_call None s' w).
Proof.
  intros Hc. eapply run_more; [by apply rl_installed|].
  apply run_last, (rl_read f disk next warnings (set_sys s' w)).
Qed.

Lemma run_queues next warnings qs e l ts now h cur rd lg err e' :
  consume_all true qs e = (err, e') →
  let w := World (Sys e l ts (SHeld (CReload next qs)) now h) cur rd lg in
  run (RCall next warnings) w (call_answer next warnings err)
      (after_call err (Sys (match err with
                            | Some _ => e'
                            | None => set_cfg next (load_rules (c_Rules next) e')
                            end) l ts SIdle now h) w).
Proof.
  revert e. induction qs as [|q qs IH]; intros e; cbn [consume_all andb].
  - intros [= <- <-]. apply run_installed, rc_installed.
  - case_bool_decide as Hq; [|destruct (consume q e) as [[x|] e1] eqn:Hc]; intros Hrest; cbv zeta.
    + eapply run_more; [by apply rl_call, rc_skip|]. by apply (IH e Hrest).
    + injection Hrest as <- <-. apply run_last, rl_failed.
      by apply (rc_consume next q qs e e1 (Some x)).
    + eapply run_more; [by apply rl_call, (rc_consume next q qs e e1 None)|]. by apply (IH e1).
Qed.

(** A call of Reload when the mutex is free. *)
Lemma run_call next warnings w err e' :
  unheld (s_stop (w_sys w)) → (stopping (s_stop (w_sys w)) = true → e_stopped (w_eng w) = true) →
  Reload next (w_eng w) = (err, e') →
  run (RCall next warnings) w (call_answer next warnings err)
      (after_call err (set_eng e' (w_sys w)) w).
Proof.
  destruct w as [[e l ts sp now h] cur rd lg]. unfold w_eng, Reload, set_eng. simpl. intros Hu Hm.
  destruct (e_stopped e || negb (e_running e)) eqn:Hg.
  { intros [= <- <-]. by apply run_last, rl_failed, rc_refused. }
  assert (sp = SIdle) as ->.
  { destruct sp; [done|done|by rewrite Hm in Hg..]. }
  destruct (declare _ e) as [[x|] e1] eqn:Hd.
  { intros [= <- <-]. by apply run_last, rl_failed, (rc_declare next e e1 (Some x)). }
  intros Hrest. eapply run_more; [by apply rl_call, (rc_declare next e e1 None)|].
  destruct (consume_all _ _ e1) as [[x|] e2] eqn:Hc; injection Hrest as <- <-.
  - by apply (run_queues next warnings _ e1 l ts now h cur rd lg (Some x) e2).
  - by apply (run_queues next warnings _ e1 l ts now h cur rd lg None e2).
Qed.

(** Left alone, the steps compute the function given to SetReloader. *)
Lemma run_hook w :
  unheld (s_stop (w_sys w)) → (stopping (s_stop (w_sys w)) = true → e_stopped (w_eng w) = true) →
  run RIdle w (reload_hook disk f w).1 (reload_hook disk f w).2.
Proof.
  intros Hu Hm. unfold reload_hook, reloader, reloadConfig.
  destruct (reload_check _ f _) as [[[next warnings]|e] logged] eqn:Hc.
  - eapply run_more; [by apply rl_checked|].
    set (w1 := World _ _ _ _).
    destruct (Reload next (w_eng w)) as [err e'] eqn:Hr.
    pose proof (run_call next warnings w1 err e' Hu Hm Hr) as Hrun.
    by destruct err.
  - apply run_last. unfold w_eng. rewrite set_eng_self. by apply rl_rejected.
Qed.

(** A reload in progress can be finished. *)
Lemma run_exists rl w : mutex_ok rl (w_sys w) → ∃ out w', run rl w out w'.
Proof.
  intros [Hm Hst]. destruct (s_stop (w_sys w)) as [|c| |] eqn:Hs.
  2:{ destruct (Hm c Hs) as (next & ws & rest & -> & ->).
      destruct w as [[e l ts sp now h] cur rd lg]. simpl in Hs. subst sp.
      destruct (consume_all true rest e) as [err e'] eqn:Hc.
      eexists _, _. by apply run_queues. }
  all: assert (unheld (s_stop (w_sys w))) as Hu by (by rewrite Hs).
  all: rewrite <- Hs in Hst; destruct rl as [|next ws|next ws];
    [eexists _, _; by apply run_hook
    |destruct (Reload next (w_eng w)) as [err e'] eqn:Hr; eexists _, _; by apply run_call
    |eexists _, _; apply run_last, rl_read].
Qed.

(** The steps are those of a sequential function. *)
Lemma reload_call_functional next s out1 s1 out2 s2 :
  reload_call next s out1 s1 → reload_call next s out2 s2 → out1 = out2 ∧ s1 = s2.
Proof.
  intros Ha Hb. destruct Ha; inversion Hb; subst; simpl in *; try done; simplify_eq;
    split; congruence.
Qed.

Lemma reload_step_functional rl w out1 rl1 w1 out2 rl2 w2 :
  reload_step f disk rl w out1 rl1 w1 → reload_step f disk rl w out2 rl2 w2 →
  out1 = out2 ∧ rl1 = rl2 ∧ w1 = w2.
Proof.
  intros Ha Hb. destruct Ha; inversion Hb; subst;
    repeat match goal with
    | Ha : reload_call ?n ?s _ _, Hb : reload_call ?n ?s _ _ |- _ =>
      destruct (reload_call_functional _ _ _ _ _ _ Ha Hb); clear Hb
    | Ha : reload_check _ _ _ = _, Hb : reload_check _ _ _ = _ |- _ => rewrite Ha in Hb; clear Ha
    end; simplify_eq; done.
Qed.

Lemma run_functional rl w out1 w1 out2 w2 :
  run rl w out1 w1 → run rl w out2 w2 → out1 = out2 ∧ w1 = w2.
Proof.
  induction 1 as [rl w out w' Hs|rl w rl1 w1 out w' Hs _ IH]; intros Hb;
    inversion Hb as [? ? ? ? Hs2|? ? ? ? ? ? Hs2 Hr2]; subst;
    destruct (reload_step_functional _ _ _ _ _ _ _ _ Hs Hs2) as (Ho & Hrl & Hw); simplify_eq; [done|].
  by apply IH.
Qed.
End reload_facts.
