(* ===== verification/Process.v ===== *)
(** * The running process (cmd/chitchat/main.go, runChitchat)

    What happens after the engine was started: the hooks are given to the spy
    server, requests are served while the engine works, files change, signals
    arrive, and the process shuts down or is forced to exit.  A step is one action
    of the engine's goroutines, of a client, of the main goroutine or of the
    goroutine that forces the exit.  The two channels for signals are registered
    together; a request that is answered at once is one step, one that waits reads
    only, and one that runs the reloader takes the steps of Reloading.v. *)
From S2P Require Import Prelude GoStrings GoValue Libs JsonText JsonCodec NetURL Config Validate Broker Ring SpyServer SpyHttp Matcher Template Engine EngineSystem EngineSpy Logger Main Reloading.

(** ** The process *)

(** Where the main goroutine is: before the two hooks are set, waiting for a
    signal, about to enter [eng.Stop], waiting in it for the workers, in
    [spyServer.Stop], or the process has exited. *)
Inductive main_pc :=
| MSetRules
| MSetReloader
| MWait
| MCallStop
| MStopEngine
| MStopServer
| MExit (code : Z).

#[export] Instance main_pc_eq_dec : EqDecision main_pc.
Proof. solve_decision. Defined.

(** [p_reload] is the reload that holds [reloadMu].  [p_signals] counts the signals
    that arrived; the two channels of capacity one hold a signal or not; [p_first]:
    the goroutine that forces the exit has received its first signal. *)
Record process (D : Type) := Process {
  p_world : world D;
  p_server : Server (world D);
  p_reload : reload_pc;
  p_main : main_pc;
  p_signals : nat;
  p_sigChan : bool;
  p_forceExit : bool;
  p_first : bool;
}.
Arguments Process {D}. Arguments p_world {D}. Arguments p_server {D}. Arguments p_reload {D}. Arguments p_main {D}.
Arguments p_signals {D}. Arguments p_sigChan {D}. Arguments p_forceExit {D}. Arguments p_first {D}.

Definition shutdown_error (what err : string) : log_record :=
  {| lg_level := LevelError; lg_msg := "error shutting down " +:+ what;
     lg_attrs := [("error", VString err)] |}.
Definition log_shutdown (what : string) (err : option string) : list log_record :=
  option_list (shutdown_error what <$> err).

Definition info (msg : string) : log_record :=
  {| lg_level := LevelInfo; lg_msg := msg; lg_attrs := [] |}.
Definition signal_record (sig : string) : log_record :=
  {| lg_level := LevelInfo; lg_msg := "received termination signal, shutting down";
     lg_attrs := [("signal", VString sig)] |}.

Definition server_stopped (err : option string) : list log_record :=
  log_shutdown "spy server" err ++ [info "chitchat stopped successfully"].

Definition add_log {D} (l : list log_record) (w : world D) : world D :=
  World (w_sys w) (w_current w) (w_reads w) (w_log w ++ l).

(** The signals that reach the process after [signal.Notify]. *)
Definition notified (pc : main_pc) : Prop := pc ∈ [MWait; MCallStop; MStopEngine; MStopServer].
Definition running (pc : main_pc) : Prop := ∀ code, pc ≠ MExit code.

(** Who acts: the goroutines of the process, a client with a request, or the world
    outside: the broker that delivers, the clock with the timeout of the shutdown,
    and whoever sends signals. *)
Inductive actor :=
| AProcess
| AClient (q : request)
| AOutside.

(** The request does not run the reloader. *)
Definition at_once {W} (srv : Server W) (q : request) : Prop :=
  reloads q → s_reloader srv = None.

Section process.
Context `{Unicode, GoFmt, Gjson, Json, GoTime, TextTemplate, NetURL, Yaml} {D : Type} `{Driver D}.
Context (v : version_info) (f : flags) (disk : nat → Files).
Implicit Types (w : world D) (srv : Server (world D)).

(** What the world outside does to the engine: deliveries and the clock. *)
Inductive outside_step : sys D RingBuffer → sys D RingBuffer → Prop :=
| o_deliver e m l ts sp now h :
    length (e_buf e) < msgChan_cap → m_Queue m ∈ e_subscribed e →
    m_Direction m ≠ DirectionPublished →
    outside_step (Sys e l ts sp now h)
                 (Sys (set_buf (e_buf e ++ [m]) e) l ts sp now (add_delivered m h))
| o_tick e l ts sp now now' h :
    (now ≤ now')%Z → outside_step (Sys e l ts sp now h) (Sys e l ts sp now' h).

(** The call [eng.Stop], from its beginning and to its end. *)
Inductive stop_call : sys D RingBuffer → main_pc → sys D RingBuffer → Prop :=
| sc_begin e e' l ts now h :
    stop_begin e = (true, e') →
    stop_call (Sys e l ts SIdle now h) MStopEngine (Sys e' l ts SWaiting now h)
| sc_again e e' l ts sp now h :
    stop_begin e = (false, e') →
    stop_call (Sys e l ts sp now h) MStopServer (Sys e' l ts sp now h).

Inductive stop_return : actor → sys D RingBuffer → option string → sys D RingBuffer → Prop :=
| sr_drained e e' res l ts now h :
    e_wg e = 0 → stop_finish None e = (res, e') →
    stop_return AProcess (Sys e l ts SWaiting now h) res
      (Sys e' l ts (SClosed res true) now (add_close h))
| sr_timeout ctx_err e e' res l ts now h :
    stop_finish (Some (stop_wait_error ctx_err)) e = (res, e') →
    stop_return AOutside (Sys e l ts SWaiting now h) res
      (Sys e' l ts (SClosed res false) now (add_close h)).

(** Who acts.  A reload is one request: it starts while the server listens and a
    reloader is set, and then goes on by itself.  The server's Shutdown ends without
    an error only after the requests in progress. *)
Inductive action : actor → process D → process D → Prop :=
| a_worker w s' srv rl pc n c c' b :
    worker_step (w_sys w) s' →
    action AProcess (Process w srv rl pc n c c' b) (Process (set_sys s' w) srv rl pc n c c' b)
| a_outside w s' srv rl pc n c c' b :
    outside_step (w_sys w) s' →
    action AOutside (Process w srv rl pc n c c' b) (Process (set_sys s' w) srv rl pc n c c' b)
| a_request q r w w' srv srv' rl pc n c c' b :
    s_listening srv = true → at_once srv q → serve srv w q = Answered r srv' w' →
    action (AClient q) (Process w srv rl pc n c c' b) (Process w' srv' rl pc n c c' b)
| a_reload_request q w out rl' w' srv pc n c c' b :
    reloads q → s_listening srv = true → is_Some (s_reloader srv) →
    reload_step f disk RIdle w out rl' w' →
    action (AClient q) (Process w srv RIdle pc n c c' b) (Process w' srv rl' pc n c c' b)
| a_reload w out rl' w' srv rl pc n c c' b :
    rl ≠ RIdle → reload_step f disk rl w out rl' w' →
    action AProcess (Process w srv rl pc n c c' b) (Process w' srv rl' pc n c c' b)
| a_rules w srv rl n c c' b :
    action AProcess (Process w srv rl MSetRules n c c' b)
           (Process w (SetRulesProvider rules_provider srv) rl MSetReloader n c c' b)
| a_reloader w srv rl n c c' b :
    action AProcess (Process w srv rl MSetReloader n c c' b)
           (Process (add_log [info "chitchat is running and ready for mock traffic"] w)
              (SetReloader (reload_hook disk f) srv) rl MWait n c c' b)
| a_signal w srv rl pc n c c' b :
    notified pc →
    action AOutside (Process w srv rl pc n c c' b) (Process w srv rl pc (S n) true true b)
| a_terminate sig w srv rl n c' b :
    action AProcess (Process w srv rl MWait n true c' b)
           (Process (add_log [signal_record sig] w) srv rl MCallStop n false c' b)
| a_stop w s' srv rl pc' n c c' b :
    stop_call (w_sys w) pc' s' →
    action AProcess (Process w srv rl MCallStop n c c' b) (Process (set_sys s' w) srv rl pc' n c c' b)
| a_stopped who w s' err srv rl n c c' b :
    stop_return who (w_sys w) err s' →
    action who (Process w srv rl MStopEngine n c c' b)
           (Process (add_log (log_shutdown "engine" err) (set_sys s' w)) srv rl MStopServer n c c' b)
| a_exit w err srv srv' n c c' b :
    server_Stop None srv = (err, srv') →
    action AProcess (Process w srv RIdle MStopServer n c c' b)
           (Process (add_log (server_stopped err) w) srv' RIdle (MExit 0) n c c' b)
| a_exit_timeout w ctx_err err srv srv' rl n c c' b :
    server_Stop (Some ctx_err) srv = (err, srv') →
    action AOutside (Process w srv rl MStopServer n c c' b)
           (Process (add_log (server_stopped err) w) srv' rl (MExit 0) n c c' b)
| a_first w srv rl pc n c :
    action AProcess (Process w srv rl pc n c true false) (Process w srv rl pc n c false true)
| a_force w srv rl pc n c :
    action AProcess (Process w srv rl pc n c true true) (Process w srv rl (MExit 1) n c false true).

(** A process that has exited does nothing more. *)
Definition step_by (a : actor) (p p' : process D) : Prop := running (p_main p) ∧ action a p p'.
Definition process_step (p p' : process D) : Prop := ∃ a, step_by a p p'.

(** What the process does by itself, without clients, signals, deliveries and the
    clock; and everything that does not clear the buffer. *)
Definition own_step : process D → process D → Prop := step_by AProcess.
Definition keeping_step (p p' : process D) : Prop :=
  ∃ a, step_by a p p' ∧ ∀ q, a = AClient q → ¬ clears q.

(** A process after a successful startup with the driver [d0] at the time [now]; the
    startup read the configuration file once, from [fs]. *)
Inductive process_started `{Net} (fs : Files) (d0 : D) (now : Z) : process D → Prop :=
| ps_started la eng srv cfg :
    startup fs f d0 = (None, la) → la_engine _ _ la = Some eng → la_server _ _ la = Some srv →
    loadConfig fs f = Ok cfg →
    process_started fs d0 now
      (Process (World (Sys eng LSelect [] SIdle now no_history) cfg 0 (startup_log v f cfg))
         srv RIdle MSetRules 0 false false false).

Inductive process_reachable `{Net} (fs : Files) (d0 : D) (now : Z) : process D → Prop :=
| pr_start p : process_started fs d0 now p → process_reachable fs d0 now p
| pr_step p p' :
    process_reachable fs d0 now p → process_step p p' → process_reachable fs d0 now p'.

(** The moments at which the buffer is empty because the process has just started or
    answered a request that clears it. *)
Inductive emptied `{Net} (fs : Files) (d0 : D) (now : Z) : process D → Prop :=
| em_started p : process_started fs d0 now p → emptied fs d0 now p
| em_cleared q p p' :
    process_reachable fs d0 now p → clears q → step_by (AClient q) p p' →
    emptied fs d0 now p'.
End process.

(** ** The server's hooks and the shutdown *)

Section invariant.
Context `{Unicode, GoFmt, Gjson, Json, GoTime, TextTemplate, NetURL, Yaml, Net} {D : Type}
  `{DriverSpec D}.
Context (v : version_info) (f : flags) (disk : nat → Files) (fs : Files) (d0 : D) (now0 : Z).
Implicit Types (w : world D) (srv : Server (world D)) (p : process D).

(** The messages given to the spy, and those since the buffer was cleared last. *)
Definition recorded (ops : list ring_op) : list Message :=
  omap (λ op, match op with OpRecord _ m => Some m | OpClear => None end) ops.
Definition since_clear (ops : list ring_op) : list Message :=
  foldl (λ l op, match op with OpRecord _ m => l ++ [m] | OpClear => [] end) [] ops.

Lemma recorded_snoc ops op :
  recorded (ops ++ [op]) = recorded ops ++ match op with OpRecord _ m => [m] | OpClear => [] end.
Proof. unfold recorded. rewrite omap_app. by destruct op. Qed.

Lemma since_clear_snoc ops op :
  since_clear (ops ++ [op]) = match op with OpRecord _ m => since_clear ops ++ [m] | OpClear => [] end.
Proof. unfold since_clear. by rewrite foldl_app. Qed.

Lemma ring_run_snoc rb ops op : ring_run rb (ops ++ [op]) = ring_step (ring_run rb ops) op.
Proof. unfold ring_run. by rewrite foldl_app. Qed.

(** A ring buffer of size [size] that a log of all records goes with. *)
Definition ring_of (size : Z) (rb : RingBuffer) (log : list Message) : Prop :=
  ∃ ops, rb = ring_run (NewRingBuffer size) ops ∧ recorded ops = log.

(** One that was empty when [before] had been recorded. *)
Definition ring_since (size : Z) (before : list Message) (rb : RingBuffer) (log : list Message)
    : Prop :=
  ∃ ops, rb = ring_run (NewRingBuffer size) ops ∧ log = before ++ since_clear ops.

Lemma ring_of_record size now m rb log :
  ring_of size rb log → ring_of size (spy_Record now m rb) (spy_Record now m log).
Proof.
  intros (ops & -> & <-). exists (ops ++ [OpRecord now m]). by rewrite ring_run_snoc, recorded_snoc.
Qed.

Lemma ring_of_clear size rb log : ring_of size rb log → ring_of size (ring_Clear rb).2 log.
Proof.
  intros (ops & -> & <-). exists (ops ++ [OpClear]). by rewrite ring_run_snoc, recorded_snoc, app_nil_r.
Qed.

Lemma ring_since_record size before now m rb log :
  ring_since size before rb log → ring_since size before (spy_Record now m rb) (spy_Record now m log).
Proof.
  intros (ops & -> & ->). exists (ops ++ [OpRecord now m]).
  by rewrite ring_run_snoc, since_clear_snoc, app_assoc.
Qed.

(** The server that startup leaves, with the hooks set so far. *)
Record server_ok srv (pc : main_pc) : Prop := {
  so_buffer : s_buffer srv = BufShared;
  so_rules : s_rules srv = if decide (pc = MSetRules) then None else Some rules_provider;
  so_reloader : s_reloader srv = if decide (pc ∈ [MSetRules; MSetReloader]) then None
                                 else Some (reload_hook disk f);
}.

(** A request that does not reload is invisible to the engine, or clears the ring. *)
Lemma serve_at_once w srv pc q r srv' w' :
  server_ok srv pc → at_once srv q → serve srv w q = Answered r srv' w' →
  srv' = srv ∧
  (¬ clears q ∧ w' = w ∨ clears q ∧ w' = set_engine_buffer (ring_Clear (engine_buffer w)).2 w).
Proof.
  intros [Hb _ _] Hq Hs. pose proof (serve_outcome srv w q) as Ho. rewrite Hs in Ho.
  destruct Ho as [(Hc & _ & -> & ->)|[(Hc & _ & Hput)|(Hre & _ & reload & Hsome & _)]].
  - by split; [|left].
  - unfold put_buffer, Buffer in Hput. rewrite Hb in Hput. injection Hput as -> ->.
    by split; [|right].
  - by rewrite (Hq Hre) in Hsome.
Qed.

Lemma clear_embeds (rel : RingBuffer → list Message → Prop) w log :
  (∀ rb l, rel rb l → rel (ring_Clear rb).2 l) → spies rel (w_eng w) (Some log) →
  let w' := set_engine_buffer (ring_Clear (engine_buffer w)).2 w in
  resys (Some log) (w_sys w') = resys (Some log) (w_sys w) ∧ spies rel (w_eng w') (Some log).
Proof.
  intros Hclear Hsp. unfold set_engine_buffer. destruct w as [[e l ts sp now h] c n lg].
  split; [done|]. unfold spies, engine_buffer, w_eng in *. simpl in *.
  inversion Hsp as [rb ? Hrel He|]; subst. simpl. constructor. by apply Hclear.
Qed.

(** The steps of the environment among the actions. *)
Lemma outside_env s s' : outside_step s s' → env_step s s'.
Proof. destruct 1; [by apply v_deliver|by apply v_tick]. Qed.

Lemma stop_return_env who s res s' : stop_return who s res s' → env_step s s'.
Proof. destruct 1; [by eapply v_drained|by eapply v_timeout]. Qed.

Lemma stop_call_env s pc s' : stop_call s pc s' → env_step s s' ∨ s' = s.
Proof.
  destruct 1 as [e e' l ts now h Hs|e e' l ts sp now h Hs]; [left; by apply v_stop|right].
  unfold stop_begin in Hs. destruct (e_stopped e); [by injection Hs as <-|done].
Qed.

Section embedding.
Context (rel : RingBuffer → list Message → Prop).
Context (Hrec : ∀ now m rb log, rel rb log → rel (spy_Record now m rb) (spy_Record now m log)).

Lemma embed_env s s' log :
  env_step s s' → spies rel (s_eng s) (Some log) →
  rtc step (resys (Some log) s) (resys (Some log) s') ∧ spies rel (s_eng s') (Some log).
Proof.
  intros Hs Hsp. destruct (env_embeds rel s s' (Some log) Hs Hsp).
  split; [by apply rtc_once, step_env|done].
Qed.

Lemma embed_reload rl w out rl' w' log :
  reload_step f disk rl w out rl' w' → spies rel (w_eng w) (Some log) →
  rtc step (resys (Some log) (w_sys w)) (resys (Some log) (w_sys w')) ∧
  spies rel (w_eng w') (Some log).
Proof.
  intros Hs Hsp. unfold w_eng in *.
  destruct (reload_step_sys _ _ _ _ _ _ _ Hs) as [->|(next & o & Hc)]; [done|].
  destruct (reload_call_env _ _ _ _ Hc) as [Henv| ->]; [by apply embed_env|done].
Qed.

(** Every action of the process is a run of the engine's system; one that clears
    the buffer matters to a relation that knows about it. *)
Lemma action_embeds who p p' log :
  (∀ q, who = AClient q → clears q → ∀ rb l, rel rb l → rel (ring_Clear rb).2 l) →
  server_ok (p_server p) (p_main p) → action f disk who p p' →
  spies rel (w_eng (p_world p)) (Some log) →
  ∃ log', rtc step (resys (Some log) (w_sys (p_world p))) (resys (Some log') (w_sys (p_world p'))) ∧
    spies rel (w_eng (p_world p')) (Some log').
Proof.
  intros Hclear Hok Ha Hsp.
  destruct Ha; cbn [p_world p_server p_main] in *; try (by exists log).
  - select (worker_step _ _) (fun Hs =>
      destruct (worker_embeds rel Hrec _ _ _ Hs Hsp) as (log' & ? & ?)).
    exists log'. split; [by apply rtc_once, step_worker|done].
  - exists log. by apply embed_env; [apply outside_env|].
  - exists log. select (at_once _ _) (fun Hq => select (serve _ _ _ = _) (fun Hs =>
      destruct (serve_at_once _ _ _ _ _ _ _ Hok Hq Hs) as [_ [[_ ->]|[Hc ->]]])); [done|].
    by destruct (clear_embeds rel w log (Hclear q eq_refl Hc) Hsp) as [-> ?].
  - exists log. by eapply embed_reload.
  - exists log. by eapply embed_reload.
  - exists log. select (stop_call _ _ _) (fun Hs =>
      destruct (stop_call_env _ _ _ Hs) as [Henv| ->]); [by apply embed_env|done].
  - exists log. by apply embed_env; [eapply stop_return_env|].
Qed.
End embedding.

(** ** The invariant *)

(** The engine's Stop and the listener at each stage of the main goroutine. *)
Definition stage_ok (pc : main_pc) (stop : stop_pc) (listening : bool) : Prop :=
  match pc with
  | MSetRules | MSetReloader | MWait | MCallStop => stopping stop = false ∧ listening = true
  | MStopEngine => stop = SWaiting ∧ listening = true
  | MStopServer => (∃ res drained, stop = SClosed res drained) ∧ listening = true
  | MExit code => code = 1%Z ∨
      code = 0%Z ∧ (∃ res drained, stop = SClosed res drained) ∧ listening = false
  end.

(** Before the signals are caught, waiting for one, and after one. *)
Definition stage (pc : main_pc) : nat :=
  match pc with MSetRules | MSetReloader => 0 | MWait => 1 | _ => 2 end.

Lemma stage_0 pc : pc ∈ [MSetRules; MSetReloader] → stage pc = 0.
Proof. rewrite !elem_of_cons, elem_of_nil. by intros [->|[->|[]]]. Qed.

Lemma notified_stage pc : notified pc → stage pc ≠ 0.
Proof. unfold notified. rewrite !elem_of_cons, elem_of_nil. by intros [->|[->|[->|[->|[]]]]]. Qed.

(** Each signal leaves at most one mark in each channel. *)
Record signals_ok p : Prop := {
  si_none : stage (p_main p) = 0 → p_signals p = 0;
  si_chan : p_sigChan p = true → 1 ≤ p_signals p;
  si_force : Nat.b2n (p_forceExit p) + Nat.b2n (p_first p) ≤ p_signals p;
  si_stop : stage (p_main p) = 2 → 1 ≤ p_signals p;
  si_exit : p_main p = MExit 1 → 2 ≤ p_signals p;
}.

Definition engine_ok (s : sys D RingBuffer) : Prop :=
  ∃ cfg ops, loadConfig fs f = Ok cfg ∧ accepted cfg ∧
    e_spy (s_eng s) = Some (ring_run (NewRingBuffer (sc_RingBufferSize (c_Server cfg))) ops) ∧
    reachable (connectBroker d0 cfg).2 (Some []) (resys (Some (recorded ops)) s).

Record process_inv p : Prop := {
  pi_server : server_ok (p_server p) (p_main p);
  pi_stage : stage_ok (p_main p) (s_stop (w_sys (p_world p))) (s_listening (p_server p));
  pi_signals : signals_ok p;
  pi_held : held_by (p_reload p) (w_sys (p_world p));
  pi_reload : reload_ok f disk (p_reload p) (p_world p);
  pi_engine : engine_ok (w_sys (p_world p));
}.

Lemma action_engine who p p' :
  server_ok (p_server p) (p_main p) → action f disk who p p' →
  engine_ok (w_sys (p_world p)) → engine_ok (w_sys (p_world p')).
Proof.
  intros Hok Ha (cfg & ops & Hl & Hacc & Hspy & Hr).
  set (size := sc_RingBufferSize (c_Server cfg)) in *.
  assert (spies (ring_of size) (w_eng (p_world p)) (Some (recorded ops))) as Hsp.
  { unfold spies, w_eng. rewrite Hspy. constructor. by exists ops. }
  destruct (action_embeds (ring_of size) (ring_of_record size) who p p' (recorded ops)
    (λ _ _ _, ring_of_clear size) Hok Ha Hsp) as (log' & Hrun & Hsp').
  unfold spies, w_eng in Hsp'. inversion Hsp' as [rb ? (ops' & Hrb & Hrec) He|]; subst.
  exists cfg, ops'. split_and!; [done..|]. by eapply reachable_run.
Qed.

Lemma worker_stop {R} `{SpyRecorder R} (s s' : sys D R) : worker_step s s' → s_stop s' = s_stop s.
Proof. by destruct 1. Qed.

(** The engine's flag is up exactly when a Stop has begun. *)
Lemma engine_flag s : engine_ok s → e_stopped (s_eng s) = stopping (s_stop s).
Proof.
  intros (cfg & ops & _ & _ & _ & Hinv%reachable_inv). exact (inv_stopped _ Hinv).
Qed.

Lemma serve_stop w srv pc q r srv' w' :
  server_ok srv pc → at_once srv q → serve srv w q = Answered r srv' w' →
  srv' = srv ∧ s_stop (w_sys w') = s_stop (w_sys w) ∧ same_rules (w_eng w) (w_eng w') ∧
  w_reads w' = w_reads w.
Proof.
  intros Hok Hq Hs. by destruct (serve_at_once _ _ _ _ _ _ _ Hok Hq Hs) as [-> [[_ ->]|[_ ->]]].
Qed.

Lemma action_server who p p' :
  signals_ok p → server_ok (p_server p) (p_main p) → action f disk who p p' →
  server_ok (p_server p') (p_main p').
Proof.
  intros Hsi Hok Ha. destruct Ha; cbn [p_server p_main] in *; try done.
  - select (at_once _ _) (fun Hq => select (serve _ _ _ = _) (fun Hs =>
      by destruct (serve_stop _ _ _ _ _ _ _ Hok Hq Hs) as [-> _])).
  - destruct Hok as [Hb Hr Hl]. by split.
  - destruct Hok as [Hb Hr Hl]. by split.
  - destruct Hok as [Hb Hr Hl]. by split.
  - destruct Hok as [Hb Hr Hl]. select (stop_call _ _ _) (fun Hs => destruct Hs); by split.
  - destruct Hok as [Hb Hr Hl]. by split.
  - select (server_Stop _ _ = _) (fun Hs => injection Hs as <- <-).
    destruct Hok as [Hb Hr Hl]. by split.
  - select (server_Stop _ _ = _) (fun Hs => injection Hs as <- <-).
    destruct Hok as [Hb Hr Hl]. by split.
  - destruct (decide (pc ∈ [MSetRules; MSetReloader])) as [Hpc|Hpc].
    { pose proof (si_none _ Hsi (stage_0 _ Hpc)) as Hn. pose proof (si_force _ Hsi) as Hf. simpl in *. lia. }
    destruct Hok as [Hb Hr Hl]. split; [done| |].
    + rewrite Hr. rewrite !decide_False by set_solver. done.
    + rewrite Hl. rewrite !decide_False by set_solver. done.
Qed.

Lemma stage_ok_same pc stop stop' listening :
  stopping stop' = stopping stop → (stopping stop = true → stop' = stop) →
  stage_ok pc stop listening → stage_ok pc stop' listening.
Proof.
  intros Hs Heq. destruct (stopping stop) eqn:Hst; [by rewrite Heq|].
  destruct pc; simpl; try (by rewrite Hs, Hst).
  - intros [-> _]. done.
  - intros [(res & dr & ->) _]. done.
  - intros [->|(_ & (res & dr & ->) & _)]; [by left|done].
Qed.

Lemma reload_stage rl w out rl' w' pc listening :
  reload_step f disk rl w out rl' w' → held_by rl (w_sys w) →
  stage_ok pc (s_stop (w_sys w)) listening → stage_ok pc (s_stop (w_sys w')) listening.
Proof.
  intros Hs Hheld. destruct (reload_step_held _ _ _ _ _ _ _ Hs Hheld) as (_ & Hss & Hsame).
  apply stage_ok_same; [done|]. intros Hstop. by rewrite Hsame.
Qed.

Lemma action_stage who p p' :
  process_inv p → action f disk who p p' →
  stage_ok (p_main p') (s_stop (w_sys (p_world p'))) (s_listening (p_server p')).
Proof.
  intros [Hok Hst Hsi Hheld _ Heng] Ha.
  destruct Ha; cbn [p_server p_main p_world p_reload] in *; try done.
  - select (worker_step _ _) (fun Hs => pose proof (worker_stop _ _ Hs) as Hss).
    simpl. by rewrite Hss.
  - select (outside_step _ _) (fun Hs => destruct Hs); done.
  - select (at_once _ _) (fun Hq => select (serve _ _ _ = _) (fun Hs =>
      destruct (serve_stop _ _ _ _ _ _ _ Hok Hq Hs) as (-> & Hss & _))). by rewrite Hss.
  - by eapply reload_stage.
  - by eapply reload_stage.
  - destruct Hst as [Hidle Hl]. pose proof (engine_flag _ Heng) as Hflag. rewrite Hidle in Hflag.
    select (stop_call _ _ _) (fun Hs => destruct Hs as [e e' l ts now h Hb|e e' l ts sp now h Hb]).
    + done.
    + unfold stop_begin in Hb. simpl in Hflag. by rewrite Hflag in Hb.
  - destruct Hst as [_ Hl]. select (stop_return _ _ _ _) (fun Hs => destruct Hs); simpl; eauto.
  - destruct Hst as [Hcl _]. select (server_Stop _ _ = _) (fun Hs => injection Hs as <- <-).
    simpl. by right.
  - destruct Hst as [Hcl _]. select (server_Stop _ _ = _) (fun Hs => injection Hs as <- <-).
    simpl. by right.
  - by left.
Qed.

(** The reload in progress keeps the mutex, and its file stays checked. *)
Lemma action_reload who p p' :
  server_ok (p_server p) (p_main p) → action f disk who p p' →
  held_by (p_reload p) (w_sys (p_world p)) → reload_ok f disk (p_reload p) (p_world p) →
  held_by (p_reload p') (w_sys (p_world p')) ∧ reload_ok f disk (p_reload p') (p_world p').
Proof.
  intros Hok Ha Hheld Hre. destruct Ha; cbn [p_server p_main p_world p_reload] in *; try done.
  - select (worker_step _ _) (fun Hs => pose proof (worker_stop _ _ Hs) as Hss;
      apply worker_same in Hs as Hsame).
    split; [|by eapply reload_ok_same]. unfold held_by. simpl. by rewrite Hss.
  - split; [|eapply reload_ok_same, Hre; [|done]];
      select (outside_step _ _) (fun Hs => unfold w_eng, held_by in *; simpl; by destruct Hs).
  - select (at_once _ _) (fun Hq => select (serve _ _ _ = _) (fun Hs =>
      destruct (serve_stop _ _ _ _ _ _ _ Hok Hq Hs) as (_ & Hss & Hsame & Hreads))).
    split; [|by eapply reload_ok_same]. unfold held_by. by rewrite Hss.
  - select (reload_step _ _ _ _ _ _ _) (fun Hs =>
      split; [by destruct (reload_step_held _ _ _ _ _ _ _ Hs Hheld)|by eapply reload_step_ok]).
  - select (reload_step _ _ _ _ _ _ _) (fun Hs =>
      split; [by destruct (reload_step_held _ _ _ _ _ _ _ Hs Hheld)|by eapply reload_step_ok]).
  - split; [|eapply reload_ok_same, Hre; [|done]];
      select (stop_call _ _ _) (fun Hs => unfold w_eng, held_by in *; simpl;
        destruct Hs as [e e' l ts now h Hb|e e' l ts sp now h Hb]; simpl in *;
        unfold stop_begin in Hb; destruct (e_stopped e); by simplify_eq).
  - split; [|eapply reload_ok_same, Hre; [|done]];
      select (stop_return _ _ _ _) (fun Hs => unfold w_eng, held_by in *; simpl;
        destruct Hs as [e e' res l ts now h _ Hb|ce e e' res l ts now h Hb]; simpl in *;
        unfold stop_finish in Hb; destruct (Close _); by simplify_eq).
Qed.

Lemma action_signals who p p' : signals_ok p → action f disk who p p' → signals_ok p'.
Proof.
  intros [Hn Hc Hf Hs He] Ha.
  destruct Ha; cbn [p_main p_signals p_sigChan p_forceExit p_first Nat.b2n] in *; try done.
  all: split; cbn [p_main p_signals p_sigChan p_forceExit p_first Nat.b2n stage] in *;
    intros; try (select (stop_call _ _ _) (fun Hs => destruct Hs)); simpl in *; auto; try done; try lia.
  exfalso. by eapply notified_stage.
Qed.

Lemma startup_engine p :
  process_started v f fs d0 now0 p →
  process_inv p ∧ ∃ cfg, loadConfig fs f = Ok cfg ∧
    e_spy (w_eng (p_world p)) = Some (ring_run (NewRingBuffer (sc_RingBufferSize (c_Server cfg))) []) ∧
    reachable (connectBroker d0 cfg).2 (Some []) (resys (Some []) (w_sys (p_world p))).
Proof.
  intros [la eng srv cfg Hst Heng Hsrv Hcfg]. revert Hst. unfold startup. rewrite Hcfg.
  destruct (checkConfig cfg) as [ws [e|]] eqn:Hchk; [done|].
  unfold server_Start. destruct (net_Listen _) as [port|e]; [|done].
  destruct (connectBroker d0 cfg) as [[e|] d1] eqn:Hconn; [done|].
  set (ring := NewRingBuffer (sc_RingBufferSize (c_Server cfg))).
  destruct (Start (NewEngine cfg d1 (Some ring))) as [[[e|] gs] eng1] eqn:Hrun; [done|].
  intros [= <-]. simpl in Heng, Hsrv. injection Heng as ->. injection Hsrv as <-.
  assert (gs = [GoProcessLoop]) as ->.
  { pose proof (Start_run (NewEngine cfg d1 (Some ring))) as Hs. cbv zeta in Hs. rewrite Hrun in Hs.
    simpl in Hs. by destruct Hs as (-> & _). }
  assert (e_spy eng = Some ring) as Hspy by (by rewrite (Start_spy _ _ _ _ Hrun)).
  assert (reachable d1 (Some []) (resys (Some []) (Sys eng LSelect [] SIdle now0 no_history))) as Hr.
  { eapply reachable_run; [apply (reach_new _ _ cfg now0)|].
    apply (Start_runs (NewEngine cfg d1 (Some [])) LNone [] now0 no_history None [GoProcessLoop]
             (respy (Some []) eng)); [done|].
    change (NewEngine cfg d1 (Some [])) with (respy (Some ([] : list Message)) (NewEngine cfg d1 (Some ring))).
    by rewrite Start_respy, Hrun. }
  split; [|exists cfg; by rewrite Hconn].
  split; [by split|done|by split|done|done|]. exists cfg, []. split_and!; [done| |done|by rewrite Hconn].
  apply checkConfig_accepted. by rewrite Hchk.
Qed.

Lemma process_reachable_inv p : process_reachable v f disk fs d0 now0 p → process_inv p.
Proof.
  induction 1 as [p Hst|p p' Hr IH (who & Hrun & Ha)].
  - by apply startup_engine.
  - pose proof IH as [Hok Hstage Hsi Hheld Hre Heng].
    destruct (action_reload _ _ _ Hok Ha Hheld Hre). split; [|..|done|done|].
    + by eapply action_server.
    + by eapply action_stage.
    + by eapply action_signals.
    + by eapply action_engine.
Qed.

(** ** Requests, and the engine of the process *)

Definition get_rules : request :=
  {| q_Method := "GET"; q_Path := "/_chitchat/rules"; q_Query := ∅ |}.
Definition post_reload : request :=
  {| q_Method := "POST"; q_Path := "/_chitchat/reload"; q_Query := ∅ |}.

Lemma inv_resys {R R'} (sp : option R') (s : sys D R) : inv (resys sp s) → inv s.
Proof. by intros [[? ?] ? ? ? ? ? ? ? ? ?]. Qed.

Lemma engine_inv s : engine_ok s → inv s.
Proof. intros (cfg & ops & _ & _ & _ & Hr). by eapply inv_resys, reachable_inv. Qed.

Lemma process_mutex p : process_inv p → mutex_ok (p_reload p) (w_sys (p_world p)).
Proof. intros [_ _ _ Hheld _ Heng]. split; [done|]. by rewrite (engine_flag _ Heng). Qed.

End invariant.

(** ** Properties *)

Section properties.
Context `{Unicode, GoFmt, Gjson, Json, GoTime, TextTemplate, NetURL, Yaml, Net} {D : Type}
  `{DriverSpec D}.
Context (v : version_info) (f : flags) (disk : nat → Files) (fs : Files) (d0 : D) (now0 : Z).
Implicit Types (p : process D).

(** C7: the process, with its requests, reloads, signals and shutdown, is a run of
    the engine: in every reachable state the ring buffer is what some records and
    clears have made of the empty one of the configured size, and the engine with
    its goroutines, seen with a spy that keeps those records, is a reachable state
    of the engine on the connected driver, so that everything proved of the engine
    holds of the process. *)
Theorem process_refines_engine p :
  process_reachable v f disk fs d0 now0 p →
  ∃ cfg ops, loadConfig fs f = Ok cfg ∧ accepted cfg ∧
    e_spy (w_eng (p_world p)) =
      Some (ring_run (NewRingBuffer (sc_RingBufferSize (c_Server cfg))) ops) ∧
    reachable (connectBroker d0 cfg).2 (Some []) (resys (Some (recorded ops)) (w_sys (p_world p))).
Proof. intros Hr. by destruct (process_reachable_inv v f disk fs d0 now0 p Hr). Qed.

(** C9: the process exits cleanly or because it was asked twice: status 0 means
    that a signal was received, the engine is stopped and its context cancelled,
    the driver was closed exactly once, and the spy server no longer listens;
    status 1 means that at least two signals arrived; there is no other status.
    Before the first signal is received the engine is not being stopped. *)
Theorem exit_clean p :
  process_reachable v f disk fs d0 now0 p →
  match p_main p with
  | MExit code =>
      code = 1%Z ∧ 2 ≤ p_signals p ∨
      code = 0%Z ∧ 1 ≤ p_signals p ∧ s_listening (p_server p) = false ∧
      e_stopped (w_eng (p_world p)) = true ∧ e_cancelled (w_eng (p_world p)) = true ∧
      h_closes (s_hist (w_sys (p_world p))) = 1
  | MStopEngine | MStopServer => 1 ≤ p_signals p ∧ s_listening (p_server p) = true
  | pc => (pc = MCallStop → 1 ≤ p_signals p) ∧ s_listening (p_server p) = true ∧
      e_stopped (w_eng (p_world p)) = false ∧ h_closes (s_hist (w_sys (p_world p))) = 0
  end.
Proof.
  intros Hr%process_reachable_inv. destruct Hr as [_ Hst Hsi _ _ Heng].
  pose proof (engine_inv _ _ _ _ Heng) as Hinv. pose proof (engine_flag _ _ _ _ Heng) as Hflag.
  pose proof (inv_closes _ Hinv) as Hcl. pose proof (si_stop _ Hsi) as Hs1. pose proof (si_exit _ Hsi) as Hs2.
  assert (stopping (s_stop (w_sys (p_world p))) = false → is_closed (s_stop (w_sys (p_world p))) = 0)
    as Hnot by (by destruct (s_stop _)).
  unfold w_eng. destruct (p_main p); simpl in *;
    try (destruct Hst as [Hidle ?]; rewrite Hflag, Hcl; by split_and!; auto);
    try (by destruct Hst; auto).
  destruct Hst as [->|(-> & (res & dr & Hc) & Hlis)]; [left; auto|right].
  rewrite Hc in Hcl, Hflag. split_and!; auto. by rewrite (inv_cancelled _ Hinv).
Qed.

(** C11: what a client of the reload and rules endpoints sees.  Until the hooks are
    set a reload is not available and changes nothing.  After that it answers what
    the function given to SetReloader returns, and when nothing else happens
    meanwhile its steps are that function.  Whatever happens in between, a reload
    changes the configuration and the rules shown only in the step that installs the
    file, as it was on the disk when this reload read it, last of all, and passed
    every check; its rules are then shown in order, none matched yet.  When it
    answers 200 that file is in effect, the answer has its counts and warnings, and
    exactly its rules are shown; when it fails the rules are shown as before. *)
Theorem api_reload p :
  process_reachable v f disk fs d0 now0 p →
  match serve (p_server p) (p_world p) post_reload with
  | Waiting _ _ _ _ => False
  | Answered r srv w =>
    srv = p_server p ∧
    if decide (p_main p ∈ [MSetRules; MSetReloader]) then
      h_Status r = StatusNotImplemented ∧ w = p_world p
    else
      ∃ res, r = reload_answer res ∧
        (p_reload p = RIdle → ∀ res' w',
           reload_run f disk RIdle (p_world p) res' w' ↔ res' = res ∧ w' = w) ∧
        ∀ w', serve srv w' get_rules =
          Answered (writeJSON StatusOK (BValue (rules_provider w'))) srv w'
  end ∧
  ∀ out rl' w', reload_step f disk (p_reload p) (p_world p) out rl' w' →
    (e_cfg (w_eng w') = e_cfg (w_eng (p_world p)) ∧
       rules_provider w' = rules_provider (p_world p) ∨
     ∃ next ws, rl' = RDone next ws ∧ last_read f disk next (p_world p) ∧ accepted next ∧ e_cfg (w_eng w') = next ∧
       rules_provider w' = enc_stats (map fresh_stat (c_Rules next))) ∧
    (∀ summary, out = Some (Ok summary) → ∃ next stats,
       last_read f disk next (p_world p) ∧ accepted next ∧
       summary = enc_reload_result
         {| rr_rules := len (c_Rules next); rr_spy_queues := len (sp_Queues (c_Spy next));
            rr_warnings := Warnings next |} ∧
       e_cfg (w_eng w') = next ∧ rules_provider w' = enc_stats stats ∧
       map unmatched stats = map fresh_stat (c_Rules next)) ∧
    (∀ e, out = Some (Err e) → rules_provider w' = rules_provider (p_world p)).
Proof.
  intros Hr%process_reachable_inv. pose proof (process_mutex _ _ _ _ _ Hr) as Hmutex.
  destruct Hr as [[Hb Hru Hre] _ _ Hheld Hok Heng]. split.
  - assert (serve (p_server p) (p_world p) post_reload =
      let '(r, w') := handleReload "POST" (s_reloader (p_server p)) (p_world p) in
      Answered r (p_server p) w') as -> by done.
    rewrite Hre. destruct (decide (p_main p ∈ [MSetRules; MSetReloader])) as [Hpc|Hpc]; [done|].
    unfold handleReload. rewrite bool_decide_false by naive_solver.
    destruct (reload_hook disk f (p_world p)) as [res w] eqn:Hh. split; [done|].
    exists res. split; [done|]. split.
    2:{ intros w'. transitivity (Answered (SpyServer.handleRules "GET"
          ((λ provider, provider w') <$> s_rules (p_server p))) (p_server p) w'); [done|].
        rewrite Hru, decide_False by set_solver. done. }
    intros Hidle. rewrite Hidle in Hheld.
    assert (unheld (s_stop (w_sys (p_world p)))) as Hu by (by apply (unheld_by _ _ Hheld)).
    pose proof (run_hook f disk (p_world p) Hu (proj2 Hmutex)) as Hrun. rewrite Hh in Hrun.
    intros res' w'. split; [|by intros [-> ->]].
    intros Hrun'. by apply (run_functional f disk _ _ _ _ _ _ Hrun' Hrun).
  - intros out rl' w' Hs. pose proof (reload_step_rules _ _ _ _ _ _ _ Hs Hok) as (Hrules & Hsum & Herr).
    done.
Qed.
End properties.

(** ** A process, for evaluation *)

#[local] Existing Instances example_unicode plain_fmt example_gjson example_json example_time
  echo_template example_url example_yaml.
#[local] Instance example_net : Net := {| net_Listen _ := Ok 8082%Z |}.

Definition example_version : version_info :=
  {| Version := DefaultVersion; GitCommit := ""; BuildTime := "" |}.
Definition example_launch : launch (world MockDriver) MockDriver :=
  (startup port_9000_file default_flags NewMockDriver).2.
Definition example_config : Config :=
  match loadConfig port_9000_file default_flags with Ok cfg => cfg | Err _ => DefaultConfig end.
Definition example_eng : Engine MockDriver RingBuffer :=
  default (NewEngine DefaultConfig NewMockDriver None) (la_engine _ _ example_launch).
Definition example_server : Server (world MockDriver) :=
  default (NewServer 0 None) (la_server _ _ example_launch).
Definition example_world : world MockDriver :=
  World (Sys example_eng LSelect [] SIdle 0 no_history) example_config 0
    (startup_log example_version default_flags example_config).

Abbreviation example_reachable :=
  (process_reachable example_version default_flags (λ _, port_9000_file) port_9000_file
     NewMockDriver 0).

Lemma example_started :
  process_started example_version default_flags port_9000_file NewMockDriver 0
    (Process example_world example_server RIdle MSetRules 0 false false false).
Proof. apply (ps_started _ _ _ _ _ example_launch example_eng); by vm_compute. Qed.

(** The hooks are set and a signal arrives. *)
Definition example_signalled : process MockDriver :=
  Process (add_log [info "chitchat is running and ready for mock traffic"] example_world)
    (SetReloader (reload_hook (λ _, port_9000_file) default_flags)
       (SetRulesProvider rules_provider example_server)) RIdle MWait 1 true true false.

Lemma example_signalled_reachable : example_reachable example_signalled.
Proof.
  eapply pr_step; [eapply pr_step; [eapply pr_step; [apply pr_start, example_started|]|]|].
  - exists AProcess. split; [done|apply a_rules].
  - exists AProcess. split; [done|apply a_reloader].
  - exists AOutside. split; [done|apply a_signal]. by left.
Qed.

(** The engine stops, its loop returns, and the process exits. *)
Lemma example_exits : ∃ p, example_reachable p ∧ p_main p = MExit 0.
Proof.
  eexists. split.
  - eapply pr_step; [eapply pr_step; [eapply pr_step; [eapply pr_step; [eapply pr_step;
      [apply example_signalled_reachable|]|]|]|]|]; exists AProcess.
    + split; [done|]. apply (a_terminate _ _ "interrupt").
    + split; [done|]. apply a_stop, sc_begin. reflexivity.
    + split; [done|]. apply a_worker, w_exit. reflexivity.
    + split; [done|]. eapply a_stopped, sr_drained; reflexivity.
    + split; [done|]. by apply a_exit.
  - done.
Qed.

Lemma process_refines_engine_witness :
  ∃ cfg ops, loadConfig port_9000_file default_flags = Ok cfg ∧
    reachable (connectBroker NewMockDriver cfg).2 (Some [])
      (resys (Some (recorded ops)) (w_sys (p_world example_signalled))).
Proof.
  destruct (process_refines_engine _ _ _ _ _ _ example_signalled example_signalled_reachable)
    as (cfg & ops & Hl & _ & _ & Hr).
  by exists cfg, ops.
Defined.

Lemma exit_clean_witness :
  ∃ p, example_reachable p ∧ p_main p = MExit 0 ∧ s_listening (p_server p) = false ∧
    h_closes (s_hist (w_sys (p_world p))) = 1.
Proof.
  destruct example_exits as (p & Hr & Hp). exists p.
  pose proof (exit_clean _ _ _ _ _ _ p Hr) as Hc. rewrite Hp in Hc.
  destruct Hc as [[Hc _]|(_ & _ & Hlis & _ & _ & Hclose)]; [discriminate Hc|].
  by split_and!.
Defined.

(** The reload of the example, which changes nothing but logs its warnings. *)
Lemma api_reload_witness :
  ∃ res, serve (p_server example_signalled) (p_world example_signalled) post_reload =
    Answered (reload_answer res) (p_server example_signalled)
      (reload_hook (λ _, port_9000_file) default_flags (p_world example_signalled)).2 ∧
    reload_run default_flags (λ _, port_9000_file) RIdle (p_world example_signalled) res
      (reload_hook (λ _, port_9000_file) default_flags (p_world example_signalled)).2.
Proof.
  destruct (api_reload _ _ _ _ _ _ example_signalled example_signalled_reachable) as [Hs _].
  change (serve (p_server example_signalled) (p_world example_signalled) post_reload) with
    (let '(res, w) := reload_hook (λ _, port_9000_file) default_flags (p_world example_signalled) in
     Answered (reload_answer res) (p_server example_signalled) w) in *.
  destruct (reload_hook _ _ (p_world example_signalled)) as [res w].
  destruct Hs as [_ Hs]. destruct (decide _) as [Hin|_].
  { apply list_elem_of_In in Hin. destruct Hin as [Hin|[Hin|[]]]; discriminate Hin. }
  destruct Hs as (res' & Hres & Hrun & _).
  exists res'. rewrite <- Hres. split; [done|]. by apply (Hrun eq_refl).
Defined.
