(* ===== verification/Served.v ===== *)
(** * What the spy serves (pkg/spy/server.go and cmd/chitchat/main.go)

    The messages endpoint of the running process: what it shows is what the engine
    recorded since the last request that cleared the buffer, or since the start. *)
From S2P Require Import Prelude GoStrings GoValue Libs JsonText JsonCodec NetURL Config Validate Broker Ring SpyServer SpyHttp Matcher Template Engine EngineSystem EngineSpy Logger Main Reloading Process.

Section served.
Context `{Unicode, GoFmt, Gjson, Json, GoTime, TextTemplate, NetURL, Yaml, Net} {D : Type}
  `{DriverSpec D}.
Context (v : version_info) (f : flags) (disk : nat → Files) (fs : Files) (d0 : D) (now0 : Z).
Implicit Types (w : world D) (srv : Server (world D)) (p : process D).

(** ** The answer *)

Definition captured (m : Message) (c : CapturedMessage) : Prop := ∃ seq now, c = capture seq now m.

Lemma log_captured ops : Forall2 captured (since_clear ops) (sl_log (log_run empty_log ops)).
Proof.
  induction ops as [|op ops IH] using rev_ind; [constructor|].
  unfold since_clear, log_run in *. rewrite !foldl_app. destruct op as [now m|]; simpl; [|constructor].
  apply Forall2_app; [done|]. constructor; [by eexists _, _|constructor].
Qed.

Lemma Forall2_last_n {A B} (P : A → B → Prop) n l k :
  Forall2 P l k → Forall2 P (last_n n l) (last_n n k).
Proof. intros HF. unfold last_n. rewrite (Forall2_length _ _ _ HF). by apply Forall2_drop. Qed.

Definition get_messages : request :=
  {| q_Method := "GET"; q_Path := "/_chitchat/messages"; q_Query := ∅ |}.

Lemma Query_all rb : Query filter_all rb = rb_messages rb.
Proof.
  unfold Query. rewrite apply_limit_off by done.
  induction (rb_messages rb) as [|m l IH]; [done|].
  rewrite filter_cons_True; [by rewrite IH|]. apply matches_spec.
  split; [by intros Hn..|simpl; lia| |by intros bf ?%elem_of_nil].
  intros name want Hw. by apply (lookup_empty_Some (M := gmap string) name want) in Hw.
Qed.

Lemma serve_get_messages w srv :
  serve srv w get_messages =
  Answered (messages_response StatusOK (rb_messages (Buffer srv w))) srv w.
Proof.
  transitivity (let '(s', w') := put_buffer (Buffer srv w) srv w in
    Answered (messages_response StatusOK (Query filter_all (Buffer srv w))) s' w'); [done|].
  by rewrite put_same, Query_all.
Qed.

(** ** Since the buffer was empty *)

Abbreviation reachable_process := (process_reachable v f disk fs d0 now0).
Abbreviation keeping := (rtc (keeping_step f disk)).

#[export] Instance clears_dec q : Decision (clears q).
Proof. unfold clears. apply _. Defined.

(** What the engine has given to the spy, as the broker and the loop saw it: up to
    order the messages published less those a dispatch is about to record, and in
    order the messages handled. *)
Definition spied (cfg : Config) (log : list Message) p : Prop :=
  published (e_driver (w_eng (p_world p))) ≡ₚ
    published (connectBroker d0 cfg).2 ++ pub_log log ++ in_flight (s_tasks (w_sys (p_world p))) ∧
  recv_log log =
    map fst (h_handled (s_hist (w_sys (p_world p)))) ++ in_guard (s_loop (w_sys (p_world p))).

(** The engine seen with a spy that has kept the records [log], next to the ring
    that was empty when [before] was recorded. *)
Record since_emptied (cfg : Config) (before log : list Message) p : Prop := {
  sn_process : reachable_process p;
  sn_ring : spies (ring_since (sc_RingBufferSize (c_Server cfg)) before) (w_eng (p_world p)) (Some log);
  sn_engine : reachable (connectBroker d0 cfg).2 (Some []) (resys (Some log) (w_sys (p_world p)));
}.

Lemma since_spied cfg before log p : since_emptied cfg before log p → spied cfg log p.
Proof.
  intros [_ _ Hr]. destruct (reachable_conserved _ _ Hr) as [log' [Hlog Hp Hrec _]].
  simpl in Hlog. by injection Hlog as <-.
Qed.

Lemma emptied_since p :
  emptied v f disk fs d0 now0 p →
  ∃ cfg before, loadConfig fs f = Ok cfg ∧ since_emptied cfg before before p.
Proof.
  assert (∀ size before ops, since_clear ops = [] →
    ring_since size before (ring_run (NewRingBuffer size) ops) before) as Hempty.
  { intros size before ops Hc. exists ops. by rewrite Hc, app_nil_r. }
  destruct 1 as [p Hst|q p p' Hr Hq [Hrun Ha]].
  - destruct (startup_engine v f disk fs d0 now0 p Hst) as (_ & cfg & Hl & Hspy & He).
    exists cfg, []. split; [done|]. split; [by apply pr_start| |done].
    unfold spies. rewrite Hspy. constructor. by apply Hempty.
  - assert (reachable_process p') as Hr' by (by eapply pr_step; [|exists (AClient q)]).
    apply process_reachable_inv in Hr as [Hok _ _ _ _ (cfg & ops & Hl & _ & Hspy & He)].
    exists cfg, (recorded ops). split; [done|]. remember (AClient q) as who eqn:Hwho.
    destruct Ha; simplify_eq; cbn [p_world p_server p_main] in *.
    2:{ select (reloads _) (fun Hre => destruct Hre as [Hpath _]).
        destruct Hq as [[Hq _]|[Hq _]]; congruence. }
    2:{ select (stop_return _ _ _ _) (fun Hs => inversion Hs). }
    select (at_once _ _) (fun Hat => select (serve _ _ _ = _) (fun Hs =>
      destruct (serve_at_once _ _ _ _ _ _ _ _ _ Hok Hat Hs) as [_ [[? _]|[_ ->]]])); [done|].
    split; [done| |].
    + unfold spies, set_engine_buffer, engine_buffer, w_eng in *. simpl. rewrite Hspy. constructor.
      pose proof (Hempty (sc_RingBufferSize (c_Server cfg)) (recorded ops) (ops ++ [OpClear])) as Hc.
      rewrite ring_run_snoc, since_clear_snoc in Hc. by apply Hc.
    + by destruct w as [[e l ts sp now h] cur rd lg].
Qed.

Lemma keeping_since cfg before log p p' :
  since_emptied cfg before log p → keeping p p' → ∃ log', since_emptied cfg before log' p'.
Proof.
  intros Hs Hrun. revert log Hs.
  induction Hrun as [p|p p1 p' (who & [Hpc Ha] & Hkeep) _ IH]; intros log [Hr Hsp He]; [by exists log|].
  pose proof (process_reachable_inv _ _ _ _ _ _ _ Hr) as [Hok _ _ _ _ _].
  destruct (action_embeds f disk _ (ring_since_record (sc_RingBufferSize (c_Server cfg)) before)
    who p p1 log) as (log1 & Hrun1 & Hsp1);
    [|done..|].
  { intros q -> Hq. by destruct (Hkeep q eq_refl). }
  apply (IH log1). split; [by eapply pr_step; [|exists who]|done|by eapply reachable_run].
Qed.

(** There always was such a moment. *)
Lemma emptied_before p :
  reachable_process p → ∃ p0, emptied v f disk fs d0 now0 p0 ∧ keeping p0 p.
Proof.
  induction 1 as [p Hst|p p' Hr (p0 & Hp0 & Hrun) (who & Hstep)].
  - exists p. split; [by apply em_started|done].
  - assert ((∃ q, who = AClient q ∧ clears q) ∨ ∀ q, who = AClient q → ¬ clears q) as [(q & -> & Hq)|Hno].
    { destruct who as [|q|]; [by right| |by right].
      destruct (decide (clears q)); [left; by exists q|right; by intros ? [= <-]]. }
    + exists p'. split; [by eapply em_cleared|done].
    + exists p0. split; [done|]. eapply rtc_r; [done|]. by exists who.
Qed.
End served.

(** C8: what a client of the messages endpoint reads.  Every state of the process
    comes after a moment at which the buffer was empty, because the process had
    just started or answered a request that clears it, and nothing has cleared it
    since.  Between that moment and now the engine recorded some messages, and GET
    without parameters answers the last of them, as many as the configured buffer
    holds, oldest first.  Which messages these are is fixed by what the broker and
    the loop saw up to the two moments: all messages handled in order, and up to
    order all messages published less those a dispatch is about to record. *)
Theorem messages_served `{Unicode, GoFmt, Gjson, Json, GoTime, TextTemplate, NetURL, Yaml, Net}
    {D : Type} `{DriverSpec D} v f disk fs (d0 : D) now0 p :
  process_reachable v f disk fs d0 now0 p →
  (∃ p0, emptied v f disk fs d0 now0 p0 ∧ rtc (keeping_step f disk) p0 p) ∧
  ∀ p0, emptied v f disk fs d0 now0 p0 → rtc (keeping_step f disk) p0 p →
  ∃ cfg before since msgs, loadConfig fs f = Ok cfg ∧
    spied d0 cfg before p0 ∧ spied d0 cfg (before ++ since) p ∧
    serve (p_server p) (p_world p) get_messages =
      Answered (messages_response StatusOK msgs) (p_server p) (p_world p) ∧
    Forall2 captured (last_n (ring_size (sc_RingBufferSize (c_Server cfg))) since) msgs.
Proof.
  intros Hr. split; [by apply emptied_before|]. intros p0 Hp0 Hrun.
  destruct (emptied_since _ _ _ _ _ _ _ Hp0) as (cfg & before & Hl & Hs0).
  destruct (keeping_since _ _ _ _ _ _ _ _ _ _ _ Hs0 Hrun) as (log & Hs).
  pose proof Hs as [_ Hsp _]. unfold spies in Hsp.
  inversion Hsp as [rb ? (ops & -> & ->) Hrb|]; subst.
  exists cfg, before, (since_clear ops), (rb_messages (Buffer (p_server p) (p_world p))).
  split_and!; [done|by eapply since_spied..|by apply serve_get_messages|].
  apply process_reachable_inv in Hr as [[Hb _ _] _ _ _ _ _].
  unfold Buffer. rewrite Hb. change (get_buffer (p_world p)) with (engine_buffer (p_world p)).
  unfold engine_buffer. rewrite <- Hrb. simpl.
  destruct (window_run _ _ _ ops (window_new (sc_RingBufferSize (c_Server cfg))))
    as (_ & _ & -> & _). apply Forall2_last_n, log_captured.
Qed.

#[local] Existing Instances example_unicode plain_fmt example_gjson example_json example_time
  echo_template example_url example_yaml example_net.

Lemma messages_served_witness :
  ∃ msgs, serve (p_server example_signalled) (p_world example_signalled) get_messages =
    Answered (messages_response StatusOK msgs) (p_server example_signalled)
      (p_world example_signalled).
Proof.
  destruct (messages_served _ _ _ _ _ _ example_signalled example_signalled_reachable)
    as [(p0 & Hp0 & Hrun) Hserved].
  destruct (Hserved p0 Hp0 Hrun) as (cfg & before & since & msgs & _ & _ & _ & Hs & _).
  by exists msgs.
Defined.
