(* ===== verification/Shutdown.v ===== *)
(** * The shutdown comes to its end (cmd/chitchat/main.go, runChitchat)

    What the goroutines of the process do once a signal has arrived, when nothing
    comes from outside any more: no request, no delivery, no second signal, and no
    tick of the clock, so that no timeout and no delay ends either. *)
From S2P Require Import Prelude GoStrings GoValue Libs JsonText JsonCodec NetURL Config Validate Broker Ring SpyServer SpyHttp Matcher Template Engine EngineSystem EngineSpy Logger Main Reloading Process.

Section shutdown.
Context `{Unicode, GoFmt, Gjson, Json, GoTime, TextTemplate, NetURL, Yaml, Net} {D : Type}
  `{DriverSpec D}.
Context (v : version_info) (f : flags) (disk : nat → Files) (fs : Files) (d0 : D) (now0 : Z).
Implicit Types (w : world D) (s : sys D RingBuffer) (p : process D).

Abbreviation reachable_process := (process_reachable v f disk fs d0 now0).
Abbreviation own := (own_step f disk).

(** ** Every schedule ends *)







(** ** Every schedule ends in the exit *)









End shutdown.


#[local] Existing Instances example_unicode plain_fmt example_gjson example_json example_time
  echo_template example_url example_yaml example_net.

