(* ===== verification/Waiting.v ===== *)
(** * A waiting client of the running process (pkg/spy/server.go, handleMessages)

    A GET on messages with [wait_for] runs waitForMessages while the process goes
    on.  A client is one goroutine of the server; it only reads the buffer and
    the clock, so one client beside the process stands for any number. *)
From S2P Require Import Prelude GoStrings GoValue Libs JsonText JsonCodec NetURL Config Validate Broker Ring SpyServer SpyHttp Matcher Template Engine EngineSystem EngineSpy Logger Main Reloading Process.

(** [wt_deadline] is when the timer of the wait fires; [wt_gone]: the request's
    context is cancelled, because the client closed the connection. *)
Record waiting (D : Type) := Client {
  wt_process : process D;
  wt_pc : wait_pc;
  wt_deadline : Z;
  wt_gone : bool;
}.
Arguments Client {D}. Arguments wt_process {D}. Arguments wt_pc {D}. Arguments wt_deadline {D}.
Arguments wt_gone {D}.

Definition set_wait_pc {D} (pc : wait_pc) (c : waiting D) : waiting D :=
  Client (wt_process c) pc (wt_deadline c) (wt_gone c).

(** The buffer the server reads, and the time. *)
Definition served_buffer {D} (p : process D) : RingBuffer := Buffer (p_server p) (p_world p).
Definition time_of {D} (p : process D) : Z := s_now (w_sys (p_world p)).

(** The wait as waitForMessages sees it. *)
Definition wait_view {D} (c : waiting D) : wait_state :=
  {| w_pc := wt_pc c; w_rb := served_buffer (wt_process c);
     w_timer := bool_decide (wt_deadline c ≤ time_of (wt_process c))%Z; w_ctx := wt_gone c |}.

Section waiting.
Context `{Unicode, GoFmt, Gjson, Json, GoTime, TextTemplate, NetURL, Yaml, Net} {D : Type}
  `{DriverSpec D}.
Context (v : version_info) (f : flags) (disk : nat → Files) (fs : Files) (d0 : D) (now0 : Z).

(** The process goes on, the client's goroutine does, or the client goes away. *)
Inductive waiting_step (wf : Filter) (n : nat) : waiting D → waiting D → Prop :=
| wt_process_step p p' pc deadline gone :
    process_step f disk p p' →
    waiting_step wf n (Client p pc deadline gone) (Client p' pc deadline gone)
| wt_wait_step c s' :
    running (p_main (wt_process c)) → wait_step wf n (wait_view c) s' →
    waiting_step wf n c (set_wait_pc (w_pc s') c)
| wt_cancel p pc deadline gone :
    waiting_step wf n (Client p pc deadline gone) (Client p pc deadline true).

(** From a request the server does not answer at once. *)
Inductive waiting_reachable (q : request) (filter wf : Filter) (n timeout : Z) : waiting D → Prop :=
| wt_accepted p :
    process_reachable v f disk fs d0 now0 p → running (p_main p) →
    s_listening (p_server p) = true →
    serve (p_server p) (p_world p) q = Waiting filter wf n timeout →
    waiting_reachable q filter wf n timeout (Client p WGrab (time_of p + timeout) false)
| wt_more c c' :
    waiting_reachable q filter wf n timeout c → waiting_step wf (Z.to_nat n) c c' →
    waiting_reachable q filter wf n timeout c'.

(** ** What the process does to the buffer *)

(** The recorder has taken some records and clears, and time has passed. *)
Definition spy_grows (s s' : sys D RingBuffer) : Prop :=
  (∃ ops, e_spy (s_eng s') = (λ rb, ring_run rb ops) <$> e_spy (s_eng s)) ∧ (s_now s ≤ s_now s')%Z.

Lemma spy_same (s s' : sys D RingBuffer) :
  e_spy (s_eng s') = e_spy (s_eng s) → s_now s' = s_now s → spy_grows s s'.
Proof. unfold spy_grows. intros -> ->. split; [exists []; by destruct (e_spy _)|done]. Qed.

Lemma spy_records now m (s s' : sys D RingBuffer) :
  e_spy (s_eng s') = spy_Record now m <$> e_spy (s_eng s) → s_now s' = s_now s → spy_grows s s'.
Proof. unfold spy_grows. intros -> ->. by split; [exists [OpRecord now m]|]. Qed.

Lemma worker_grows s s' : worker_step s s' → spy_grows s s'.
Proof.
  destruct 1; try by apply spy_same.
  - by eapply spy_records.
  - apply spy_same; [by eapply handleRule_spy|done].
  - apply spy_same; [by eapply dispatch_publish_spy|done].
  - apply spy_same; [|done]. change (e_spy e' = e_spy e). by eapply dispatch_publish_spy.
  - by eapply spy_records.
Qed.

Lemma env_grows s s' : env_step s s' → spy_grows s s'.
Proof.
  destruct 1; try by apply spy_same.
  - apply spy_same; [by eapply declare_spy|done].
  - apply spy_same; [by eapply consume_spy|done].
  - apply spy_same; [by eapply declare_spy|done].
  - apply spy_same; [by eapply consume_spy|done].
  - apply spy_same; [by eapply stop_begin_spy|done].
  - apply spy_same; [by eapply stop_finish_spy|done].
  - apply spy_same; [by eapply stop_finish_spy|done].
  - split; [exists []; by destruct (e_spy _)|done].
Qed.

Lemma reload_grows rl w out rl' w' :
  reload_step f disk rl w out rl' w' → spy_grows (w_sys w) (w_sys w').
Proof.
  intros Hs. destruct (reload_step_sys _ _ _ _ _ _ _ Hs) as [->|(next & o & Hc)]; [by apply spy_same|].
  destruct (reload_call_env _ _ _ _ Hc) as [Henv| ->]; [by apply env_grows|by apply spy_same].
Qed.

Lemma action_grows who p p' :
  server_ok f disk (p_server p) (p_main p) → action f disk who p p' →
  spy_grows (w_sys (p_world p)) (w_sys (p_world p')).
Proof.
  intros Hok Ha. destruct Ha; cbn [p_world p_server p_main] in *; try by apply spy_same.
  - by apply worker_grows.
  - by apply env_grows, outside_env.
  - select (at_once _ _) (fun Hq => select (serve _ _ _ = _) (fun Hs =>
      destruct (serve_at_once _ _ _ _ _ _ _ _ _ Hok Hq Hs) as [_ [[_ ->]|[_ ->]]])); [by apply spy_same|].
    unfold set_engine_buffer, engine_buffer, w_eng. destruct w as [[e l ts sp now h] cur rd lg].
    split; [|done]. exists [OpClear]. simpl. by destruct (e_spy e).
  - by eapply reload_grows.
  - by eapply reload_grows.
  - select (stop_call _ _ _) (fun Hs =>
      destruct (stop_call_env _ _ _ Hs) as [Henv| ->]); [by apply env_grows|by apply spy_same].
  - select (stop_return _ _ _ _) (fun Hs => apply stop_return_env in Hs). by apply env_grows.
Qed.

(** ** The wait is the one of waitForMessages *)

Lemma served_engine p :
  process_reachable v f disk fs d0 now0 p → served_buffer p = engine_buffer (p_world p).
Proof.
  intros Hr%process_reachable_inv. destruct Hr as [[Hb _ _] _ _ _ _ _].
  unfold served_buffer, Buffer. by rewrite Hb.
Qed.

Lemma wait_env_run size wf n s ops timer :
  wait_reachable size wf n s → (w_timer s = true → timer = true) →
  wait_reachable size wf n
    {| w_pc := w_pc s; w_rb := ring_run (w_rb s) ops; w_timer := timer; w_ctx := w_ctx s |}.
Proof.
  intros Hr Ht. induction ops as [|op ops IH] using rev_ind.
  - destruct s as [pc rb t c]. simpl in *. destruct timer, t; try done; [|by discriminate Ht].
    exact (wait_by_env _ _ _ _ _ Hr (env_timer _)).
  - unfold ring_run. rewrite foldl_app. exact (wait_by_env _ _ _ _ _ IH (env_buffer _ op)).
Qed.

Lemma wait_step_pc wf n s s' : wait_step wf n s s' → s' = SpyServer.at_pc (w_pc s') s.
Proof. by destruct 1. Qed.

Lemma view_process size wf n p p' pc deadline gone :
  process_reachable v f disk fs d0 now0 p → process_step f disk p p' →
  wait_reachable size wf n (wait_view (Client p pc deadline gone)) →
  wait_reachable size wf n (wait_view (Client p' pc deadline gone)).
Proof.
  intros Hr Hs Hw. pose proof (pr_step _ _ _ _ _ _ _ _ Hr Hs) as Hr'.
  pose proof (process_reachable_inv _ _ _ _ _ _ _ Hr) as [Hok _ _ _ _ (cfg & ops0 & _ & _ & Hspy & _)].
  destruct Hs as (who & _ & Ha). destruct (action_grows who p p' Hok Ha) as [[ops Hops] Htime].
  assert (served_buffer p' = ring_run (served_buffer p) ops) as Hrb.
  { rewrite !served_engine by done. unfold engine_buffer, w_eng. by rewrite Hops, Hspy. }
  unfold wait_view. simpl. rewrite Hrb. apply (wait_env_run size wf n _ ops _ Hw).
  simpl. unfold time_of. intros Hd%bool_decide_eq_true. apply bool_decide_eq_true. lia.
Qed.

Lemma waiting_inv q filter wf n timeout c :
  waiting_reachable q filter wf n timeout c →
  process_reachable v f disk fs d0 now0 (wt_process c) ∧
  ∃ cfg, loadConfig fs f = Ok cfg ∧
    wait_reachable (sc_RingBufferSize (c_Server cfg)) wf (Z.to_nat n) (wait_view c).
Proof.
  induction 1 as [p Hr Hrun Hl Hs|c c' _ [Hr (cfg & Hl & Hw)] Hstep].
  - split; [done|]. pose proof Hr as Hinv%process_reachable_inv.
    destruct Hinv as [_ _ _ _ _ (cfg & ops & Hl' & _ & Hspy & _)]. exists cfg. split; [done|].
    unfold wait_view. cbn [wt_pc wt_process wt_deadline wt_gone].
    rewrite served_engine by done. unfold engine_buffer, w_eng. rewrite Hspy.
    by apply (wait_env_run _ wf _ _ [] _ (wait_init _ _ _ ops)).
  - destruct Hstep as [p p' pc deadline gone Hs|c s' Hrun Hs|p pc deadline gone].
    + split; [by eapply pr_step|]. exists cfg. split; [done|]. by eapply view_process.
    + split; [done|]. exists cfg. split; [done|].
      replace (wait_view (set_wait_pc (w_pc s') c)) with s'; [by eapply wait_by_step|].
      by apply wait_step_pc in Hs.
    + split; [done|]. exists cfg. split; [done|].
      exact (wait_by_env _ _ _ _ _ Hw (env_ctx _)).
Qed.

Lemma lift_wait wf n c pc :
  running (p_main (wt_process c)) → rtc (wait_step wf n) (wait_view c) (SpyServer.at_pc pc (wait_view c)) →
  rtc (waiting_step wf n) c (set_wait_pc pc c).
Proof.
  intros Hrun Hw. change pc with (w_pc (SpyServer.at_pc pc (wait_view c))).
  generalize dependent (SpyServer.at_pc pc (wait_view c)). intros s' Hw. remember (wait_view c) as s eqn:Hs.
  revert c Hrun Hs. induction Hw as [s|s s1 s' Hstep _ IH]; intros c Hrun ->.
  - by destruct c.
  - eapply rtc_l; [by apply wt_wait_step|].
    apply (IH (set_wait_pc (w_pc s1) c) Hrun). by apply wait_step_pc in Hstep.
Qed.

(** ** The request *)

Lemma serve_waiting {W} `{SharedBuffer W} (srv : Server W) w q filter wf n timeout :
  serve srv w q = Waiting filter wf n timeout → wf = set_limit 0 filter ∧ (0 ≤ n)%Z.
Proof.
  unfold serve. destruct (mux (q_Path q)) as [[]|]; try done.
  - pose proof (handleMessages_correct (q_Method q) (q_Query q) (Buffer srv w)) as Hh.
    destruct (handleMessages _ _ _) as [r rb|f' wf' n' t].
    + by destruct (put_buffer rb srv w).
    + intros [= <- <- <- _]. by destruct Hh as (_ & _ & ? & ? & _).
  - destruct (handleClear _ _) as [r rb]. by destruct (put_buffer rb srv w).
  - by destruct (handleReload _ _ _).
Qed.

Lemma waiting_request q filter wf n timeout c :
  waiting_reachable q filter wf n timeout c → wf = set_limit 0 filter ∧ (0 ≤ n)%Z.
Proof. induction 1 as [p Hr Hrun Hl Hs|]; [by eapply serve_waiting|done]. Qed.

(** The limit, applied after the wait, gives what the plain query gives. *)
Lemma limit_after filter rb :
  apply_limit (f_Limit filter) (Query (set_limit 0 filter) rb) = Query filter rb.
Proof. unfold Query. cbn [f_Limit set_limit]. by rewrite (apply_limit_off 0). Qed.
End waiting.

(** ** Properties *)

(** C12: a waiting client of the running process, whatever the engine, the other
    clients, a reload and the shutdown do meanwhile.  While it is blocked on an
    open channel fewer messages match in the buffer than it asked for.  As soon as
    enough match, its own steps lead to an answer with status 200, unless its timer
    was first, and the answer is what the plain query gives at that moment.  Once
    its deadline is over it can end by itself.  And when it succeeds, it has
    the messages the buffer holds then, at least as many as it asked for. *)
Theorem wait_served `{Unicode, GoFmt, Gjson, Json, GoTime, TextTemplate, NetURL, Yaml, Net}
    {D : Type} `{DriverSpec D} v f disk fs (d0 : D) now0 q filter wf n timeout c :
  waiting_reachable v f disk fs d0 now0 q filter wf n timeout c →
  let buffer := served_buffer (wt_process c) in
  let client := waiting_step f disk wf (Z.to_nat n) in
  (∀ ch msgs, wt_pc c = WSelect ch msgs → channel_closed buffer ch = false →
     (len (Query wf buffer) < n)%Z) ∧
  (running (p_main (wt_process c)) → (n ≤ len (Query wf buffer))%Z →
     wt_pc c ≠ WTimedOut → (∀ msgs ok, wt_pc c ≠ WDone msgs ok) →
     rtc client c (set_wait_pc (WDone (Query wf buffer) true) c) ∧
     ∀ gone, finish_messages filter (Query wf buffer) true gone =
       Some (messages_response StatusOK (Query filter buffer))) ∧
  (running (p_main (wt_process c)) → (wt_deadline c ≤ time_of (wt_process c))%Z →
     ∃ msgs ok, rtc client c (set_wait_pc (WDone msgs ok) c)) ∧
  (∀ c' msgs, client c c' → wt_pc c' = WDone msgs true → wt_pc c ≠ WDone msgs true →
     msgs = Query wf buffer ∧ (n ≤ len msgs)%Z).
Proof.
  intros Hw buffer client. destruct (waiting_inv _ _ _ _ _ _ _ _ _ _ _ _ Hw) as [_ (cfg & _ & Hv)].
  destruct (waiting_request _ _ _ _ _ _ _ _ _ _ _ _ Hw) as [-> Hn].
  split_and!.
  - intros ch msgs Hpc Hopen. destruct (wait_blocked _ _ _ _ _ _ Hv Hpc Hopen) as [_ Hlt].
    unfold buffer, len. simpl in Hlt. lia.
  - intros Hrun Hle Ht Hd. split; [|by intros gone; unfold finish_messages; simpl; rewrite limit_after].
    apply lift_wait; [done|]. eapply wait_succeeds; try done. simpl. unfold buffer, len in Hle. lia.
  - intros Hrun Hdl. destruct (wait_finishes _ _ _ _ Hv) as (msgs & ok & Hf).
    + by apply bool_decide_eq_true.
    + exists msgs, ok. by apply lift_wait.
  - intros c' msgs Hs Hpc Hne. destruct Hs as [p p' pc dl gone Hs|c s' Hrun Hs|p pc dl gone];
      [done| |done]. destruct (wait_success _ _ _ _ _ Hs Hpc) as [-> Hle].
    split; [done|]. unfold len. simpl in Hle |- *. lia.
Qed.

#[local] Existing Instances example_unicode plain_fmt example_gjson example_json example_time
  echo_template example_url example_yaml example_net.

(** A client that waits for no message at all. *)
Definition wait_for_none : request :=
  {| q_Method := "GET"; q_Path := "/_chitchat/messages"; q_Query := {[ "wait_for" := ["0"] ]} |}.
Definition example_client : waiting MockDriver :=
  Client example_signalled WGrab (time_of example_signalled + defaultWaitTimeout) false.

Lemma example_waiting :
  waiting_reachable example_version default_flags (λ _, port_9000_file) port_9000_file
    NewMockDriver 0 wait_for_none filter_all filter_all 0 defaultWaitTimeout example_client.
Proof.
  apply wt_accepted; [apply example_signalled_reachable|done|by vm_compute|by vm_compute].
Qed.

Lemma wait_served_witness :
  rtc (waiting_step default_flags (λ _, port_9000_file) filter_all 0) example_client
    (set_wait_pc (WDone [] true) example_client).
Proof.
  destruct (wait_served _ _ _ _ _ _ _ _ _ _ _ _ example_waiting) as (_ & Hs & _).
  destruct Hs as [Hrun _]; [done|by apply Z.leb_le|done|done|].
  exact Hrun.
Defined.
